(* ===== verification/_CoqProject ===== *)
-Q . S2P
Prelude.v
MachineInt.v
StringUtility.v
DateTime.v
Double.v
Multimap.v
SecurityManager.v
Order.v
OrderBook.v
Fifo.v
RingBuffer.v
RingBufferConcurrent.v
RingBufferOrders.v
CentralOrderBook.v
ThreadedMatching.v
ThreadPoolLiveness.v
ExchangeSpec.v
FixConstants.v
FixMessage.v
FixParser.v
FixReceiveCache.v
FixSequenceStore.v
Configuration.v
QueueMPSC.v
SpinLock.v
SpinLockOrders.v
Singleton.v
Network.v
Sockets.v
FixSession.v
FixSessionReceive.v
ServerConfiguration.v
Logger.v
Threads.v
ThreadPool.v
CommandLine.v
FixServerReactor.v
ServerStart.v
FixMessageConverter.v
OutgoingMessageProcessor.v
Server.v
OfflineMode.v
SlotReuse.v
SessionSharing.v
SessionLifetime.v
SingleInstance.v
Memory.v
ThreadPerClient.v
Diagnostics.v
Process.v
UnitTests.v
Patterns.v
Typing.v
EndToEnd.v
ServerRun.v
