(* ===== verification/Prelude.v ===== *)
(** * liteExchange: a verification development

    liteExchange is an order matching server. Clients connect over TCP and speak FIX; their
    limit orders and cancels go to a central order book, which keeps one book per security
    and matches by price and time, at once or on one worker thread per security; what happens
    to an order goes through bounded queues to a thread that sends execution reports to the
    session of the order. Orders can also come from a file ("offline mode"). A logger writes
    memory-mapped files in the background. This library models that path, from the bytes of a
    socket to the bytes of a report, with the threads and the process around it, and proves
    what it keeps, and where it breaks.

    ** How the parts interact

    - The reactor ([FixServerReactor.v]) turns socket events into calls: a connection gets a
      slot in the tables of peers and sessions, a readable socket makes its session receive
      ([FixSession.v], either one message at a time or through [FixReceiveCache.v]), the text
      becomes messages ([FixParser.v], [FixMessage.v], [FixConstants.v]), each message is
      validated, numbered and either answered by the session or handed to the application.
    - The application ([Server.v]) converts a message into an order
      ([FixMessageConverter.v], [SecurityManager.v], [Order.v]) and calls the central order
      book ([CentralOrderBook.v]), which calls the book of the security ([OrderBook.v] over
      [Multimap.v] and [Double.v]) or queues a task for its worker ([ThreadedMatching.v]).
    - The books' reports go into queues used through the interface of [Fifo.v]; the ring
      buffer of [RingBuffer.v] is its instance; [RingBufferConcurrent.v] cuts its operations
      at their memory accesses, and [RingBufferOrders.v] has them under their memory orders.
      [OutgoingMessageProcessor.v] empties the queues and sends the reports through the sessions.
    - Sequence numbers survive in files ([FixSequenceStore.v]); settings come from
      [Configuration.v] and [ServerConfiguration.v]; log entries go through [QueueMPSC.v],
      whose pushes take the lock of [SpinLock.v], to the files of [Logger.v], which one
      object writes, made as [Singleton.v] has it.
    - Sockets and the [epoll] listener are in [Sockets.v], threads and actors in
      [Threads.v], the start of the matching threads in [ThreadPool.v], the start and stop of
      the reactor and the loop of its thread in [ServerStart.v], the console in
      [CommandLine.v]. [ServerRun.v] puts them together: [main], its waiting loop, and the
      passes of the threads beside it.
    - The reactor's thread and the report thread share the sessions. [SlotReuse.v] follows a
      report whose client has left, [SessionSharing.v] cuts the critical section of
      [FixSession::send] at its accesses, and [SessionLifetime.v] has the two threads with
      the objects of the sessions, their locks and the slots that change hands.
    - Below all of them: the clock and the texts of its readings ([DateTime.v]), aligned
      memory ([Memory.v]), the console and the macro that throws ([Diagnostics.v]), what the
      process asks of the system ([Process.v]), and the lock file that keeps a second server
      from starting ([SingleInstance.v]). [ThreadPerClient.v] and [Patterns.v] have the
      classes that the server does not use, [UnitTests.v] the repository's own tests.
    - Four files state what the whole does. [ExchangeSpec.v] has an abstract exchange
      ([Spec], lists in priority order, without maps, multimaps or queues) and refines it;
      [Typing.v] has the ranges that all stored values keep; [EndToEnd.v] follows one order
      from the bytes that come in, through its book, to the text that is handed to the
      client's connection, [OfflineMode.v] a file of orders to the file of its reports.

    ** What stands for what

    Numbers are [Z] at their width ([MachineInt.v]: [int], [long], [size_t] on LP64; signed
    overflow is undefined behaviour), prices are binary64 numbers of the standard library's
    executable IEEE specification, strings are lists of characters, objects are records,
    tables are [gmap]s, [multimap]s are sorted lists with insertion at the upper bound, a
    vector is a list. A definition has the name of its function, with its class before it
    where the name alone is ambiguous, and does in the same order what the function does:
    guards, early returns and every change of state. A function that can fail returns an
    [outcome] (below): its value, the exception it leaves by, the undefined behaviour it
    meets, or that its fuel is used up. Effects on the outside are recorded in the [World] of
    [Network.v]: files written, texts handed to [::send], descriptors closed, live socket
    objects. What becomes of a text that was handed over is not known, in the model as in
    the program, which does not look at the result.

    What the source does not determine is a parameter: the iteration order of a hash table
    (classes [BodyOrder], [EqualRange]), clock, heap and results of system calls (class
    [Platform] and arguments), memory before its initialisation (arguments named [junk]), the
    text of a NaN, the page size, which thread runs next (step relations). Each has a
    concrete instance in the witnesses.

    ** Fuel

    - The matching loop ([OrderBook_processMatching]) gets one step more than the book has
      orders; every trade removes an order, and [processMatching_uncrosses] proves that the
      loop returns.
    - A push into a full queue spins; its fuel counts the rounds. With room one round is
      enough, which is what [addOrder_outcome] and the theorems after it assume.
    - [std::to_string] gets as many steps as the number has bits ([dec_spec]); the scans of
      a received header are bounded by the buffer ([receive_exactly_one_message] proves that
      they end); the parsers recurse on the buffer itself.
    - The walks over the logger's list take as many steps as the list has nodes.

    ** What the theorems show

    - Matching: insertion keeps price-time priority; matching returns, leaves no crossed
      book, trades at the price of the ask, conserves quantity, executes from the front
      only, and equals a reference sweep of the opposite side; cancelling removes exactly
      the order found ([OrderBook.v]).
    - Exchange: what one request does to books, numbers and queues, on its branches, and
      that the invariant survives ([CentralOrderBook.v]); that under every interleaving of
      requests and workers a book is the result of a prefix of its requests
      ([ThreadedMatching.v]); that once no more requests come, a worker and the report thread
      that get turns again and again handle every request of the worker's security and take
      every report, whatever the other threads do, and without a failing turn
      ([ThreadPoolLiveness.v], where a turn need not get anywhere: a push into a full queue
      is tried in vain); that both modes refine the abstract exchange
      ([ExchangeSpec.v]); that no stored number leaves its type, though a message may
      ([Typing.v], whose class [FifoTyped] is what a queue owes for it); that the ring buffer
      is a queue under every interleaving with one producer, and that two producers lose a
      value from every state with room ([RingBufferConcurrent.v]); and that with one
      producer its release and acquire orders are enough: no data race, whatever old
      counter a load returns ([RingBufferOrders.v]).
    - FIX: framing and checksum of a message text, reading it back, framing of a stream that
      arrives in pieces, with the cuts that lose something left out, agreement of the parsers
      ([FixMessage.v], [FixParser.v], [FixReceiveCache.v]); numbering, resumption and validation ([FixSession.v],
      [FixSequenceStore.v]); receiving exactly one message, and how eight to twenty
      first bytes without a length and a type lead to an overrun of the stack
      ([FixSessionReceive.v]); the invariant of the reactor's tables over all reachable
      states, and what out-of-sequence messages, lost connections and the end of the server
      do ([FixServerReactor.v]).
    - Server: a valid order enters the book, and each report is handed to [::send] once, on
      the connection of the session in its slot; an unknown symbol throws; what a cancel does
      depends on uninitialised memory ([Server.v], [OutgoingMessageProcessor.v]). In single-threaded
      mode, bytes of an order put it into its book and give the text of its acceptance
      ([EndToEnd.v]). In offline mode the orders of a file are served as the abstract
      exchange serves them, and the output file has a line for each report, however the
      report thread interleaves with the submission ([OfflineMode.v]).
    - Process: what starting the reactor asks of the system and when it throws
      ([ServerStart.v]); which core each matching thread gets, and that none gets a priority
      ([ThreadPool.v]); the command line answers each word and ends at [quit]
      ([CommandLine.v]); a thread is joined once ([Threads.v]); how the process ends once the
      main thread waits, crashes included, and that one order for an unknown symbol ends its
      service for good ([ServerRun.v]).
    - Shared memory: sections under the spin lock are atomic, so concurrent pushes keep
      every entry ([SpinLock.v]); its acquire and release orders are enough for it, with no
      data race in any section ([SpinLockOrders.v]); the double-checked singleton is made
      once, under the relaxed and fence rules of the language's memory model ([Singleton.v]).
    - Sharing of sessions: concurrent senders number their messages one after the other
      and hand over the text of the message each was given ([SessionSharing.v]); the locks of
      the sessions exclude the two threads as long as no session is replaced under a pointer
      to it, none is looked up before it is initialised, and none while the tables are
      written; otherwise a dangling or null pointer is followed, or the look-up races
      ([SessionLifetime.v]); a report can go to the client that has taken the slot
      of the one it is for ([SlotReuse.v]).
    - Time: the text of the clock reads back as its readings, rounded down to the precision,
      or a whole second early when the second changes between them ([DateTime.v]).
    - Instances: at most one runs as long as none leaves while another is between its two
      system calls; two can run otherwise; a file that is left behind does not stop the next
      one ([SingleInstance.v]).
    - Smaller parts: the allocator's branches, with no wrap-around and no overlap
      ([Memory.v]); what the throwing macro prints and when it is undefined
      ([Diagnostics.v]); directories and their bytes behind the end ([Process.v]); the
      acceptor that follows a null pointer with its first client, and the listener that
      forgets descriptors ([ThreadPerClient.v]); which unit tests pass under every
      interleaving and which do not ([UnitTests.v]).
    - Settings and logs: a configuration file that follows the format, with comments and
      empty lines, is read back; the log files hold every entry, in order and whole
      ([Configuration.v], [Logger.v]).

    ** What is not modelled

    The operating system: what its calls return is an argument of the definitions, and the
    calls that start a server are recorded; where more than single results matter, its calls
    are an interface with laws ([LockingFileSystem], [Heap]), which an instance satisfies.
    Where the unit of interleaving is a whole operation under its lock, the lock is left out
    of it; [SpinLock.v] and [SpinLockOrders.v] justify that for the spin lock, and [RingBufferConcurrent.v] and
    [RingBufferOrders.v] are the lock-free part. The passes of [ServerRun.v] are atomic,
    although the reactor and the report thread share the sessions; [SessionLifetime.v] is
    about what is between.

    Not modelled: the pool of [core/design_patterns/], which does not compile; interfaces and
    templates without code of their own (visitor, factory, [make_unique], deleted operators);
    the Windows branches, and waiting for a key. Texts written to the log by the other
    components are left out of their models, and the exceptions of the throwing macro are a
    plain [Throw] there, which [Diagnostics.v] justifies for messages without percent signs.
    The destructor that [main] runs is that of [ServerBase], which is not virtual: the
    language leaves this undefined, and it is taken as compilers do it. *)
From Stdlib Require Import ZArith Lia Ascii String.
From stdpp Require Import base decidable list gmap strings.

(** ** Outcomes of C++ code

    A C++ computation returns a value, leaves by an exception, runs into
    undefined behaviour, or (for loops that are given fuel) has not finished
    within its fuel. *)

Inductive exn : Type :=
  | InvalidArgument
  | OutOfRange
  | LengthError
  | BadAlloc
  | RuntimeError.

Inductive ub : Type :=
  | NullDeref
  | IndexOutOfBounds
  | SignedOverflow
  | DivisionByZero
  | FormatMismatch
  | BufferOverflow
  | OverlappingCopy
  | UseAfterFree
  | AssertionFailed  (** [assert] aborts the process; the build never defines [NDEBUG] *)
  | DataRace.

Inductive outcome (A : Type) : Type :=
  | Ok (a : A)
  | Throw (e : exn)
  | Undef (u : ub)
  | NoFuel.

Arguments Ok {A} a.
Arguments Throw {A} e.
Arguments Undef {A} u.
Arguments NoFuel {A}.

#[export] Instance exn_eq_dec : EqDecision exn.
Proof. solve_decision. Defined.
#[export] Instance ub_eq_dec : EqDecision ub.
Proof. solve_decision. Defined.
#[export] Instance outcome_eq_dec `{EqDecision A} : EqDecision (outcome A).
Proof. solve_decision. Defined.

#[export] Instance outcome_ret : MRet outcome := fun A a => Ok a.
#[export] Instance outcome_bind : MBind outcome := fun A B f o =>
  match o with
  | Ok a => f a
  | Throw e => Throw e
  | Undef u => Undef u
  | NoFuel => NoFuel
  end.
#[export] Instance outcome_fmap : FMap outcome := fun A B f o =>
  match o with
  | Ok a => Ok (f a)
  | Throw e => Throw e
  | Undef u => Undef u
  | NoFuel => NoFuel
  end.

Definition is_Ok {A} (o : outcome A) : bool :=
  match o with Ok _ => true | _ => false end.

Lemma bind_Ok_inv {A B} (f : A → outcome B) (o : outcome A) (b : B) :
  (o ≫= f) = Ok b → ∃ a, o = Ok a ∧ f a = Ok b.
Proof. destruct o; simpl; intros H; try discriminate. eauto. Qed.

Lemma bind_Ok {A B} (f : A → outcome B) (a : A) : (Ok a ≫= f) = f a.
Proof. reflexivity. Qed.

Lemma is_Ok_inv {A} (o : outcome A) : is_Ok o = true → ∃ a, o = Ok a.
Proof. destruct o; simpl; intros; try discriminate; eauto. Qed.

(** [outcome_inv H] takes a hypothesis [H : (x ← o; k) = Ok r] apart into the
    results of the steps. *)
Ltac outcome_inv H :=
  repeat (let a := fresh "a" in let E := fresh "E" in
          apply bind_Ok_inv in H; destruct H as (a & E & H); simpl in H);
  try (injection H as H).

(** [case_ifs] decides every conditional of the goal. *)
Ltac case_ifs :=
  repeat (case_match || case_decide || case_bool_decide); simplify_eq/=.

(** [dlia] is [lia] with quotients and remainders. *)
Ltac dlia := Z.to_euclidean_division_equations; lia.

Create Rewrite HintDb cxx.
#[export] Hint Rewrite @bind_Ok : cxx.

(** ** Lists *)

Lemma Forall_snoc {A} (P : A → Prop) (l : list A) (x : A) :
  Forall P (l ++ [x]) ↔ Forall P l ∧ P x.
Proof. rewrite Forall_app, Forall_singleton. reflexivity. Qed.

Definition list_sum_Z (l : list Z) : Z := foldr Z.add 0%Z l.

Lemma list_sum_Z_app (l1 l2 : list Z) :
  list_sum_Z (l1 ++ l2) = (list_sum_Z l1 + list_sum_Z l2)%Z.
Proof. induction l1; simpl; lia. Qed.

Lemma list_sum_Z_perm (l1 l2 : list Z) : l1 ≡ₚ l2 → list_sum_Z l1 = list_sum_Z l2.
Proof. induction 1; simpl; lia. Qed.

#[export] Instance list_sum_Z_proper : Proper ((≡ₚ) ==> (=)) list_sum_Z.
Proof. intros ???. by apply list_sum_Z_perm. Qed.

#[export] Hint Rewrite list_sum_Z_app : cxx.

(** ** Containers of the C++ library *)

(** [unordered_map::operator[]] inserts a default value for a new key. *)
Definition map_index `{Countable K} {V} (k : K) (dflt : V) (m : gmap K V) : gmap K V * V :=
  match m !! k with Some v => (m, v) | None => (<[k := dflt]> m, dflt) end.

(** The element of an array or vector at an index. *)
Definition vec_at {A} (i : Z) (l : list A) : outcome A :=
  if (i <? 0)%Z then Undef IndexOutOfBounds
  else match l !! Z.to_nat i with Some x => Ok x | None => Undef IndexOutOfBounds end.

Lemma vec_at_Ok {A} (i : Z) (l : list A) (x : A) :
  vec_at i l = Ok x ↔ (0 <= i)%Z ∧ l !! Z.to_nat i = Some x.
Proof.
  unfold vec_at. destruct (Z.ltb_spec i 0).
  - split; [done|lia].
  - destruct (l !! Z.to_nat i); split; [intros [= ->]; done|intros [_ [= ->]]; done|done|intros [_ [=]]].
Qed.

Lemma vec_at_nat {A} (i : nat) (l : list A) (x : A) : l !! i = Some x → vec_at (Z.of_nat i) l = Ok x.
Proof. intros E. apply vec_at_Ok. rewrite Nat2Z.id. split; [lia|done]. Qed.

Lemma vec_at_nat_inv {A} (i : nat) (l : list A) (x : A) : vec_at (Z.of_nat i) l = Ok x → l !! i = Some x.
Proof. rewrite vec_at_Ok, Nat2Z.id. by intros [_ ?]. Qed.

(** Writing a slot of a vector, or the one after its end. *)
Definition list_put {A} (i : nat) (x : A) (l : list A) : list A :=
  if decide (i < length l)%nat then <[i := x]> l else l ++ [x].

Lemma list_put_lookup {A} (i j : nat) (x : A) (l : list A) : (i <= length l)%nat →
  list_put i x l !! j = if decide (j = i) then Some x else l !! j.
Proof.
  intros Hi. unfold list_put. case_decide as Hlt.
  - destruct (decide (j = i)) as [->|Hj]; [by apply list_lookup_insert_eq|by apply list_lookup_insert_ne].
  - assert (i = length l) as -> by lia. case_decide as Hj.
    + subst. by rewrite lookup_app_r, Nat.sub_diag by lia.
    + destruct (decide (j < length l)%nat); [by rewrite lookup_app_l by lia|].
      rewrite (lookup_ge_None_2 l) by lia. apply lookup_ge_None_2. rewrite length_app; simpl; lia.
Qed.

Lemma list_put_length {A} (i : nat) (x : A) (l : list A) :
  length (list_put i x l) = if decide (i < length l)%nat then length l else S (length l).
Proof. unfold list_put. case_decide; [by rewrite length_insert|rewrite length_app; simpl; lia]. Qed.

Lemma list_put_insert {A} (i : nat) (x y : A) (l : list A) : (i <= length l)%nat →
  <[i := y]> (list_put i x l) = list_put i y l.
Proof.
  intros Hi. apply list_eq. intros j. rewrite (list_put_lookup i j y) by done.
  destruct (decide (j = i)) as [->|Hj].
  - apply list_lookup_insert_eq. rewrite list_put_length. case_decide; lia.
  - by rewrite list_lookup_insert_ne, list_put_lookup, decide_False by done.
Qed.

(** ** Buffers *)

(** A write of [data] at [start] into a buffer. *)
Definition write_at {A} (start : Z) (data buffer : list A) : outcome (list A) :=
  if (start + Z.of_nat (length data) <=? Z.of_nat (length buffer))%Z then
    Ok (take (Z.to_nat start) buffer ++ data ++ drop (Z.to_nat start + length data) buffer)
  else Undef BufferOverflow.

Lemma write_at_front {A} (data buffer : list A) : (length data <= length buffer)%nat →
  write_at 0 data buffer = Ok (data ++ drop (length data) buffer).
Proof. intros H. unfold write_at. destruct (Z.leb_spec (0 + Z.of_nat (length data))%Z (Z.of_nat (length buffer))); [done|lia]. Qed.

Lemma write_at_back {A} (data front buffer : list A) : (length front + length data <= length buffer)%nat →
  write_at (Z.of_nat (length front)) data (front ++ drop (length front) buffer) =
    Ok (front ++ data ++ drop (length front + length data) buffer).
Proof.
  intros H. unfold write_at. rewrite length_app, length_drop.
  destruct (Z.leb_spec (Z.of_nat (length front) + Z.of_nat (length data)) (Z.of_nat (length front + (length buffer - length front)))); [|lia].
  rewrite Nat2Z.id, take_app_length, drop_app_ge by lia. rewrite drop_drop. do 4 f_equal. lia.
Qed.
