(* ===== verification/MachineInt.v ===== *)
(** * Machine integers

    The integer types of the program on LP64 Linux: [int] (32 bits, signed),
    [long] (64 bits, signed) and [size_t] (64 bits, unsigned), as [Z].
    Unsigned arithmetic wraps; signed overflow is undefined behaviour. *)
From Stdlib Require Import ZArith Lia.
From stdpp Require Import base decidable list.
From S2P Require Import Prelude.
Local Open Scope Z_scope.

Definition INT_MIN : Z := -2147483648.
Definition INT_MAX : Z := 2147483647.
Definition LONG_MIN : Z := -9223372036854775808.
Definition LONG_MAX : Z := 9223372036854775807.
Definition SIZE_MOD : Z := 18446744073709551616.

Definition in_int (z : Z) : bool := (INT_MIN <=? z) && (z <=? INT_MAX).
Definition in_long (z : Z) : bool := (LONG_MIN <=? z) && (z <=? LONG_MAX).
Definition in_size (z : Z) : bool := (0 <=? z) && (z <? SIZE_MOD).

(** Conversions: to an unsigned type modulo its range, to a signed type the
    two's complement value (what GCC and MSVC do). *)
Definition to_size (z : Z) : Z := z mod SIZE_MOD.
Definition to_int (z : Z) : Z := (z - INT_MIN) mod 4294967296 + INT_MIN.

Definition size_add (a b : Z) : Z := to_size (a + b).
Definition size_sub (a b : Z) : Z := to_size (a - b).

Definition int_add (a b : Z) : outcome Z :=
  if in_int (a + b) then Ok (a + b) else Undef SignedOverflow.
Definition int_sub (a b : Z) : outcome Z :=
  if in_int (a - b) then Ok (a - b) else Undef SignedOverflow.
Definition int_mul (a b : Z) : outcome Z :=
  if in_int (a * b) then Ok (a * b) else Undef SignedOverflow.
Definition long_add (a b : Z) : outcome Z :=
  if in_long (a + b) then Ok (a + b) else Undef SignedOverflow.
Definition long_sub (a b : Z) : outcome Z :=
  if in_long (a - b) then Ok (a - b) else Undef SignedOverflow.

(** [size_rem a b] is [a % b] on [size_t]. *)
Definition size_rem (a b : Z) : outcome Z :=
  if b =? 0 then Undef DivisionByZero else Ok (a mod b).

Create HintDb machine_int.

Lemma in_int_spec z : in_int z = true ↔ INT_MIN ≤ z ≤ INT_MAX.
Proof. unfold in_int. rewrite andb_true_iff, !Z.leb_le. reflexivity. Qed.
Lemma in_long_spec z : in_long z = true ↔ LONG_MIN ≤ z ≤ LONG_MAX.
Proof. unfold in_long. rewrite andb_true_iff, !Z.leb_le. reflexivity. Qed.
Lemma in_size_spec z : in_size z = true ↔ 0 ≤ z < SIZE_MOD.
Proof. unfold in_size. rewrite andb_true_iff, Z.leb_le, Z.ltb_lt. reflexivity. Qed.

(** [mlia] is [lia] after opening the ranges. *)
Ltac mlia :=
  unfold to_size, to_int, size_add, size_sub in *;
  rewrite ?in_int_spec, ?in_long_spec, ?in_size_spec in *;
  unfold INT_MIN, INT_MAX, LONG_MIN, LONG_MAX, SIZE_MOD in *;
  Z.to_euclidean_division_equations; lia.

Lemma to_int_small z : in_int z = true → to_int z = z.
Proof. intros H. mlia. Qed.
Lemma to_size_small z : in_size z = true → to_size z = z.
Proof. intros H. mlia. Qed.
Lemma to_int_range z : in_int (to_int z) = true.
Proof. mlia. Qed.
Lemma to_size_range z : in_size (to_size z) = true.
Proof. mlia. Qed.
Lemma to_int_add_l a b : to_int (to_int a + b) = to_int (a + b).
Proof. mlia. Qed.

Lemma int_add_Ok a b : in_int (a + b) = true → int_add a b = Ok (a + b).
Proof. unfold int_add. by intros ->. Qed.
Lemma int_mul_Ok a b : in_int (a * b) = true → int_mul a b = Ok (a * b).
Proof. unfold int_mul. by intros ->. Qed.
Lemma int_sub_Ok a b : in_int (a - b) = true → int_sub a b = Ok (a - b).
Proof. unfold int_sub. by intros ->. Qed.
Lemma long_add_Ok a b : in_long (a + b) = true → long_add a b = Ok (a + b).
Proof. unfold long_add. by intros ->. Qed.
Lemma long_sub_Ok a b : in_long (a - b) = true → long_sub a b = Ok (a - b).
Proof. unfold long_sub. by intros ->. Qed.
Lemma size_rem_Ok a b : b ≠ 0 → size_rem a b = Ok (a mod b).
Proof. unfold size_rem. intros H. by rewrite (proj2 (Z.eqb_neq b 0) H). Qed.

#[export] Hint Resolve to_int_range to_size_range : machine_int.
