(* ===== verification/StringUtility.v ===== *)
(** * Strings: [core/string_utility.h] and the standard library's conversions

    A [std::string] is the list of its characters. Literals are written [$"..."].
    The file models [std::to_string], [std::stoi], [std::stol], [strcmp],
    [std::getline] as the repository uses them, then the functions of
    [core/string_utility.h], and proves the round trips the FIX layer needs. *)
From Stdlib Require Import ZArith Lia Ascii String.
From stdpp Require Import base decidable list gmap strings.
From S2P Require Import Prelude.
From S2P Require Import MachineInt.
Local Open Scope Z_scope.

Abbreviation str := (list ascii).

Declare Scope cxx_scope.
Delimit Scope cxx_scope with cxx.
Notation "$ s" := (list_ascii_of_string s%string)
  (at level 1, only parsing) : cxx_scope.
#[global] Open Scope cxx_scope.

(** ** Characters *)

Definition code (c : ascii) : Z := Z.of_N (N_of_ascii c).
Definition chr (n : Z) : ascii := ascii_of_N (Z.to_N n).

(** [char] is signed on the platforms the program is built for. *)
Definition schar (c : ascii) : Z := if code c <? 128 then code c else code c - 256.

Definition isdigit (c : ascii) : bool := (48 <=? code c) && (code c <=? 57).
Definition isspace (c : ascii) : bool := (code c =? 32) || ((9 <=? code c) && (code c <=? 13)).
Definition tolower (c : ascii) : ascii :=
  if (65 <=? code c) && (code c <=? 90) then chr (code c + 32) else c.
Definition toupper (c : ascii) : ascii :=
  if (97 <=? code c) && (code c <=? 122) then chr (code c - 32) else c.

Definition digit (d : Z) : ascii := chr (48 + d).
Definition digit_val (c : ascii) : Z := code c - 48.

(** ** [std::to_string] on integers *)

Fixpoint dec_digits (fuel : nat) (n : Z) (acc : str) : str :=
  match fuel with
  | O => acc
  | S f =>
      let acc' := digit (n mod 10) :: acc in
      if n <? 10 then acc' else dec_digits f (n / 10) acc'
  end.

(** As many steps as [n] has binary digits, which is more than its decimal ones. *)
Definition dec_fuel (n : Z) : nat := S (Z.to_nat (Z.log2 n)).
Definition dec (n : Z) : str := dec_digits (dec_fuel n) n [].
Definition to_string (z : Z) : str := if z <? 0 then "-"%char :: dec (- z) else dec z.

(** ** [std::stoi] and [std::stol] (base 10)

    [strtol]: leading white space, an optional sign, then the longest run of
    digits. Anything after the digits is ignored. *)

Fixpoint drop_space (s : str) : str :=
  match s with
  | c :: s' => if isspace c then drop_space s' else s
  | [] => []
  end.

Fixpoint digits_val (acc : Z) (s : str) : Z :=
  match s with
  | c :: s' => if isdigit c then digits_val (acc * 10 + digit_val c) s' else acc
  | [] => acc
  end.

Definition unsigned_prefix (s : str) : option Z :=
  match s with
  | c :: _ => if isdigit c then Some (digits_val 0 s) else None
  | [] => None
  end.

Definition strtol (s : str) : option Z :=
  match drop_space s with
  | c :: s' =>
      if bool_decide (c = "-"%char) then Z.opp <$> unsigned_prefix s'
      else if bool_decide (c = "+"%char) then unsigned_prefix s'
      else unsigned_prefix (c :: s')
  | [] => None
  end.

Definition stoi (s : str) : outcome Z :=
  match strtol s with
  | None => Throw InvalidArgument
  | Some z => if in_int z then Ok z else Throw OutOfRange
  end.

Definition stol (s : str) : outcome Z :=
  match strtol s with
  | None => Throw InvalidArgument
  | Some z => if in_long z then Ok z else Throw OutOfRange
  end.

(** ** [core/string_utility.h] *)

(** The characters of [s.c_str()] that a C function sees. *)
Fixpoint c_str (s : str) : str :=
  match s with
  | c :: s' => if bool_decide (c = Ascii.zero) then [] else c :: c_str s'
  | [] => []
  end.

(** The loop of [std::getline]: [cur] holds the characters extracted for the
    current token. At the end of the stream a token is produced only when
    characters were extracted. *)
Fixpoint split_from (cur : str) (sep : ascii) (s : str) : list str :=
  match s with
  | [] => if bool_decide (cur = []) then [] else [cur]
  | c :: s' =>
      if bool_decide (c = sep) then cur :: split_from [] sep s'
      else split_from (cur ++ [c]) sep s'
  end.
Definition split (input : str) (seperator : ascii) : list str :=
  split_from [] seperator input.

Definition padLeft (input : str) (number : nat) (padChar : ascii) : str :=
  if bool_decide (length input < number)%nat
  then replicate (number - length input) padChar ++ input else input.

Definition toLower (input : str) : str := tolower <$> input.
Definition toUpper (input : str) : str := toupper <$> input.

Definition compare (first second : str) : bool :=
  bool_decide (c_str (toLower first) = c_str (toLower second)).

Definition startsWith (inputString : str) (c : ascii) : bool :=
  match inputString with
  | c0 :: _ => bool_decide (c0 = c)
  | [] => false
  end.

(** [std::string::find]: the position of the first occurrence. *)
Fixpoint is_prefix (needle haystack : str) : bool :=
  match needle, haystack with
  | [], _ => true
  | n :: needle', h :: haystack' => bool_decide (n = h) && is_prefix needle' haystack'
  | _ :: _, [] => false
  end.
Fixpoint find_from (pos : nat) (haystack needle : str) : option nat :=
  if is_prefix needle haystack then Some pos
  else match haystack with
       | [] => None
       | _ :: haystack' => find_from (S pos) haystack' needle
       end.
Definition string_find (haystack needle : str) : option nat := find_from 0 haystack needle.

Definition contains (haystack needle : str) : bool :=
  match string_find haystack needle with Some _ => true | None => false end.

Definition replaceInString (target from to : str) : bool * str :=
  match string_find target from with
  | None => (false, target)
  | Some startPos => (true, take startPos target ++ to ++ drop (startPos + length from) target)
  end.

Definition replaceCharacterInString (target : str) (oldChar newChar : ascii) : str :=
  (λ c, if bool_decide (c = oldChar) then newChar else c) <$> target.

Definition trimLeft (inputString : str) : str := drop_space inputString.
Definition trimRight (inputString : str) : str := reverse (drop_space (reverse inputString)).
Definition trim (inputString : str) : str := trimRight (trimLeft inputString).

(** [wchar_t] has 32 bits; what a stream of them makes of a [char] is [widen], and a
    [wchar_t] becomes a [char] by its low bits. *)
Definition toWideString (widen : ascii → Z) (source : str) : list Z := widen <$> c_str source.
Definition toNarrowString (source : list Z) : str := (λ w, ascii_of_N (Z.to_N (w mod 256))) <$> source.

(** [core::format]: [snprintf] into a buffer of 2048 characters. The format strings of
    the program use [%d] and [%s], and [%%] is a percent sign. A [%d] reads an [int] from the argument (the low
    32 bits of a [size_t] or of a pointer, as x86-64 passes them); [%s] reads a C
    string; the program's other characters stand for themselves. The result is cut
    at the size of the buffer: the test that should throw, [length < 0 && length >=
    bufferSize] on a [size_t], never holds. *)
Inductive fmt_arg : Type :=
  | FInt (z : Z)
  | FStr (s : str).

Definition MAX_BUFFER_SIZE : nat := 2048.

Fixpoint snprintf (fmt : str) (args : list fmt_arg) : outcome str :=
  match fmt with
  | [] => Ok []
  | c :: fmt' =>
      if bool_decide (c = "%"%char) then
        match fmt', args with
        | "%"%char :: fmt'', _ => r ← snprintf fmt'' args; Ok ("%"%char :: r)
        | k :: fmt'', a :: args' =>
            match a with
            | FInt z => if bool_decide (k = "d"%char)
                        then r ← snprintf fmt'' args'; Ok (to_string (to_int z) ++ r)
                        else Undef FormatMismatch
            | FStr s => if bool_decide (k = "s"%char)
                        then r ← snprintf fmt'' args'; Ok (c_str s ++ r)
                        else Undef FormatMismatch
            end
        | _, _ => Undef FormatMismatch
        end
      else r ← snprintf fmt' args; Ok (c :: r)
  end.

Definition format (formatString : str) (args : list fmt_arg) : outcome str :=
  buf ← snprintf (c_str formatString) args;
  Ok (take (MAX_BUFFER_SIZE - 1) buf).

(** * Lemmas *)

(** ** Characters *)

Lemma code_range c : 0 <= code c < 256.
Proof. unfold code. pose proof (N_ascii_bounded c). lia. Qed.

Lemma chr_code c : chr (code c) = c.
Proof. unfold chr, code. rewrite N2Z.id. apply ascii_N_embedding. Qed.

Lemma code_chr n : 0 <= n < 256 → code (chr n) = n.
Proof. intros H. unfold chr, code. rewrite N_ascii_embedding by lia. lia. Qed.

Lemma code_inj c1 c2 : code c1 = code c2 → c1 = c2.
Proof. intros H. by rewrite <- (chr_code c1), H, chr_code. Qed.

Lemma isdigit_spec c : isdigit c = true ↔ 48 <= code c <= 57.
Proof. unfold isdigit. rewrite andb_true_iff, !Z.leb_le. reflexivity. Qed.

Lemma isspace_spec c : isspace c = true ↔ code c = 32 ∨ 9 <= code c <= 13.
Proof. unfold isspace. rewrite orb_true_iff, andb_true_iff, !Z.leb_le, Z.eqb_eq. reflexivity. Qed.

Lemma isdigit_digit d : 0 <= d < 10 → isdigit (digit d) = true.
Proof. intros H. apply isdigit_spec. unfold digit. rewrite code_chr; lia. Qed.

Lemma digit_val_digit d : 0 <= d < 10 → digit_val (digit d) = d.
Proof. intros H. unfold digit_val, digit. rewrite code_chr; lia. Qed.

Lemma isdigit_not_space c : isdigit c = true → isspace c = false.
Proof.
  rewrite isdigit_spec. intros H. apply not_true_is_false. rewrite isspace_spec. lia.
Qed.

Lemma isdigit_not_sign c : isdigit c = true → c ≠ "-"%char ∧ c ≠ "+"%char.
Proof. rewrite isdigit_spec. intros H. split; intros ->; vm_compute in H; intuition. Qed.

(** ** Decimal representations *)

Definition all_digits (s : str) : Prop := Forall (λ c, isdigit c = true) s.
Definition no_digit_head (s : str) : Prop :=
  match s with c :: _ => isdigit c = false | [] => True end.

Lemma digits_val_stop acc s : no_digit_head s → digits_val acc s = acc.
Proof. destruct s; simpl; [done|]. by intros ->. Qed.

(** [dec_digits] puts a run of digits with value [n] in front of the accumulator. *)
Lemma dec_digits_spec fuel n acc :
  0 <= n < 2 ^ Z.of_nat fuel → (0 < fuel)%nat →
  ∃ ds, dec_digits fuel n acc = ds ++ acc ∧ all_digits ds ∧ ds ≠ [] ∧
    (n < 10 ^ Z.of_nat (length ds) ∧ (n = 0 ∨ 10 ^ (Z.of_nat (length ds) - 1) <= n) ∧
     ∀ a rest, digits_val a (ds ++ rest) = digits_val (a * 10 ^ Z.of_nat (length ds) + n) rest).
Proof.
  revert n acc. induction fuel as [|f IH]; intros n acc Hn Hf; [lia|]. simpl.
  assert (Hd : 0 <= n mod 10 < 10) by (apply Z.mod_pos_bound; lia).
  destruct (Z.ltb_spec n 10) as [Hlt|Hge].
  - exists [digit (n mod 10)]. rewrite (Z.mod_small n 10) in * by lia.
    split_and!; [done| |done|simpl; lia| |].
    + apply Forall_singleton. by apply isdigit_digit.
    + simpl. destruct (decide (n = 0)); [by left|right]. change (10 ^ 0) with 1. lia.
    + intros a rest. simpl. rewrite isdigit_digit, digit_val_digit by lia.
      f_equal; lia.
  - assert (Hf0 : (0 < f)%nat).
    { destruct f; [|lia]. simpl in Hn. lia. }
    assert (0 <= n / 10 < 2 ^ Z.of_nat f) as Hn'.
    { rewrite Nat2Z.inj_succ, Z.pow_succ_r in Hn by lia. split; [apply Z.div_pos; lia|]. apply Z.div_lt_upper_bound; [lia|]. generalize dependent (2 ^ Z.of_nat f). intros; lia. }
    destruct (IH (n / 10) (digit (n mod 10) :: acc) Hn' Hf0) as (ds & -> & Hds & Hne & Hup & Hlo & Hval).
    exists (ds ++ [digit (n mod 10)]). rewrite <- app_assoc. split_and!; [done| | | | |].
    + apply Forall_snoc. split; [done|]. by apply isdigit_digit.
    + by destruct ds.
    + rewrite length_app. simpl. rewrite Nat2Z.inj_add, Z.pow_add_r by lia.
      change (10 ^ Z.of_nat 1) with 10. dlia.
    + right. rewrite length_app. simpl. destruct Hlo as [H0|Hlo]; [dlia|].
      destruct ds as [|x ds]; [done|]. simpl length in *.
      replace (Z.of_nat (S (length ds) + 1) - 1) with (Z.succ (Z.of_nat (S (length ds)) - 1)) by lia.
      rewrite Z.pow_succ_r by lia. dlia.
    + intros a rest. rewrite <- app_assoc, Hval. simpl.
      rewrite isdigit_digit, digit_val_digit by lia. f_equal.
      rewrite length_app, Nat2Z.inj_add, Z.pow_add_r by lia.
      change (10 ^ Z.of_nat (length [digit (n mod 10)])) with 10. dlia.
Qed.

Lemma dec_fuel_enough n : 0 <= n → n < 2 ^ Z.of_nat (dec_fuel n).
Proof.
  intros Hn. unfold dec_fuel. destruct (decide (n = 0)) as [->|]; [done|].
  pose proof (Z.log2_spec n). pose proof (Z.log2_nonneg n).
  rewrite Nat2Z.inj_succ, Z2Nat.id; lia.
Qed.

Lemma dec_spec n : 0 <= n →
  all_digits (dec n) ∧ dec n ≠ [] ∧ n < 10 ^ Z.of_nat (length (dec n)) ∧
  (n = 0 ∨ 10 ^ (Z.of_nat (length (dec n)) - 1) <= n) ∧
  (∀ rest, no_digit_head rest → digits_val 0 (dec n ++ rest) = n).
Proof.
  intros Hn. unfold dec.
  destruct (dec_digits_spec (dec_fuel n) n []) as (ds & Heq & Hds & Hne & Hup & Hlo & Hval);
    [pose proof (dec_fuel_enough n); lia|unfold dec_fuel; lia|].
  rewrite app_nil_r in Heq. rewrite Heq. split_and!; try done.
  intros rest Hrest. rewrite Hval. by apply digits_val_stop.
Qed.

Lemma dec_all_digits n : 0 <= n → all_digits (dec n).
Proof. intros H. by apply dec_spec. Qed.

Lemma unsigned_prefix_dec n rest :
  0 <= n → no_digit_head rest → unsigned_prefix (dec n ++ rest) = Some n.
Proof.
  intros Hn Hrest. destruct (dec_spec n Hn) as (Hds & Hne & _ & _ & Hval).
  destruct (dec n) as [|c ds]; [done|]. 
  apply Forall_cons in Hds as [Hc _]. unfold unsigned_prefix. rewrite <- app_comm_cons, Hc.
  f_equal. by apply Hval.
Qed.

Lemma drop_space_digit c s : isdigit c = true → drop_space (c :: s) = c :: s.
Proof. intros H. simpl. by rewrite isdigit_not_space. Qed.

Lemma strtol_to_string z rest :
  no_digit_head rest → strtol (to_string z ++ rest) = Some z.
Proof.
  intros Hrest. unfold to_string. destruct (Z.ltb_spec z 0) as [Hz|Hz].
  - unfold strtol. simpl. rewrite unsigned_prefix_dec by (done || lia). simpl. f_equal. lia.
  - pose proof (dec_spec z Hz) as (Hds & Hne & _ & _ & _).
    pose proof (unsigned_prefix_dec z rest Hz Hrest) as Hp.
    unfold strtol. destruct (dec z) as [|c ds] eqn:E; [done|]. simpl app in *.
    apply Forall_cons in Hds as [Hc _].
    rewrite drop_space_digit by done. destruct (isdigit_not_sign c Hc).
    by rewrite !bool_decide_false.
Qed.

Lemma stoi_to_string z rest :
  in_int z = true → no_digit_head rest → stoi (to_string z ++ rest) = Ok z.
Proof. intros Hz Hr. unfold stoi. by rewrite strtol_to_string, Hz. Qed.

Lemma stol_to_string z rest :
  in_long z = true → no_digit_head rest → stol (to_string z ++ rest) = Ok z.
Proof. intros Hz Hr. unfold stol. by rewrite strtol_to_string, Hz. Qed.

Lemma stoi_to_string_nil z : in_int z = true → stoi (to_string z) = Ok z.
Proof. intros H. rewrite <- (app_nil_r (to_string z)). by apply stoi_to_string. Qed.
Lemma stol_to_string_nil z : in_long z = true → stol (to_string z) = Ok z.
Proof. intros H. rewrite <- (app_nil_r (to_string z)). by apply stol_to_string. Qed.

(** The characters of a printed integer. *)
Definition numeral_char (c : ascii) : Prop := isdigit c = true ∨ c = "-"%char.

Lemma to_string_chars z : Forall numeral_char (to_string z).
Proof.
  assert (Hd : ∀ n, 0 <= n → Forall numeral_char (dec n)).
  { intros n Hn. eapply Forall_impl; [by apply dec_all_digits|]. by left. }
  unfold to_string. destruct (Z.ltb_spec z 0).
  - apply Forall_cons. split; [by right|]. apply Hd. lia.
  - by apply Hd.
Qed.

Lemma to_string_not_elem c z : ¬ numeral_char c → c ∉ to_string z.
Proof. intros H Hin. apply H. by eapply Forall_forall in Hin; [|apply to_string_chars]. Qed.

Lemma to_string_nonempty z : to_string z ≠ [].
Proof.
  unfold to_string. destruct (Z.ltb_spec z 0); [done|]. by apply dec_spec.
Qed.

Lemma dec_length_le n k : 0 <= n < 10 ^ Z.of_nat k → (0 < k)%nat → (length (dec n) <= k)%nat.
Proof.
  intros Hn Hk. destruct (dec_spec n ltac:(lia)) as (_ & Hne & _ & [->|Hlo] & _).
  - by replace (dec 0) with ["0"%char].
  - destruct (decide (k < length (dec n))%nat); [|lia].
    assert (10 ^ Z.of_nat k <= 10 ^ (Z.of_nat (length (dec n)) - 1)) by (apply Z.pow_le_mono_r; lia).
    lia.
Qed.

(** ** [split] *)

Lemma split_from_app cur sep t rest :
  sep ∉ t → split_from cur sep (t ++ sep :: rest) = (cur ++ t) :: split rest sep.
Proof.
  revert cur. induction t as [|c t IH]; intros cur Ht; simpl.
  - by rewrite bool_decide_true, app_nil_r.
  - apply not_elem_of_cons in Ht as [Hc Ht]. rewrite bool_decide_false by congruence.
    rewrite IH by done. by rewrite <- app_assoc.
Qed.

Lemma split_app sep t rest :
  sep ∉ t → split (t ++ sep :: rest) sep = t :: split rest sep.
Proof. apply (split_from_app []). Qed.

Lemma split_from_no_sep cur sep t :
  sep ∉ t → split_from cur sep t = if bool_decide (cur ++ t = []) then [] else [cur ++ t].
Proof.
  revert cur. induction t as [|c t IH]; intros cur Ht; simpl.
  - by rewrite app_nil_r.
  - apply not_elem_of_cons in Ht as [Hc Ht]. rewrite bool_decide_false by congruence.
    rewrite IH, <- app_assoc by done. done.
Qed.

Lemma split_no_sep sep t : sep ∉ t → t ≠ [] → split t sep = [t].
Proof. intros H Hne. unfold split. rewrite split_from_no_sep by done. by rewrite bool_decide_false. Qed.

Lemma contains_char c s : c ∈ s → contains s [c] = true.
Proof.
  intros Hc. unfold contains, string_find. generalize 0%nat.
  induction Hc as [s|c d s Hc IH]; intros pos; simpl.
  - by rewrite bool_decide_true.
  - destruct (bool_decide (c = d)); [done|apply IH].
Qed.

(** ** [padLeft], [compare], [trim] *)

Lemma padLeft_length s n c : length (padLeft s n c) = Nat.max n (length s).
Proof.
  unfold padLeft. case_bool_decide; rewrite ?length_app, ?length_replicate; lia.
Qed.

Lemma compare_refl s : compare s s = true.
Proof. unfold compare. by rewrite bool_decide_true. Qed.

Lemma compare_spec s1 s2 : compare s1 s2 = true ↔ c_str (toLower s1) = c_str (toLower s2).
Proof. unfold compare. apply bool_decide_eq_true. Qed.

Lemma compare_sym s1 s2 : compare s1 s2 = compare s2 s1.
Proof. unfold compare. apply bool_decide_ext. split; congruence. Qed.

Lemma tolower_code c :
  code (tolower c) = if (65 <=? code c) && (code c <=? 90) then code c + 32 else code c.
Proof.
  unfold tolower. destruct (_ && _) eqn:E; [|done].
  rewrite andb_true_iff, !Z.leb_le in E. apply code_chr. lia.
Qed.

Lemma toLower_idemp s : toLower (toLower s) = toLower s.
Proof.
  unfold toLower. rewrite <- list_fmap_compose. apply list_fmap_ext. intros _ c _. simpl.
  apply code_inj. rewrite (tolower_code (tolower c)), !tolower_code.
  destruct ((65 <=? code c) && (code c <=? 90)) eqn:E.
  - rewrite andb_true_iff, !Z.leb_le in E.
    destruct (Z.leb_spec 65 (code c + 32)), (Z.leb_spec (code c + 32) 90); simpl; lia.
  - by rewrite E.
Qed.

Lemma compare_toLower s1 s2 : compare (toLower s1) s2 = compare s1 s2.
Proof. unfold compare. by rewrite toLower_idemp. Qed.

Lemma drop_space_head s : match drop_space s with c :: _ => isspace c = false | [] => True end.
Proof. induction s as [|c s IH]; simpl; [done|]. by destruct (isspace c) eqn:E. Qed.

Lemma drop_space_suffix s : ∃ sp, s = sp ++ drop_space s ∧ Forall (λ c, isspace c = true) sp.
Proof.
  induction s as [|c s (sp & Hsp & Hall)]; simpl; [by exists []|].
  destruct (isspace c) eqn:E; [|by exists []].
  exists (c :: sp). split; [simpl; congruence|by constructor].
Qed.

(** ** Formats without arguments, and wide strings *)

Lemma c_str_plain s : Ascii.zero ∉ s → c_str s = s.
Proof.
  induction s as [|c s IH]; simpl; [done|]. rewrite not_elem_of_cons. intros [Hc Hs].
  rewrite bool_decide_false by congruence. by rewrite IH.
Qed.

Lemma c_str_subset c s : c ∉ s → c ∉ c_str s.
Proof.
  induction s as [|d s IH]; simpl; [done|]. rewrite not_elem_of_cons. intros [Hd Hs].
  case_bool_decide; [apply not_elem_of_nil|]. apply not_elem_of_cons. auto.
Qed.

Lemma c_str_app s t : Ascii.zero ∉ s → c_str (s ++ t) = s ++ c_str t.
Proof.
  induction s as [|c s IH]; [done|]. rewrite not_elem_of_cons. intros [Hc Hs]. simpl.
  rewrite bool_decide_false by congruence. by rewrite IH.
Qed.

(** Text without a percent sign is its own format. *)
Lemma snprintf_plain s args : "%"%char ∉ s → snprintf s args = Ok s.
Proof.
  induction s as [|c s IH]; simpl; [done|]. rewrite not_elem_of_cons. intros [Hc Hs].
  rewrite bool_decide_false by congruence. by rewrite IH.
Qed.

Lemma snprintf_app s t args : "%"%char ∉ s → snprintf (s ++ t) args = (λ r, s ++ r) <$> snprintf t args.
Proof.
  induction s as [|c s IH]; simpl; [by destruct (snprintf t args)|]. rewrite not_elem_of_cons. intros [Hc Hs].
  rewrite bool_decide_false by congruence. rewrite IH by done. by destruct (snprintf t args).
Qed.

Lemma format_plain s : "%"%char ∉ s → format s [] = Ok (take (MAX_BUFFER_SIZE - 1) (c_str s)).
Proof. intros Hs. unfold format. rewrite snprintf_plain by by apply c_str_subset. done. Qed.

Lemma wide_narrow widen s :
  (∀ c, c ∈ s → c ≠ Ascii.zero ∧ widen c mod 256 = Z.of_N (N_of_ascii c)) → toNarrowString (toWideString widen s) = s.
Proof.
  induction s as [|c s IH]; intros Hs; [done|]. destruct (Hs c) as [Hz Hw]; [by left|].
  assert (toNarrowString (toWideString widen s) = s) as Hrest by (apply IH; intros d Hd; apply Hs; by right).
  unfold toWideString, toNarrowString in *. cbn [c_str]. rewrite bool_decide_false by done. cbn [fmap list_fmap].
  f_equal; [|exact Hrest]. rewrite Hw, N2Z.id. apply ascii_N_embedding.
Qed.
