(* ===== verification/DateTime.v ===== *)
(** * [core/datetime_utility.h] and [core/stopwatch.cpp]

    The texts of the clock. A reading of [system_clock] is a number of nanoseconds since
    1970; the program reads the clock once for the seconds of a text and once more for
    what comes after the point. [gmtime] is the calendar of the C library, by counting
    years and months; [localtime] and the conversions of [put_time] that the program does
    not use are parameters. *)
From Stdlib Require Import ZArith Lia Ascii String.
From stdpp Require Import base decidable list.
From S2P Require Import Prelude.
From S2P Require Import MachineInt.
From S2P Require Import StringUtility.
Local Open Scope Z_scope.

Inductive Subseconds : Type := SECONDS | MILLISECONDS | MICROSECONDS.

Definition getSubsecondsFromString (input : str) : Subseconds :=
  if compare input ($"MILLISECONDS") then MILLISECONDS
  else if compare input ($"MICROSECONDS") then MICROSECONDS
  else SECONDS.

(** [duration_cast] rounds towards zero, as [%] does. *)
Definition getMilliseconds (now : Z) : Z := Z.rem (Z.quot now 1000000) 1000.
Definition getMicroseconds (now : Z) : Z := Z.rem (Z.quot now 1000) 1000000.
Definition to_time_t (now : Z) : Z := Z.quot now 1000000000.

(** ** The calendar *)

(** The fields of [struct tm] that are printed; year and month as people count them. *)
Record TM : Type := mkTM { tm_year : Z; tm_mon : Z; tm_mday : Z; tm_hour : Z; tm_min : Z; tm_sec : Z }.

Definition leap (y : Z) : bool := (y mod 4 =? 0) && negb (y mod 100 =? 0) || (y mod 400 =? 0).
Definition year_days (y : Z) : Z := if leap y then 366 else 365.
Definition month_lengths (y : Z) : list Z := [31; if leap y then 29 else 28; 31; 30; 31; 30; 31; 31; 30; 31; 30; 31].

(** The year of day [d] after the start of year [y], and the day in it. *)
Fixpoint find_year (fuel : nat) (y d : Z) : Z * Z :=
  match fuel with
  | O => (y, d)
  | S fuel' => if d <? year_days y then (y, d) else find_year fuel' (y + 1) (d - year_days y)
  end.
Fixpoint find_month (lengths : list Z) (m d : Z) : Z * Z :=
  match lengths with
  | [] => (m, d)
  | n :: lengths' => if d <? n then (m, d) else find_month lengths' (m + 1) (d - n)
  end.

Definition gmtime (t : Z) : TM :=
  let days := t / 86400 in
  let s := t mod 86400 in
  let '(y, d) := find_year (S (Z.to_nat (days / 365))) 1970 days in
  let '(m, d) := find_month (month_lengths y) 1 d in
  mkTM y m (d + 1) (s / 3600) (s mod 3600 / 60) (s mod 60).

(** ** The texts *)

(** [setfill('0') << setw(k)], which is also how [put_time] prints two digits. *)
Definition set_width (k : nat) (n : Z) : str := padLeft (to_string n) k "0"%char.

Section clock.
Context (localtime : Z → TM) (other_conversion : ascii → TM → str).

Definition put_conversion (c : ascii) (tm : TM) : str :=
  if bool_decide (c = "Y"%char) then to_string (tm_year tm)
  else if bool_decide (c = "m"%char) then set_width 2 (tm_mon tm)
  else if bool_decide (c = "d"%char) then set_width 2 (tm_mday tm)
  else if bool_decide (c = "H"%char) then set_width 2 (tm_hour tm)
  else if bool_decide (c = "M"%char) then set_width 2 (tm_min tm)
  else if bool_decide (c = "S"%char) then set_width 2 (tm_sec tm)
  else other_conversion c tm.

Fixpoint put_time (tm : TM) (format : str) : str :=
  match format with
  | "%"%char :: c :: format' => put_conversion c tm ++ put_time tm format'
  | c :: format' => c :: put_time tm format'
  | [] => []
  end.

(** [now1] is the first reading of the clock, [now2] the second. *)
Definition getCurrentDateTime (format : str) (universalTime : bool) (subseconds : Subseconds) (now1 now2 : Z) : str :=
  let inTimeT := to_time_t now1 in
  let text := put_time (if universalTime then gmtime inTimeT else localtime inTimeT) format in
  match subseconds with
  | MILLISECONDS => text ++ ($".") ++ set_width 3 (getMilliseconds now2)
  | MICROSECONDS => text ++ ($".") ++ set_width 6 (getMicroseconds now2)
  | SECONDS => text
  end.

Definition getUtcDatetime (subseconds : Subseconds) (now1 now2 : Z) : str :=
  getCurrentDateTime ($"%Y%m%d-%H:%M:%S") true subseconds now1 now2.
End clock.

(** ** The stop watch *)

(** Readings of the high resolution clock, in nanoseconds. *)
Record StopWatch : Type := mkStopWatch { m_startTime : Z; m_endTime : Z }.

Definition StopWatch_start (now : Z) (w : StopWatch) : StopWatch := mkStopWatch now (m_endTime w).
Definition StopWatch_stop (now : Z) (w : StopWatch) : StopWatch := mkStopWatch (m_startTime w) now.
Definition getElapsedTimeMilliseconds (w : StopWatch) : Z := Z.quot (m_endTime w - m_startTime w) 1000000.
Definition getElapsedTimeMicroseconds (w : StopWatch) : Z := Z.quot (m_endTime w - m_startTime w) 1000.

(** * Reading the texts back *)

(** The time of calendar fields. *)
Fixpoint days_of_years (n : nat) (y : Z) : Z :=
  match n with O => 0 | S n' => year_days y + days_of_years n' (y + 1) end.
Definition timegm (tm : TM) : Z :=
  86400 * (days_of_years (Z.to_nat (tm_year tm - 1970)) 1970 +
           list_sum_Z (take (Z.to_nat (tm_mon tm - 1)) (month_lengths (tm_year tm))) + (tm_mday tm - 1)) +
  3600 * tm_hour tm + 60 * tm_min tm + tm_sec tm.

(** A number of [k] digits. *)
Definition read_number (k : nat) (s : str) : option (Z * str) :=
  if bool_decide (length (take k s) = k ∧ Forall (λ c, isdigit c = true) (take k s))
  then Some (digits_val 0 (take k s), drop k s) else None.
Definition read_char (c : ascii) (s : str) : option str :=
  match s with d :: s' => if bool_decide (c = d) then Some s' else None | [] => None end.

(** The time of a text, in microseconds. *)
Definition read_utc (s : str) : option Z :=
  '(y, s) ← read_number 4 s; '(m, s) ← read_number 2 s; '(d, s) ← read_number 2 s; s ← read_char "-"%char s;
  '(hh, s) ← read_number 2 s; s ← read_char ":"%char s; '(mm, s) ← read_number 2 s; s ← read_char ":"%char s;
  '(ss, s) ← read_number 2 s;
  let seconds := timegm (mkTM y m d hh mm ss) in
  match s with
  | [] => Some (seconds * 1000000)
  | _ =>
      s ← read_char "."%char s;
      match read_number 6 s, read_number 3 s with
      | Some (us, []), _ => Some (seconds * 1000000 + us)
      | _, Some (ms, []) => Some (seconds * 1000000 + ms * 1000)
      | _, _ => None
      end
  end.

(** ** Lemmas *)

Lemma year_days_bounds y : 365 <= year_days y <= 366.
Proof. unfold year_days. destruct (leap y); lia. Qed.

Lemma find_year_spec fuel y d y' d' : 0 <= d < 365 * Z.of_nat fuel → find_year fuel y d = (y', d') →
  y <= y' ∧ 0 <= d' < year_days y' ∧ d = days_of_years (Z.to_nat (y' - y)) y + d'.
Proof.
  revert y d. induction fuel as [|fuel IH]; intros y d Hd; [lia|]. cbn [find_year].
  pose proof (year_days_bounds y). destruct (Z.ltb_spec d (year_days y)) as [Hlt|Hge]; intros E.
  - simplify_eq. rewrite Z.sub_diag. simpl. lia.
  - apply IH in E as (Hy & Hd' & E); [|lia]. split; [lia|]. split; [done|].
    replace (Z.to_nat (y' - y)) with (S (Z.to_nat (y' - (y + 1)))) by lia. simpl. lia.
Qed.

Lemma days_of_years_lower n y : 365 * Z.of_nat n <= days_of_years n y.
Proof. revert y. induction n as [|n IH]; intros y; simpl; [done|]. pose proof (year_days_bounds y). specialize (IH (y + 1)). lia. Qed.

Lemma find_month_spec lengths m d m' d' : Forall (λ n, 0 < n) lengths → 0 <= d < list_sum_Z lengths →
  find_month lengths m d = (m', d') →
  m <= m' < m + Z.of_nat (length lengths) ∧ 0 <= d' < nth (Z.to_nat (m' - m)) lengths 0 ∧
  d = list_sum_Z (take (Z.to_nat (m' - m)) lengths) + d'.
Proof.
  revert m d. induction lengths as [|n lengths IH]; intros m d Hpos Hd; [simpl in Hd; lia|].
  apply Forall_cons in Hpos as [Hn Hpos]. simpl. simpl in Hd. destruct (Z.ltb_spec d n) as [Hlt|Hge]; intros E.
  - simplify_eq. rewrite Z.sub_diag. simpl. lia.
  - apply IH in E as (Hm & Hd' & E); [|done|lia].
    replace (Z.to_nat (m' - m)) with (S (Z.to_nat (m' - (m + 1)))) by lia. simpl. lia.
Qed.

Lemma month_lengths_sum y : list_sum_Z (month_lengths y) = year_days y.
Proof. unfold month_lengths, year_days. by destruct (leap y). Qed.
Lemma month_lengths_pos y : Forall (λ n, 0 < n <= 31) (month_lengths y).
Proof. unfold month_lengths. destruct (leap y); repeat constructor; lia. Qed.

(** The fields of a time: the calendar has them, and they give the time back. *)
Record calendar_date (tm : TM) : Prop := {
  cd_year : 1970 <= tm_year tm;
  cd_month : 1 <= tm_mon tm <= 12;
  cd_day : 1 <= tm_mday tm <= 31;
  cd_hour : 0 <= tm_hour tm < 24;
  cd_minute : 0 <= tm_min tm < 60;
  cd_second : 0 <= tm_sec tm < 60
}.

Lemma gmtime_spec t : 0 <= t → calendar_date (gmtime t) ∧ timegm (gmtime t) = t ∧ 365 * (tm_year (gmtime t) - 1970) * 86400 <= t.
Proof.
  intros Ht. unfold gmtime. set (days := t / 86400). set (s := t mod 86400).
  assert (0 <= days ∧ 0 <= s < 86400 ∧ t = 86400 * days + s) as (Hdays & Hs & Et) by (unfold days, s; dlia).
  destruct (find_year _ 1970 days) as [y d] eqn:Ey. apply find_year_spec in Ey as (Hy & Hd & Ed); [|dlia].
  destruct (find_month (month_lengths y) 1 d) as [m d'] eqn:Em.
  apply find_month_spec in Em as (Hm & Hd' & Ed'); [|eapply Forall_impl; [apply month_lengths_pos|intros n Hn; simpl in Hn; lia]|by rewrite month_lengths_sum].
  assert (d' < 31).
  { pose proof (month_lengths_pos y) as Hp. change (length (month_lengths y)) with 12%nat in Hm.
    rewrite (Forall_nth _ 0) in Hp. specialize (Hp (Z.to_nat (m - 1)) ltac:(change (length (month_lengths y)) with 12%nat; lia)). cbv beta in Hp. lia. }
  split; [split; simpl in *; dlia|]. split.
  - unfold timegm. cbn [tm_year tm_mon tm_mday tm_hour tm_min tm_sec]. rewrite Et, Ed, Ed'. clearbody s. clear - Hs. dlia.
  - cbn [tm_year]. pose proof (days_of_years_lower (Z.to_nat (y - 1970)) 1970). nia.
Qed.

(** Numbers of a fixed width. *)
Lemma digits_val_zeros n s : digits_val 0 (replicate n "0"%char ++ s) = digits_val 0 s.
Proof. induction n; simpl; [done|exact IHn]. Qed.

Lemma set_width_spec k n : 0 <= n < 10 ^ Z.of_nat k → (0 < k)%nat →
  length (set_width k n) = k ∧ Forall (λ c, isdigit c = true) (set_width k n) ∧ digits_val 0 (set_width k n) = n.
Proof.
  intros Hn Hk. unfold set_width, to_string. destruct (Z.ltb_spec n 0); [lia|].
  destruct (dec_spec n) as (Hds & _ & _ & _ & Hval); [lia|]. specialize (Hval [] I). rewrite app_nil_r in Hval.
  pose proof (dec_length_le n k Hn Hk). split; [rewrite padLeft_length; lia|]. unfold padLeft. case_bool_decide.
  - split; [|by rewrite digits_val_zeros]. apply Forall_app. split; [|done]. by apply Forall_replicate.
  - done.
Qed.

Lemma read_set_width k n rest : 0 <= n < 10 ^ Z.of_nat k → (0 < k)%nat →
  read_number k (set_width k n ++ rest) = Some (n, rest).
Proof.
  intros Hn Hk. destruct (set_width_spec k n Hn Hk) as (Hl & Hd & Hv). unfold read_number.
  rewrite take_app_le, drop_app_ge by lia. rewrite Hl, Nat.sub_diag, take_ge by lia. simpl.
  rewrite bool_decide_true by (by split). by rewrite Hv.
Qed.

(** A year of four digits is printed as [put_time] prints it. *)
Lemma year_width y : 1000 <= y < 10000 → to_string y = set_width 4 y.
Proof.
  intros Hy. unfold set_width, padLeft. rewrite bool_decide_false; [done|].
  unfold to_string. destruct (Z.ltb_spec y 0); [lia|]. destruct (dec_spec y) as (_ & _ & Hup & _); [lia|].
  intros Hlt. assert (10 ^ Z.of_nat (length (dec y)) <= 10 ^ 3) by (apply Z.pow_le_mono_r; lia). lia.
Qed.

(** Nanoseconds in the smallest unit of a precision. *)
Definition unit_ns (subseconds : Subseconds) : Z :=
  match subseconds with SECONDS => 1000000000 | MILLISECONDS => 1000000 | MICROSECONDS => 1000 end.

Definition point (subseconds : Subseconds) (now : Z) : str :=
  match subseconds with
  | SECONDS => []
  | MILLISECONDS => ($".") ++ set_width 3 (getMilliseconds now)
  | MICROSECONDS => ($".") ++ set_width 6 (getMicroseconds now)
  end.

Lemma getUtcDatetime_fields localtime other subseconds now1 now2 (tm := gmtime (to_time_t now1)) :
  getUtcDatetime localtime other subseconds now1 now2 =
  to_string (tm_year tm) ++ set_width 2 (tm_mon tm) ++ set_width 2 (tm_mday tm) ++ ($"-") ++
  set_width 2 (tm_hour tm) ++ ($":") ++ set_width 2 (tm_min tm) ++ ($":") ++ set_width 2 (tm_sec tm) ++
  point subseconds now2.
Proof.
  unfold getUtcDatetime, getCurrentDateTime, tm. set (u := gmtime _).
  assert (put_time other u ($"%Y%m%d-%H:%M:%S") = to_string (tm_year u) ++ set_width 2 (tm_mon u) ++ set_width 2 (tm_mday u) ++ ($"-") ++
    set_width 2 (tm_hour u) ++ ($":") ++ set_width 2 (tm_min u) ++ ($":") ++ set_width 2 (tm_sec u)) as E
    by (simpl; by rewrite ?app_nil_r).
  rewrite E. clearbody u. destruct subseconds; simpl point; rewrite ?app_nil_r, <-?app_assoc; simpl; by rewrite <-?app_assoc.
Qed.

Definition point_us (subseconds : Subseconds) (now : Z) : Z :=
  match subseconds with SECONDS => 0 | MILLISECONDS => getMilliseconds now * 1000 | MICROSECONDS => getMicroseconds now end.

Lemma read_point subseconds now2 seconds : 0 <= now2 →
  match point subseconds now2 with
  | [] => Some (seconds * 1000000)
  | _ =>
      s ← read_char "."%char (point subseconds now2);
      match read_number 6 s, read_number 3 s with
      | Some (us, []), _ => Some (seconds * 1000000 + us)
      | _, Some (ms, []) => Some (seconds * 1000000 + ms * 1000)
      | _, _ => None
      end
  end = Some (seconds * 1000000 + point_us subseconds now2).
Proof.
  intros Hnow. unfold getMilliseconds, getMicroseconds. destruct subseconds; simpl; [f_equal; lia| |].
  - assert (0 <= getMilliseconds now2 < 10 ^ Z.of_nat 3) as Hms by (unfold getMilliseconds; change (10 ^ Z.of_nat 3) with 1000; dlia).
    pose proof (read_set_width 3 _ [] Hms ltac:(lia)) as E. rewrite app_nil_r in E. rewrite E.
    destruct (set_width_spec 3 _ Hms ltac:(lia)) as (Hl & _).
    unfold read_number at 1. rewrite bool_decide_false; [done|]. rewrite length_take. intros [Hb _]. lia.
  - assert (0 <= getMicroseconds now2 < 10 ^ Z.of_nat 6) as Hus by (unfold getMicroseconds; change (10 ^ Z.of_nat 6) with 1000000; dlia).
    pose proof (read_set_width 6 _ [] Hus ltac:(lia)) as E. rewrite app_nil_r in E. by rewrite E.
Qed.

Lemma read_utc_fields tm rest : calendar_date tm → 1000 <= tm_year tm < 10000 →
  read_utc (to_string (tm_year tm) ++ set_width 2 (tm_mon tm) ++ set_width 2 (tm_mday tm) ++ ($"-") ++
    set_width 2 (tm_hour tm) ++ ($":") ++ set_width 2 (tm_min tm) ++ ($":") ++ set_width 2 (tm_sec tm) ++ rest) =
  match rest with
  | [] => Some (timegm tm * 1000000)
  | _ =>
      s ← read_char "."%char rest;
      match read_number 6 s, read_number 3 s with
      | Some (us, []), _ => Some (timegm tm * 1000000 + us)
      | _, Some (ms, []) => Some (timegm tm * 1000000 + ms * 1000)
      | _, _ => None
      end
  end.
Proof.
  intros [_ Hm Hd Hh Hmin Hs] Hy. destruct tm as [y m d hh mm ss]. cbn [tm_year tm_mon tm_mday tm_hour tm_min tm_sec] in *.
  rewrite (year_width y) by done. unfold read_utc.
  assert (10 ^ Z.of_nat 2 = 100 ∧ 10 ^ Z.of_nat 4 = 10000) as [E2 E4] by done.
  do 3 (rewrite read_set_width by lia; cbn [mbind option_bind]). simpl read_char. cbn [mbind option_bind].
  do 2 (rewrite read_set_width by lia; cbn [mbind option_bind]; simpl read_char; cbn [mbind option_bind]).
  rewrite read_set_width by lia. done.
Qed.

(** C31: The clock's text, read back, over the whole range of the clock's 64 bits: the
    calendar fields carry the first reading's second and the part after the point carries
    the second reading's subseconds. When both readings fall in the same second the text
    is the second reading rounded down to the precision. When the second changes between
    them, the text is that many whole seconds before the second reading, and, with one
    second's change and a precision below a second, not after the first reading's second
    plus its own subseconds: a message can carry a time a second before it was built. *)
Theorem utc_datetime_reads localtime other subseconds now1 now2 :
  0 <= now1 <= now2 → in_long now2 = true →
  ∃ us, read_utc (getUtcDatetime localtime other subseconds now1 now2) = Some us ∧
    (subseconds = SECONDS → us * 1000 = now1 / 1000000000 * 1000000000) ∧
    (subseconds ≠ SECONDS →
       us * 1000 = now2 / unit_ns subseconds * unit_ns subseconds - 1000000000 * (now2 / 1000000000 - now1 / 1000000000)) ∧
    (now1 / 1000000000 = now2 / 1000000000 → us * 1000 = now2 / unit_ns subseconds * unit_ns subseconds) ∧
    (now1 / 1000000000 < now2 / 1000000000 → now2 < now1 + 1000000000 → us * 1000 <= now1).
Proof.
  intros Hnow Hl. apply in_long_spec in Hl. unfold LONG_MAX in Hl. pose proof (gmtime_spec (to_time_t now1)) as (Hcal & Htime & Hyear); [unfold to_time_t; dlia|].
  assert (1000 <= tm_year (gmtime (to_time_t now1)) < 10000) as Hy.
  { pose proof (cd_year _ Hcal). unfold to_time_t in *. dlia. }
  eexists. split; [rewrite getUtcDatetime_fields, read_utc_fields, read_point by (done || lia); reflexivity|].
  rewrite Htime. clear Hcal Htime Hyear Hy. unfold to_time_t, point_us, getMilliseconds, getMicroseconds, unit_ns.
  split_and!; intros; destruct subseconds; try done; dlia.
Qed.

(** 2000-02-29 23:59:59 and 999.9999 ms, and 0.2 ms later. *)
Example utc_datetime_torn :
  getUtcDatetime (λ _, mkTM 0 0 0 0 0 0) (λ _ _, []) MICROSECONDS 951868799999900000 951868800000100000 =
  $"20000229-23:59:59.000100".
Proof. vm_compute. reflexivity. Qed.

Lemma utc_datetime_reads_witness :
  ∃ us, read_utc ($"20000229-23:59:59.000100") = Some us ∧ us * 1000 <= 951868799999900000.
Proof.
  rewrite <-utc_datetime_torn.
  destruct (utc_datetime_reads (λ _, mkTM 0 0 0 0 0 0) (λ _ _, []) MICROSECONDS 951868799999900000 951868800000100000)
    as (us & E & _ & _ & _ & Htorn); [lia|reflexivity|].
  exists us. split; [exact E|apply Htorn; vm_compute; reflexivity].
Defined.
