(* ===== verification/Double.v ===== *)
(** * The type [double]

    IEEE binary64 through the executable specification of the standard library
    (SpecFloat): round to nearest, ties to even, as the program runs with.
    Prices and average prices of orders are [double]s. *)
From Stdlib Require Import ZArith Lia Ascii String SpecFloat.
From stdpp Require Import base decidable list gmap strings.
From S2P Require Import Prelude.
From S2P Require Import MachineInt.
From S2P Require Import StringUtility.
Local Open Scope Z_scope.

Abbreviation double := spec_float.

Definition prec : Z := 53.
Definition emax : Z := 1024.

Definition dzero : double := S754_zero false.
Definition dmul : double → double → double := SFmul prec emax.
Definition dadd : double → double → double := SFadd prec emax.
Definition ddiv : double → double → double := SFdiv prec emax.

(** The conversion of a [long] to [double]. *)
Definition of_long (z : Z) : double := binary_normalize prec emax z 0 false.

(** [a < b] and [a >= b]; both are false when an operand is NaN. *)
Definition dlt (a b : double) : bool := SFltb a b.
Definition dge (a b : double) : bool := SFleb b a.

Definition is_nan (a : double) : bool :=
  match a with S754_nan => true | _ => false end.

(** ** [std::to_string(double)], that is [printf("%f")]: six decimals, correctly
    rounded. The C library prints a NaN as [nan] or [-nan]; the sign of the NaN is
    not part of the model, so its text is a parameter. *)
Definition round_half_even (n d : Z) : Z :=
  let q := n / d in
  let r := n mod d in
  if 2 * r <? d then q
  else if d <? 2 * r then q + 1
  else if Z.even q then q else q + 1.

Definition fixed6 (m e : Z) : str :=
  if 0 <=? e then dec (m * 2 ^ e) ++ $".000000"
  else let q := round_half_even (m * 1000000) (2 ^ (- e)) in
       dec (q / 1000000) ++ $"." ++ padLeft (dec (q mod 1000000)) 6 "0"%char.

Definition to_string_double (nan_text : str) (a : double) : str :=
  match a with
  | S754_nan => nan_text
  | S754_infinity s => (if s then $"-inf" else $"inf")
  | S754_zero s => (if s then $"-0.000000" else $"0.000000")
  | S754_finite s m e => (if s then $"-" else []) ++ fixed6 (Zpos m) e
  end.

#[export] Instance double_eq_dec : EqDecision double.
Proof. solve_decision. Defined.

(** ** The order of the non-NaN doubles

    Every non-NaN double has a rank, a triple ordered lexicographically. *)

Definition rank (a : double) : Z * Z * Z :=
  match a with
  | S754_infinity true => (-2, 0, 0)
  | S754_finite true m e => (-1, - e, - Zpos m)
  | S754_zero _ | S754_nan => (0, 0, 0)
  | S754_finite false m e => (1, e, Zpos m)
  | S754_infinity false => (2, 0, 0)
  end.

Definition lex_lt (x y : Z * Z * Z) : Prop :=
  let '(x1, x2, x3) := x in
  let '(y1, y2, y3) := y in
  x1 < y1 ∨ (x1 = y1 ∧ (x2 < y2 ∨ (x2 = y2 ∧ x3 < y3))).

Lemma Pos_compare_cont_Eq p q : Pos.compare_cont Eq p q = Pos.compare p q.
Proof. reflexivity. Qed.

Lemma SFcompare_rank a b : is_nan a = false → is_nan b = false →
  ∃ c, SFcompare a b = Some c ∧
    match c with
    | Lt => lex_lt (rank a) (rank b)
    | Eq => rank a = rank b
    | Gt => lex_lt (rank b) (rank a)
    end.
Proof.
  intros Ha Hb.
  destruct a as [sa|sa| |sa ma ea], b as [sb|sb| |sb mb eb]; try discriminate;
    simpl; eexists; (split; [reflexivity|]);
    try (destruct sa, sb; simpl; (reflexivity || lia));
    try (destruct sa; simpl; lia); try (destruct sb; simpl; lia).
  destruct sa, sb; simpl; try lia; rewrite Pos_compare_cont_Eq;
    destruct (Z.compare_spec ea eb); simpl; subst; try lia;
    destruct (Pos.compare_spec ma mb); simpl; subst; try lia; reflexivity.
Qed.

Lemma lex_lt_irrefl x : ¬ lex_lt x x.
Proof. destruct x as [[x1 x2] x3]. simpl. lia. Qed.

Lemma lex_lt_trans x y z : lex_lt x y → lex_lt y z → lex_lt x z.
Proof. destruct x as [[x1 x2] x3], y as [[y1 y2] y3], z as [[z1 z2] z3]. simpl. lia. Qed.

Lemma lex_lt_total x y : lex_lt x y ∨ x = y ∨ lex_lt y x.
Proof.
  destruct x as [[x1 x2] x3], y as [[y1 y2] y3]. simpl.
  destruct (Ztrichotomy x1 y1) as [|[->|]]; [lia| |lia].
  destruct (Ztrichotomy x2 y2) as [|[->|]]; [lia| |lia].
  destruct (Ztrichotomy x3 y3) as [|[->|]]; [lia|by auto|lia].
Qed.

Lemma dlt_rank a b : is_nan a = false → is_nan b = false →
  dlt a b = true ↔ lex_lt (rank a) (rank b).
Proof.
  intros Ha Hb. unfold dlt, SFltb. destruct (SFcompare_rank a b Ha Hb) as (c & -> & Hc).
  destruct c; split; intros H; try done.
  - rewrite Hc in H. by apply lex_lt_irrefl in H.
  - exfalso. by eapply lex_lt_irrefl, lex_lt_trans.
Qed.

Lemma dge_rank a b : is_nan a = false → is_nan b = false →
  dge a b = true ↔ ¬ lex_lt (rank a) (rank b).
Proof.
  intros Ha Hb. unfold dge, SFleb. destruct (SFcompare_rank b a Hb Ha) as (c & -> & Hc).
  destruct c; split; intros H; try done.
  - rewrite Hc. apply lex_lt_irrefl.
  - intros H'. by eapply lex_lt_irrefl, lex_lt_trans.
Qed.

Lemma dge_dlt a b : is_nan a = false → is_nan b = false → dge a b = negb (dlt a b).
Proof.
  intros Ha Hb. pose proof (dge_rank a b Ha Hb) as H1. pose proof (dlt_rank a b Ha Hb) as H2.
  destruct (dge a b), (dlt a b); simpl; try done; exfalso.
  - apply (proj1 H1); [done|]. by apply H2.
  - assert (¬ lex_lt (rank a) (rank b)) as Hn by (intros X; apply H2 in X; done).
    apply H1 in Hn. done.
Qed.

Lemma dlt_irrefl a : dlt a a = false.
Proof.
  destruct (is_nan a) eqn:Ha; [by destruct a|].
  apply not_true_is_false. rewrite dlt_rank by done. apply lex_lt_irrefl.
Qed.

Lemma dlt_trans a b c :
  is_nan a = false → is_nan b = false → is_nan c = false →
  dlt a b = true → dlt b c = true → dlt a c = true.
Proof. intros ???. rewrite !dlt_rank by done. apply lex_lt_trans. Qed.

(** The negation of [dlt] is transitive as well, so that "neither is smaller" is an
    equivalence: the order of a [std::multimap]. *)
Lemma dlt_false_trans a b c :
  is_nan a = false → is_nan b = false → is_nan c = false →
  dlt b a = false → dlt c b = false → dlt c a = false.
Proof.
  intros Ha Hb Hc H1 H2. apply not_true_is_false. intros H3.
  apply not_true_iff_false in H1, H2. rewrite dlt_rank in * by done.
  destruct (lex_lt_total (rank c) (rank b)) as [|[E|]]; [done|rewrite E in *; done|].
  by eapply H1, lex_lt_trans.
Qed.

(** ** Conversion of integers *)

Lemma shr_1_nonneg r : 0 <= shr_m r → 0 <= shr_m (shr_1 r).
Proof. destruct r as [[|[p|p|]|p] r s]; simpl; lia. Qed.

Lemma iter_shr_1_nonneg n r : 0 <= shr_m r → 0 <= shr_m (SpecFloat.iter_pos shr_1 n r).
Proof. revert r. induction n; simpl; auto using shr_1_nonneg. Qed.

Lemma shr_record_of_loc_m m l : shr_m (shr_record_of_loc m l) = m.
Proof. by destruct l as [|[]]. Qed.

Lemma shr_fexp_nonneg m e l r :
  0 <= m → shr_fexp prec emax m e l = r → 0 <= shr_m r.1.
Proof.
  intros Hm <-. unfold shr_fexp, shr. destruct (_ - e); simpl;
    try apply iter_shr_1_nonneg; by rewrite shr_record_of_loc_m.
Qed.

Lemma round_nearest_even_nonneg m l : 0 <= m → 0 <= round_nearest_even m l.
Proof. destruct l as [|[]]; simpl; try lia. destruct (Z.even m); lia. Qed.

Lemma binary_round_aux_not_nan s m e l :
  0 <= m → is_nan (binary_round_aux prec emax s m e l) = false.
Proof.
  intros Hm. unfold binary_round_aux.
  destruct (shr_fexp prec emax m e l) as [r1 e1] eqn:E1.
  apply (shr_fexp_nonneg _ _ _ _ Hm) in E1. simpl in E1.
  destruct (shr_fexp _ _ (round_nearest_even _ _) _ _) as [r2 e2] eqn:E2.
  apply shr_fexp_nonneg in E2; [|by apply round_nearest_even_nonneg]. simpl in E2.
  destruct (shr_m r2); [done| |lia]. by case_match.
Qed.

Lemma of_long_not_nan z : is_nan (of_long z) = false.
Proof.
  unfold of_long, binary_normalize, binary_round. destruct z as [|p|p]; [done| |];
    destruct (shl_align _ _ _) as [m e]; apply binary_round_aux_not_nan; lia.
Qed.

Lemma digits2_pos_bounds p : 2 ^ (Zpos (digits2_pos p) - 1) <= Zpos p < 2 ^ Zpos (digits2_pos p).
Proof.
  induction p as [p IH|p IH|]; simpl digits2_pos; rewrite ?Pos2Z.inj_succ; [| |done];
    (replace (Z.succ (Zpos (digits2_pos p)) - 1) with (Z.succ (Zpos (digits2_pos p) - 1)) by lia);
    rewrite !Z.pow_succ_r by lia; lia.
Qed.

Lemma digits2_pos_iter_xO p d : Zpos (digits2_pos (Pos.iter xO p d)) = Zpos (digits2_pos p) + Zpos d.
Proof.
  revert p. induction d as [|d IH] using Pos.peano_ind; intros p; [simpl; lia|].
  rewrite Pos.iter_succ. simpl. rewrite Pos2Z.inj_succ, IH. lia.
Qed.

Lemma iter_xO_val p d : Zpos (Pos.iter xO p d) = Zpos p * 2 ^ Zpos d.
Proof.
  revert p. induction d as [|d IH] using Pos.peano_ind; intros p; [simpl; lia|].
  rewrite Pos.iter_succ, Pos2Z.inj_succ, Z.pow_succ_r by lia.
  rewrite Pos2Z.inj_xO, IH. lia.
Qed.

(** A mantissa of exactly 53 bits with a small exponent is not rounded. *)
Lemma binary_round_aux_exact s m e :
  Zpos (digits2_pos m) = 53 → -1000 <= e <= 0 →
  binary_round_aux prec emax s (Zpos m) e loc_Exact = S754_finite s m e.
Proof.
  intros Hm He. unfold binary_round_aux, shr_fexp. simpl Zdigits2. rewrite Hm.
  assert (fexp prec emax (53 + e) - e = 0) as ->.
  { unfold fexp, emin, prec, emax. lia. }
  simpl shr. simpl. rewrite Hm.
  assert (fexp prec emax (53 + e) - e = 0) as ->.
  { unfold fexp, emin, prec, emax. lia. }
  simpl. destruct (Z.leb_spec e (emax - prec)); [done|]. unfold emax, prec in *. lia.
Qed.

(** The mantissa and exponent of a positive integer below 2^53. *)
Definition norm_shift (p : positive) : Z := 53 - Zpos (digits2_pos p).

Lemma binary_round_small s p : Zpos p < 2 ^ 53 →
  ∃ m, binary_round prec emax s p 0 = S754_finite s m (- norm_shift p) ∧
       Zpos m = Zpos p * 2 ^ norm_shift p ∧ Zpos (digits2_pos m) = 53 ∧ 0 <= norm_shift p < 53.
Proof.
  intros Hp. destruct (digits2_pos_bounds p) as [Hlo Hhi].
  assert (Hd : Zpos (digits2_pos p) <= 53).
  { destruct (Z.leb_spec (Zpos (digits2_pos p)) 53) as [|Hgt]; [done|exfalso].
    assert (2 ^ 53 <= 2 ^ (Zpos (digits2_pos p) - 1)) by (apply Z.pow_le_mono_r; lia). lia. }
  unfold binary_round, shl_align. rewrite Z.add_0_r.
  assert (fexp prec emax (Zpos (digits2_pos p)) = - norm_shift p) as ->.
  { unfold fexp, emin, norm_shift, prec, emax. lia. }
  rewrite Z.sub_0_r.
  assert (0 <= norm_shift p < 53) as Hs by (unfold norm_shift; lia).
  destruct (norm_shift p) as [|d|d] eqn:E; [| |lia].
  - change (- 0) with 0. exists p. unfold norm_shift in E. rewrite binary_round_aux_exact by lia.
    split_and!; try lia; done.
  - change (- Zpos d) with (Zneg d). exists (Pos.iter xO p d).
    assert (Zpos (digits2_pos (Pos.iter xO p d)) = 53) as H53.
    { rewrite digits2_pos_iter_xO. unfold norm_shift in E. lia. }
    rewrite binary_round_aux_exact by lia.
    split_and!; try lia; [done|]. apply iter_xO_val.
Qed.

Definition exact_long (z : Z) : Prop := - 2 ^ 53 < z < 2 ^ 53.

(** The rank of the image of a positive integer grows with it. *)
Lemma small_rank_lt p q mp mq :
  Zpos p < Zpos q →
  Zpos mp = Zpos p * 2 ^ norm_shift p → 0 <= norm_shift p →
  Zpos mq = Zpos q * 2 ^ norm_shift q → 0 <= norm_shift q →
  - norm_shift p < - norm_shift q ∨ (- norm_shift p = - norm_shift q ∧ Zpos mp < Zpos mq).
Proof.
  intros Hpq Hmp Hp Hmq Hq.
  destruct (digits2_pos_bounds p) as [Hlop Hhip], (digits2_pos_bounds q) as [Hloq Hhiq].
  assert (Zpos (digits2_pos p) <= Zpos (digits2_pos q)) as Hd.
  { destruct (Z.leb_spec (Zpos (digits2_pos p)) (Zpos (digits2_pos q))) as [|Hgt]; [done|exfalso].
    assert (2 ^ Zpos (digits2_pos q) <= 2 ^ (Zpos (digits2_pos p) - 1)) by (apply Z.pow_le_mono_r; lia).
    lia. }
  destruct (decide (Zpos (digits2_pos p) = Zpos (digits2_pos q))) as [Heq|Hne].
  - right. unfold norm_shift in *. rewrite Heq in *. split; [done|].
    rewrite Hmp, Hmq. apply Z.mul_lt_mono_pos_r; [|done]. apply Z.pow_pos_nonneg; lia.
  - left. unfold norm_shift. lia.
Qed.

Lemma of_long_rank_lt a b :
  exact_long a → exact_long b → a < b → lex_lt (rank (of_long a)) (rank (of_long b)).
Proof.
  unfold exact_long. intros Ha Hb Hab. unfold of_long, binary_normalize.
  destruct a as [|p|p], b as [|q|q]; try lia.
  - destruct (binary_round_small false q) as (m & -> & _); [lia|]. simpl. lia.
  - destruct (binary_round_small false p) as (mp & -> & Hmp & _ & Hsp); [lia|].
    destruct (binary_round_small false q) as (mq & -> & Hmq & _ & Hsq); [lia|].
    simpl. right. split; [done|]. apply (small_rank_lt p q); lia.
  - destruct (binary_round_small true p) as (m & -> & _); [lia|]. simpl. lia.
  - destruct (binary_round_small true p) as (mp & -> & _); [lia|].
    destruct (binary_round_small false q) as (mq & -> & _); [lia|]. simpl. lia.
  - destruct (binary_round_small true p) as (mp & -> & Hmp & _ & Hsp); [lia|].
    destruct (binary_round_small true q) as (mq & -> & Hmq & _ & Hsq); [lia|].
    simpl. right. split; [done|].
    destruct (small_rank_lt q p mq mp) as [|[? ?]]; lia.
Qed.

Lemma of_long_lt a b :
  exact_long a → exact_long b → dlt (of_long a) (of_long b) = true ↔ a < b.
Proof.
  intros Ha Hb. rewrite dlt_rank by apply of_long_not_nan. split; [|by apply of_long_rank_lt].
  intros H. destruct (Ztrichotomy a b) as [|[->|Hgt]]; [done| |].
  - by apply lex_lt_irrefl in H.
  - exfalso. apply Z.gt_lt in Hgt. apply (lex_lt_irrefl (rank (of_long a))).
    eapply lex_lt_trans; [done|]. by apply of_long_rank_lt.
Qed.

Lemma of_long_ge a b :
  exact_long a → exact_long b → dge (of_long a) (of_long b) = true ↔ b <= a.
Proof.
  intros Ha Hb. rewrite dge_dlt by apply of_long_not_nan. rewrite negb_true_iff.
  rewrite <- not_true_iff_false, of_long_lt by done. lia.
Qed.

(** Integral prices print with six zero decimals. *)
Lemma fixed6_exact p k : 0 <= k → fixed6 (Zpos p * 2 ^ k) (- k) = dec (Zpos p) ++ $".000000".
Proof.
  intros Hk. unfold fixed6. destruct (Z.leb_spec 0 (- k)) as [H0|H0].
  - assert (k = 0) as -> by lia. do 2 f_equal. simpl. lia.
  - rewrite Z.opp_involutive. set (d := 2 ^ k). assert (0 < d) by (apply Z.pow_pos_nonneg; lia).
    assert (round_half_even (Zpos p * d * 1000000) d = Zpos p * 1000000) as ->.
    { unfold round_half_even. replace (Zpos p * d * 1000000) with (Zpos p * 1000000 * d) by lia.
      rewrite Z.div_mul, Z_mod_mult by lia. destruct (Z.ltb_spec (2 * 0) d); [done|lia]. }
    rewrite Z.div_mul, Z_mod_mult by lia. done.
Qed.

Lemma to_string_double_of_long nt z :
  exact_long z → to_string_double nt (of_long z) = to_string z ++ $".000000".
Proof.
  intros Hz. unfold exact_long in Hz. unfold of_long, binary_normalize.
  destruct z as [|p|p]; [done| |].
  - destruct (binary_round_small false p) as (m & -> & Hm & _ & Hs); [lia|].
    simpl to_string_double. rewrite Hm, fixed6_exact by lia. done.
  - destruct (binary_round_small true p) as (m & -> & Hm & _ & Hs); [lia|].
    simpl to_string_double. rewrite Hm, fixed6_exact by lia. done.
Qed.
