(* ===== verification/Multimap.v ===== *)
(** * [std::multimap]

    The order book keeps its two sides in [std::multimap]s whose comparators are
    [std::greater<double>] and [std::less<double>]. A multimap is the list of its
    entries in iteration order; [insert] puts an entry at the upper bound of its
    key, as C++11 requires, so that entries with equivalent keys stay in insertion
    order. The file is generic in the comparator: the interface it needs is the
    class [StrictWeakOrder]. *)
From Stdlib Require Import ZArith Lia Sorted.
From stdpp Require Import base decidable sets list sorting.
From S2P Require Import Prelude.

Section multimap.
Context {K V : Type} (comp : K → K → bool).

Fixpoint mm_insert (k : K) (v : V) (l : list (K * V)) : list (K * V) :=
  match l with
  | [] => [(k, v)]
  | e :: l' => if comp k e.1 then (k, v) :: l else e :: mm_insert k v l'
  end.

(** The scan [for (i = begin(); i != end(); ++i) if (P(i->second)) ...]: the
    position and the value of the first entry that satisfies [P]. *)
Fixpoint mm_scan (P : V → bool) (l : list (K * V)) : option (nat * V) :=
  match l with
  | [] => None
  | e :: l' =>
      if P e.2 then Some (O, e.2)
      else (λ r, (S r.1, r.2)) <$> mm_scan P l'
  end.

(** [erase(i)] and the update of [i->second] through a reference. *)
Definition mm_erase (i : nat) (l : list (K * V)) : list (K * V) := delete i l.
Definition mm_assign (i : nat) (v : V) (l : list (K * V)) : list (K * V) :=
  alter (λ e, (e.1, v)) i l.

(** [a] may stand before [b] in iteration order. *)
Definition mm_le (a b : K * V) : Prop := comp b.1 a.1 = false.
Definition mm_sorted (l : list (K * V)) : Prop := StronglySorted mm_le l.
End multimap.

(** What a multimap asks of its comparator, on the keys that occur. *)
Class StrictWeakOrder {K : Type} (valid : K → Prop) (comp : K → K → bool) : Prop := {
  swo_irrefl k : comp k k = false;
  swo_trans a b c : valid a → valid b → valid c →
    comp a b = true → comp b c = true → comp a c = true;
  swo_incomp_trans a b c : valid a → valid b → valid c →
    comp b a = false → comp c b = false → comp c a = false
}.

Section lemmas.
Context {K V : Type} (valid : K → Prop) (comp : K → K → bool) `{!StrictWeakOrder valid comp}.
Implicit Types l : list (K * V).

Lemma swo_asym a b : valid a → valid b → comp a b = true → comp b a = false.
Proof.
  intros Ha Hb Hab. destruct (comp b a) eqn:Hba; [|done].
  pose proof (swo_trans a b a Ha Hb Ha Hab Hba) as H. by rewrite swo_irrefl in H.
Qed.

Lemma mm_insert_perm k v l : mm_insert comp k v l ≡ₚ (k, v) :: l.
Proof.
  induction l as [|e l IH]; simpl; [done|]. destruct (comp k e.1); [done|].
  rewrite IH. by constructor.
Qed.

Lemma mm_insert_Forall (P : K * V → Prop) k v l :
  Forall P (mm_insert comp k v l) ↔ P (k, v) ∧ Forall P l.
Proof. by rewrite mm_insert_perm, Forall_cons. Qed.

Definition mm_valid l : Prop := Forall (λ e, valid e.1) l.

(** Where [insert] puts the entry: behind every entry it does not precede, and
    in front of every entry it precedes. *)
Lemma mm_insert_split k v l :
  valid k → mm_valid l → mm_sorted comp l →
  ∃ l1 l2, l = l1 ++ l2 ∧ mm_insert comp k v l = l1 ++ (k, v) :: l2 ∧
    Forall (λ e, comp k e.1 = false) l1 ∧ Forall (λ e, comp k e.1 = true) l2.
Proof.
  intros Hk Hv Hs. induction Hs as [|e l Hs IH Hle]; simpl; [by exists [], []|].
  apply Forall_cons in Hv as [He Hv]. destruct (comp k e.1) eqn:Hc.
  - exists [], (e :: l). split_and!; try done. apply Forall_cons. split; [done|].
    eapply Forall_impl; [apply Forall_and; split; [exact Hle|exact Hv]|].
    intros x [Hx Hvx]. unfold mm_le in Hx. destruct (comp k x.1) eqn:Hkx; [done|].
    by rewrite (swo_incomp_trans e.1 x.1 k) in Hc.
  - destruct (IH Hv) as (l1 & l2 & -> & -> & H1 & H2). exists (e :: l1), l2.
    split_and!; try done. by constructor.
Qed.

Lemma StronglySorted_app_iff (R : K * V → K * V → Prop) l1 l2 :
  StronglySorted R (l1 ++ l2) ↔
  StronglySorted R l1 ∧ StronglySorted R l2 ∧ Forall (λ a, Forall (R a) l2) l1.
Proof.
  induction l1 as [|a l1 IH]; simpl.
  - split; [intros; split_and!; [constructor|done|done]|by intros (_ & ? & _)].
  - split.
    + intros H. apply StronglySorted_inv in H as [H Ha]. apply IH in H as (H1 & H2 & H3).
      apply Forall_app in Ha as [Ha1 Ha2]. split_and!; [by constructor|done|by constructor].
    + intros (H1 & H2 & H3). apply StronglySorted_inv in H1 as [H1 Ha].
      apply Forall_cons in H3 as [H3 H4]. constructor; [by apply IH|]. by apply Forall_app.
Qed.

(** The place of a new entry under any refinement [R] of the order in which it
    comes behind the entries equivalent to it: price-time priority is one. *)
Lemma mm_insert_StronglySorted (R : K * V → K * V → Prop) k v l :
  valid k → mm_valid l → mm_sorted comp l → StronglySorted R l →
  (∀ e, e ∈ l → comp k e.1 = false → R e (k, v)) →
  (∀ e, e ∈ l → comp k e.1 = true → R (k, v) e) →
  StronglySorted R (mm_insert comp k v l).
Proof.
  intros Hk Hv Hs HR Hbefore Hafter.
  destruct (mm_insert_split k v l Hk Hv Hs) as (l1 & l2 & -> & -> & H1 & H2).
  apply StronglySorted_app_iff in HR as (HR1 & HR2 & HR12).
  apply StronglySorted_app_iff. split_and!; [done| |].
  - constructor; [done|]. apply Forall_forall. intros e He. apply Hafter; [set_solver|].
    by eapply Forall_forall in H2.
  - apply Forall_forall. intros e He. constructor.
    + apply Hbefore; [set_solver|]. by eapply Forall_forall in H1.
    + by eapply Forall_forall in HR12.
Qed.

Lemma mm_insert_sorted k v l :
  valid k → mm_valid l → mm_sorted comp l → mm_sorted comp (mm_insert comp k v l).
Proof.
  intros Hk Hv Hs. apply mm_insert_StronglySorted; try done.
  intros e He Hc. unfold mm_le. simpl. apply swo_asym; [done| |done].
  by eapply Forall_forall in Hv.
Qed.

(** [mm_scan] finds the first match. *)
Lemma mm_scan_Some (P : V → bool) l i v :
  mm_scan P l = Some (i, v) ↔
  ∃ l1 k l2, l = l1 ++ (k, v) :: l2 ∧ length l1 = i ∧ P v = true ∧
    Forall (λ e, P e.2 = false) l1.
Proof.
  split.
  - revert i. induction l as [|e l IH]; intros i H; simpl in H; [done|].
    destruct (P e.2) eqn:HP; simplify_eq/=.
    + exists [], e.1, l. by destruct e.
    + apply fmap_Some in H as ([j w] & Hj & [= -> ->]).
      destruct (IH j Hj) as (l1 & k & l2 & -> & <- & Hv & Hl1).
      exists (e :: l1), k, l2. split_and!; try done. by constructor.
  - intros (l1 & k & l2 & -> & <- & HP & Hl1). induction Hl1 as [|e l1 He _ IH]; simpl.
    + by rewrite HP.
    + by rewrite He, IH.
Qed.

Lemma mm_scan_None (P : V → bool) l :
  mm_scan P l = None ↔ Forall (λ e, P e.2 = false) l.
Proof.
  induction l as [|e l IH]; simpl; [done|]. rewrite Forall_cons.
  destruct (P e.2) eqn:HP; [split; [done|by intros [? _]]|].
  rewrite fmap_None, IH. tauto.
Qed.

Lemma mm_erase_middle l1 e l2 : mm_erase (length l1) (l1 ++ e :: l2) = l1 ++ l2.
Proof. unfold mm_erase. by rewrite delete_middle. Qed.

Lemma mm_assign_middle l1 k v w l2 :
  mm_assign (length l1) w (l1 ++ (k, v) :: l2) = l1 ++ (k, w) :: l2.
Proof.
  unfold mm_assign. induction l1 as [|e l1 IH]; [done|]. simpl. f_equal. exact IH.
Qed.

Lemma StronglySorted_remove (R : K * V → K * V → Prop) l1 e l2 :
  StronglySorted R (l1 ++ e :: l2) → StronglySorted R (l1 ++ l2).
Proof.
  rewrite !StronglySorted_app_iff. intros (H1 & H2 & H3).
  apply StronglySorted_inv in H2 as [H2 _]. split_and!; try done.
  eapply Forall_impl; [done|]. intros a Ha. by apply Forall_cons in Ha as [_ ?].
Qed.
End lemmas.
