(* ===== verification/SecurityManager.v ===== *)
(** * [order_matcher/security_manager.cpp]

    The symbols of the exchange and their numeric identifiers, in two hash tables. *)
From Stdlib Require Import ZArith Lia Ascii String.
From stdpp Require Import base decidable list gmap strings.
From S2P Require Import Prelude.
From S2P Require Import MachineInt.
From S2P Require Import StringUtility.
Local Open Scope Z_scope.

Record SecurityManager : Type := mkSecurityManager {
  m_securitiesById : gmap Z str;
  m_securitiesBySymbol : gmap str Z
}.

Definition SecurityManager_empty : SecurityManager := mkSecurityManager ∅ ∅.

(** [unordered_map::insert] keeps an entry that is already there. *)
Definition map_insert_new `{Countable K} {V} (k : K) (v : V) (m : gmap K V) : gmap K V :=
  match m !! k with Some _ => m | None => <[k := v]> m end.

(** [unordered_map::at]. *)
Definition map_at `{Countable K} {V} (k : K) (m : gmap K V) : outcome V :=
  match m !! k with Some v => Ok v | None => Throw OutOfRange end.

Definition SecurityManager_addSecurity (sm : SecurityManager) (symbol : str) : SecurityManager * Z :=
  let keyCount := Z.of_nat (size (m_securitiesById sm)) in
  (mkSecurityManager (map_insert_new keyCount symbol (m_securitiesById sm))
                     (map_insert_new symbol keyCount (m_securitiesBySymbol sm)),
   keyCount).

Definition SecurityManager_getSecurityId (sm : SecurityManager) (symbol : str) : outcome Z :=
  map_at symbol (m_securitiesBySymbol sm).

Definition SecurityManager_getSecurityName (sm : SecurityManager) (securityId : Z) : outcome str :=
  map_at securityId (m_securitiesById sm).

Definition SecurityManager_isSymbolSupported (sm : SecurityManager) (symbol : str) : bool :=
  match m_securitiesBySymbol sm !! symbol with Some _ => true | None => false end.

Definition SecurityManager_isSecuritySupported (sm : SecurityManager) (securityId : Z) : bool :=
  (0 <=? securityId) && (securityId <? Z.of_nat (size (m_securitiesById sm))).

(** The identifiers a list of symbols is given, in order. *)
Fixpoint SecurityManager_addAll (sm : SecurityManager) (symbols : list str) : SecurityManager * list Z :=
  match symbols with
  | [] => (sm, [])
  | s :: rest =>
      let '(sm1, i) := SecurityManager_addSecurity sm s in
      let '(sm2, is') := SecurityManager_addAll sm1 rest in
      (sm2, i :: is')
  end.

(** ** Invariant: the identifiers are 0, 1, ..., n-1 and both tables agree *)

Record SecurityManager_inv (sm : SecurityManager) : Prop := {
  smi_ids i : is_Some (m_securitiesById sm !! i) ↔ 0 <= i < Z.of_nat (size (m_securitiesById sm));
  smi_sym s i : m_securitiesBySymbol sm !! s = Some i → m_securitiesById sm !! i = Some s;
  smi_id s i : m_securitiesById sm !! i = Some s → is_Some (m_securitiesBySymbol sm !! s)
}.

Lemma SecurityManager_empty_inv : SecurityManager_inv SecurityManager_empty.
Proof.
  split; simpl.
  - intros i. rewrite lookup_empty, map_size_empty. split; [by intros [??]|lia].
  - intros s i. by rewrite lookup_empty.
  - intros s i. by rewrite lookup_empty.
Qed.

Lemma addSecurity_fresh sm : SecurityManager_inv sm →
  m_securitiesById sm !! Z.of_nat (size (m_securitiesById sm)) = None.
Proof.
  intros Hinv. destruct (_ !! _) eqn:E; [|done].
  pose proof (proj1 (smi_ids sm Hinv _) (mk_is_Some _ _ E)). lia.
Qed.

Lemma addSecurity_inv sm symbol :
  SecurityManager_inv sm → SecurityManager_inv (SecurityManager_addSecurity sm symbol).1.
Proof.
  intros Hinv. pose proof (addSecurity_fresh sm Hinv) as Hfresh.
  unfold SecurityManager_addSecurity, map_insert_new. simpl. rewrite Hfresh.
  set (n := Z.of_nat (size (m_securitiesById sm))) in *.
  split; simpl.
  - intros i. rewrite map_size_insert_None, Nat2Z.inj_succ by done. fold n.
    rewrite lookup_insert. case_decide as Hd.
    + split; [lia|by eexists].
    + rewrite (smi_ids sm Hinv). fold n. lia.
  - intros s i Hs. destruct (m_securitiesBySymbol sm !! symbol) eqn:Hsym.
    + apply (smi_sym sm Hinv) in Hs. rewrite lookup_insert_ne; [done|]. congruence.
    + rewrite lookup_insert in Hs. case_decide as Hd; simplify_eq.
      * by rewrite lookup_insert_eq.
      * apply (smi_sym sm Hinv) in Hs. rewrite lookup_insert_ne; [done|]. congruence.
  - intros s i Hs. rewrite lookup_insert in Hs.
    destruct (m_securitiesBySymbol sm !! symbol) eqn:Hsym; case_decide as Hd; simplify_eq.
    + by eexists.
    + by apply (smi_id sm Hinv) in Hs.
    + rewrite lookup_insert_eq. by eexists.
    + rewrite lookup_insert. case_decide; [by eexists|]. by apply (smi_id sm Hinv) in Hs.
Qed.

Lemma addAll_inv sm symbols :
  SecurityManager_inv sm → SecurityManager_inv (SecurityManager_addAll sm symbols).1.
Proof.
  revert sm. induction symbols as [|s rest IH]; intros sm Hinv; [done|].
  cbn [SecurityManager_addAll]. pose proof (addSecurity_inv sm s Hinv) as H1.
  destruct (SecurityManager_addSecurity sm s) as [sm1 i]. simpl in H1.
  pose proof (IH sm1 H1) as H2. destruct (SecurityManager_addAll sm1 rest) eqn:E. exact H2.
Qed.

Lemma addSecurity_name sm symbol : SecurityManager_inv sm →
  let '(sm', i) := SecurityManager_addSecurity sm symbol in
  SecurityManager_getSecurityName sm' i = Ok symbol ∧
  (∀ j s, SecurityManager_getSecurityName sm j = Ok s → SecurityManager_getSecurityName sm' j = Ok s).
Proof.
  intros Hinv. pose proof (addSecurity_fresh sm Hinv) as Hf. unfold SecurityManager_addSecurity, SecurityManager_getSecurityName, map_insert_new, map_at. simpl.
  rewrite Hf. split; [by rewrite lookup_insert_eq|].
  intros j s Hj. destruct (m_securitiesById sm !! j) eqn:E; simplify_eq.
  rewrite lookup_insert_ne; [by rewrite E|]. congruence.
Qed.

(** The name of the identifier of a supported symbol is the symbol, and looking a
    symbol up fails, with [out_of_range], exactly when it is not supported. *)
Lemma getSecurityId_name sm symbol i : SecurityManager_inv sm →
  SecurityManager_getSecurityId sm symbol = Ok i →
  SecurityManager_getSecurityName sm i = Ok symbol ∧ SecurityManager_isSecuritySupported sm i = true.
Proof.
  unfold SecurityManager_getSecurityId, SecurityManager_getSecurityName, map_at. intros Hinv H.
  destruct (m_securitiesBySymbol sm !! symbol) eqn:E; simplify_eq.
  apply (smi_sym sm Hinv) in E. rewrite E. split; [done|].
  unfold SecurityManager_isSecuritySupported.
  pose proof (proj1 (smi_ids sm Hinv _) (mk_is_Some _ _ E)).
  apply andb_true_iff. rewrite Z.leb_le, Z.ltb_lt. lia.
Qed.

Lemma getSecurityId_unsupported sm symbol :
  SecurityManager_isSymbolSupported sm symbol = false ↔
  SecurityManager_getSecurityId sm symbol = Throw OutOfRange.
Proof.
  unfold SecurityManager_isSymbolSupported, SecurityManager_getSecurityId, map_at.
  by destruct (m_securitiesBySymbol sm !! symbol).
Qed.
