(* ===== verification/Order.v ===== *)
(** * [order_matcher/order.h], [order_matcher/order.cpp]

    Orders: their fields, constructors and setters, and the bookkeeping of an
    execution. *)
From Stdlib Require Import ZArith Lia Ascii String SpecFloat.
From stdpp Require Import base decidable list gmap strings.
From S2P Require Import Prelude.
From S2P Require Import MachineInt.
From S2P Require Import StringUtility.
From S2P Require Import Double.
From S2P Require Import SecurityManager.
Local Open Scope Z_scope.

Inductive OrderSide : Type := SIDE_NON_SUPPORTED | BUY | SELL.
Inductive OrderType : Type := TYPE_NON_SUPPORTED | LIMIT.
Inductive OrderStatus : Type :=
  | ACCEPTED | PARTIALLY_FILLED | FILLED | DONE_FOR_DAY | CANCELED | REPLACED
  | PENDING_CANCEL | STOPPED | REJECTED.

#[export] Instance OrderSide_eq_dec : EqDecision OrderSide.
Proof. solve_decision. Defined.
#[export] Instance OrderType_eq_dec : EqDecision OrderType.
Proof. solve_decision. Defined.
#[export] Instance OrderStatus_eq_dec : EqDecision OrderStatus.
Proof. solve_decision. Defined.

Record Order : Type := mkOrder {
  m_orderID : Z;
  m_clientOrderID : str;
  m_securityId : Z;
  m_sessionId : Z;
  m_side : OrderSide;
  m_orderType : OrderType;
  m_price : double;
  m_quantity : Z;
  m_openQuantity : Z;
  m_executedQuantity : Z;
  m_cancelled : bool;
  m_averageExecutedPrice : double;
  m_lastExecutedPrice : double;
  m_lastExecutedQuantity : Z;
  m_orderStatus : OrderStatus;
  m_lastExecution : OrderStatus
}.

#[export] Instance Order_eq_dec : EqDecision Order.
Proof. solve_decision. Defined.

(** The default constructor leaves some members uninitialised; their values are
    those of an arbitrary order [o], the previous contents of the memory. *)
Definition Order_default (o : Order) : Order :=
  mkOrder (m_orderID o) [] (m_securityId o) (m_sessionId o) (m_side o) (m_orderType o) dzero 0 0
    0 (m_cancelled o) dzero dzero 0 ACCEPTED ACCEPTED.

Definition Order_new (orderId : Z) (clientOrderID : str) (securityId sessionId : Z)
    (side : OrderSide) (type : OrderType) (price : double) (quantity : Z) : Order :=
  mkOrder orderId clientOrderID securityId sessionId side type price quantity
    quantity 0 false dzero dzero 0 ACCEPTED ACCEPTED.

Definition Order_setOrderId (id : Z) (o : Order) : Order :=
  mkOrder id (m_clientOrderID o) (m_securityId o) (m_sessionId o) (m_side o) (m_orderType o)
    (m_price o) (m_quantity o) (m_openQuantity o) (m_executedQuantity o) (m_cancelled o)
    (m_averageExecutedPrice o) (m_lastExecutedPrice o) (m_lastExecutedQuantity o) (m_orderStatus
    o) (m_lastExecution o).
Definition Order_setQuantity (quantity : Z) (o : Order) : Order :=
  mkOrder (m_orderID o) (m_clientOrderID o) (m_securityId o) (m_sessionId o) (m_side o)
    (m_orderType o) (m_price o) quantity quantity (m_executedQuantity o) (m_cancelled o)
    (m_averageExecutedPrice o) (m_lastExecutedPrice o) (m_lastExecutedQuantity o) (m_orderStatus
    o) (m_lastExecution o).
Definition Order_setPrice (price : double) (o : Order) : Order :=
  mkOrder (m_orderID o) (m_clientOrderID o) (m_securityId o) (m_sessionId o) (m_side o)
    (m_orderType o) price (m_quantity o) (m_openQuantity o) (m_executedQuantity o) (m_cancelled
    o) (m_averageExecutedPrice o) (m_lastExecutedPrice o) (m_lastExecutedQuantity o)
    (m_orderStatus o) (m_lastExecution o).
Definition Order_setClientOrderId (clientOrderId : str) (o : Order) : Order :=
  mkOrder (m_orderID o) clientOrderId (m_securityId o) (m_sessionId o) (m_side o) (m_orderType
    o) (m_price o) (m_quantity o) (m_openQuantity o) (m_executedQuantity o) (m_cancelled o)
    (m_averageExecutedPrice o) (m_lastExecutedPrice o) (m_lastExecutedQuantity o) (m_orderStatus
    o) (m_lastExecution o).
Definition Order_setSessionId (sessionId : Z) (o : Order) : Order :=
  mkOrder (m_orderID o) (m_clientOrderID o) (m_securityId o) sessionId (m_side o) (m_orderType
    o) (m_price o) (m_quantity o) (m_openQuantity o) (m_executedQuantity o) (m_cancelled o)
    (m_averageExecutedPrice o) (m_lastExecutedPrice o) (m_lastExecutedQuantity o) (m_orderStatus
    o) (m_lastExecution o).
Definition Order_setOrderType (type : OrderType) (o : Order) : Order :=
  mkOrder (m_orderID o) (m_clientOrderID o) (m_securityId o) (m_sessionId o) (m_side o) type
    (m_price o) (m_quantity o) (m_openQuantity o) (m_executedQuantity o) (m_cancelled o)
    (m_averageExecutedPrice o) (m_lastExecutedPrice o) (m_lastExecutedQuantity o) (m_orderStatus
    o) (m_lastExecution o).
Definition Order_setOrderSide (side : OrderSide) (o : Order) : Order :=
  mkOrder (m_orderID o) (m_clientOrderID o) (m_securityId o) (m_sessionId o) side (m_orderType
    o) (m_price o) (m_quantity o) (m_openQuantity o) (m_executedQuantity o) (m_cancelled o)
    (m_averageExecutedPrice o) (m_lastExecutedPrice o) (m_lastExecutedQuantity o) (m_orderStatus
    o) (m_lastExecution o).
Definition Order_setSecurityId (securityId : Z) (o : Order) : Order :=
  mkOrder (m_orderID o) (m_clientOrderID o) securityId (m_sessionId o) (m_side o) (m_orderType
    o) (m_price o) (m_quantity o) (m_openQuantity o) (m_executedQuantity o) (m_cancelled o)
    (m_averageExecutedPrice o) (m_lastExecutedPrice o) (m_lastExecutedQuantity o) (m_orderStatus
    o) (m_lastExecution o).
Definition Order_setOrderStatus (status : OrderStatus) (o : Order) : Order :=
  mkOrder (m_orderID o) (m_clientOrderID o) (m_securityId o) (m_sessionId o) (m_side o)
    (m_orderType o) (m_price o) (m_quantity o) (m_openQuantity o) (m_executedQuantity o)
    (m_cancelled o) (m_averageExecutedPrice o) (m_lastExecutedPrice o) (m_lastExecutedQuantity
    o) status (m_lastExecution o).
Definition Order_setLastExecutionType (execType : OrderStatus) (o : Order) : Order :=
  mkOrder (m_orderID o) (m_clientOrderID o) (m_securityId o) (m_sessionId o) (m_side o)
    (m_orderType o) (m_price o) (m_quantity o) (m_openQuantity o) (m_executedQuantity o)
    (m_cancelled o) (m_averageExecutedPrice o) (m_lastExecutedPrice o) (m_lastExecutedQuantity
    o) (m_orderStatus o) execType.
Definition Order_cancel (o : Order) : Order :=
  mkOrder (m_orderID o) (m_clientOrderID o) (m_securityId o) (m_sessionId o) (m_side o)
    (m_orderType o) (m_price o) (m_quantity o) (m_openQuantity o) (m_executedQuantity o) true
    (m_averageExecutedPrice o) (m_lastExecutedPrice o) (m_lastExecutedQuantity o) (m_orderStatus
    o) (m_lastExecution o).

Definition Order_isFilled (o : Order) : bool := m_executedQuantity o =? m_quantity o.
Definition Order_isPartiallyFilled (o : Order) : bool :=
  (0 <? m_executedQuantity o) && (m_executedQuantity o <? m_quantity o).
Definition Order_isCancelled (o : Order) : bool := m_cancelled o.

(** [execute]: the average price is recomputed in [double] arithmetic from the
    amounts before the execution; quantities are [long]s. *)
Definition Order_execute (price : double) (quantity : Z) (o : Order) : outcome Order :=
  total ← long_add quantity (m_executedQuantity o);
  let avg := dmul (m_averageExecutedPrice o) (of_long (m_executedQuantity o)) in
  let avg := dadd avg (dmul price (of_long quantity)) in
  let avg := ddiv avg (of_long total) in
  openQuantity ← long_sub (m_openQuantity o) quantity;
  executedQuantity ← long_add (m_executedQuantity o) quantity;
  Ok (mkOrder (m_orderID o) (m_clientOrderID o) (m_securityId o) (m_sessionId o) (m_side o)
    (m_orderType o) (m_price o) (m_quantity o) openQuantity executedQuantity (m_cancelled o) avg
    price quantity (m_orderStatus o) (m_lastExecution o)).

(** [toString] and [operator<<]. *)
Definition Order_toString (sm : SecurityManager) (o : Order) : outcome str :=
  let side := if bool_decide (m_side o = BUY) then $"BUY" else $"SELL" in
  name ← SecurityManager_getSecurityName sm (m_securityId o);
  format ($"Client session id: %d, Client ID: %s, Symbol: %s, Side: %s")
    [FInt (m_sessionId o); FStr (m_clientOrderID o); FStr name; FStr side].

(** ** Well-formed orders

    The quantities of an order add up, are not negative and fit a [long]; its
    price is a number. A [live] order has something left to execute: it may stand
    in a book. *)
Record order_ok (o : Order) : Prop := {
  ok_sum : m_executedQuantity o + m_openQuantity o = m_quantity o;
  ok_executed : 0 <= m_executedQuantity o;
  ok_open : 0 <= m_openQuantity o;
  ok_long : m_quantity o <= LONG_MAX;
  ok_price : is_nan (m_price o) = false
}.

Definition live (o : Order) : Prop := order_ok o ∧ 0 < m_openQuantity o.

(** What an execution leaves unchanged. *)
Definition same_terms (o o' : Order) : Prop :=
  m_orderID o' = m_orderID o ∧ m_clientOrderID o' = m_clientOrderID o ∧
  m_securityId o' = m_securityId o ∧ m_sessionId o' = m_sessionId o ∧
  m_side o' = m_side o ∧ m_orderType o' = m_orderType o ∧ m_price o' = m_price o ∧
  m_quantity o' = m_quantity o ∧ m_cancelled o' = m_cancelled o ∧
  m_orderStatus o' = m_orderStatus o ∧ m_lastExecution o' = m_lastExecution o.

#[export] Instance same_terms_refl : Reflexive same_terms.
Proof. intros o. unfold same_terms. by split_and!. Qed.
#[export] Instance same_terms_trans : Transitive same_terms.
Proof. unfold same_terms. intros o1 o2 o3 H1 H2. intuition congruence. Qed.

(** [o'] is [o] after executing [q] more at [price]. *)
Definition executed_by (price : double) (q : Z) (o o' : Order) : Prop :=
  same_terms o o' ∧ m_openQuantity o' = m_openQuantity o - q ∧
  m_executedQuantity o' = m_executedQuantity o + q ∧
  m_lastExecutedPrice o' = price ∧ m_lastExecutedQuantity o' = q.

Lemma execute_ok price q o :
  order_ok o → 0 <= q <= m_openQuantity o →
  ∃ o', Order_execute price q o = Ok o' ∧ executed_by price q o o' ∧ order_ok o'.
Proof.
  intros [Hs He Ho Hl Hp] Hq. unfold Order_execute.
  rewrite long_add_Ok by mlia. simpl. rewrite long_sub_Ok by mlia. simpl.
  rewrite long_add_Ok by mlia. simpl. eexists. split; [reflexivity|].
  unfold executed_by, same_terms. simpl. split_and!; try done.
  split; simpl; try done; lia.
Qed.

Lemma isFilled_open o : order_ok o → Order_isFilled o = true ↔ m_openQuantity o = 0.
Proof. intros [Hs _ _ _ _]. unfold Order_isFilled. rewrite Z.eqb_eq. lia. Qed.

Lemma live_not_filled o : live o → Order_isFilled o = false.
Proof.
  intros [Hok Ho]. apply not_true_iff_false. rewrite isFilled_open by done. lia.
Qed.

Lemma not_filled_live o : order_ok o → Order_isFilled o = false → live o.
Proof.
  intros Hok Hf. split; [done|]. apply not_true_iff_false in Hf.
  rewrite isFilled_open in Hf by done. destruct Hok. lia.
Qed.

(** A freshly constructed order with a positive quantity is live. *)
Lemma Order_new_live id cl sec ses side type price quantity :
  0 < quantity <= LONG_MAX → is_nan price = false →
  live (Order_new id cl sec ses side type price quantity).
Proof. intros Hq Hp. split; [split|]; simpl; try done; lia. Qed.
