(* ===== verification/OrderBook.v ===== *)
(** * [order_matcher/order_book.cpp]

    The two sides of the book of one security, insertion, search, removal and the
    matching loop. *)
From Stdlib Require Import ZArith Lia Ascii String SpecFloat Sorted.
From stdpp Require Import base decidable sets list gmap strings.
From S2P Require Import Prelude.
From S2P Require Import MachineInt.
From S2P Require Import StringUtility.
From S2P Require Import Double.
From S2P Require Import Multimap.
From S2P Require Import SecurityManager.
From S2P Require Import Order.
Local Open Scope Z_scope.

(** ** Definitions *)

Abbreviation side_map := (list (double * Order)).

Record OrderBook : Type := mkOrderBook {
  m_bidOrders : side_map;
  m_askOrders : side_map
}.

Definition OrderBook_empty : OrderBook := mkOrderBook [] [].

(** [std::greater<double>] and [std::less<double>]. *)
Definition greater (a b : double) : bool := dlt b a.
Definition less (a b : double) : bool := dlt a b.

Definition OrderBook_isEmpty (book : OrderBook) : bool :=
  bool_decide (length (m_bidOrders book) = 0%nat) && bool_decide (length (m_askOrders book) = 0%nat).

(** A visitor is a state and what [visit] does to it. *)
Definition OrderBook_accept {S} (visit : Order → S → outcome S) (book : OrderBook) (s : S) : outcome S :=
  s ← foldl (λ acc e, s ← acc; visit e.2 s) (Ok s) (m_bidOrders book);
  foldl (λ acc e, s ← acc; visit e.2 s) (Ok s) (m_askOrders book).

Definition OrderBook_insert (order : Order) (book : OrderBook) : OrderBook :=
  if bool_decide (m_side order = BUY) then
    mkOrderBook (mm_insert greater (m_price order) order (m_bidOrders book)) (m_askOrders book)
  else
    mkOrderBook (m_bidOrders book) (mm_insert less (m_price order) order (m_askOrders book)).

(** A pointer to an order of the book: the side that holds it and its position. *)
Record OrderPtr : Type := mkOrderPtr { ptr_bid : bool; ptr_pos : nat }.

Definition OrderBook_find (clientID : str) (sessionId : Z) (side : OrderSide) (book : OrderBook)
    : option (OrderPtr * Order) :=
  let P := λ o, bool_decide (m_sessionId o = sessionId) && bool_decide (m_clientOrderID o = clientID) in
  match side with
  | BUY => (λ r, (mkOrderPtr true r.1, r.2)) <$> mm_scan P (m_bidOrders book)
  | SELL => (λ r, (mkOrderPtr false r.1, r.2)) <$> mm_scan P (m_askOrders book)
  | SIDE_NON_SUPPORTED => None
  end.

(** The assignment of an order through a pointer to it. *)
Definition OrderBook_assign (p : OrderPtr) (o : Order) (book : OrderBook) : OrderBook :=
  if ptr_bid p then mkOrderBook (mm_assign (ptr_pos p) o (m_bidOrders book)) (m_askOrders book)
  else mkOrderBook (m_bidOrders book) (mm_assign (ptr_pos p) o (m_askOrders book)).

Definition OrderBook_erase (order : Order) (book : OrderBook) : OrderBook :=
  let clientId := m_clientOrderID order in
  let sessionId := m_sessionId order in
  let P := λ o, bool_decide (m_clientOrderID o = clientId) && bool_decide (m_sessionId o = sessionId) in
  match m_side order with
  | BUY =>
      match mm_scan P (m_bidOrders book) with
      | Some (i, _) => mkOrderBook (mm_erase i (m_bidOrders book)) (m_askOrders book)
      | None => book
      end
  | SELL =>
      match mm_scan P (m_askOrders book) with
      | Some (i, _) => mkOrderBook (m_bidOrders book) (mm_erase i (m_askOrders book))
      | None => book
      end
  | SIDE_NON_SUPPORTED => book
  end.

Definition OrderBook_matchTwoOrders (bid ask : Order) : outcome (Order * Order) :=
  let price := m_price ask in
  let quantity :=
    if m_openQuantity ask <? m_openQuantity bid then m_openQuantity ask else m_openQuantity bid in
  bid' ← Order_execute price quantity bid;
  ask' ← Order_execute price quantity ask;
  Ok (bid', ask').

(** One round of the loop: [None] when it returns, otherwise the book and the two
    orders pushed to [processedOrders]. *)
Definition OrderBook_matchStep (book : OrderBook) : outcome (option (OrderBook * list Order)) :=
  match m_bidOrders book, m_askOrders book with
  | (kb, bid) :: bids, (ka, ask) :: asks =>
      if dge (m_price bid) (m_price ask) then
        '(bid', ask') ← OrderBook_matchTwoOrders bid ask;
        let bids' := if Order_isFilled bid' then bids else (kb, bid') :: bids in
        let asks' := if Order_isFilled ask' then asks else (ka, ask') :: asks in
        Ok (Some (mkOrderBook bids' asks', [bid'; ask']))
      else Ok None
  | _, _ => Ok None
  end.

Fixpoint OrderBook_matchLoop (fuel : nat) (book : OrderBook) (processedOrders : list Order)
    : outcome (OrderBook * list Order * bool) :=
  match fuel with
  | O => NoFuel
  | S fuel' =>
      step ← OrderBook_matchStep book;
      match step with
      | None => Ok (book, processedOrders, bool_decide (processedOrders ≠ []))
      | Some (book', pushed) => OrderBook_matchLoop fuel' book' (processedOrders ++ pushed)
      end
  end.

(** Every round fills an order, so one round per order and the last test are enough. *)
Definition OrderBook_fuel (book : OrderBook) : nat :=
  S (length (m_bidOrders book) + length (m_askOrders book)).

Definition OrderBook_processMatching (book : OrderBook) (processedOrders : list Order)
    : outcome (OrderBook * list Order * bool) :=
  OrderBook_matchLoop (OrderBook_fuel book) book processedOrders.

(** ** The invariant of a book *)

Definition number (k : double) : Prop := is_nan k = false.

#[export] Instance greater_swo : StrictWeakOrder number greater.
Proof.
  split; unfold greater.
  - apply dlt_irrefl.
  - intros a b c Ha Hb Hc H1 H2. by apply (dlt_trans c b a).
  - intros a b c Ha Hb Hc H1 H2. by apply (dlt_false_trans c b a).
Qed.

#[export] Instance less_swo : StrictWeakOrder number less.
Proof.
  split; unfold less.
  - apply dlt_irrefl.
  - intros a b c Ha Hb Hc H1 H2. by apply (dlt_trans a b c).
  - intros a b c Ha Hb Hc H1 H2. by apply (dlt_false_trans a b c).
Qed.

Definition entry_ok (buy : bool) (e : double * Order) : Prop :=
  live e.2 ∧ e.1 = m_price e.2 ∧ bool_decide (m_side e.2 = BUY) = buy.

Record book_ok (book : OrderBook) : Prop := {
  bok_bids : Forall (entry_ok true) (m_bidOrders book);
  bok_asks : Forall (entry_ok false) (m_askOrders book);
  bok_bids_sorted : mm_sorted greater (m_bidOrders book);
  bok_asks_sorted : mm_sorted less (m_askOrders book)
}.

(** No bid reaches an ask. *)
Definition uncrossed (book : OrderBook) : Prop :=
  ∀ b a, b ∈ m_bidOrders book → a ∈ m_askOrders book → dge (m_price b.2) (m_price a.2) = false.

Lemma entry_number buy e : entry_ok buy e → number e.1.
Proof. intros ([[_ _ _ _ Hp] _] & -> & _). exact Hp. Qed.

Lemma entries_valid buy l : Forall (entry_ok buy) l → mm_valid number l.
Proof. intros H. eapply Forall_impl; [exact H|]. apply entry_number. Qed.

Lemma book_empty_ok : book_ok OrderBook_empty.
Proof. split; constructor. Qed.

Lemma insert_ok o book : live o → book_ok book → book_ok (OrderBook_insert o book).
Proof.
  intros Ho [Hb Ha Hbs Has]. pose proof (ok_price o (proj1 Ho)) as Hp.
  unfold OrderBook_insert. case_bool_decide as Hside; split; simpl; try done.
  - apply mm_insert_Forall. split; [|done]. split_and!; try done. by apply bool_decide_true.
  - apply (mm_insert_sorted number greater); try done. by eapply entries_valid.
  - apply mm_insert_Forall. split; [|done]. split_and!; try done. by apply bool_decide_false.
  - apply (mm_insert_sorted number less); try done. by eapply entries_valid.
Qed.

(** ** One round of matching *)

Lemma matchTwoOrders_ok bid ask : live bid → live ask →
  ∃ bid' ask', let q := Z.min (m_openQuantity bid) (m_openQuantity ask) in
    OrderBook_matchTwoOrders bid ask = Ok (bid', ask') ∧
    executed_by (m_price ask) q bid bid' ∧ executed_by (m_price ask) q ask ask' ∧
    order_ok bid' ∧ order_ok ask'.
Proof.
  intros [Hb Hb0] [Ha Ha0]. unfold OrderBook_matchTwoOrders.
  set (q := Z.min (m_openQuantity bid) (m_openQuantity ask)).
  assert ((if m_openQuantity ask <? m_openQuantity bid then m_openQuantity ask
           else m_openQuantity bid) = q) as -> by (subst q; case_match; lia).
  destruct (execute_ok (m_price ask) q bid Hb ltac:(lia)) as (bid' & -> & Eb & Hb').
  destruct (execute_ok (m_price ask) q ask Ha ltac:(lia)) as (ask' & -> & Ea & Ha').
  exists bid', ask'. done.
Qed.

(** What a pushed pair of orders tells: a trade at the price of the ask, within the
    limit of the bid, of the same positive quantity on both sides, that fills at
    least one of the two. *)
Record trade_ok (t : Order * Order) : Prop := {
  tr_bid : order_ok t.1;
  tr_ask : order_ok t.2;
  tr_sides : m_side t.1 = BUY ∧ m_side t.2 ≠ BUY;
  tr_price : m_lastExecutedPrice t.1 = m_price t.2 ∧ m_lastExecutedPrice t.2 = m_price t.2;
  tr_limit : dge (m_price t.1) (m_lastExecutedPrice t.1) = true;
  tr_quantity : 0 < m_lastExecutedQuantity t.1 ∧ m_lastExecutedQuantity t.2 = m_lastExecutedQuantity t.1;
  tr_filled : Order_isFilled t.1 = true ∨ Order_isFilled t.2 = true
}.

Definition processed_of (trades : list (Order * Order)) : list Order :=
  concat ((λ t, [t.1; t.2]) <$> trades).
Definition volume (trades : list (Order * Order)) : Z :=
  list_sum_Z ((λ t, m_lastExecutedQuantity t.1) <$> trades).
Definition open_total (l : side_map) : Z := list_sum_Z ((λ e, m_openQuantity e.2) <$> l).

Lemma open_total_cons k o l : open_total ((k, o) :: l) = m_openQuantity o + open_total l.
Proof. reflexivity. Qed.

(** [suffix_exec l l']: orders of [l] were executed from the front only; an order
    leaves only when it is filled. *)
Inductive suffix_exec : side_map → side_map → Prop :=
  | se_refl l : suffix_exec l l
  | se_pop e l l' : suffix_exec l l' → suffix_exec (e :: l) l'
  | se_exec k o o' l l' :
      same_terms o o' → m_openQuantity o' < m_openQuantity o →
      suffix_exec ((k, o') :: l) l' → suffix_exec ((k, o) :: l) l'.

Lemma suffix_exec_trans l1 l2 l3 : suffix_exec l1 l2 → suffix_exec l2 l3 → suffix_exec l1 l3.
Proof. induction 1; intros; eauto using suffix_exec. Qed.

(** The rest of a side after its first order [o] became [o']. *)
Definition rest_of (k : double) (o' : Order) (l : side_map) : side_map :=
  if Order_isFilled o' then l else (k, o') :: l.

Section rest.
Context (buy : bool) (R : double * Order → double * Order → Prop).
Context (HR : ∀ k o o' x, same_terms o o' → R (k, o) x → R (k, o') x).

Lemma rest_entries k o o' p q l :
  Forall (entry_ok buy) ((k, o) :: l) → executed_by p q o o' → order_ok o' →
  Forall (entry_ok buy) (rest_of k o' l).
Proof.
  intros [(Hl & Hk & Hs) Hf]%Forall_cons (Ht & _) Hok. unfold rest_of.
  destruct (Order_isFilled o') eqn:E; [done|]. constructor; [|done].
  split_and!; simpl in *; [by apply not_filled_live| |].
  - destruct Ht as (_ & _ & _ & _ & _ & _ & -> & _). done.
  - destruct Ht as (_ & _ & _ & _ & -> & _). done.
Qed.

Lemma rest_sorted k o o' p q l :
  StronglySorted R ((k, o) :: l) → executed_by p q o o' → StronglySorted R (rest_of k o' l).
Proof.
  intros [Hs Hh]%StronglySorted_inv (Ht & _). unfold rest_of. case_match; [done|].
  constructor; [done|]. eapply Forall_impl; [exact Hh|]. eauto.
Qed.

Lemma rest_suffix k o o' p q l :
  executed_by p q o o' → 0 < q → suffix_exec ((k, o) :: l) (rest_of k o' l).
Proof.
  intros (Ht & Ho & _) Hq. unfold rest_of. case_match.
  - apply se_pop, se_refl.
  - apply (se_exec k o o'); [done|lia|apply se_refl].
Qed.

Lemma rest_open_total k o o' p q l :
  executed_by p q o o' → order_ok o' → open_total ((k, o) :: l) = open_total (rest_of k o' l) + q.
Proof.
  intros (_ & Ho & _) Hok. unfold rest_of.
  destruct (Order_isFilled o') eqn:E; rewrite !open_total_cons; [|lia].
  apply isFilled_open in E; [lia|done].
Qed.

Lemma rest_length k o' l : (length (rest_of k o' l) <= S (length l))%nat ∧
  (Order_isFilled o' = true → length (rest_of k o' l) = length l).
Proof. unfold rest_of. case_match; simpl; split; intros; (done || lia). Qed.
End rest.

Definition book_size (book : OrderBook) : nat :=
  length (m_bidOrders book) + length (m_askOrders book).

Record step_ok (book book' : OrderBook) (t : Order * Order) : Prop := {
  st_book : book_ok book';
  st_trade : trade_ok t;
  st_size : (book_size book' < book_size book)%nat;
  st_bids : suffix_exec (m_bidOrders book) (m_bidOrders book');
  st_asks : suffix_exec (m_askOrders book) (m_askOrders book');
  st_bid_open : open_total (m_bidOrders book) = open_total (m_bidOrders book') + m_lastExecutedQuantity t.1;
  st_ask_open : open_total (m_askOrders book) = open_total (m_askOrders book') + m_lastExecutedQuantity t.1
}.

Lemma matchStep_trade kb bid bids ka ask asks :
  let book := mkOrderBook ((kb, bid) :: bids) ((ka, ask) :: asks) in
  book_ok book → dge (m_price bid) (m_price ask) = true →
  ∃ bid' ask', OrderBook_matchTwoOrders bid ask = Ok (bid', ask') ∧
    OrderBook_matchStep book =
      Ok (Some (mkOrderBook (rest_of kb bid' bids) (rest_of ka ask' asks), [bid'; ask'])) ∧
    step_ok book (mkOrderBook (rest_of kb bid' bids) (rest_of ka ask' asks)) (bid', ask').
Proof.
  intros book [Hb Ha Hbs Has] Hge. simpl in *.
  destruct (proj1 (Forall_cons _ _ _) Hb) as [(Hlb & Hkb & Hsb) Hbl]. simpl in *.
  destruct (proj1 (Forall_cons _ _ _) Ha) as [(Hla & Hka & Hsa) Hal]. simpl in *.
  destruct (matchTwoOrders_ok bid ask Hlb Hla) as (bid' & ask' & Hm & Eb & Ea & Hb' & Ha').
  set (q := Z.min (m_openQuantity bid) (m_openQuantity ask)) in *.
  assert (0 < q) as Hq by (destruct Hlb, Hla; lia).
  exists bid', ask'. split; [done|]. unfold OrderBook_matchStep. simpl. rewrite Hge, Hm. simpl.
  split; [done|].
  destruct Eb as (Tb & Eb). destruct Ea as (Ta & Ea).
  pose proof Tb as (_ & _ & _ & _ & Tsb & _ & Tpb & _).
  pose proof Ta as (_ & _ & _ & _ & Tsa & _ & Tpa & _).
  split; simpl.
  - split; simpl.
    + by eapply rest_entries.
    + by eapply rest_entries.
    + by eapply rest_sorted.
    + by eapply rest_sorted.
  - destruct Eb as (? & ? & Ep & Eq), Ea as (? & ? & Ep' & Eq').
    split; simpl; try done; rewrite ?Ep, ?Ep', ?Eq, ?Eq', ?Tsb, ?Tsa, ?Tpb, ?Tpa; try done.
    + apply bool_decide_eq_true in Hsb. by apply bool_decide_eq_false in Hsa.
    + destruct (decide (q = m_openQuantity bid)).
      * left. apply isFilled_open; [done|lia].
      * right. apply isFilled_open; [done|lia].
  - unfold book_size. simpl.
    destruct (rest_length kb bid' bids) as [Lb Lb'], (rest_length ka ask' asks) as [La La'].
    assert (Order_isFilled bid' = true ∨ Order_isFilled ask' = true) as [F|F].
    { destruct (decide (q = m_openQuantity bid)).
      - left. apply isFilled_open; [done|lia].
      - right. apply isFilled_open; [done|lia]. }
    + rewrite Lb' by done. lia.
    + rewrite La' by done. lia.
  - by eapply (rest_suffix kb bid bid' (m_price ask) q).
  - by eapply (rest_suffix ka ask ask' (m_price ask) q).
  - destruct Eb as (Ho & He & Hp & Hlq). rewrite Hlq.
    by apply (rest_open_total kb bid bid' (m_price ask)).
  - destruct Eb as (Ho & He & Hp & Hlq). rewrite Hlq.
    by apply (rest_open_total ka ask ask' (m_price ask)).
Qed.

(** ** The matching loop *)

Lemma sorted_head (comp : double → double → bool) (e x : double * Order) (l : side_map) :
  mm_sorted comp (e :: l) → x ∈ l → comp x.1 e.1 = false.
Proof.
  intros [_ Hh]%StronglySorted_inv Hx. by eapply Forall_forall in Hh.
Qed.

(** When the two best prices do not cross, nothing does. *)
Lemma heads_uncrossed kb bid bids ka ask asks :
  let book := mkOrderBook ((kb, bid) :: bids) ((ka, ask) :: asks) in
  book_ok book → dge (m_price bid) (m_price ask) = false → uncrossed book.
Proof.
  intros book [Hb Ha Hbs Has] Hge b a Hbin Hain. simpl in *.
  assert (number (m_price b.2) ∧ b.1 = m_price b.2) as [Nb Eb].
  { eapply Forall_forall in Hb as H; [|exact Hbin].
    split; [|apply H]. destruct H as ([[] _] & _). done. }
  assert (number (m_price a.2) ∧ a.1 = m_price a.2) as [Na Ea].
  { eapply Forall_forall in Ha as H; [|exact Hain].
    split; [|apply H]. destruct H as ([[] _] & _). done. }
  apply Forall_cons in Hb as [(Hlb & Hkb & _) _], Ha as [(Hla & Hka & _) _]. simpl in *.
  pose proof (ok_price _ (proj1 Hlb)) as Nbid. pose proof (ok_price _ (proj1 Hla)) as Nask.
  assert (dlt (m_price bid) (m_price b.2) = false) as H1.
  { apply elem_of_cons in Hbin as [->|Hin]; [apply dlt_irrefl|].
    pose proof (sorted_head _ _ _ _ Hbs Hin) as H. unfold greater in H. simpl in H. congruence. }
  assert (dlt (m_price a.2) (m_price ask) = false) as H2.
  { apply elem_of_cons in Hain as [->|Hin]; [apply dlt_irrefl|].
    pose proof (sorted_head _ _ _ _ Has Hin) as H. unfold less in H. simpl in H. congruence. }
  rewrite dge_dlt, negb_false_iff in Hge |- * by done.
  destruct (dlt (m_price b.2) (m_price a.2)) eqn:E; [done|exfalso].
  pose proof (dlt_false_trans (m_price ask) (m_price a.2) (m_price b.2) Nask Na Nb H2 E) as H3.
  pose proof (dlt_false_trans (m_price ask) (m_price b.2) (m_price bid) Nask Nb Nbid H3 H1).
  congruence.
Qed.

Lemma matchStep_spec book : book_ok book →
  (OrderBook_matchStep book = Ok None ∧ uncrossed book) ∨
  (∃ book' t, OrderBook_matchStep book = Ok (Some (book', [t.1; t.2])) ∧ step_ok book book' t).
Proof.
  intros Hok. destruct book as [[|[kb bid] bids] [|[ka ask] asks]];
    try (left; split; [reflexivity|]; intros b a Hb Ha; simpl in *;
         first [by apply elem_of_nil in Hb | by apply elem_of_nil in Ha]).
  destruct (dge (m_price bid) (m_price ask)) eqn:Hge.
  - right. destruct (matchStep_trade kb bid bids ka ask asks Hok Hge) as (b & a & _ & Hs & Hst).
    by exists (mkOrderBook (rest_of kb b bids) (rest_of ka a asks)), (b, a).
  - left. split; [unfold OrderBook_matchStep; simpl; by rewrite Hge|]. by apply heads_uncrossed.
Qed.

Record match_result (book book' : OrderBook) (trades : list (Order * Order)) : Prop := {
  mr_book : book_ok book';
  mr_uncrossed : uncrossed book';
  mr_trades : Forall trade_ok trades;
  mr_bids : suffix_exec (m_bidOrders book) (m_bidOrders book');
  mr_asks : suffix_exec (m_askOrders book) (m_askOrders book');
  mr_bid_open : open_total (m_bidOrders book) = open_total (m_bidOrders book') + volume trades;
  mr_ask_open : open_total (m_askOrders book) = open_total (m_askOrders book') + volume trades;
  mr_count : (length trades <= book_size book - book_size book')%nat
}.

Lemma processed_of_cons t trades : processed_of (t :: trades) = [t.1; t.2] ++ processed_of trades.
Proof. reflexivity. Qed.
Lemma volume_cons t trades : volume (t :: trades) = m_lastExecutedQuantity t.1 + volume trades.
Proof. reflexivity. Qed.

Lemma suffix_exec_length l l' : suffix_exec l l' → (length l' <= length l)%nat.
Proof. induction 1; simpl in *; lia. Qed.

Lemma match_result_size book book' trades :
  match_result book book' trades → (book_size book' <= book_size book)%nat.
Proof.
  intros H. pose proof (suffix_exec_length _ _ (mr_bids _ _ _ H)).
  pose proof (suffix_exec_length _ _ (mr_asks _ _ _ H)). unfold book_size. lia.
Qed.

Lemma match_result_step book book1 book' t trades :
  step_ok book book1 t → match_result book1 book' trades → match_result book book' (t :: trades).
Proof.
  intros Hs Hm. pose proof (match_result_size _ _ _ Hm) as Hsize.
  destruct Hs as [H1 H2 H3 H4 H5 H6 H7], Hm as [M1 M2 M3 M4 M5 M6 M7 M8].
  split; try done.
  - by constructor.
  - by eapply suffix_exec_trans.
  - by eapply suffix_exec_trans.
  - rewrite volume_cons. lia.
  - rewrite volume_cons. lia.
  - simpl. lia.
Qed.

Lemma matchLoop_spec fuel book processed : book_ok book → (book_size book < fuel)%nat →
  ∃ book' trades,
    OrderBook_matchLoop fuel book processed =
      Ok (book', processed ++ processed_of trades, bool_decide (processed ++ processed_of trades ≠ [])) ∧
    match_result book book' trades.
Proof.
  revert book processed. induction fuel as [|fuel IH]; intros book processed Hok Hf; [lia|].
  simpl. destruct (matchStep_spec book Hok) as [[-> Hu]|(book1 & t & -> & Hs)]; simpl.
  - exists book, []. unfold processed_of. simpl. rewrite app_nil_r. split; [done|].
    split; try done; try apply se_refl; unfold volume; simpl; lia.
  - destruct (IH book1 (processed ++ [t.1; t.2]) (st_book _ _ _ Hs)) as (book' & trades & -> & Hm).
    { pose proof (st_size _ _ _ Hs). lia. }
    exists book', (t :: trades). rewrite processed_of_cons, app_assoc. split; [done|].
    by eapply match_result_step.
Qed.

Lemma processMatching_spec book processed : book_ok book →
  ∃ book' trades,
    OrderBook_processMatching book processed =
      Ok (book', processed ++ processed_of trades, bool_decide (processed ++ processed_of trades ≠ [])) ∧
    match_result book book' trades.
Proof. intros Hok. apply matchLoop_spec; [done|]. unfold OrderBook_fuel, book_size. lia. Qed.

(** More fuel does not change the result. *)
Lemma matchLoop_fuel fuel fuel' book processed r :
  OrderBook_matchLoop fuel book processed = r → r ≠ NoFuel → (fuel <= fuel')%nat →
  OrderBook_matchLoop fuel' book processed = r.
Proof.
  revert fuel' book processed. induction fuel as [|fuel IH]; intros fuel' book processed Hr Hn Hf.
  - simpl in Hr. congruence.
  - destruct fuel' as [|fuel']; [lia|]. simpl in *.
    destruct (OrderBook_matchStep book) as [[[book1 pushed]|]| | |]; simpl in *; try done.
    apply IH; [done|done|lia].
Qed.

(** ** Reference semantics of an arriving order

    An order that arrives at an uncrossed book walks the opposite side from the
    best price on, until it is filled or the next price is out of its limit; what
    is left of it takes its place on its own side. *)

(** A trade of as much as both can, at the price of the ask. *)
Definition sweep_trade (bid ask : Order) : outcome (Order * Order) :=
  let quantity := m_openQuantity bid `min` m_openQuantity ask in
  bid' ← Order_execute (m_price ask) quantity bid;
  ask' ← Order_execute (m_price ask) quantity ask;
  Ok (bid', ask').

Fixpoint sweep_asks (bid : Order) (asks : side_map) : outcome (option Order * side_map * list Order) :=
  match asks with
  | [] => Ok (Some bid, [], [])
  | (k, ask) :: asks' =>
      if dge (m_price bid) (m_price ask) then
        '(bid', ask') ← sweep_trade bid ask;
        if Order_isFilled bid' then Ok (None, rest_of k ask' asks', [bid'; ask'])
        else '(rem, rest, fills) ← sweep_asks bid' asks'; Ok (rem, rest, bid' :: ask' :: fills)
      else Ok (Some bid, asks, [])
  end.

Fixpoint sweep_bids (ask : Order) (bids : side_map) : outcome (option Order * side_map * list Order) :=
  match bids with
  | [] => Ok (Some ask, [], [])
  | (k, bid) :: bids' =>
      if dge (m_price bid) (m_price ask) then
        '(bid', ask') ← sweep_trade bid ask;
        if Order_isFilled ask' then Ok (None, rest_of k bid' bids', [bid'; ask'])
        else '(rem, rest, fills) ← sweep_bids ask' bids'; Ok (rem, rest, bid' :: ask' :: fills)
      else Ok (Some ask, bids, [])
  end.

Lemma matchTwoOrders_sweep bid ask : OrderBook_matchTwoOrders bid ask = sweep_trade bid ask.
Proof.
  unfold OrderBook_matchTwoOrders, sweep_trade.
  assert ((if m_openQuantity ask <? m_openQuantity bid then m_openQuantity ask else m_openQuantity bid) =
    m_openQuantity bid `min` m_openQuantity ask) as -> by (destruct (Z.ltb_spec (m_openQuantity ask) (m_openQuantity bid)); lia).
  done.
Qed.

Definition place (comp : double → double → bool) (rem : option Order) (l : side_map) : side_map :=
  match rem with Some o => mm_insert comp (m_price o) o l | None => l end.

Lemma uncrossed_step book : uncrossed book → OrderBook_matchStep book = Ok None.
Proof.
  destruct book as [[|[kb b] bids] [|[ka a] asks]]; try done.
  intros Hu. unfold OrderBook_matchStep. simpl.
  pose proof (Hu (kb, b) (ka, a)) as H. simpl in H. rewrite H by set_solver. done.
Qed.

Lemma matchLoop_uncrossed fuel book processed : uncrossed book → (0 < fuel)%nat →
  OrderBook_matchLoop fuel book processed = Ok (book, processed, bool_decide (processed ≠ [])).
Proof. intros Hu Hf. destruct fuel; [lia|]. simpl. by rewrite uncrossed_step. Qed.

(** Every entry of [rest_of] carries the terms of an entry of the side it comes from. *)
Lemma rest_of_elem k o o' (l : side_map) e :
  same_terms o o' → e ∈ rest_of k o' l → ∃ e0, e0 ∈ (k, o) :: l ∧ m_price e.2 = m_price e0.2.
Proof.
  intros Ht He. unfold rest_of in He. case_match.
  - exists e. split; [set_solver|done].
  - apply elem_of_cons in He as [->|He]; [|exists e; split; [set_solver|done]].
    exists (k, o). split; [set_solver|]. simpl. apply Ht.
Qed.

Lemma mm_insert_front (comp : double → double → bool) k o (l : side_map) :
  (∀ e, e ∈ l → comp k e.1 = true) → mm_insert comp k o l = (k, o) :: l.
Proof. intros H. destruct l as [|e l]; simpl; [done|]. by rewrite H by set_solver. Qed.

Lemma sweep_asks_loop asks o bids k fuel processed :
  book_ok (mkOrderBook ((k, o) :: bids) asks) →
  uncrossed (mkOrderBook bids asks) →
  (∀ e, e ∈ bids → greater k e.1 = true) →
  (length asks + 1 < fuel)%nat →
  OrderBook_matchLoop fuel (mkOrderBook ((k, o) :: bids) asks) processed =
    '(rem, rest, fills) ← sweep_asks o asks;
    Ok (mkOrderBook (place greater rem bids) rest, processed ++ fills,
        bool_decide (processed ++ fills ≠ [])).
Proof.
  revert o fuel processed. induction asks as [|[ka a] asks IH]; intros o fuel processed Hok Hu Hg Hf.
  - pose proof (bok_bids _ Hok) as [(_ & Hk & _) _]%Forall_cons. simpl in Hk. subst k.
    rewrite matchLoop_uncrossed; [|intros ? ? _ Ha; by apply elem_of_nil in Ha|lia].
    simpl. by rewrite app_nil_r, mm_insert_front.
  - assert (k = m_price o) as Hk.
    { pose proof (bok_bids _ Hok) as [(_ & Hk & _) _]%Forall_cons. done. }
    simpl sweep_asks. destruct (dge (m_price o) (m_price a)) eqn:Hge.
    + destruct (matchStep_trade k o bids ka a asks Hok Hge) as (o' & a' & Hm & Hs & Hst).
      destruct fuel as [|fuel]; [simpl in Hf; lia|]. simpl OrderBook_matchLoop.
      rewrite Hs, <- matchTwoOrders_sweep, Hm. cbn [mbind outcome_bind].
      assert (same_terms o o' ∧ same_terms a a') as [To Ta].
      { pose proof (bok_bids _ Hok) as [(Hlo & _) _]%Forall_cons.
        pose proof (bok_asks _ Hok) as [(Hla & _) _]%Forall_cons.
        destruct (matchTwoOrders_ok o a Hlo Hla) as (x & y & Hxy & Ex & Ey & _).
        simpl in Hm, Hxy. rewrite Hm in Hxy. simplify_eq. split; [apply Ex|apply Ey]. }
      destruct (Order_isFilled o') eqn:Fo.
      * cbn [mbind outcome_bind place]. unfold rest_of at 1. rewrite Fo.
        rewrite matchLoop_uncrossed; [done| |simpl in Hf; lia].
        intros b x Hb Hx. simpl in *. destruct (rest_of_elem ka a a' asks x Ta Hx) as (x0 & Hx0 & ->).
        by apply Hu.
      * assert (Order_isFilled a' = true) as Fa.
        { destruct (tr_filled _ (st_trade _ _ _ Hst)); [simpl in *; congruence|done]. }
        pose proof (st_book _ _ _ Hst) as Hok'. unfold rest_of in Hok' |- *. rewrite Fo, Fa in *.
        rewrite IH; [|done| |done|simpl in Hf; lia].
        -- destruct (sweep_asks o' asks) as [[[rem rest] fills]| | |]; simpl; [|done..].
           by rewrite <- app_assoc.
        -- intros b x Hb Hx. apply Hu; set_solver.
    + cbn [mbind outcome_bind place].
      rewrite matchLoop_uncrossed; [|by apply heads_uncrossed|simpl in Hf; lia].
      rewrite app_nil_r. subst k. by rewrite mm_insert_front.
Qed.

Lemma sweep_bids_loop bids o asks k fuel processed :
  book_ok (mkOrderBook bids ((k, o) :: asks)) →
  uncrossed (mkOrderBook bids asks) →
  (∀ e, e ∈ asks → less k e.1 = true) →
  (length bids + 1 < fuel)%nat →
  OrderBook_matchLoop fuel (mkOrderBook bids ((k, o) :: asks)) processed =
    '(rem, rest, fills) ← sweep_bids o bids;
    Ok (mkOrderBook rest (place less rem asks), processed ++ fills,
        bool_decide (processed ++ fills ≠ [])).
Proof.
  revert o fuel processed. induction bids as [|[kb b] bids IH]; intros o fuel processed Hok Hu Hg Hf.
  - pose proof (bok_asks _ Hok) as [(_ & Hk & _) _]%Forall_cons. simpl in Hk. subst k.
    rewrite matchLoop_uncrossed; [|intros ? ? Hb; by apply elem_of_nil in Hb|lia].
    simpl. by rewrite app_nil_r, mm_insert_front.
  - assert (k = m_price o) as Hk.
    { pose proof (bok_asks _ Hok) as [(_ & Hk & _) _]%Forall_cons. done. }
    simpl sweep_bids. destruct (dge (m_price b) (m_price o)) eqn:Hge.
    + destruct (matchStep_trade kb b bids k o asks Hok Hge) as (b' & o' & Hm & Hs & Hst).
      destruct fuel as [|fuel]; [simpl in Hf; lia|]. simpl OrderBook_matchLoop.
      rewrite Hs, <- matchTwoOrders_sweep, Hm. cbn [mbind outcome_bind].
      assert (same_terms o o' ∧ same_terms b b') as [To Tb].
      { pose proof (bok_bids _ Hok) as [(Hlb & _) _]%Forall_cons.
        pose proof (bok_asks _ Hok) as [(Hlo & _) _]%Forall_cons.
        destruct (matchTwoOrders_ok b o Hlb Hlo) as (x & y & Hxy & Ex & Ey & _).
        simpl in Hm, Hxy. rewrite Hm in Hxy. simplify_eq. split; [apply Ey|apply Ex]. }
      destruct (Order_isFilled o') eqn:Fo.
      * cbn [mbind outcome_bind place]. replace (rest_of k o' asks) with asks by (unfold rest_of; by rewrite Fo).
        rewrite matchLoop_uncrossed; [done| |simpl in Hf; lia].
        intros x a Hx Ha. simpl in *. destruct (rest_of_elem kb b b' bids x Tb Hx) as (x0 & Hx0 & ->).
        by apply Hu.
      * assert (Order_isFilled b' = true) as Fb.
        { destruct (tr_filled _ (st_trade _ _ _ Hst)); [done|simpl in *; congruence]. }
        pose proof (st_book _ _ _ Hst) as Hok'. unfold rest_of in Hok' |- *. rewrite Fo, Fb in *.
        rewrite IH; [|done| |done|simpl in Hf; lia].
        -- destruct (sweep_bids o' bids) as [[[rem rest] fills]| | |]; simpl; [|done..].
           by rewrite <- app_assoc.
        -- intros x a Hx Ha. apply Hu; set_solver.
    + cbn [mbind outcome_bind place].
      rewrite matchLoop_uncrossed; [|by apply heads_uncrossed|simpl in Hf; lia].
      rewrite app_nil_r. subst k. by rewrite mm_insert_front.
Qed.

(** An arriving order is swept against the opposite side. *)
Lemma insert_sweep_bid o book :
  book_ok book → uncrossed book → live o → m_side o = BUY →
  OrderBook_processMatching (OrderBook_insert o book) [] =
    '(rem, rest, fills) ← sweep_asks o (m_askOrders book);
    Ok (mkOrderBook (place greater rem (m_bidOrders book)) rest, fills, bool_decide (fills ≠ [])).
Proof.
  intros Hok Hu Hl Hside. pose proof (insert_ok o book Hl Hok) as Hok'.
  unfold OrderBook_insert in Hok' |- *. rewrite bool_decide_true in Hok' |- * by done.
  pose proof (ok_price o (proj1 Hl)) as No.
  destruct (m_askOrders book) as [|[ka a] asks] eqn:Easks.
  { unfold OrderBook_processMatching. rewrite matchLoop_uncrossed; [done| |unfold OrderBook_fuel; lia].
    intros ? ? _ Ha. simpl in Ha. by apply elem_of_nil in Ha. }
  pose proof (bok_asks book Hok) as Has. rewrite Easks in Has.
  apply Forall_cons in Has as [(Hla & Hka & _) Has]. simpl in Hka.
  pose proof (ok_price a (proj1 Hla)) as Na.
  destruct (dge (m_price o) (m_price a)) eqn:Hge.
  - assert (Hfront : ∀ e, e ∈ m_bidOrders book → greater (m_price o) e.1 = true).
    { intros e He. pose proof (bok_bids book Hok) as Hb. eapply Forall_forall in Hb; [|exact He].
      destruct Hb as (Hle & -> & _). pose proof (ok_price _ (proj1 Hle)) as Ne. unfold greater.
      assert (dge (m_price e.2) (m_price a) = false) as Hlt by (apply (Hu e (ka, a)); [done|rewrite Easks; set_solver]).
      rewrite dge_dlt in Hlt, Hge by done. apply negb_true_iff in Hge. apply negb_false_iff in Hlt.
      destruct (dlt (m_price e.2) (m_price o)) eqn:E; [done|].
      rewrite (dlt_false_trans (m_price a) (m_price o) (m_price e.2)) in Hlt; done. }
    rewrite mm_insert_front in Hok' |- * by done.
    unfold OrderBook_processMatching. rewrite sweep_asks_loop; [done|done| |done|].
    + intros b x Hb Hx. apply Hu; [done|]. by rewrite Easks.
    + unfold OrderBook_fuel. simpl. lia.
  - unfold OrderBook_processMatching. rewrite matchLoop_uncrossed; [|clear Hok'|unfold OrderBook_fuel; lia].
    + simpl. by rewrite Hge.
    + intros b x Hb Hx. simpl in Hb, Hx. rewrite mm_insert_perm in Hb.
      apply elem_of_cons in Hb as [->|Hb]; simpl; [|apply Hu; [done|by rewrite Easks]].
      apply elem_of_cons in Hx as [->|Hx]; [done|].
      pose proof (bok_asks_sorted book Hok) as Hs. rewrite Easks in Hs.
      pose proof (sorted_head _ _ _ _ Hs Hx) as H. unfold less in H. simpl in H.
      eapply Forall_forall in Has as (Hlx & Ex & _); [|exact Hx].
      pose proof (ok_price _ (proj1 Hlx)) as Nx. rewrite Hka, Ex in H.
      rewrite dge_dlt in Hge |- * by done. apply negb_false_iff in Hge; apply negb_false_iff.
      destruct (dlt (m_price o) (m_price x.2)) eqn:E; [done|].
      rewrite (dlt_false_trans (m_price a) (m_price x.2) (m_price o)) in Hge; done.
Qed.

Lemma insert_sweep_ask o book :
  book_ok book → uncrossed book → live o → m_side o ≠ BUY →
  OrderBook_processMatching (OrderBook_insert o book) [] =
    '(rem, rest, fills) ← sweep_bids o (m_bidOrders book);
    Ok (mkOrderBook rest (place less rem (m_askOrders book)), fills, bool_decide (fills ≠ [])).
Proof.
  intros Hok Hu Hl Hside. pose proof (insert_ok o book Hl Hok) as Hok'.
  unfold OrderBook_insert in Hok' |- *. rewrite bool_decide_false in Hok' |- * by done.
  pose proof (ok_price o (proj1 Hl)) as No.
  destruct (m_bidOrders book) as [|[kb b] bids] eqn:Ebids.
  { unfold OrderBook_processMatching. rewrite matchLoop_uncrossed; [done| |unfold OrderBook_fuel; lia].
    intros ? ? Hb. simpl in Hb. by apply elem_of_nil in Hb. }
  pose proof (bok_bids book Hok) as Hbs. rewrite Ebids in Hbs.
  apply Forall_cons in Hbs as [(Hlb & Hkb & _) Hbs]. simpl in Hkb.
  pose proof (ok_price b (proj1 Hlb)) as Nb.
  destruct (dge (m_price b) (m_price o)) eqn:Hge.
  - assert (Hfront : ∀ e, e ∈ m_askOrders book → less (m_price o) e.1 = true).
    { intros e He. pose proof (bok_asks book Hok) as Ha. eapply Forall_forall in Ha; [|exact He].
      destruct Ha as (Hle & -> & _). pose proof (ok_price _ (proj1 Hle)) as Ne. unfold less.
      assert (dge (m_price b) (m_price e.2) = false) as Hlt by (apply (Hu (kb, b) e); [rewrite Ebids; set_solver|done]).
      rewrite dge_dlt in Hlt, Hge by done. apply negb_true_iff in Hge. apply negb_false_iff in Hlt.
      destruct (dlt (m_price o) (m_price e.2)) eqn:E; [done|].
      rewrite (dlt_false_trans (m_price e.2) (m_price o) (m_price b)) in Hlt; done. }
    rewrite mm_insert_front in Hok' |- * by done.
    unfold OrderBook_processMatching. rewrite sweep_bids_loop; [done|done| |done|].
    + intros x e Hx He. apply Hu; [by rewrite Ebids|done].
    + unfold OrderBook_fuel. simpl. lia.
  - unfold OrderBook_processMatching. rewrite matchLoop_uncrossed; [|clear Hok'|unfold OrderBook_fuel; lia].
    + simpl. by rewrite Hge.
    + intros x e Hx He. simpl in Hx, He. rewrite mm_insert_perm in He.
      apply elem_of_cons in He as [->|He]; simpl; [|apply Hu; [by rewrite Ebids|done]].
      apply elem_of_cons in Hx as [->|Hx]; [done|].
      pose proof (bok_bids_sorted book Hok) as Hs. rewrite Ebids in Hs.
      pose proof (sorted_head _ _ _ _ Hs Hx) as H. unfold greater in H. simpl in H.
      eapply Forall_forall in Hbs as (Hlx & Ex & _); [|exact Hx].
      pose proof (ok_price _ (proj1 Hlx)) as Nx. rewrite Hkb, Ex in H.
      rewrite dge_dlt in Hge |- * by done. apply negb_false_iff in Hge; apply negb_false_iff.
      destruct (dlt (m_price x.2) (m_price o)) eqn:E; [done|].
      rewrite (dlt_false_trans (m_price o) (m_price x.2) (m_price b)) in Hge; done.
Qed.

(** ** The final shape of a side after matching *)

Lemma suffix_exec_shape l l' : suffix_exec l l' →
  ∃ n, l' = drop n l ∨
    ∃ k o o', l !! n = Some (k, o) ∧ l' = (k, o') :: drop (S n) l ∧
      same_terms o o' ∧ m_openQuantity o' < m_openQuantity o.
Proof.
  induction 1 as [l|e l l' _ (n & [->|(k & o & o' & Hl & -> & H)])
                  |k o o' l l' Ht Ho _ (n & [->|(k1 & o1 & o2 & Hl & -> & Ht1 & Ho1)])].
  - exists 0%nat. by left.
  - exists (S n). by left.
  - exists (S n). right. by exists k, o, o'.
  - destruct n as [|n]; [|by exists (S n); left]. exists 0%nat. right. by exists k, o, o'.
  - exists n. right. destruct n as [|n]; simpl in *.
    + simplify_eq. exists k1, o, o2. split_and!; try done; [by etrans|lia].
    + by exists k1, o1, o2.
Qed.

(** ** Searching and cancelling *)

Definition is_order (clientID : str) (sessionId : Z) (o : Order) : Prop :=
  m_clientOrderID o = clientID ∧ m_sessionId o = sessionId.

Definition side_of (buy : bool) (book : OrderBook) : side_map :=
  if buy then m_bidOrders book else m_askOrders book.
Definition with_side (buy : bool) (l : side_map) (book : OrderBook) : OrderBook :=
  if buy then mkOrderBook l (m_askOrders book) else mkOrderBook (m_bidOrders book) l.

Lemma is_order_bool cl s o :
  bool_decide (m_sessionId o = s) && bool_decide (m_clientOrderID o = cl) = true ↔ is_order cl s o.
Proof. rewrite andb_true_iff, !bool_decide_eq_true. unfold is_order. tauto. Qed.

Lemma is_order_bool_false cl s o :
  bool_decide (m_sessionId o = s) && bool_decide (m_clientOrderID o = cl) = false ↔ ¬ is_order cl s o.
Proof. rewrite <- is_order_bool, not_true_iff_false. done. Qed.

Lemma find_Some cl s side book p o :
  OrderBook_find cl s side book = Some (p, o) ↔
  side ≠ SIDE_NON_SUPPORTED ∧ ptr_bid p = bool_decide (side = BUY) ∧
  ∃ l1 k l2, side_of (ptr_bid p) book = l1 ++ (k, o) :: l2 ∧ length l1 = ptr_pos p ∧
    is_order cl s o ∧ Forall (λ e : double * Order, ¬ is_order cl s e.2) l1.
Proof.
  destruct p as [b i]. unfold OrderBook_find.
  assert (∀ l : side_map, mm_scan (λ o, bool_decide (m_sessionId o = s) && bool_decide (m_clientOrderID o = cl)) l = Some (i, o) ↔
    ∃ (l1 : side_map) k l2, l = l1 ++ (k, o) :: l2 ∧ length l1 = i ∧ is_order cl s o ∧ Forall (λ e : double * Order, ¬ is_order cl s e.2) l1) as Hscan.
  { intros l. rewrite mm_scan_Some. setoid_rewrite is_order_bool.
    setoid_rewrite is_order_bool_false. done. }
  destruct side; simpl.
  - split; [done|]. by intros (? & _).
  - rewrite fmap_Some. split.
    + intros ([j o'] & Hj & [= -> -> ->]). apply Hscan in Hj. done.
    + intros (_ & -> & H). apply Hscan in H. exists (i, o). done.
  - rewrite fmap_Some. split.
    + intros ([j o'] & Hj & [= -> -> ->]). apply Hscan in Hj. done.
    + intros (_ & -> & H). apply Hscan in H. exists (i, o). done.
Qed.

Lemma find_None cl s (buy : bool) book :
  OrderBook_find cl s (if buy then BUY else SELL) book = None ↔
  Forall (λ e : double * Order, ¬ is_order cl s e.2) (side_of buy book).
Proof.
  unfold OrderBook_find. destruct buy; rewrite fmap_None, mm_scan_None;
    setoid_rewrite is_order_bool_false; done.
Qed.

(** Cancelling through the pointer that [find] returned and erasing the order by its
    identity removes exactly the order found: both scans stop at the same entry. *)
Lemma erase_found cl s side book p o :
  OrderBook_find cl s side book = Some (p, o) → m_side o = side →
  ∃ l1 k l2, side_of (ptr_bid p) book = l1 ++ (k, o) :: l2 ∧
    Forall (λ e, ¬ is_order cl s e.2) l1 ∧
    OrderBook_erase (Order_cancel o) (OrderBook_assign p (Order_cancel o) book) =
      with_side (ptr_bid p) (l1 ++ l2) book.
Proof.
  intros Hf Hside. apply find_Some in Hf as (Hns & Hp & l1 & k & l2 & Hl & Hlen & [Hc Hs] & Hl1).
  exists l1, k, l2. split; [done|]. split; [done|].
  assert (mm_scan (λ x, bool_decide (m_clientOrderID x = m_clientOrderID o) &&
                        bool_decide (m_sessionId x = m_sessionId o)) (l1 ++ (k, Order_cancel o) :: l2)
          = Some (length l1, Order_cancel o)) as Hscan.
  { apply mm_scan_Some. exists l1, k, l2. split_and!; try done.
    - simpl. by rewrite !bool_decide_true.
    - eapply Forall_impl; [exact Hl1|]. intros e He. simpl in *.
      apply is_order_bool_false in He. rewrite Hc, Hs, andb_comm. exact He. }
  destruct p as [b i]. simpl in *. subst b i.
  unfold OrderBook_erase, OrderBook_assign. simpl. rewrite Hside.
  destruct side; simpl in *; [done| |];
    rewrite Hl, mm_assign_middle; simpl; rewrite Hscan; simpl; by rewrite mm_erase_middle.
Qed.

(** * The properties of the order book *)

(** A price on the buy or sell side that is at least as good as another. *)
Definition better_or_equal (buy : bool) (a b : double) : Prop :=
  if buy then dlt a b = false else dlt b a = false.

(** C7: Inserting a live order keeps the book well formed, leaves the other side
    alone and puts the order behind every order of its side with an equal or better
    price and in front of every order with a worse one: price-time priority. *)
Theorem insert_price_time (o : Order) (book : OrderBook) (Hlive : live o) (Hok : book_ok book) :
  let buy := bool_decide (m_side o = BUY) in
  let book' := OrderBook_insert o book in
  book_ok book' ∧ side_of (negb buy) book' = side_of (negb buy) book ∧
  ∃ ahead behind, side_of buy book = ahead ++ behind ∧
    side_of buy book' = ahead ++ (m_price o, o) :: behind ∧
    Forall (λ e, better_or_equal buy (m_price e.2) (m_price o)) ahead ∧
    Forall (λ e, ¬ better_or_equal buy (m_price e.2) (m_price o)) behind.
Proof.
  intros buy book'. split; [by apply insert_ok|]. pose proof (ok_price o (proj1 Hlive)) as Hp.
  pose proof Hok as [Hb Ha Hbs Has]. subst buy book'. unfold OrderBook_insert.
  case_bool_decide as Hside; simpl; (split; [done|]).
  - destruct (mm_insert_split number greater (m_price o) o (m_bidOrders book) Hp) as (l1 & l2 & E & E' & H1 & H2);
      [by eapply entries_valid|done|].
    exists l1, l2. rewrite E in Hb. apply Forall_app in Hb as [Hb1 Hb2].
    split_and!; try done.
    + eapply Forall_impl; [apply Forall_and; split; [exact H1|exact Hb1]|].
      intros e [He (_ & Hk & _)]. unfold greater in He. by rewrite Hk in He.
    + eapply Forall_impl; [apply Forall_and; split; [exact H2|exact Hb2]|].
      intros e [He (_ & Hk & _)]. unfold greater in He. rewrite Hk in He. by rewrite He.
  - destruct (mm_insert_split number less (m_price o) o (m_askOrders book) Hp) as (l1 & l2 & E & E' & H1 & H2);
      [by eapply entries_valid|done|].
    exists l1, l2. rewrite E in Ha. apply Forall_app in Ha as [Ha1 Ha2].
    split_and!; try done.
    + eapply Forall_impl; [apply Forall_and; split; [exact H1|exact Ha1]|].
      intros e [He (_ & Hk & _)]. unfold less in He. by rewrite Hk in He.
    + eapply Forall_impl; [apply Forall_and; split; [exact H2|exact Ha2]|].
      intros e [He (_ & Hk & _)]. unfold less in He. rewrite Hk in He. by rewrite He.
Qed.

(** C6: On a well-formed book the matching loop returns: no undefined behaviour, no
    overflow, at most as many trades as orders that leave. The book it leaves is well
    formed and has no bid that reaches an ask; every executed order is pushed behind
    those already in the queue, and the result tells whether the queue has orders. *)
Theorem processMatching_uncrosses (book : OrderBook) (processed : list Order) (Hok : book_ok book) :
  ∃ book' trades,
    OrderBook_processMatching book processed =
      Ok (book', processed ++ processed_of trades, bool_decide (processed ++ processed_of trades ≠ [])) ∧
    book_ok book' ∧ uncrossed book' ∧ (length trades <= book_size book - book_size book')%nat.
Proof. destruct (processMatching_spec book processed Hok) as (b & t & E & []). by exists b, t. Qed.

(** Every pair of pushed orders is a trade at the price of the ask, not above the
    limit of the bid, of one positive quantity for both, which fills one of them. *)
Theorem processMatching_trades (book book' : OrderBook) (pushed : list Order) (r : bool)
    (Hok : book_ok book) (Hrun : OrderBook_processMatching book [] = Ok (book', pushed, r)) :
  ∃ trades, pushed = processed_of trades ∧ Forall trade_ok trades.
Proof.
  destruct (processMatching_spec book [] Hok) as (b & t & E & []). rewrite Hrun in E.
  simplify_eq. by exists t.
Qed.

(** C29: Matching conserves quantity: what disappears from the open quantities of the
    bids is what was traded, and the same for the asks. *)
Theorem processMatching_conserves (book book' : OrderBook) (pushed : list Order) (r : bool)
    (Hok : book_ok book) (Hrun : OrderBook_processMatching book [] = Ok (book', pushed, r)) :
  ∃ trades, pushed = processed_of trades ∧
    open_total (m_bidOrders book) = open_total (m_bidOrders book') + volume trades ∧
    open_total (m_askOrders book) = open_total (m_askOrders book') + volume trades.
Proof.
  destruct (processMatching_spec book [] Hok) as (b & t & E & []). rewrite Hrun in E.
  simplify_eq. by exists t.
Qed.

(** [executed_front l l']: a number of orders left [l] from its front, the next one
    may have been executed in part, and the others are untouched. *)
Definition executed_front (l l' : side_map) : Prop :=
  ∃ n, l' = drop n l ∨
    ∃ k o o', l !! n = Some (k, o) ∧ l' = (k, o') :: drop (S n) l ∧
      same_terms o o' ∧ m_openQuantity o' < m_openQuantity o.

(** Matching respects priority: on each side orders leave from the front only, at
    most the first that stays is executed in part, with its terms unchanged, and no
    order further back is touched. *)
Theorem processMatching_priority (book book' : OrderBook) (pushed : list Order) (r : bool)
    (Hok : book_ok book) (Hrun : OrderBook_processMatching book [] = Ok (book', pushed, r)) :
  executed_front (m_bidOrders book) (m_bidOrders book') ∧
  executed_front (m_askOrders book) (m_askOrders book').
Proof.
  destruct (processMatching_spec book [] Hok) as (b & t & E & []). rewrite Hrun in E.
  simplify_eq. split; by apply suffix_exec_shape.
Qed.

(** C1: An order arriving at an uncrossed book is matched as the reference sweep does:
    it walks the opposite side from the best price on until it is filled or out of its
    limit, and what is left of it is inserted on its own side. *)
Theorem arriving_order_sweeps (o : Order) (book : OrderBook)
    (Hok : book_ok book) (Hu : uncrossed book) (Hlive : live o) :
  OrderBook_processMatching (OrderBook_insert o book) [] =
    if bool_decide (m_side o = BUY) then
      '(rem, rest, fills) ← sweep_asks o (m_askOrders book);
      Ok (mkOrderBook (place greater rem (m_bidOrders book)) rest, fills, bool_decide (fills ≠ []))
    else
      '(rem, rest, fills) ← sweep_bids o (m_bidOrders book);
      Ok (mkOrderBook rest (place less rem (m_askOrders book)), fills, bool_decide (fills ≠ [])).
Proof. case_bool_decide; [by apply insert_sweep_bid|by apply insert_sweep_ask]. Qed.

(** Cancelling the order that [find] returns and erasing it removes that order and
    no other, although [erase] searches by identity again. *)
Theorem cancel_removes_found (cl : str) (s : Z) (side : OrderSide) (book : OrderBook) (p : OrderPtr) (o : Order)
    (Hfind : OrderBook_find cl s side book = Some (p, o)) (Hside : m_side o = side) :
  m_clientOrderID o = cl ∧ m_sessionId o = s ∧
  ∃ l1 k l2, side_of (ptr_bid p) book = l1 ++ (k, o) :: l2 ∧
    Forall (λ e, ¬ is_order cl s e.2) l1 ∧
    OrderBook_erase (Order_cancel o) (OrderBook_assign p (Order_cancel o) book) =
      with_side (ptr_bid p) (l1 ++ l2) book.
Proof.
  pose proof (proj1 (find_Some cl s side book p o) Hfind) as (_ & _ & _ & _ & _ & _ & _ & [Hc Hs] & _).
  split; [done|]. split; [done|]. by apply (erase_found cl s side).
Qed.

(** [find] fails exactly when no order of the side asked for has the identity. *)
Theorem find_fails_iff_absent (cl : str) (s : Z) (buy : bool) (book : OrderBook) :
  OrderBook_find cl s (if buy then BUY else SELL) book = None ↔
  ∀ e, e ∈ side_of buy book → ¬ is_order cl s e.2.
Proof. rewrite find_None, Forall_forall. done. Qed.

(** ** A concrete book

    Bids of 10 at 101 and 5 at 100 and 5 at 100, asks of 7 at 100 and 20 at 102; then
    asks of 12 at 100 and of 3 at 103. *)
Definition demo_order (id : Z) (side : OrderSide) (price quantity : Z) : Order :=
  Order_new id (to_string id) 0 1 side LIMIT (of_long price) quantity.
Definition demo_book : OrderBook :=
  foldl (λ b o, OrderBook_insert o b) OrderBook_empty
    [demo_order 1 BUY 100 5; demo_order 2 BUY 101 10; demo_order 3 BUY 100 5;
     demo_order 4 SELL 102 20; demo_order 5 SELL 100 12].
Definition demo_uncrossed : OrderBook :=
  foldl (λ b o, OrderBook_insert o b) OrderBook_empty
    [demo_order 1 BUY 100 5; demo_order 2 BUY 101 10; demo_order 3 BUY 100 5; demo_order 4 SELL 102 20].
Definition demo_matched : OrderBook * list Order * bool :=
  match OrderBook_processMatching demo_book [] with Ok r => r | _ => (OrderBook_empty, [], false) end.

Lemma demo_order_live id side price quantity : 0 < quantity <= 1000 → live (demo_order id side price quantity).
Proof. intros H. apply Order_new_live; [mlia|]. apply of_long_not_nan. Qed.

Lemma demo_book_ok : book_ok demo_book.
Proof. cbn [demo_book foldl]. repeat (apply insert_ok; [apply demo_order_live; lia|]). apply book_empty_ok. Qed.

Lemma demo_uncrossed_ok : book_ok demo_uncrossed.
Proof. cbn [demo_uncrossed foldl]. repeat (apply insert_ok; [apply demo_order_live; lia|]). apply book_empty_ok. Qed.

Lemma demo_uncrossed_uncrossed : uncrossed demo_uncrossed.
Proof.
  intros b a Hb Ha. vm_compute in Hb, Ha.
  apply list_elem_of_singleton in Ha as ->.
  repeat (apply elem_of_cons in Hb as [->|Hb]; [reflexivity|]). by apply elem_of_nil in Hb.
Qed.

Lemma insert_price_time_witness :
  let buy := bool_decide (m_side (demo_order 6 BUY 100 1) = BUY) in
  let book' := OrderBook_insert (demo_order 6 BUY 100 1) demo_book in
  (m_orderID ∘ snd <$> m_bidOrders book') = [2; 1; 3; 6] ∧
  book_ok book' ∧ side_of (negb buy) book' = side_of (negb buy) demo_book ∧
  ∃ ahead behind, side_of buy demo_book = ahead ++ behind ∧
    side_of buy book' = ahead ++ (of_long 100, demo_order 6 BUY 100 1) :: behind ∧
    Forall (λ e, better_or_equal buy (m_price e.2) (of_long 100)) ahead ∧
    Forall (λ e, ¬ better_or_equal buy (m_price e.2) (of_long 100)) behind.
Proof.
  split; [vm_compute; reflexivity|].
  apply (insert_price_time (demo_order 6 BUY 100 1) demo_book); [apply demo_order_live; lia|apply demo_book_ok].
Defined.

Lemma processMatching_uncrosses_witness : ∃ book' trades,
  OrderBook_processMatching demo_book [] =
    Ok (book', [] ++ processed_of trades, bool_decide ([] ++ processed_of trades ≠ [])) ∧
  book_ok book' ∧ uncrossed book' ∧ (length trades <= book_size demo_book - book_size book')%nat.
Proof. apply (processMatching_uncrosses demo_book [] demo_book_ok). Defined.

Lemma demo_matched_run : OrderBook_processMatching demo_book [] =
  Ok (demo_matched.1.1, demo_matched.1.2, demo_matched.2).
Proof. vm_compute. reflexivity. Qed.

Lemma processMatching_trades_witness : length demo_matched.1.2 = 4%nat ∧
  ∃ trades, demo_matched.1.2 = processed_of trades ∧ Forall trade_ok trades.
Proof.
  split; [vm_compute; reflexivity|].
  exact (processMatching_trades demo_book _ _ _ demo_book_ok demo_matched_run).
Defined.

Lemma processMatching_conserves_witness :
  open_total (m_bidOrders demo_book) = 20 ∧ open_total (m_bidOrders demo_matched.1.1) = 8 ∧
  ∃ trades, demo_matched.1.2 = processed_of trades ∧
    open_total (m_bidOrders demo_book) = open_total (m_bidOrders demo_matched.1.1) + volume trades ∧
    open_total (m_askOrders demo_book) = open_total (m_askOrders demo_matched.1.1) + volume trades.
Proof.
  split; [vm_compute; reflexivity|]. split; [vm_compute; reflexivity|].
  exact (processMatching_conserves demo_book _ _ _ demo_book_ok demo_matched_run).
Defined.

Lemma processMatching_priority_witness :
  (λ e, (m_orderID e.2, m_openQuantity e.2)) <$> m_bidOrders demo_matched.1.1 = [(1, 3); (3, 5)] ∧
  executed_front (m_bidOrders demo_book) (m_bidOrders demo_matched.1.1) ∧
  executed_front (m_askOrders demo_book) (m_askOrders demo_matched.1.1).
Proof.
  split; [vm_compute; reflexivity|].
  exact (processMatching_priority demo_book _ _ _ demo_book_ok demo_matched_run).
Defined.

Lemma arriving_order_sweeps_witness :
  OrderBook_processMatching (OrderBook_insert (demo_order 5 SELL 100 12) demo_uncrossed) [] =
    if bool_decide (m_side (demo_order 5 SELL 100 12) = BUY) then
      '(rem, rest, fills) ← sweep_asks (demo_order 5 SELL 100 12) (m_askOrders demo_uncrossed);
      Ok (mkOrderBook (place greater rem (m_bidOrders demo_uncrossed)) rest, fills, bool_decide (fills ≠ []))
    else
      '(rem, rest, fills) ← sweep_bids (demo_order 5 SELL 100 12) (m_bidOrders demo_uncrossed);
      Ok (mkOrderBook rest (place less rem (m_askOrders demo_uncrossed)), fills, bool_decide (fills ≠ [])).
Proof.
  apply (arriving_order_sweeps (demo_order 5 SELL 100 12) demo_uncrossed demo_uncrossed_ok demo_uncrossed_uncrossed).
  apply demo_order_live. lia.
Defined.

Lemma cancel_removes_found_witness :
  m_clientOrderID (demo_order 3 BUY 100 5) = $"3" ∧ m_sessionId (demo_order 3 BUY 100 5) = 1 ∧
  ∃ l1 k l2, side_of true demo_book = l1 ++ (k, demo_order 3 BUY 100 5) :: l2 ∧
    Forall (λ e, ¬ is_order ($"3") 1 e.2) l1 ∧
    OrderBook_erase (Order_cancel (demo_order 3 BUY 100 5))
      (OrderBook_assign (mkOrderPtr true 2) (Order_cancel (demo_order 3 BUY 100 5)) demo_book) =
      with_side true (l1 ++ l2) demo_book.
Proof.
  apply (cancel_removes_found ($"3") 1 BUY demo_book (mkOrderPtr true 2) (demo_order 3 BUY 100 5));
    vm_compute; reflexivity.
Defined.
