(* ===== verification/Fifo.v ===== *)
(** * The interface of the bounded queues

    What the order matcher and the thread pool rely on: a bounded queue whose
    [tryPush] appends when there is room and reports failure when there is none,
    and whose [tryPop] takes the oldest element. [fifo_credit] is the number of
    pushes the queue can still take in its life; the ring buffer's counters are
    [int]s. The ring buffer is an instance. *)
From Stdlib Require Import ZArith Lia.
From stdpp Require Import base decidable list.
From S2P Require Import Prelude.
Local Open Scope Z_scope.

Class Fifo (A Q : Type) : Type := {
  fifo_tryPush : A → Q → outcome (Q * bool);
  fifo_tryPop : Q → outcome (Q * option A);
  fifo_inv : Q → Prop;
  fifo_list : Q → list A;
  fifo_cap : Q → nat;
  fifo_credit : Q → Z
}.

Class FifoLaws (A Q : Type) `{Fifo A Q} : Prop := {
  fifo_push_room (v : A) (q : Q) :
    fifo_inv q → 0 < fifo_credit q → (length (fifo_list q) < fifo_cap q)%nat →
    ∃ q', fifo_tryPush v q = Ok (q', true) ∧ fifo_inv q' ∧
      fifo_list q' = fifo_list q ++ [v] ∧ fifo_cap q' = fifo_cap q ∧
      fifo_credit q' = fifo_credit q - 1;
  fifo_push_full (v : A) (q : Q) :
    fifo_inv q → 0 < fifo_credit q → length (fifo_list q) = fifo_cap q →
    fifo_tryPush v q = Ok (q, false);
  fifo_pop_cons (v : A) (l : list A) (q : Q) :
    fifo_inv q → fifo_list q = v :: l →
    ∃ q', fifo_tryPop q = Ok (q', Some v) ∧ fifo_inv q' ∧ fifo_list q' = l ∧
      fifo_cap q' = fifo_cap q ∧ fifo_credit q' = fifo_credit q;
  fifo_pop_nil (q : Q) :
    fifo_inv q → fifo_list q = [] → fifo_tryPop q = Ok (q, None)
}.

Section spin.
Context {A Q : Type} `{!Fifo A Q} `{!FifoLaws A Q}.

(** [push]: [while (!tryPush(val));]. Run alone, with no consumer at work, the loop
    either leaves at its first round or never. *)
Fixpoint fifo_push (fuel : nat) (v : A) (q : Q) : outcome Q :=
  match fuel with
  | O => NoFuel
  | S fuel' =>
      '(q', pushed) ← fifo_tryPush v q;
      if pushed : bool then Ok q' else fifo_push fuel' v q'
  end.

(** A queue that can take [n] more elements. *)
Definition fifo_room (n : nat) (q : Q) : Prop :=
  fifo_inv q ∧ Z.of_nat n <= fifo_credit q ∧ (length (fifo_list q) + n <= fifo_cap q)%nat.

(** [q'] is [q] with [k] more elements, as far as well-formedness and room go. *)
Definition fifo_after (k : nat) (q q' : Q) : Prop :=
  fifo_inv q' ∧ fifo_cap q' = fifo_cap q ∧ fifo_credit q' = fifo_credit q - Z.of_nat k.

Lemma fifo_after_refl q : fifo_inv q → fifo_after 0 q q.
Proof. intros H. split_and!; [done|done|lia]. Qed.

Lemma fifo_after_trans j k q1 q2 q3 : fifo_after j q1 q2 → fifo_after k q2 q3 → fifo_after (j + k) q1 q3.
Proof. intros (_ & C1 & R1) (I2 & C2 & R2). split_and!; [done|congruence|lia]. Qed.

Lemma fifo_after_room l n q q' : fifo_after (length l) q q' → fifo_list q' = fifo_list q ++ l →
  fifo_room (length l + n) q → fifo_room n q'.
Proof.
  intros (I & C & R) L (_ & Hc & Hl). split_and!; [done|lia|]. rewrite L, C, length_app. lia.
Qed.

Lemma fifo_push_after fuel v q n : (0 < fuel)%nat → fifo_room (S n) q →
  ∃ q', fifo_push fuel v q = Ok q' ∧ fifo_list q' = fifo_list q ++ [v] ∧ fifo_after 1 q q'.
Proof.
  intros Hf (Hi & Hc & Hl). destruct fuel as [|fuel]; [lia|].
  destruct (fifo_push_room v q Hi) as (q' & Hp & Hi' & Hl' & Hcap & Hcr); [lia|lia|].
  exists q'. simpl. rewrite Hp. by split_and!.
Qed.

Lemma fifo_push_ok fuel v q n : (0 < fuel)%nat → fifo_room (S n) q →
  ∃ q', fifo_push fuel v q = Ok q' ∧ fifo_list q' = fifo_list q ++ [v] ∧ fifo_room n q'.
Proof.
  intros Hf Hr. destruct (fifo_push_after fuel v q n Hf Hr) as (q' & Hp & Hl & Ha).
  exists q'. split_and!; [done|done|]. by apply (fifo_after_room [v] n q q').
Qed.

Lemma fifo_push_stuck fuel v q :
  fifo_inv q → 0 < fifo_credit q → length (fifo_list q) = fifo_cap q → fifo_push fuel v q = NoFuel.
Proof.
  intros Hi Hc Hl. induction fuel as [|fuel IH]; [done|]. simpl.
  rewrite fifo_push_full by done. exact IH.
Qed.

(** What a pop that finds something did. *)
Lemma fifo_pop_inv q q' v : fifo_inv q → fifo_tryPop q = Ok (q', Some v) →
  fifo_list q = v :: fifo_list q' ∧ fifo_inv q' ∧ fifo_cap q' = fifo_cap q ∧ fifo_credit q' = fifo_credit q.
Proof.
  intros Hi Hp. destruct (fifo_list q) as [|v' l] eqn:El; [by rewrite (fifo_pop_nil q Hi El) in Hp|].
  destruct (fifo_pop_cons v' l q Hi El) as (q1 & Hp' & Hi' & El' & Hc & Hr). rewrite Hp in Hp'. injection Hp' as <- <-.
  by subst l.
Qed.

Lemma fifo_pop_room n q q' v : fifo_room n q → fifo_tryPop q = Ok (q', Some v) → fifo_room n q'.
Proof.
  intros (Hi & Hc & Hl) Hp. destruct (fifo_pop_inv q q' v Hi Hp) as (El & Hi' & Ec & Er).
  split_and!; [done|lia|]. rewrite Ec. rewrite El in Hl. cbn [length] in Hl. lia.
Qed.

(** Pushing a list of elements, in order. *)
Fixpoint fifo_push_all (fuel : nat) (vs : list A) (q : Q) : outcome Q :=
  match vs with
  | [] => Ok q
  | v :: vs' => q' ← fifo_push fuel v q; fifo_push_all fuel vs' q'
  end.

Lemma fifo_push_all_ok fuel vs q n : (0 < fuel)%nat → fifo_room (length vs + n) q →
  ∃ q', fifo_push_all fuel vs q = Ok q' ∧ fifo_list q' = fifo_list q ++ vs ∧ fifo_room n q'.
Proof.
  intros Hf. revert q. induction vs as [|v vs IH]; intros q Hr; simpl in *.
  - exists q. by rewrite app_nil_r.
  - destruct (fifo_push_ok fuel v q _ Hf Hr) as (q1 & -> & Hl1 & Hr1). simpl.
    destruct (IH q1 Hr1) as (q2 & -> & Hl2 & Hr2). exists q2.
    rewrite Hl2, Hl1, <- app_assoc. done.
Qed.
End spin.
