(* ===== verification/RingBuffer.v ===== *)
(** * [core/concurrency/ring_buffer_spsc_lockfree.hpp]

    The bounded single-producer single-consumer ring buffer, with operations that run to
    completion: the instance of the queue interface. [RingBufferConcurrent.v] cuts the
    same operations into their memory accesses. *)
From Stdlib Require Import ZArith Lia.
From stdpp Require Import base decidable sets list list_numbers numbers.
From S2P Require Import Prelude.
From S2P Require Import MachineInt.
From S2P Require Import Fifo.
Local Open Scope Z_scope.

(** ** The operations *)

Record RingBuffer (A : Type) : Type := mkRingBuffer {
  m_write : Z;
  m_read : Z;
  m_capacity : Z;
  m_buffer : list A
}.
Arguments mkRingBuffer {A}.
Arguments m_write {A}. Arguments m_read {A}. Arguments m_capacity {A}. Arguments m_buffer {A}.

Definition RingBuffer_new {A} (dflt : A) (capacity : Z) : RingBuffer A :=
  mkRingBuffer 0 0 capacity (replicate (Z.to_nat capacity) dflt).

Definition RingBuffer_increment (n : Z) : outcome Z := int_add n 1.

(** [current_tail - m_read <= m_capacity - 1]: an [int] difference compared as [size_t]. *)
Definition RingBuffer_hasRoom (tail read capacity : Z) : outcome bool :=
  diff ← int_sub tail read;
  Ok (to_size diff <=? size_sub capacity 1).

(** The slot of a counter: [n % m_capacity], computed in [size_t]. *)
Definition RingBuffer_slot {A} (rb : RingBuffer A) (n : Z) : outcome nat :=
  i ← size_rem (to_size n) (m_capacity rb);
  if i <? Z.of_nat (length (m_buffer rb)) then Ok (Z.to_nat i) else Undef IndexOutOfBounds.

Definition RingBuffer_tryPush {A} (val : A) (rb : RingBuffer A) : outcome (RingBuffer A * bool) :=
  let current_tail := m_write rb in
  next_tail ← RingBuffer_increment current_tail;
  room ← RingBuffer_hasRoom current_tail (m_read rb) (m_capacity rb);
  if room : bool then
    i ← RingBuffer_slot rb current_tail;
    Ok (mkRingBuffer next_tail (m_read rb) (m_capacity rb) (<[i := val]> (m_buffer rb)), true)
  else Ok (rb, false).

Definition RingBuffer_tryPop {A} (rb : RingBuffer A) : outcome (RingBuffer A * option A) :=
  let currentHead := m_read rb in
  if currentHead =? m_write rb then Ok (rb, None)
  else
    i ← RingBuffer_slot rb currentHead;
    match m_buffer rb !! i with
    | None => Undef IndexOutOfBounds
    | Some element =>
        next ← RingBuffer_increment currentHead;
        Ok (mkRingBuffer (m_write rb) next (m_capacity rb) (m_buffer rb), Some element)
    end.

(** ** Contents and invariant *)

Definition rb_at {A} (rb : RingBuffer A) (j : Z) : option A :=
  m_buffer rb !! Z.to_nat (j mod m_capacity rb).
Definition rb_list {A} (rb : RingBuffer A) : list A :=
  omap (rb_at rb) (seqZ (m_read rb) (m_write rb - m_read rb)).

Record rb_inv {A} (rb : RingBuffer A) : Prop := {
  rbi_cap : 0 < m_capacity rb <= INT_MAX;
  rbi_buf : Z.of_nat (length (m_buffer rb)) = m_capacity rb;
  rbi_read : 0 <= m_read rb <= m_write rb;
  rbi_size : m_write rb - m_read rb <= m_capacity rb;
  rbi_write : m_write rb <= INT_MAX
}.

Lemma RingBuffer_new_inv {A} (d : A) c : 0 < c <= INT_MAX → rb_inv (RingBuffer_new d c).
Proof.
  intros Hc. split; simpl; rewrite ?length_replicate; unfold INT_MAX in *; lia.
Qed.

Lemma RingBuffer_new_list {A} (d : A) c : rb_list (RingBuffer_new d c) = [].
Proof. reflexivity. Qed.

Section ops.
Context {A : Type}.
Implicit Types rb : RingBuffer A.

Lemma slot_Ok rb n : rb_inv rb → 0 <= n <= INT_MAX →
  RingBuffer_slot rb n = Ok (Z.to_nat (n mod m_capacity rb)).
Proof.
  intros [Hc Hb Hr Hs Hw] Hn. unfold RingBuffer_slot.
  rewrite to_size_small by mlia. rewrite size_rem_Ok by lia. simpl.
  pose proof (Z.mod_pos_bound n (m_capacity rb)).
  destruct (Z.ltb_spec (n mod m_capacity rb) (Z.of_nat (length (m_buffer rb)))); [done|lia].
Qed.

Lemma rb_at_Some rb j : rb_inv rb → is_Some (rb_at rb j).
Proof.
  intros [Hc Hb _ _ _]. unfold rb_at. apply lookup_lt_is_Some.
  pose proof (Z.mod_pos_bound j (m_capacity rb)). lia.
Qed.

Lemma omap_total {B} (f : Z → option B) (l : list Z) :
  (∀ j, is_Some (f j)) → length (omap f l) = length l.
Proof.
  intros Hf. induction l as [|j l IH]; simpl; [done|].
  destruct (Hf j) as [x ->]. simpl. f_equal. exact IH.
Qed.

Lemma rb_list_length rb : rb_inv rb → Z.of_nat (length (rb_list rb)) = m_write rb - m_read rb.
Proof.
  intros Hi. unfold rb_list. rewrite omap_total by (intros; by apply rb_at_Some).
  rewrite length_seqZ. destruct Hi. lia.
Qed.

Lemma hasRoom_Ok tail read cap : 0 <= read <= tail → tail <= INT_MAX → 0 < cap <= INT_MAX →
  RingBuffer_hasRoom tail read cap = Ok (tail - read <? cap).
Proof.
  intros Hr Ht Hc. unfold RingBuffer_hasRoom. rewrite int_sub_Ok by mlia. simpl. f_equal.
  unfold size_sub. rewrite !to_size_small by mlia.
  destruct (Z.leb_spec (tail - read) (cap - 1)), (Z.ltb_spec (tail - read) cap); (done || lia).
Qed.

(** Slots of counters less than a capacity apart are distinct. *)
Lemma mod_distinct c i j : 0 < c → i < j → j - i < c → i mod c ≠ j mod c.
Proof.
  intros Hc Hij Hd H.
  assert ((j - i) mod c = 0) as H0.
  { rewrite Zminus_mod, H, Z.sub_diag. apply Z.mod_0_l. lia. }
  rewrite Z.mod_small in H0 by lia. lia.
Qed.

Lemma rb_at_insert_ne (b : list A) w r r' c i j v :
  0 < c → Z.of_nat (length b) = c → i < j → j - i < c →
  rb_at (mkRingBuffer w r' c (<[Z.to_nat (j mod c) := v]> b)) i = rb_at (mkRingBuffer w r c b) i.
Proof.
  intros Hc Hb Hij Hd. unfold rb_at. simpl. apply list_lookup_insert_ne.
  pose proof (mod_distinct c i j Hc Hij Hd).
  pose proof (Z.mod_pos_bound i c). pose proof (Z.mod_pos_bound j c). lia.
Qed.

Lemma omap_ext_in {B} (f g : Z → option B) (l : list Z) :
  (∀ j, j ∈ l → f j = g j) → omap f l = omap g l.
Proof.
  intros H. induction l as [|j l IH]; simpl; [done|].
  rewrite H by set_solver. assert (omap f l = omap g l) as E by (apply IH; set_solver).
  unfold omap in E. by rewrite E.
Qed.

(** Appending an element behind the write counter. *)
Lemma rb_list_push rb v : rb_inv rb → m_write rb - m_read rb < m_capacity rb → m_write rb < INT_MAX →
  let rb' := mkRingBuffer (m_write rb + 1) (m_read rb) (m_capacity rb)
               (<[Z.to_nat (m_write rb mod m_capacity rb) := v]> (m_buffer rb)) in
  rb_inv rb' ∧ rb_list rb' = rb_list rb ++ [v].
Proof.
  intros Hi Hroom Hw rb'. destruct rb as [w r c b]. destruct Hi as [Hc Hb Hr Hs Hwm]. simpl in *.
  split.
  - split; simpl; try lia. rewrite length_insert. lia.
  - unfold rb_list, rb'. simpl. replace (w + 1 - r) with ((w - r) + 1) by lia.
    rewrite seqZ_app by lia. rewrite omap_app. f_equal.
    + apply omap_ext_in. intros j Hj%elem_of_seqZ.
      rewrite (rb_at_insert_ne b (w + 1) r r c j w v) by lia. done.
    + replace (r + (w - r)) with w by lia. simpl. unfold rb_at. simpl.
      rewrite list_lookup_insert_eq; [done|]. pose proof (Z.mod_pos_bound w c). lia.
Qed.

Lemma rb_list_pop rb : rb_inv rb → m_read rb < m_write rb →
  ∃ v, rb_at rb (m_read rb) = Some v ∧
    let rb' := mkRingBuffer (m_write rb) (m_read rb + 1) (m_capacity rb) (m_buffer rb) in
    rb_inv rb' ∧ rb_list rb = v :: rb_list rb'.
Proof.
  intros Hi Hlt. destruct (rb_at_Some rb (m_read rb) Hi) as [v Hv]. exists v. split; [done|].
  destruct rb as [w r c b]. destruct Hi as [Hc Hb Hr Hs Hwm]. simpl in *. split.
  - split; simpl; lia.
  - unfold rb_list. simpl. rewrite seqZ_cons by lia. simpl. rewrite Hv.
    replace (Z.succ r) with (r + 1) by lia. replace (Z.pred (w - r)) with (w - (r + 1)) by lia. done.
Qed.
End ops.

(** ** The ring buffer is a queue *)

#[export] Instance RingBuffer_fifo {A} : Fifo A (RingBuffer A) := {
  fifo_tryPush := RingBuffer_tryPush;
  fifo_tryPop := RingBuffer_tryPop;
  fifo_inv := rb_inv;
  fifo_list := rb_list;
  fifo_cap rb := Z.to_nat (m_capacity rb);
  fifo_credit rb := INT_MAX - m_write rb
}.

#[export] Instance RingBuffer_fifo_laws {A} : FifoLaws A (RingBuffer A).
Proof.
  split; simpl.
  - intros v rb Hi Hc Hl. pose proof (rb_list_length rb Hi) as Hlen. pose proof Hi as [H1 H2 H3 H4 H5].
    destruct (rb_list_push rb v Hi) as [Hi' Hl']; [lia|lia|].
    eexists. split; [|split; [exact Hi'|split; [exact Hl'|split; [done|simpl; lia]]]].
    unfold RingBuffer_tryPush, RingBuffer_increment. rewrite int_add_Ok by mlia. simpl.
    rewrite hasRoom_Ok by lia. simpl.
    destruct (Z.ltb_spec (m_write rb - m_read rb) (m_capacity rb)); [|lia].
    by rewrite slot_Ok by (done || lia).
  - intros v rb Hi Hc Hl. pose proof (rb_list_length rb Hi) as Hlen. pose proof Hi as [H1 H2 H3 H4 H5].
    unfold RingBuffer_tryPush, RingBuffer_increment. rewrite int_add_Ok by mlia. simpl.
    rewrite hasRoom_Ok by lia. simpl.
    destruct (Z.ltb_spec (m_write rb - m_read rb) (m_capacity rb)); [lia|done].
  - intros v l rb Hi Hl. pose proof (rb_list_length rb Hi) as Hlen. rewrite Hl in Hlen. simpl in Hlen.
    pose proof Hi as [H1 H2 H3 H4 H5].
    destruct (rb_list_pop rb Hi) as (v' & Hv & Hi' & Hl'); [lia|].
    rewrite Hl in Hl'. injection Hl' as -> ->.
    eexists. split; [|split; [exact Hi'|done]].
    unfold RingBuffer_tryPop. destruct (Z.eqb_spec (m_read rb) (m_write rb)); [lia|].
    rewrite slot_Ok by (done || lia). simpl. unfold rb_at in Hv. rewrite Hv.
    unfold RingBuffer_increment. by rewrite int_add_Ok by mlia.
  - intros rb Hi Hl. pose proof (rb_list_length rb Hi) as Hlen. rewrite Hl in Hlen. simpl in Hlen.
    unfold RingBuffer_tryPop. destruct (Z.eqb_spec (m_read rb) (m_write rb)); [done|lia].
Qed.
