(* ===== verification/RingBufferConcurrent.v ===== *)
(** * The ring buffer under interleaving

    [push] and [tryPop] of [ring_buffer_spsc_lockfree.hpp] cut at their accesses to
    shared memory: the loads and stores of the two counters and the access to the
    slot. A system has some producers, each with the values it has still to push,
    and one consumer that polls for ever; a schedule is a sequence of their steps.
    With one producer every schedule delivers the values once each and in order.
    With two it does not, and the outgoing queues of the order book have two. *)
From Stdlib Require Import ZArith Lia.
From stdpp Require Import base decidable sets list list_numbers numbers relations.
From S2P Require Import Prelude.
From S2P Require Import MachineInt.
From S2P Require Import Fifo.
From S2P Require Import RingBuffer.
Local Open Scope Z_scope.

(** Where a producer stands in [tryPush]. *)
Inductive ProducerPc : Type :=
  | PStart
  | PTail (tail : Z)     (** [m_write] read *)
  | PRoom (tail : Z)     (** room seen *)
  | PStored (tail : Z).  (** the slot written *)

(** Where the consumer stands in [tryPop]. *)
Inductive ConsumerPc (A : Type) : Type :=
  | CStart
  | CHead (head : Z)               (** [m_read] read *)
  | CNonEmpty (head : Z)           (** an element seen *)
  | CGot (head : Z) (element : A). (** the slot read *)
Arguments CStart {A}. Arguments CHead {A}. Arguments CNonEmpty {A}. Arguments CGot {A}.

Record Producer (A : Type) : Type := mkProducer { p_todo : list A; p_pc : ProducerPc }.
Arguments mkProducer {A}. Arguments p_todo {A}. Arguments p_pc {A}.

Record QueueSystem (A : Type) : Type := mkQueueSystem {
  qs_rb : RingBuffer A;
  qs_producers : list (Producer A);
  qs_consumer : ConsumerPc A;
  qs_pushed : list A;  (** the values whose push has returned, oldest first *)
  qs_popped : list A   (** the values the consumer has received, oldest first *)
}.
Arguments mkQueueSystem {A}. Arguments qs_rb {A}. Arguments qs_producers {A}.
Arguments qs_consumer {A}. Arguments qs_pushed {A}. Arguments qs_popped {A}.

Section system.
Context {A : Type}.
Implicit Types rb : RingBuffer A.

(** One step of a producer: its next state, the buffer, and the value it pushed. *)
Definition producer_step (p : Producer A) (rb : RingBuffer A)
    : outcome (option (Producer A * RingBuffer A * list A)) :=
  match p_todo p with
  | [] => Ok None
  | v :: rest =>
      match p_pc p with
      | PStart =>
          _ ← RingBuffer_increment (m_write rb);
          Ok (Some (mkProducer (v :: rest) (PTail (m_write rb)), rb, []))
      | PTail t =>
          room ← RingBuffer_hasRoom t (m_read rb) (m_capacity rb);
          Ok (Some (mkProducer (v :: rest) (if room : bool then PRoom t else PStart), rb, []))
      | PRoom t =>
          i ← RingBuffer_slot rb t;
          Ok (Some (mkProducer (v :: rest) (PStored t),
            mkRingBuffer (m_write rb) (m_read rb) (m_capacity rb) (<[i := v]> (m_buffer rb)), []))
      | PStored t =>
          next ← RingBuffer_increment t;
          Ok (Some (mkProducer rest PStart,
            mkRingBuffer next (m_read rb) (m_capacity rb) (m_buffer rb), [v]))
      end
  end.

(** One step of the consumer: its next state, the buffer, and the value it received. *)
Definition consumer_step (c : ConsumerPc A) (rb : RingBuffer A)
    : outcome (ConsumerPc A * RingBuffer A * list A) :=
  match c with
  | CStart => Ok (CHead (m_read rb), rb, [])
  | CHead h => Ok (if h =? m_write rb then CStart else CNonEmpty h, rb, [])
  | CNonEmpty h =>
      i ← RingBuffer_slot rb h;
      match m_buffer rb !! i with
      | Some element => Ok (CGot h element, rb, [])
      | None => Undef IndexOutOfBounds
      end
  | CGot h element =>
      next ← RingBuffer_increment h;
      Ok (CStart, mkRingBuffer (m_write rb) next (m_capacity rb) (m_buffer rb), [element])
  end.

(** The step of the thread a schedule names: a producer by its number, or the consumer. *)
Definition system_step (who : option nat) (s : QueueSystem A) : outcome (option (QueueSystem A)) :=
  match who with
  | Some i =>
      match qs_producers s !! i with
      | None => Ok None
      | Some p =>
          r ← producer_step p (qs_rb s);
          Ok (match r with
              | None => None
              | Some (p', rb', vs) =>
                  Some (mkQueueSystem rb' (<[i := p']> (qs_producers s)) (qs_consumer s)
                          (qs_pushed s ++ vs) (qs_popped s))
              end)
      end
  | None =>
      '(c', rb', vs) ← consumer_step (qs_consumer s) (qs_rb s);
      Ok (Some (mkQueueSystem rb' (qs_producers s) c' (qs_pushed s) (qs_popped s ++ vs)))
  end.

Inductive step : QueueSystem A → QueueSystem A → Prop :=
  | step_intro who s s' : system_step who s = Ok (Some s') → step s s'.

Definition initial (d : A) (capacity : Z) (todos : list (list A)) : QueueSystem A :=
  mkQueueSystem (RingBuffer_new d capacity) ((λ vs, mkProducer vs PStart) <$> todos) CStart [] [].

Fixpoint run (schedule : list (option nat)) (s : QueueSystem A) : outcome (QueueSystem A) :=
  match schedule with
  | [] => Ok s
  | who :: schedule' =>
      r ← system_step who s;
      run schedule' (match r with Some s' => s' | None => s end)
  end.

Lemma run_reachable schedule s s' : run schedule s = Ok s' → rtc step s s'.
Proof.
  revert s. induction schedule as [|who schedule IH]; intros s H; simpl in H.
  - simplify_eq. apply rtc_refl.
  - apply bind_Ok_inv in H as (r & Hr & H). destruct r as [s1|].
    + eapply rtc_l; [by econstructor|]. by apply IH.
    + by apply IH.
Qed.

(** ** One producer *)

Definition producer_inv (p : Producer A) (rb : RingBuffer A) : Prop :=
  match p_pc p with
  | PStart => True
  | PTail t => t = m_write rb ∧ m_write rb < INT_MAX
  | PRoom t => t = m_write rb ∧ m_write rb < INT_MAX ∧ m_write rb - m_read rb < m_capacity rb
  | PStored t => t = m_write rb ∧ m_write rb < INT_MAX ∧ m_write rb - m_read rb < m_capacity rb ∧
      ∃ v rest, p_todo p = v :: rest ∧ rb_at rb (m_write rb) = Some v
  end.

Definition consumer_inv (c : ConsumerPc A) (rb : RingBuffer A) : Prop :=
  match c with
  | CStart => True
  | CHead h => h = m_read rb
  | CNonEmpty h => h = m_read rb ∧ m_read rb < m_write rb
  | CGot h v => h = m_read rb ∧ m_read rb < m_write rb ∧ rb_at rb h = Some v
  end.

Record spsc_inv (vs : list A) (s : QueueSystem A) : Prop := {
  si_rb : rb_inv (qs_rb s);
  si_prod : ∃ p, qs_producers s = [p] ∧ producer_inv p (qs_rb s) ∧ qs_pushed s ++ p_todo p = vs;
  si_cons : consumer_inv (qs_consumer s) (qs_rb s);
  si_fifo : qs_popped s ++ rb_list (qs_rb s) = qs_pushed s
}.

Lemma initial_inv d c vs : 0 < c <= INT_MAX → spsc_inv vs (initial d c [vs]).
Proof.
  intros Hc. split; simpl; [by apply RingBuffer_new_inv| |done|done].
  exists (mkProducer vs PStart). done.
Qed.

(** Storing into the free slot behind the write counter is not visible. *)
Lemma store_slot rb v : rb_inv rb → m_write rb - m_read rb < m_capacity rb →
  let rb' := mkRingBuffer (m_write rb) (m_read rb) (m_capacity rb)
               (<[Z.to_nat (m_write rb mod m_capacity rb) := v]> (m_buffer rb)) in
  rb_inv rb' ∧ rb_list rb' = rb_list rb ∧ rb_at rb' (m_write rb) = Some v ∧
  (∀ j, m_read rb <= j < m_write rb → rb_at rb' j = rb_at rb j).
Proof.
  intros Hi Hroom rb'. destruct rb as [w r c b]. destruct Hi as [Hc Hb Hr Hs Hw]. simpl in *.
  assert (∀ j, r <= j < w → rb_at rb' j = rb_at (mkRingBuffer w r c b) j) as Hat.
  { intros j Hj. apply rb_at_insert_ne; lia. }
  split; [|split; [|split; [|done]]].
  - split; simpl; rewrite ?length_insert; lia.
  - unfold rb_list. apply omap_ext_in. intros j Hj%elem_of_seqZ. simpl in Hj. apply Hat. lia.
  - unfold rb_at. simpl. apply list_lookup_insert_eq. pose proof (Z.mod_pos_bound w c). lia.
Qed.

Lemma commit_slot rb v : rb_inv rb → m_write rb - m_read rb < m_capacity rb → m_write rb < INT_MAX →
  rb_at rb (m_write rb) = Some v →
  let rb' := mkRingBuffer (m_write rb + 1) (m_read rb) (m_capacity rb) (m_buffer rb) in
  rb_inv rb' ∧ rb_list rb' = rb_list rb ++ [v].
Proof.
  intros Hi Hroom Hw Hv rb'. destruct (rb_list_push rb v Hi Hroom Hw) as [Hi' Hl'].
  unfold rb_at in Hv. rewrite list_insert_id in Hi', Hl' by done. done.
Qed.

Lemma producer_step_inv vs p p' s rb' out :
  spsc_inv vs s → qs_producers s = [p] → producer_step p (qs_rb s) = Ok (Some (p', rb', out)) →
  spsc_inv vs (mkQueueSystem rb' [p'] (qs_consumer s) (qs_pushed s ++ out) (qs_popped s)).
Proof.
  intros [Hi (p0 & Hp0 & Hpi & Hvs) Hc Hf] Hp Hs. rewrite Hp in Hp0. injection Hp0 as <-.
  destruct s as [rb ps c pushed popped]. simpl in *. subst ps.
  pose proof Hi as [H1 H2 H3 H4 H5].
  unfold producer_step in Hs. unfold producer_inv in Hpi.
  destruct p as [[|v rest] pc]; simpl in *; [done|]. destruct pc as [|t|t|t].
  - destruct (RingBuffer_increment (m_write rb)) eqn:Ei; simpl in Hs; try discriminate Hs.
    injection Hs as <- <- <-. rewrite app_nil_r.
    split; simpl; try done. eexists. split; [done|]. split; [|done].
    unfold producer_inv. simpl. split; [done|].
    unfold RingBuffer_increment, int_add in Ei. destruct (in_int (m_write rb + 1)) eqn:E; [|done]. mlia.
  - destruct Hpi as [-> Hw]. rewrite hasRoom_Ok in Hs by lia. simpl in Hs.
    injection Hs as <- <- <-. rewrite app_nil_r.
    split; simpl; try done. eexists. split; [done|]. split; [|done].
    destruct (Z.ltb_spec (m_write rb - m_read rb) (m_capacity rb)); unfold producer_inv; simpl; done.
  - destruct Hpi as (-> & Hw & Hroom). rewrite slot_Ok in Hs by (done || lia). simpl in Hs.
    injection Hs as <- <- <-. rewrite app_nil_r. destruct (store_slot rb v Hi Hroom) as (Hi' & Hl' & Hv & Hat).
    split; simpl; [done| | |by rewrite Hl'].
    + eexists. split; [done|]. split; [|done]. unfold producer_inv. simpl. split_and!; try done. eauto.
    + destruct c as [|h|h|h x]; simpl in *; try done.
      destruct Hc as (-> & Hlt & Hx). split_and!; try done. rewrite Hat; [done|lia].
  - destruct Hpi as (-> & Hw & Hroom & v' & rest' & [= <- <-] & Hv).
    unfold RingBuffer_increment in Hs. rewrite int_add_Ok in Hs by mlia. simpl in Hs. injection Hs as <- <- <-.
    destruct (commit_slot rb v Hi Hroom Hw Hv) as [Hi' Hl'].
    split; simpl; [done| | |by rewrite Hl', app_assoc, Hf].
    + eexists. split; [done|]. split; [done|]. simpl. by rewrite <- app_assoc.
    + destruct c as [|h|h|h x]; simpl in *; try done; intuition lia.
Qed.

Lemma consumer_step_inv vs c' s rb' out :
  spsc_inv vs s → consumer_step (qs_consumer s) (qs_rb s) = Ok (c', rb', out) →
  spsc_inv vs (mkQueueSystem rb' (qs_producers s) c' (qs_pushed s) (qs_popped s ++ out)).
Proof.
  intros [Hi (p & Hp & Hpi & Hvs) Hc Hf] Hs. destruct s as [rb ps c pushed popped]. simpl in *.
  pose proof Hi as [H1 H2 H3 H4 H5]. unfold consumer_step in Hs.
  destruct c as [|h|h|h x]; simpl in *.
  - injection Hs as <- <- <-. rewrite app_nil_r. split; simpl; try done. eauto.
  - injection Hs as <- <- <-. rewrite app_nil_r. split; simpl; try done; [eauto|]. subst h.
    destruct (Z.eqb_spec (m_read rb) (m_write rb)); simpl; [done|lia].
  - destruct Hc as [-> Hlt]. rewrite slot_Ok in Hs by (done || lia). simpl in Hs.
    destruct (m_buffer rb !! _) as [e|] eqn:He; [|discriminate Hs].
    injection Hs as <- <- <-. rewrite app_nil_r.
    split; simpl; try done. eauto.
  - destruct Hc as (-> & Hlt & Hx). unfold RingBuffer_increment in Hs.
    rewrite int_add_Ok in Hs by mlia. simpl in Hs. injection Hs as <- <- <-.
    destruct (rb_list_pop rb Hi Hlt) as (v & Hv & Hi' & Hl').
    assert (v = x) as -> by congruence.
    split; simpl; [done| |done|by rewrite <- app_assoc, <- Hf, Hl'].
    exists p. split; [done|]. split; [|done]. unfold producer_inv in *. destruct (p_pc p); simpl; try done;
      intuition lia.
Qed.

Lemma spsc_inv_step vs s s' : spsc_inv vs s → step s s' → spsc_inv vs s'.
Proof.
  intros Hi Hs. destruct Hs as [who s s' Hs]. pose proof (si_prod _ _ Hi) as (p & Hp & _).
  unfold system_step in Hs. destruct who as [i|].
  - rewrite Hp in Hs. destruct i as [|i]; simpl in Hs; [|by destruct i].
    apply bind_Ok_inv in Hs as ([[[p' rb'] out]|] & Hs & Heq); simplify_eq/=.
    by apply (producer_step_inv vs p).
  - apply bind_Ok_inv in Hs as ([[c' rb'] out] & Hs & Heq). simplify_eq.
    by apply consumer_step_inv.
Qed.

Lemma spsc_inv_reachable vs s s' : rtc step s s' → spsc_inv vs s → spsc_inv vs s'.
Proof. induction 1; eauto using spsc_inv_step. Qed.
End system.

(** With a single producer, in every reachable state of every interleaving the
    values received, followed by the values in the buffer, are the values pushed,
    in order; and those are a prefix of what the producer had to push. *)
Theorem spsc_fifo {A} (d : A) (capacity : Z) (vs : list A) (s : QueueSystem A)
    (Hcap : 0 < capacity <= INT_MAX) (Hreach : rtc step (initial d capacity [vs]) s) :
  rb_inv (qs_rb s) ∧ qs_popped s ++ rb_list (qs_rb s) = qs_pushed s ∧ qs_pushed s `prefix_of` vs.
Proof.
  pose proof (spsc_inv_reachable vs _ _ Hreach (initial_inv d capacity vs Hcap))
    as [Hi (p & _ & _ & Hvs) _ Hf].
  split; [done|]. split; [done|]. by exists (p_todo p).
Qed.

(** The state a schedule reaches, when it runs without undefined behaviour. *)
Definition state_after {A} (schedule : list (option nat)) (s : QueueSystem A) : QueueSystem A :=
  match run schedule s with Ok s' => s' | _ => s end.

Lemma state_after_reachable {A} schedule (s : QueueSystem A) :
  is_Ok (run schedule s) = true → rtc step s (state_after schedule s).
Proof.
  unfold state_after. intros H. destruct (run schedule s) eqn:E; try discriminate H.
  by eapply run_reachable.
Qed.

Definition demo_schedule : list (option nat) :=
  [Some 0%nat; Some 0%nat; None; Some 0%nat; Some 0%nat; None; None; Some 0%nat; None; Some 0%nat; None; None].

Lemma spsc_fifo_witness : let s := state_after demo_schedule (initial 0 2 [[7; 8]]) in
  qs_popped s = [7] ∧
  rb_inv (qs_rb s) ∧ qs_popped s ++ rb_list (qs_rb s) = qs_pushed s ∧ qs_pushed s `prefix_of` [7; 8].
Proof.
  split; [vm_compute; reflexivity|]. apply (spsc_fifo 0 2 [7; 8]); [by vm_compute|].
  apply state_after_reachable. vm_compute. reflexivity.
Defined.

(** ** Two producers *)

Section two.
Context {A : Type}.
Implicit Types s : QueueSystem A.

(** A step of producer [k], which stands at [pc] with [v] to push. *)
Lemma step_producer k pc pc' (v : A) (rest rest' : list A) rb rb' ps c pushed popped out :
  ps !! k = Some (mkProducer (v :: rest) pc) →
  producer_step (mkProducer (v :: rest) pc) rb = Ok (Some (mkProducer rest' pc', rb', out)) →
  step (mkQueueSystem rb ps c pushed popped) (mkQueueSystem rb' (<[k := mkProducer rest' pc']> ps) c (pushed ++ out) popped).
Proof. intros Ek Es. apply (step_intro (Some k)). unfold system_step. cbn [qs_producers qs_rb]. rewrite Ek, Es. reflexivity. Qed.

(** A producer that has not begun reads the counter and finds room. *)
Lemma producer_enters k (v : A) (rest : list A) rb ps c pushed popped :
  rb_inv rb → m_write rb < INT_MAX → m_write rb - m_read rb < m_capacity rb → ps !! k = Some (mkProducer (v :: rest) PStart) →
  rtc step (mkQueueSystem rb ps c pushed popped)
    (mkQueueSystem rb (<[k := mkProducer (v :: rest) (PRoom (m_write rb))]> ps) c pushed popped).
Proof.
  intros Hi Hw Hroom Ek. pose proof Hi as [H1 H2 H3 H4 H5]. assert (k < length ps)%nat by (by eapply lookup_lt_Some).
  eapply rtc_l.
  { eapply (step_producer k PStart (PTail (m_write rb)) v rest (v :: rest) rb rb); [exact Ek|].
    unfold producer_step. cbn [p_todo p_pc]. unfold RingBuffer_increment. rewrite int_add_Ok by mlia. reflexivity. }
  rewrite app_nil_r. apply rtc_once.
  replace (<[k := mkProducer (v :: rest) (PRoom (m_write rb))]> ps) with
    (<[k := mkProducer (v :: rest) (PRoom (m_write rb))]> (<[k := mkProducer (v :: rest) (PTail (m_write rb))]> ps))
    by apply list_insert_insert_eq.
  rewrite <- (app_nil_r pushed) at 2.
  eapply (step_producer k (PTail (m_write rb)) (PRoom (m_write rb)) v rest (v :: rest) rb rb); [by apply list_lookup_insert_eq|].
  unfold producer_step. cbn [p_todo p_pc]. rewrite hasRoom_Ok by (done || lia). cbn [mbind outcome_bind].
  by destruct (Z.ltb_spec (m_write rb - m_read rb) (m_capacity rb)); [|lia].
Qed.

(** It writes the slot of the counter it has read. *)
Lemma producer_stores k (v : A) (rest : list A) rb t ps c pushed popped : rb_inv rb → 0 <= t <= INT_MAX →
  ps !! k = Some (mkProducer (v :: rest) (PRoom t)) →
  step (mkQueueSystem rb ps c pushed popped)
    (mkQueueSystem (mkRingBuffer (m_write rb) (m_read rb) (m_capacity rb) (<[Z.to_nat (t mod m_capacity rb) := v]> (m_buffer rb)))
       (<[k := mkProducer (v :: rest) (PStored t)]> ps) c pushed popped).
Proof.
  intros Hi Ht Ek. rewrite <- (app_nil_r pushed) at 2. eapply step_producer; [exact Ek|].
  unfold producer_step. cbn [p_todo p_pc]. by rewrite slot_Ok by done.
Qed.

(** It sets the counter, and its push returns. *)
Lemma producer_commits k (v : A) (rest : list A) rb t ps c pushed popped : 0 <= t < INT_MAX →
  ps !! k = Some (mkProducer (v :: rest) (PStored t)) →
  step (mkQueueSystem rb ps c pushed popped)
    (mkQueueSystem (mkRingBuffer (t + 1) (m_read rb) (m_capacity rb) (m_buffer rb))
       (<[k := mkProducer rest PStart]> ps) c (pushed ++ [v]) popped).
Proof.
  intros Ht Ek. eapply step_producer; [exact Ek|]. unfold producer_step, RingBuffer_increment. cbn [p_todo p_pc].
  by rewrite int_add_Ok by mlia.
Qed.
End two.

(** C39: Two producers lose a value. From any state of the queue, with room for one value and
    any number of producers, of which [i] and [j] are about to push [v] and [w], there is an
    execution of these two alone in which both pushes return, one after the other, but only
    [w] is in the queue behind what was there: both read the same counter and write the same
    slot. *)
Theorem two_producers_lose_a_value {A} (s : QueueSystem A) (i j : nat) (v w : A) (vs ws : list A)
    (Hinv : rb_inv (qs_rb s)) (Hcounter : m_write (qs_rb s) < INT_MAX)
    (Hroom : m_write (qs_rb s) - m_read (qs_rb s) < m_capacity (qs_rb s)) (Hdistinct : i ≠ j)
    (Hi : qs_producers s !! i = Some (mkProducer (v :: vs) PStart))
    (Hj : qs_producers s !! j = Some (mkProducer (w :: ws) PStart)) :
  ∃ s', rtc step s s' ∧ qs_pushed s' = qs_pushed s ++ [v; w] ∧ qs_popped s' = qs_popped s ∧
    qs_producers s' !! i = Some (mkProducer vs PStart) ∧ qs_producers s' !! j = Some (mkProducer ws PStart) ∧
    rb_inv (qs_rb s') ∧ rb_list (qs_rb s') = rb_list (qs_rb s) ++ [w].
Proof.
  destruct s as [rb ps c pushed popped]. cbn [qs_rb qs_producers qs_pushed qs_popped] in *. pose proof Hinv as [H1 H2 H3 H4 H5].
  pose proof (lookup_lt_Some _ _ _ Hi) as Li. pose proof (lookup_lt_Some _ _ _ Hj) as Lj.
  set (t := m_write rb) in *. set (b1 := <[Z.to_nat (t mod m_capacity rb) := v]> (m_buffer rb)).
  destruct (store_slot rb v Hinv Hroom) as (Hi1 & Hl1 & _). fold t b1 in Hi1, Hl1.
  destruct (store_slot _ w Hi1 Hroom) as (Hi2 & Hl2 & Hv2 & _). cbn [m_write m_read m_capacity m_buffer] in Hi2, Hl2, Hv2.
  set (b2 := <[Z.to_nat (t mod m_capacity rb) := w]> b1) in *.
  destruct (commit_slot _ w Hi2 Hroom Hcounter Hv2) as [Hi3 Hl3]. cbn [m_write m_read m_capacity m_buffer] in Hi3, Hl3.
  set (p1 := <[i := mkProducer (v :: vs) (PRoom t)]> ps). set (p2 := <[j := mkProducer (w :: ws) (PRoom t)]> p1).
  set (p3 := <[i := mkProducer (v :: vs) (PStored t)]> p2). set (p4 := <[j := mkProducer (w :: ws) (PStored t)]> p3).
  set (p5 := <[i := mkProducer vs PStart]> p4). set (p6 := <[j := mkProducer ws PStart]> p5).
  assert (Hne : ∀ (k k' : nat) (x : Producer A) l, k ≠ k' → <[k := x]> l !! k' = l !! k') by (intros; by apply list_lookup_insert_ne).
  assert (Heq : ∀ (k : nat) (x : Producer A) l, (k < length l)%nat → <[k := x]> l !! k = Some x) by (intros; by apply list_lookup_insert_eq).
  exists (mkQueueSystem (mkRingBuffer (t + 1) (m_read rb) (m_capacity rb) b2) p6 c ((pushed ++ [v]) ++ [w]) popped).
  split; [|cbn [qs_rb qs_producers qs_pushed qs_popped]; split_and!].
  - etrans; [by apply (producer_enters i v vs)|]. fold t p1.
    etrans; [apply (producer_enters j w ws); try done; unfold p1; by rewrite Hne|]. fold t p2.
    eapply rtc_l; [apply (producer_stores i v vs rb t p2); [done|lia|unfold p2, p1; by rewrite Hne, Heq]|]. fold p3 t b1.
    eapply rtc_l; [apply (producer_stores j w ws _ t p3); [exact Hi1|lia|unfold p3, p2; rewrite Hne, Heq; [done|unfold p1; by rewrite length_insert|done]]|].
    cbn [m_write m_read m_capacity m_buffer]. fold p4 b2.
    eapply rtc_l; [apply (producer_commits i v vs _ t p4); [lia|unfold p4, p3, p2, p1; rewrite Hne, Heq; [done|by rewrite !length_insert|done]]|].
    cbn [m_write m_read m_capacity m_buffer]. fold p5. apply rtc_once.
    apply (producer_commits j w ws (mkRingBuffer (t + 1) (m_read rb) (m_capacity rb) b2) t p5 c (pushed ++ [v]) popped); [lia|unfold p5, p4, p3, p2, p1; rewrite Hne, Heq; [done|by rewrite !length_insert|done]].
  - by rewrite <- app_assoc.
  - done.
  - unfold p6, p5, p4, p3, p2, p1. rewrite Hne, Heq; [done|by rewrite !length_insert|done].
  - unfold p6, p5, p4, p3, p2, p1. rewrite Heq; [done|by rewrite !length_insert].
  - exact Hi3.
  - by rewrite Hl3, Hl2, Hl1.
Qed.

(** The queue of a security: the reactor's thread has one report to push, the worker two. *)
Lemma two_producers_lose_a_value_witness : let s := initial 0 4 [[1]; [2; 3]] in
  ∃ s', rtc step s s' ∧ qs_pushed s' = qs_pushed s ++ [1; 2] ∧ qs_popped s' = qs_popped s ∧
    qs_producers s' !! 0%nat = Some (mkProducer [] PStart) ∧ qs_producers s' !! 1%nat = Some (mkProducer [3] PStart) ∧
    rb_inv (qs_rb s') ∧ rb_list (qs_rb s') = rb_list (qs_rb s) ++ [2].
Proof.
  apply (two_producers_lose_a_value (initial 0 4 [[1]; [2; 3]]) 0 1 1 2 [] [3]); try reflexivity; [|done].
  apply RingBuffer_new_inv. mlia.
Defined.
