(* ===== verification/RingBufferOrders.v ===== *)
(** * The ring buffer under its memory orders

    [tryPush] and [tryPop] of [ring_buffer_spsc_lockfree.hpp], cut at their accesses to
    shared memory as in [RingBufferConcurrent.v], on a machine where a thread may read old
    values. The file follows the view semantics of C++11 atomics. The stores to a counter
    are kept in their modification order, each with the view it releases; a [ThreadView] is
    what a thread knows: the stores it has seen, and the accesses to slots that happened
    before. An acquire load may return any store that is not older than those the thread
    has seen. A slot is plain memory: an access that a conflicting access of the other
    thread did not happen before is a data race, which is undefined behaviour. The loads
    of a thread's own counter are sequentially consistent in the source; they are taken as
    acquire loads, which allows more.

    Each counter has one thread that stores to it, so that its modification order is the
    order of execution. *)
From Stdlib Require Import ZArith Lia.
From stdpp Require Import base decidable list list_numbers numbers.
From S2P Require Import Prelude.
From S2P Require Import MachineInt.
From S2P Require Import RingBuffer.
From S2P Require Import RingBufferConcurrent.
Local Open Scope Z_scope.

(** ** Views *)

Record ThreadView : Type := mkThreadView {
  tv_write : nat;     (** the newest store to [m_write] seen *)
  tv_read : nat;      (** the newest store to [m_read] seen *)
  tv_producer : nat;  (** how many slot accesses of the producer happened before *)
  tv_consumer : nat   (** how many slot accesses of the consumer happened before *)
}.

Definition view_start : ThreadView := mkThreadView 0 0 0 0.

Definition tv_join (a b : ThreadView) : ThreadView :=
  mkThreadView (tv_write a `max` tv_write b) (tv_read a `max` tv_read b)
    (tv_producer a `max` tv_producer b) (tv_consumer a `max` tv_consumer b).

(** A view of accesses that took place: [np] and [nc] are the numbers of slot accesses of
    the two threads, [nw] and [nr] the numbers of stores after the first. *)
Definition view_ok (nw nr np nc : nat) (v : ThreadView) : Prop :=
  (tv_write v <= tv_producer v <= np ∧ tv_read v <= tv_consumer v <= nc ∧ tv_write v <= nw ∧ tv_read v <= nr)%nat.

Ltac view_lia := unfold view_ok, tv_join, view_start in *; cbn [tv_write tv_read tv_producer tv_consumer] in *; lia.

(** A store to a counter: its value, and the view it releases. *)
Record Stored : Type := mkStored { st_value : Z; st_view : ThreadView }.

(** A slot, with the access of each thread that came last. *)
Record Slot (A : Type) : Type := mkSlot { sl_value : A; sl_written : nat; sl_fetched : nat }.
Arguments mkSlot {A}. Arguments sl_value {A}. Arguments sl_written {A}. Arguments sl_fetched {A}.

(** ** The system *)

Inductive Side : Type := Producing | Consuming.

Record OrderedSystem (A : Type) : Type := mkOrderedSystem {
  os_write : list Stored;       (** the stores to [m_write], oldest first *)
  os_read : list Stored;        (** the stores to [m_read], oldest first *)
  os_capacity : Z;
  os_slots : list (Slot A);
  os_producer : Producer A;
  os_producer_view : ThreadView;
  os_consumer : ConsumerPc A;
  os_consumer_view : ThreadView;
  os_pushed : list A;           (** the values whose push has returned, oldest first *)
  os_popped : list A            (** the values the consumer has received, oldest first *)
}.
Arguments mkOrderedSystem {A}. Arguments os_write {A}. Arguments os_read {A}. Arguments os_capacity {A}.
Arguments os_slots {A}. Arguments os_producer {A}. Arguments os_producer_view {A}.
Arguments os_consumer {A}. Arguments os_consumer_view {A}. Arguments os_pushed {A}. Arguments os_popped {A}.

Section system.
Context {A : Type}.
Implicit Types s : OrderedSystem A.

(** An acquire load by a thread that has seen the store [seen] reads the store [i]. *)
Definition acquire_load (history : list Stored) (seen i : nat) : option Stored :=
  if (seen <=? i)%nat then history !! i else None.

Definition load_write (i : nat) (history : list Stored) (v : ThreadView) : option (Z * ThreadView) :=
  st ← acquire_load history (tv_write v) i;
  Some (st_value st, tv_join (tv_join v (mkThreadView i 0 0 0)) (st_view st)).

Definition load_read (i : nat) (history : list Stored) (v : ThreadView) : option (Z * ThreadView) :=
  st ← acquire_load history (tv_read v) i;
  Some (st_value st, tv_join (tv_join v (mkThreadView 0 i 0 0)) (st_view st)).

(** Release stores. *)
Definition store_write (x : Z) (history : list Stored) (v : ThreadView) : list Stored * ThreadView :=
  let v' := tv_join v (mkThreadView (length history) 0 0 0) in (history ++ [mkStored x v'], v').

Definition store_read (x : Z) (history : list Stored) (v : ThreadView) : list Stored * ThreadView :=
  let v' := tv_join v (mkThreadView 0 (length history) 0 0) in (history ++ [mkStored x v'], v').

(** The slot of a counter: [n % m_capacity]. *)
Definition slot_index s (n : Z) : outcome nat :=
  i ← size_rem (to_size n) (os_capacity s);
  if i <? Z.of_nat (length (os_slots s)) then Ok (Z.to_nat i) else Undef IndexOutOfBounds.

(** The producer writes a slot; the consumer's last access to it must have happened before. *)
Definition write_slot (i : nat) (x : A) (slots : list (Slot A)) (v : ThreadView) : outcome (list (Slot A) * ThreadView) :=
  match slots !! i with
  | None => Undef IndexOutOfBounds
  | Some sl =>
      if (sl_fetched sl <=? tv_consumer v)%nat then
        let v' := mkThreadView (tv_write v) (tv_read v) (S (tv_producer v)) (tv_consumer v) in
        Ok (<[i := mkSlot x (tv_producer v') (sl_fetched sl)]> slots, v')
      else Undef DataRace
  end.

(** The consumer reads a slot; the producer's last access to it must have happened before. *)
Definition read_slot (i : nat) (slots : list (Slot A)) (v : ThreadView) : outcome (A * list (Slot A) * ThreadView) :=
  match slots !! i with
  | None => Undef IndexOutOfBounds
  | Some sl =>
      if (sl_written sl <=? tv_producer v)%nat then
        let v' := mkThreadView (tv_write v) (tv_read v) (tv_producer v) (S (tv_consumer v)) in
        Ok (sl_value sl, <[i := mkSlot (sl_value sl) (sl_written sl) (tv_consumer v')]> slots, v')
      else Undef DataRace
  end.

(** A step of the producer, whose load, if it makes one, reads the store [i]. *)
Definition ordered_push (i : nat) s : outcome (option (OrderedSystem A)) :=
  let '(mkOrderedSystem ws rs c slots p v cpc cv pushed popped) := s in
  match p_todo p with
  | [] => Ok None
  | x :: rest =>
      match p_pc p with
      | PStart =>
          match load_write i ws v with
          | None => Ok None
          | Some (t, v') =>
              _ ← RingBuffer_increment t;
              Ok (Some (mkOrderedSystem ws rs c slots (mkProducer (x :: rest) (PTail t)) v' cpc cv pushed popped))
          end
      | PTail t =>
          match load_read i rs v with
          | None => Ok None
          | Some (r, v') =>
              room ← RingBuffer_hasRoom t r c;
              Ok (Some (mkOrderedSystem ws rs c slots (mkProducer (x :: rest) (if room : bool then PRoom t else PStart))
                          v' cpc cv pushed popped))
          end
      | PRoom t =>
          k ← slot_index s t;
          '(slots', v') ← write_slot k x slots v;
          Ok (Some (mkOrderedSystem ws rs c slots' (mkProducer (x :: rest) (PStored t)) v' cpc cv pushed popped))
      | PStored t =>
          next ← RingBuffer_increment t;
          let '(ws', v') := store_write next ws v in
          Ok (Some (mkOrderedSystem ws' rs c slots (mkProducer rest PStart) v' cpc cv (pushed ++ [x]) popped))
      end
  end.

(** A step of the consumer. *)
Definition ordered_pop (i : nat) s : outcome (option (OrderedSystem A)) :=
  let '(mkOrderedSystem ws rs c slots p pv cpc v pushed popped) := s in
  match cpc with
  | CStart =>
      match load_read i rs v with
      | None => Ok None
      | Some (h, v') => Ok (Some (mkOrderedSystem ws rs c slots p pv (CHead h) v' pushed popped))
      end
  | CHead h =>
      match load_write i ws v with
      | None => Ok None
      | Some (w, v') =>
          Ok (Some (mkOrderedSystem ws rs c slots p pv (if h =? w then CStart else CNonEmpty h) v' pushed popped))
      end
  | CNonEmpty h =>
      k ← slot_index s h;
      '(x, slots', v') ← read_slot k slots v;
      Ok (Some (mkOrderedSystem ws rs c slots' p pv (CGot h x) v' pushed popped))
  | CGot h x =>
      next ← RingBuffer_increment h;
      let '(rs', v') := store_read next rs v in
      Ok (Some (mkOrderedSystem ws rs' c slots p pv CStart v' pushed (popped ++ [x])))
  end.

Definition ordered_step (who : Side * nat) s : outcome (option (OrderedSystem A)) :=
  match who with (Producing, i) => ordered_push i s | (Consuming, i) => ordered_pop i s end.

(** A schedule names the thread of each step and the store its load reads; a step that is
    not possible is passed over. *)
Fixpoint ordered_run (schedule : list (Side * nat)) s : outcome (OrderedSystem A) :=
  match schedule with
  | [] => Ok s
  | who :: schedule' =>
      r ← ordered_step who s;
      ordered_run schedule' (match r with Some s' => s' | None => s end)
  end.

(** The constructor stores both counters before there are threads. *)
Definition ordered_start (d : A) (capacity : Z) (todo : list A) : OrderedSystem A :=
  let rb := RingBuffer_new d capacity in
  mkOrderedSystem [mkStored (m_write rb) view_start] [mkStored (m_read rb) view_start] (m_capacity rb)
    ((λ x, mkSlot x 0 0) <$> m_buffer rb) (mkProducer todo PStart) view_start CStart view_start [] [].

(** ** The invariant *)


(** Store number [i] stores [i], and releases at least itself. *)
Definition history_ok (seen : ThreadView → nat) (nw nr np nc : nat) (history : list Stored) : Prop :=
  ∀ i st, history !! i = Some st → st_value st = Z.of_nat i ∧ (i <= seen (st_view st))%nat ∧ view_ok nw nr np nc (st_view st).

Record slots_ok (vs : list A) (c : Z) (np nc : nat) (slots : list (Slot A)) : Prop := {
  so_len : Z.of_nat (length slots) = c;
  so_written j : Z.of_nat np - c <= j < Z.of_nat np → 0 <= j → ∃ sl, slots !! Z.to_nat (j mod c) = Some sl ∧
    vs !! Z.to_nat j = Some (sl_value sl) ∧ Z.of_nat (sl_written sl) = j + 1;
  so_fetched k sl : slots !! k = Some sl → sl_fetched sl = 0%nat ∨
    ∃ j, 0 <= j < Z.of_nat nc ∧ j mod c = Z.of_nat k ∧ Z.of_nat (sl_fetched sl) = j + 1
}.

Definition push_inv (nw np : nat) (c : Z) (v : ThreadView) (pc : ProducerPc) : Prop :=
  match pc with
  | PStart => np = nw
  | PTail t => t = Z.of_nat nw ∧ np = nw ∧ Z.of_nat nw < INT_MAX
  | PRoom t => t = Z.of_nat nw ∧ np = nw ∧ Z.of_nat nw < INT_MAX ∧ Z.of_nat nw - Z.of_nat (tv_read v) < c
  | PStored t => t = Z.of_nat nw ∧ np = S nw ∧ Z.of_nat nw < INT_MAX
  end.

Definition pop_inv (vs : list A) (nr nc : nat) (v : ThreadView) (pc : ConsumerPc A) : Prop :=
  match pc with
  | CStart => nc = nr
  | CHead h => h = Z.of_nat nr ∧ nc = nr
  | CNonEmpty h => h = Z.of_nat nr ∧ nc = nr ∧ (nr < tv_write v)%nat
  | CGot h x => h = Z.of_nat nr ∧ nc = S nr ∧ (nr < tv_write v)%nat ∧ vs !! nr = Some x
  end.

Record ordered_inv (vs : list A) (nw nr np nc : nat) (s : OrderedSystem A) : Prop := {
  oi_cap : 0 < os_capacity s <= INT_MAX;
  oi_nw : length (os_write s) = S nw;
  oi_nr : length (os_read s) = S nr;
  oi_write : history_ok tv_write nw nr np nc (os_write s);
  oi_read : history_ok tv_read nw nr np nc (os_read s);
  oi_slots : slots_ok vs (os_capacity s) np nc (os_slots s);
  oi_pview : view_ok nw nr np nc (os_producer_view s) ∧ tv_write (os_producer_view s) = nw ∧
             tv_producer (os_producer_view s) = np;
  oi_cview : view_ok nw nr np nc (os_consumer_view s) ∧ tv_read (os_consumer_view s) = nr ∧
             tv_consumer (os_consumer_view s) = nc ∧ (nr <= tv_write (os_consumer_view s))%nat;
  oi_push : push_inv nw np (os_capacity s) (os_producer_view s) (p_pc (os_producer s));
  oi_pop : pop_inv vs nr nc (os_consumer_view s) (os_consumer s);
  oi_room : Z.of_nat np <= Z.of_nat nr + os_capacity s;
  oi_todo : p_todo (os_producer s) = drop nw vs;
  oi_pushed : os_pushed s = take nw vs;
  oi_popped : os_popped s = take nr vs;
  oi_bound : Z.of_nat nw <= INT_MAX ∧ (nw <= length vs)%nat
}.


Section counters.
Context (nw nr np nc : nat).

Lemma load_write_ok i ws v t v' : history_ok tv_write nw nr np nc ws → view_ok nw nr np nc v →
  load_write i ws v = Some (t, v') →
  t = Z.of_nat i ∧ (tv_write v <= i <= nw)%nat ∧ view_ok nw nr np nc v' ∧ (i <= tv_write v')%nat ∧
  (tv_read v <= tv_read v' ∧ tv_producer v <= tv_producer v' ∧ tv_consumer v <= tv_consumer v')%nat.
Proof.
  intros Hh Hv Hl. unfold load_write, acquire_load in Hl. destruct (Nat.leb_spec (tv_write v) i); [|done].
  destruct (ws !! i) as [st|] eqn:Hst; simplify_eq/=. destruct (Hh i st Hst) as (Hval & Hi & Hst').
  split; [done|]. view_lia.
Qed.

Lemma load_read_ok i rs v t v' : history_ok tv_read nw nr np nc rs → view_ok nw nr np nc v →
  load_read i rs v = Some (t, v') →
  t = Z.of_nat i ∧ (tv_read v <= i <= nr)%nat ∧ view_ok nw nr np nc v' ∧ (i <= tv_read v')%nat ∧
  (tv_write v <= tv_write v' ∧ tv_producer v <= tv_producer v' ∧ tv_consumer v <= tv_consumer v')%nat.
Proof.
  intros Hh Hv Hl. unfold load_read, acquire_load in Hl. destruct (Nat.leb_spec (tv_read v) i); [|done].
  destruct (rs !! i) as [st|] eqn:Hst; simplify_eq/=. destruct (Hh i st Hst) as (Hval & Hi & Hst').
  split; [done|]. view_lia.
Qed.

Lemma view_ok_mono nw' nr' np' nc' v : (nw <= nw')%nat → (nr <= nr')%nat → (np <= np')%nat → (nc <= nc')%nat →
  view_ok nw nr np nc v → view_ok nw' nr' np' nc' v.
Proof. view_lia. Qed.

Lemma history_ok_mono seen nw' nr' np' nc' h :
  (nw <= nw')%nat → (nr <= nr')%nat → (np <= np')%nat → (nc <= nc')%nat →
  history_ok seen nw nr np nc h → history_ok seen nw' nr' np' nc' h.
Proof. intros ???? Hh i st Hst. destruct (Hh i st Hst) as (? & ? & Hv). split_and!; [done|done|]. by apply view_ok_mono. Qed.
End counters.

(** The history grows by the store of its length. *)
Lemma history_ok_snoc seen nw nr np nc h n v : history_ok seen nw nr np nc h → length h = n →
  (n <= seen v)%nat → view_ok nw nr np nc v → history_ok seen nw nr np nc (h ++ [mkStored (Z.of_nat n) v]).
Proof.
  intros Hh <- Hs Hv i st Hst. apply lookup_snoc_Some in Hst as [[_ Hst]|[-> <-]]; [by apply Hh|done].
Qed.

Lemma slot_index_Ok s n : Z.of_nat (length (os_slots s)) = os_capacity s → 0 < os_capacity s → 0 <= n <= INT_MAX →
  slot_index s n = Ok (Z.to_nat (n mod os_capacity s)).
Proof.
  intros Hl Hc Hn. unfold slot_index. rewrite to_size_small by mlia. rewrite size_rem_Ok by lia. simpl.
  pose proof (Z.mod_pos_bound n (os_capacity s)). rewrite Hl.
  by destruct (Z.ltb_spec (n mod os_capacity s) (os_capacity s)); [|lia].
Qed.

(** Counters that share a slot are a capacity apart. *)
Lemma same_slot c i j : 0 < c → i mod c = j mod c → i < j → i + c <= j.
Proof.
  intros Hc Hm Hlt. destruct (Z_lt_le_dec (j - i) c) as [Hd|]; [|lia]. by destruct (mod_distinct c i j Hc Hlt Hd).
Qed.

Lemma write_slot_ok vs c np nc slots v x : slots_ok vs c np nc slots → 0 < c → tv_producer v = np →
  vs !! np = Some x → (nc <= np)%nat → Z.of_nat np < Z.of_nat (tv_consumer v) + c →
  ∃ slots' v', write_slot (Z.to_nat (Z.of_nat np mod c)) x slots v = Ok (slots', v') ∧
    slots_ok vs c (S np) nc slots' ∧ v' = mkThreadView (tv_write v) (tv_read v) (S np) (tv_consumer v).
Proof.
  intros [Hlen Hwr Hf] Hc Hp Hx Hn Hroom. pose proof (Z.mod_pos_bound (Z.of_nat np) c Hc).
  destruct (lookup_lt_is_Some_2 slots (Z.to_nat (Z.of_nat np mod c))) as [sl Hsl]; [lia|].
  unfold write_slot. rewrite Hsl.
  assert (sl_fetched sl <= tv_consumer v)%nat as Hle.
  { destruct (Hf _ _ Hsl) as [->|(j & Hj & Hm & Hk)]; [lia|].
    rewrite Z2Nat.id in Hm by lia. assert (j + c <= Z.of_nat np) by (apply (same_slot c); [done|done|lia]). lia. }
  rewrite (proj2 (Nat.leb_le _ _) Hle). do 2 eexists. split; [done|]. rewrite Hp. split; [|done].
  split; [by rewrite length_insert| |].
  - intros j Hj H0. pose proof (Z.mod_pos_bound j c Hc). destruct (Z.eq_dec j (Z.of_nat np)) as [->|Hne].
    + eexists. split; [apply list_lookup_insert_eq; lia|]. rewrite Nat2Z.id. split; [done|simpl; lia].
    + destruct (Hwr j) as (sl' & Hsl' & Hv & Hk); [lia|lia|]. exists sl'. split; [|done].
      rewrite list_lookup_insert_ne; [done|]. pose proof (mod_distinct c j (Z.of_nat np) Hc). lia.
  - intros k sl' Hk. apply list_lookup_insert_Some in Hk as [(<- & <- & _)|[_ Hk]]; [|by apply Hf].
    simpl. exact (Hf _ _ Hsl).
Qed.

Lemma read_slot_ok vs c np nc slots v : slots_ok vs c np nc slots → 0 < c → tv_consumer v = nc →
  (nc < tv_producer v)%nat → (tv_producer v <= np)%nat → Z.of_nat np <= Z.of_nat nc + c →
  ∃ x slots', read_slot (Z.to_nat (Z.of_nat nc mod c)) slots v =
      Ok (x, slots', mkThreadView (tv_write v) (tv_read v) (tv_producer v) (S nc)) ∧
    slots_ok vs c np (S nc) slots' ∧ vs !! nc = Some x.
Proof.
  intros [Hlen Hwr Hf] Hc Hp Hseen Hle Hroom. pose proof (Z.mod_pos_bound (Z.of_nat nc) c Hc).
  destruct (Hwr (Z.of_nat nc)) as (sl & Hsl & Hv & Hk); [lia|lia|].
  unfold read_slot. rewrite Hsl. rewrite (proj2 (Nat.leb_le _ _)) by lia. rewrite Nat2Z.id in Hv.
  do 2 eexists. rewrite Hp. split; [done|]. split; [|done]. split; [by rewrite length_insert| |].
  - intros j Hj H0. destruct (Hwr j Hj H0) as (sl' & Hsl' & Hv' & Hk').
    destruct (decide (Z.to_nat (j mod c) = Z.to_nat (Z.of_nat nc mod c))) as [E|E].
    + rewrite E in *. eexists. split; [apply list_lookup_insert_eq; lia|]. simpl. by simplify_eq.
    + exists sl'. by rewrite list_lookup_insert_ne.
  - intros k sl' Hk'. apply list_lookup_insert_Some in Hk' as [(<- & <- & _)|[_ Hk']]; simpl.
    + right. exists (Z.of_nat nc). rewrite Z2Nat.id by lia. lia.
    + destruct (Hf _ _ Hk') as [?|(j & Hj & Hm & Hs)]; [by left|]. right. exists j. split_and!; [lia|lia|done|done].
Qed.

Definition step_ok (vs : list A) (r : outcome (option (OrderedSystem A))) : Prop :=
  match r with
  | Ok None => True
  | Ok (Some s) => ∃ nw nr np nc, ordered_inv vs nw nr np nc s
  | Undef u => u = SignedOverflow ∧ INT_MAX < Z.of_nat (length vs)
  | _ => False
  end.

(** The consumer does not get ahead of the stores to [m_write]. *)
Lemma pop_bound vs nw nr np nc cv cpc : view_ok nw nr np nc cv → (nr <= tv_write cv)%nat → pop_inv vs nr nc cv cpc →
  (nr <= nw ∧ nc <= nw)%nat.
Proof. unfold view_ok, pop_inv. destruct cpc; lia. Qed.

Lemma ordered_push_ok vs nw nr np nc i s : ordered_inv vs nw nr np nc s → step_ok vs (ordered_push i s).
Proof.
  intros Hi. pose proof (oi_bound _ _ _ _ _ _ Hi) as [Hmax Hlen]. destruct s as [ws rs c slots [todo pc] v cpc cv pushed popped].
  destruct Hi as [Hc Hnw Hnr Hws Hrs Hsl (Hv & Hvw & Hvp) Hcv Hpush Hpop Hroom Htodo Hpushed Hpopped _]. cbn in *.
  destruct (pop_bound vs nw nr np nc cv cpc) as [Hrw Hcw]; [apply Hcv..|done|].
  destruct todo as [|x rest]; [done|].
  assert (vs !! nw = Some x) as Hx by (by rewrite <- (Nat.add_0_r nw), <- lookup_drop, <- Htodo).
  pose proof (lookup_lt_Some _ _ _ Hx) as Hlt.
  destruct pc as [|t|t|t]; cbn [push_inv] in Hpush.
  - destruct (load_write i ws v) as [[t v']|] eqn:Hl; [|done].
    destruct (load_write_ok _ _ _ _ _ _ _ _ _ Hws Hv Hl) as (-> & Hin & Hv' & Hi & Hmono).
    assert (i = nw) as -> by view_lia.
    unfold RingBuffer_increment, int_add. destruct (in_int (Z.of_nat nw + 1)) eqn:E; cbn.
    + exists nw, nr, np, nc. split; cbn; try done; [view_lia|]. split_and!; [done..|mlia].
    + apply not_true_iff_false in E. rewrite in_int_spec in E. split; [done|unfold INT_MIN in E; lia].
  - destruct Hpush as (-> & -> & Hw). destruct (load_read i rs v) as [[r v']|] eqn:Hl; [|done].
    destruct (load_read_ok _ _ _ _ _ _ _ _ _ Hrs Hv Hl) as (-> & Hin & Hv' & Hi & Hmono).
    rewrite hasRoom_Ok by lia. cbn. exists nw, nr, nw, nc.
    split; cbn; try done; [view_lia|].
    destruct (Z.ltb_spec (Z.of_nat nw - Z.of_nat i) c); cbn; [|done]. split_and!; [done..|view_lia].
  - destruct Hpush as (-> & -> & Hw & Hr). rewrite slot_index_Ok by (cbn; first [apply Hsl|lia]). cbn.
    destruct (write_slot_ok vs c nw nc slots v x) as (slots' & v' & -> & Hsl' & ->); try done; [lia|view_lia|]. cbn.
    exists nw, nr, (S nw), nc. split; cbn; try done; [eapply history_ok_mono; [..|done]; lia|
      eapply history_ok_mono; [..|done]; lia|view_lia|view_lia|view_lia].
  - destruct Hpush as (-> & -> & Hw). unfold RingBuffer_increment. rewrite int_add_Ok by mlia. cbn.
    replace (Z.of_nat nw + 1) with (Z.of_nat (S nw)) by lia.
    exists (S nw), nr, (S nw), nc. rewrite Hnw.
    assert (view_ok (S nw) nr (S nw) nc (tv_join v (mkThreadView (S nw) 0 0 0))) by view_lia.
    split; cbn; try done; [rewrite length_app; cbn; lia| | |view_lia|view_lia| | |lia].
    + apply history_ok_snoc; [eapply history_ok_mono; [..|done]; lia|done|cbn; lia|done].
    + eapply history_ok_mono; [..|done]; lia.
    + by rewrite <- Nat.add_1_r, <- drop_drop, <- Htodo.
    + by rewrite Hpushed, (take_S_r _ _ _ Hx).
Qed.

Lemma ordered_pop_ok vs nw nr np nc i s : ordered_inv vs nw nr np nc s → step_ok vs (ordered_pop i s).
Proof.
  intros Hi. pose proof (oi_bound _ _ _ _ _ _ Hi) as [Hmax Hlen]. destruct s as [ws rs c slots p pv cpc v pushed popped].
  destruct Hi as [Hc Hnw Hnr Hws Hrs Hsl Hpv (Hv & Hvr & Hvc & Hrw) Hpush Hpop Hroom Htodo Hpushed Hpopped _]. cbn in *.
  destruct cpc as [|h|h|h x]; cbn [pop_inv] in Hpop.
  - destruct (load_read i rs v) as [[h v']|] eqn:Hl; [|done].
    destruct (load_read_ok _ _ _ _ _ _ _ _ _ Hrs Hv Hl) as (-> & Hin & Hv' & Hi & Hmono).
    assert (i = nr) as -> by view_lia. exists nw, nr, np, nc. split; cbn; try done. view_lia.
  - destruct Hpop as (-> & ->). destruct (load_write i ws v) as [[w v']|] eqn:Hl; [|done].
    destruct (load_write_ok _ _ _ _ _ _ _ _ _ Hws Hv Hl) as (-> & Hin & Hv' & Hi & Hmono).
    exists nw, nr, np, nr. split; cbn; try done; [view_lia|].
    destruct (Z.eqb_spec (Z.of_nat nr) (Z.of_nat i)); cbn; [done|]. split_and!; [done..|lia].
  - destruct Hpop as (-> & -> & Hlt). rewrite slot_index_Ok by (cbn; first [apply Hsl|view_lia]). cbn.
    destruct (read_slot_ok vs c np nr slots v) as (x & slots' & -> & Hsl' & Hx); try done; [lia|view_lia|view_lia|]. cbn.
    exists nw, nr, np, (S nr). split; cbn; try done; [eapply history_ok_mono; [..|done]; lia|
      eapply history_ok_mono; [..|done]; lia|view_lia|view_lia].
  - destruct Hpop as (-> & -> & Hlt & Hx). unfold RingBuffer_increment. rewrite int_add_Ok by (apply in_int_spec; unfold INT_MIN; view_lia). cbn.
    replace (Z.of_nat nr + 1) with (Z.of_nat (S nr)) by lia. exists nw, (S nr), np, (S nr). rewrite Hnr.
    assert (view_ok nw (S nr) np (S nr) (tv_join v (mkThreadView 0 (S nr) 0 0))) by view_lia.
    split; cbn; try done; [rewrite length_app; cbn; lia| | |view_lia|view_lia|lia|].
    + eapply history_ok_mono; [..|done]; lia.
    + apply history_ok_snoc; [eapply history_ok_mono; [..|done]; lia|done|cbn; lia|done].
    + by rewrite Hpopped, (take_S_r _ _ _ Hx).
Qed.

Lemma ordered_step_ok vs nw nr np nc who s : ordered_inv vs nw nr np nc s → step_ok vs (ordered_step who s).
Proof. destruct who as [[] i]; [apply ordered_push_ok|apply ordered_pop_ok]. Qed.

Lemma ordered_start_inv d c vs : 0 < c <= INT_MAX → ordered_inv vs 0 0 0 0 (ordered_start d c vs).
Proof.
  intros Hc. assert (∀ seen, history_ok seen 0 0 0 0 [mkStored 0 view_start]) as Hh.
  { intros seen [|i] st Hst; simplify_eq/=. split_and!; [done|cbn; lia|cbn; view_lia]. }
  split; cbn; try done; [|lia|unfold INT_MAX; lia].
  split; [rewrite length_fmap, length_replicate; lia|lia|].
  intros k sl (x & -> & _)%list_lookup_fmap_Some. by left.
Qed.

Lemma ordered_run_ok vs schedule nw nr np nc s : ordered_inv vs nw nr np nc s →
  step_ok vs (s' ← ordered_run schedule s; Ok (Some s')).
Proof.
  revert nw nr np nc s. induction schedule as [|who schedule IH]; intros nw nr np nc s Hi; cbn [ordered_run].
  - cbn. eauto 10.
  - pose proof (ordered_step_ok _ _ _ _ _ who _ Hi) as Hs. destruct (ordered_step who s) as [[s1|]| | |]; cbn in *; try done.
    + destruct Hs as (a & b & e & f & Hs). by eapply IH.
    + by eapply IH.
Qed.

Lemma ordered_step_capacity who s s' : ordered_step who s = Ok (Some s') → os_capacity s' = os_capacity s.
Proof.
  destruct s as [ws rs c slots [todo pc] pv cpc cv pushed popped], who as [[] i]; cbn; intros H;
    [destruct todo, pc|destruct cpc]; try discriminate H; repeat (case_match; try discriminate H); outcome_inv H;
    repeat case_match; by simplify_eq.
Qed.

Lemma ordered_run_capacity schedule s s' : ordered_run schedule s = Ok s' → os_capacity s' = os_capacity s.
Proof.
  revert s. induction schedule as [|who schedule IH]; intros s H; cbn [ordered_run] in H; [by simplify_eq|].
  apply bind_Ok_inv in H as ([s1|] & Hs & H); [|by apply IH].
  by rewrite (IH _ H), (ordered_step_capacity _ _ _ Hs).
Qed.

(** ** Progress

    A load may always read the newest store; where the other thread has made room or
    pushed, the steps that do so bring a push or a pop to its end. *)
Definition push_rank (pc : ProducerPc) : nat :=
  match pc with PStart => 4 | PTail _ => 3 | PRoom _ => 2 | PStored _ => 1 end.
Definition pop_rank (pc : ConsumerPc A) : nat :=
  match pc with CStart => 4 | CHead _ => 3 | CNonEmpty _ => 2 | CGot _ _ => 1 end.

Definition work_left (vs : list A) s : nat :=
  (5 * (length vs - length (os_pushed s)) + 5 * (length vs - length (os_popped s)) +
   push_rank (p_pc (os_producer s)) + pop_rank (os_consumer s))%nat.

Lemma acquire_newest h seen n : length h = S n → (seen <= n)%nat → ∃ st, acquire_load h seen n = Some st ∧ h !! n = Some st.
Proof.
  intros Hl Hs. destruct (lookup_lt_is_Some_2 h n) as [st Hst]; [lia|]. exists st.
  unfold acquire_load. by rewrite (proj2 (Nat.leb_le _ _) Hs).
Qed.

Definition advances (vs : list A) s (who : Side * nat) : Prop :=
  ∃ s', ordered_step who s = Ok (Some s') ∧ (work_left vs s' < work_left vs s)%nat.

Lemma advances_intro vs nw nr np nc s who : ordered_inv vs nw nr np nc s → Z.of_nat (length vs) <= INT_MAX →
  ordered_step who s ≠ Ok None → (∀ s', ordered_step who s = Ok (Some s') → (work_left vs s' < work_left vs s)%nat) →
  advances vs s who.
Proof.
  intros Hi Hl Hn Hw. pose proof (ordered_step_ok _ _ _ _ _ who _ Hi) as Hs. unfold advances.
  destruct (ordered_step who s) as [[s'|]| | |] eqn:E; cbn in Hs; try done; [eauto|lia].
Qed.

Lemma pop_advances vs nw nr np nc s : ordered_inv vs nw nr np nc s → Z.of_nat (length vs) <= INT_MAX → (nr < nw)%nat →
  ∃ i, advances vs s (Consuming, i).
Proof.
  intros Hi Hl Hlt. pose proof Hi as [_ Hnw Hnr Hws Hrs _ _ (Hv & _) _ Hpop _ _ Hpu Hpo [_ Hle]].
  assert (length (os_popped s) < length vs)%nat as Hpl by (rewrite Hpo, length_take; lia).
  destruct s as [ws rs c slots p pv cpc v pushed popped]. cbn in *. destruct cpc as [|h|h|h x].
  - destruct (acquire_newest rs (tv_read v) nr) as (st & Hld & Hst); [done|view_lia|].
    exists nr. eapply advances_intro; [done..| |]; cbn; unfold load_read; rewrite Hld; cbn; [done|].
    intros s' [= <-]. unfold work_left. cbn. lia.
  - destruct (acquire_newest ws (tv_write v) nw) as (st & Hld & Hst); [done|view_lia|].
    exists nw. eapply advances_intro; [done..| |]; cbn; unfold load_write; rewrite Hld; cbn; [done|].
    destruct (Hws _ _ Hst) as (-> & _). destruct Hpop as [-> _].
    destruct (Z.eqb_spec (Z.of_nat nr) (Z.of_nat nw)); [lia|]. intros s' [= <-]. unfold work_left. cbn. lia.
  - exists 0%nat. eapply advances_intro; [done..| |]; cbn.
    + destruct (slot_index _ _); cbn; try done. by destruct (read_slot _ _ _) as [[[]]| | |].
    + destruct (slot_index _ _); cbn; try done. destruct (read_slot _ _ _) as [[[]]| | |]; cbn; try done.
      intros s' [= <-]. unfold work_left. cbn. lia.
  - exists 0%nat. eapply advances_intro; [done..| |]; cbn; destruct (RingBuffer_increment h); cbn; try done.
    intros s' [= <-]. unfold work_left. cbn. rewrite length_app. cbn. lia.
Qed.

Lemma push_advances vs nw np nc s : ordered_inv vs nw nw np nc s → Z.of_nat (length vs) <= INT_MAX → (nw < length vs)%nat →
  ∃ i, advances vs s (Producing, i).
Proof.
  intros Hi Hl Hlt. pose proof Hi as [Hc Hnw Hnr Hws Hrs _ (Hv & _) _ Hpush _ _ Htodo Hpu Hpo _].
  assert (length (os_pushed s) < length vs)%nat as Hpl by (rewrite Hpu, length_take; lia).
  destruct s as [ws rs c slots [todo pc] v cpc cv pushed popped]. cbn in *.
  destruct todo as [|x rest]; [apply (f_equal length) in Htodo; rewrite length_drop in Htodo; cbn in Htodo; lia|].
  destruct pc as [|t|t|t].
  - destruct (acquire_newest ws (tv_write v) nw) as (st & Hld & Hst); [done|view_lia|].
    exists nw. eapply advances_intro; [done..| |]; cbn; unfold load_write; rewrite Hld; cbn;
      destruct (RingBuffer_increment _); cbn; try done. intros s' [= <-]. unfold work_left. cbn. lia.
  - destruct (acquire_newest rs (tv_read v) nw) as (st & Hld & Hst); [done|view_lia|]. destruct Hpush as (-> & _ & Hw).
    exists nw. destruct (Hrs _ _ Hst) as (Hval & _). eapply advances_intro; [done..| |]; cbn; unfold load_read; rewrite Hld; cbn;
      rewrite Hval, hasRoom_Ok by lia; cbn; [done|].
    intros s' [= <-]. destruct (Z.ltb_spec (Z.of_nat nw - Z.of_nat nw) c); [|lia]. unfold work_left. cbn. lia.
  - exists 0%nat. eapply advances_intro; [done..| |]; cbn.
    + destruct (slot_index _ _); cbn; try done. by destruct (write_slot _ _ _ _) as [[]| | |].
    + destruct (slot_index _ _); cbn; try done. destruct (write_slot _ _ _ _) as [[]| | |]; cbn; try done.
      intros s' [= <-]. unfold work_left. cbn. lia.
  - exists 0%nat. eapply advances_intro; [done..| |]; cbn; destruct (RingBuffer_increment t); cbn; try done.
    intros s' [= <-]. unfold work_left. cbn. rewrite length_app. cbn. lia.
Qed.

Lemma can_finish vs nw nr np nc s : ordered_inv vs nw nr np nc s → Z.of_nat (length vs) <= INT_MAX →
  ∃ schedule s', ordered_run schedule s = Ok s' ∧ os_popped s' = vs.
Proof.
  intros Hi Hl. remember (work_left vs s) as n eqn:Hn. revert nw nr np nc s Hi Hn.
  induction (lt_wf n) as [n _ IH]. intros nw nr np nc s Hi ->. pose proof (oi_bound _ _ _ _ _ _ Hi) as [_ Hb].
  assert (nr <= nw)%nat as Hrw by (destruct Hi as [_ _ _ _ _ _ _ (Hv & _ & _ & H) _ _ _ _ _ _ _]; view_lia).
  assert (nr = length vs ∨ ∃ who, advances vs s who) as [->|(who & s' & E & Hlt)].
  { destruct (decide (nr < nw)%nat) as [Hlt|]; [right; destruct (pop_advances _ _ _ _ _ _ Hi Hl Hlt); eauto|].
    assert (nr = nw) as -> by lia. destruct (decide (nw < length vs)%nat) as [Hlt|]; [|left; lia].
    right. destruct (push_advances _ _ _ _ _ Hi Hl Hlt). eauto. }
  - exists [], s. split; [done|]. by rewrite (oi_popped _ _ _ _ _ _ Hi), firstn_all.
  - pose proof (ordered_step_ok _ _ _ _ _ who _ Hi) as Hs. rewrite E in Hs. destruct Hs as (a & b & e & f & Hs).
    destruct (IH _ Hlt _ _ _ _ _ Hs eq_refl) as (schedule & s2 & Hrun & Hp). exists (who :: schedule), s2.
    split; [|done]. cbn [ordered_run]. by rewrite E.
Qed.
End system.

(** C20: With one producer and one consumer, whatever their interleaving and whatever old
    store an acquire load may return: no access to a slot is a data race and no slot is
    outside of the buffer; the values received are the first ones pushed, those the first
    ones the producer had to push, in order, and never more than a capacity apart; the
    rest can always still be delivered. The only undefined behaviour is the overflow of
    the counter, which takes more than [INT_MAX] values. *)
Theorem spsc_release_acquire {A} (d : A) (capacity : Z) (vs : list A) (schedule : list (Side * nat))
    (Hcap : 0 < capacity <= INT_MAX) :
  match ordered_run schedule (ordered_start d capacity vs) with
  | Ok s =>
      os_popped s `prefix_of` os_pushed s ∧ os_pushed s `prefix_of` vs ∧
      Z.of_nat (length (os_pushed s)) <= Z.of_nat (length (os_popped s)) + capacity ∧
      (Z.of_nat (length vs) <= INT_MAX → ∃ more s', ordered_run more s = Ok s' ∧ os_popped s' = vs)
  | Undef u => u = SignedOverflow ∧ INT_MAX < Z.of_nat (length vs)
  | _ => False
  end.
Proof.
  pose proof (ordered_run_ok vs schedule _ _ _ _ _ (ordered_start_inv d capacity vs Hcap)) as H.
  assert (∀ s, ordered_run schedule (ordered_start d capacity vs) = Ok s → os_capacity s = capacity) as Hc
    by (intros s; apply ordered_run_capacity).
  destruct (ordered_run _ _) as [s| | |]; cbn in H; try done. destruct H as (nw & nr & np & nc & Hi).
  pose proof (can_finish _ _ _ _ _ _ Hi) as Hfin. specialize (Hc s eq_refl).
  destruct Hi as [_ _ _ _ _ _ (Hpv & Hpw & Hp) (Hv & _ & _ & Hrw) _ _ Hroom _ Hpu Hpo [_ Hle]].
  assert (nr <= nw <= np)%nat as [H1 H2] by view_lia. rewrite Hpu, Hpo. split_and!.
  - exists (take (nw - nr) (drop nr vs)). by rewrite take_take_drop, Nat.add_sub_assoc, Nat.add_comm, Nat.add_sub by done.
  - apply prefix_take.
  - rewrite !length_take. rewrite Hc in Hroom. lia.
  - done.
Qed.

(** A run in which both threads read old stores: the consumer finds the queue empty after
    the push has returned, and the producer finds it full after the pop has. *)
Definition old_stores_schedule : list (Side * nat) :=
  [(Producing, 0); (Producing, 0); (Producing, 0); (Producing, 0);
   (Consuming, 0); (Consuming, 0);
   (Consuming, 0); (Consuming, 1); (Consuming, 0); (Consuming, 0);
   (Producing, 1); (Producing, 0);
   (Producing, 1); (Producing, 1); (Producing, 0); (Producing, 0)]%nat.

Example old_stores_run :
  let trace n := match ordered_run (take n old_stores_schedule) (ordered_start 0 1 [7; 8]) with
                 | Ok s => Some (os_pushed s, os_popped s, p_pc (os_producer s), os_consumer s)
                 | _ => None
                 end in
  trace 4%nat = Some ([7], [], PStart, CStart) ∧ trace 6%nat = Some ([7], [], PStart, CStart) ∧
  trace 10%nat = Some ([7], [7], PStart, CStart) ∧ trace 12%nat = Some ([7], [7], PStart, CStart) ∧
  trace 16%nat = Some ([7; 8], [7], PStart, CStart).
Proof. vm_compute. done. Qed.

Lemma spsc_release_acquire_witness :
  match ordered_run old_stores_schedule (ordered_start 0 1 [7; 8]) with
  | Ok s =>
      os_popped s `prefix_of` os_pushed s ∧ os_pushed s `prefix_of` [7; 8] ∧
      Z.of_nat (length (os_pushed s)) <= Z.of_nat (length (os_popped s)) + 1 ∧
      (Z.of_nat (length [7; 8]) <= INT_MAX → ∃ more s', ordered_run more s = Ok s' ∧ os_popped s' = [7; 8])
  | Undef u => u = SignedOverflow ∧ INT_MAX < Z.of_nat (length [7; 8])
  | _ => False
  end.
Proof. apply (spsc_release_acquire 0 1 [7; 8] old_stores_schedule). by vm_compute. Defined.
