(* ===== verification/CentralOrderBook.v ===== *)
(** * [order_matcher/central_order_book.cpp]

    The books of all securities, the numbering of orders, the outgoing messages and
    the two ways of matching: at once, or by tasks queued for the worker thread of
    the security. Queues are used through the interface of [Fifo.v]. A push spins
    while its queue is full; [fuel] bounds the rounds, and one is enough when there is
    room. Logging is left out. *)
From Stdlib Require Import ZArith Lia Ascii String SpecFloat Sorted.
From stdpp Require Import base decidable sets list list_numbers gmap strings.
From S2P Require Import Prelude.
From S2P Require Import MachineInt.
From S2P Require Import StringUtility.
From S2P Require Import Double.
From S2P Require Import Multimap.
From S2P Require Import SecurityManager.
From S2P Require Import Order.
From S2P Require Import OrderBook.
From S2P Require Import Fifo.
From S2P Require Import RingBuffer.
Local Open Scope Z_scope.

(** ** Messages and tasks *)

(** [OutgoingMessage], with the order of its base class. *)
Record OutgoingMessage : Type := mkOutgoingMessage {
  om_order : Order;
  om_message : str
}.

Definition OutgoingMessage_new (order : Order) (executionType : OrderStatus) (message : str) : OutgoingMessage :=
  mkOutgoingMessage
    (Order_setLastExecutionType executionType (Order_setOrderStatus executionType order)) message.

Definition OutgoingMessage_hasMessage (m : OutgoingMessage) : bool :=
  bool_decide (length (om_message m) ≠ 0%nat).

Definition OutgoingMessage_toString (m : OutgoingMessage) : outcome str :=
  match m_lastExecution (om_order m) with
  | ACCEPTED => Ok ($"ACCEPTED")
  | FILLED => Ok ($"FILLED")
  | PARTIALLY_FILLED => Ok ($"PARTIALLY_FIELD")
  | CANCELED => Ok ($"CANCELED")
  | REJECTED => Ok ($"REJECTED")
  | _ => Throw InvalidArgument
  end.

(** The two tasks given to the thread pool, with their bound arguments. *)
Inductive MatchTask : Type :=
  | TaskNewOrder (order : Order)
  | TaskCancelOrder (order : Order) (origClientOrderID : str).

(** ** The central order book *)

Record CentralOrderBook (MQ TQ : Type) : Type := mkCentralOrderBook {
  m_isMatchingMultithreaded : bool;
  m_orderNumber : Z;
  m_orderBookDictionary : gmap Z OrderBook;
  m_queueIDDictionary : gmap Z Z;
  m_securityIds : list Z;
  m_outgoingMessages : list MQ;
  m_threadQueues : list TQ  (** of [m_orderBookThreadPool] *)
}.
Arguments mkCentralOrderBook {MQ TQ}.
Arguments m_isMatchingMultithreaded {MQ TQ}. Arguments m_orderNumber {MQ TQ}.
Arguments m_orderBookDictionary {MQ TQ}. Arguments m_queueIDDictionary {MQ TQ}.
Arguments m_securityIds {MQ TQ}. Arguments m_outgoingMessages {MQ TQ}. Arguments m_threadQueues {MQ TQ}.

Definition CentralOrderBook_empty {MQ TQ} : CentralOrderBook MQ TQ :=
  mkCentralOrderBook false 0 ∅ ∅ [] [] [].

Section cob.
Context {MQ TQ : Type} `{!Fifo OutgoingMessage MQ} `{!Fifo MatchTask TQ}.
Implicit Types cob : CentralOrderBook MQ TQ.

Definition with_orderNumber (n : Z) cob : CentralOrderBook MQ TQ :=
  mkCentralOrderBook (m_isMatchingMultithreaded cob) n (m_orderBookDictionary cob)
    (m_queueIDDictionary cob) (m_securityIds cob) (m_outgoingMessages cob) (m_threadQueues cob).
Definition with_books (d : gmap Z OrderBook) cob : CentralOrderBook MQ TQ :=
  mkCentralOrderBook (m_isMatchingMultithreaded cob) (m_orderNumber cob) d
    (m_queueIDDictionary cob) (m_securityIds cob) (m_outgoingMessages cob) (m_threadQueues cob).
Definition with_queueIDs (d : gmap Z Z) cob : CentralOrderBook MQ TQ :=
  mkCentralOrderBook (m_isMatchingMultithreaded cob) (m_orderNumber cob) (m_orderBookDictionary cob)
    d (m_securityIds cob) (m_outgoingMessages cob) (m_threadQueues cob).
Definition with_outgoing (qs : list MQ) cob : CentralOrderBook MQ TQ :=
  mkCentralOrderBook (m_isMatchingMultithreaded cob) (m_orderNumber cob) (m_orderBookDictionary cob)
    (m_queueIDDictionary cob) (m_securityIds cob) qs (m_threadQueues cob).
Definition with_threadQueues (qs : list TQ) cob : CentralOrderBook MQ TQ :=
  mkCentralOrderBook (m_isMatchingMultithreaded cob) (m_orderNumber cob) (m_orderBookDictionary cob)
    (m_queueIDDictionary cob) (m_securityIds cob) (m_outgoingMessages cob) qs.

(** [accept]: [iter] is the iteration order of the dictionary. *)
Definition CentralOrderBook_accept {S} (iter : gmap Z OrderBook → list (Z * OrderBook))
    (visit : Order → S → outcome S) cob (s : S) : outcome S :=
  foldl (λ acc element, s ← acc; OrderBook_accept visit element.2 s) (Ok s) (iter (m_orderBookDictionary cob)).

(** The visitor of [central_order_book_visitor.h]. *)
Definition CentralOrderBookVisitor_visit (sm : SecurityManager) (element : Order) (m_orders : str) : outcome str :=
  line ← Order_toString sm element; Ok (m_orders ++ line ++ [chr 10]).

Fixpoint setSymbols_from (queueID : Z) (symbols : list str) (sm : SecurityManager) cob
    : outcome (SecurityManager * CentralOrderBook MQ TQ) :=
  match symbols with
  | [] => Ok (sm, cob)
  | symbol :: symbols' =>
      let '(sm', currentSecurityId) := SecurityManager_addSecurity sm symbol in
      queueID' ← int_add queueID 1;
      setSymbols_from queueID' symbols' sm'
        (mkCentralOrderBook (m_isMatchingMultithreaded cob) (m_orderNumber cob) (m_orderBookDictionary cob)
           (map_insert_new currentSecurityId queueID' (m_queueIDDictionary cob))
           (m_securityIds cob ++ [currentSecurityId]) (m_outgoingMessages cob) (m_threadQueues cob))
  end.
Definition CentralOrderBook_setSymbols (symbols : list str) (sm : SecurityManager) cob
    : outcome (SecurityManager * CentralOrderBook MQ TQ) :=
  setSymbols_from (-1) symbols sm cob.

(** [initialiseMultithreadedMatching]; the thread pool makes a queue per thread name. *)
Definition CentralOrderBook_initialiseMultithreadedMatching (newQueue : Z → TQ)
    (workQueueSizePerThread : Z) (threadNames : list str) cob : CentralOrderBook MQ TQ :=
  mkCentralOrderBook true (m_orderNumber cob)
    (foldl (λ d securityId, map_insert_new securityId OrderBook_empty d)
       (m_orderBookDictionary cob) (m_securityIds cob))
    (m_queueIDDictionary cob) (m_securityIds cob) (m_outgoingMessages cob)
    (m_threadQueues cob ++ ((λ _, newQueue workQueueSizePerThread) <$> threadNames)).

Definition CentralOrderBook_initialiseOutgoingMessageQueues (newQueue : Z → MQ)
    (numberOfThreads outgoingMessageProcessorQueueSize : Z) cob : CentralOrderBook MQ TQ :=
  with_outgoing (m_outgoingMessages cob ++
    replicate (Z.to_nat numberOfThreads) (newQueue outgoingMessageProcessorQueueSize)) cob.

(** [int queueID = m_queueIDDictionary[securityId]]. *)
Definition queueID_of (securityId : Z) cob : CentralOrderBook MQ TQ * Z :=
  let '(d, queueID) := map_index securityId 0 (m_queueIDDictionary cob) in
  (with_queueIDs d cob, queueID).

(** [m_outgoingMessages[queueID]->push(message)]. *)
Definition push_outgoing (fuel : nat) (queueID : Z) (message : OutgoingMessage) cob
    : outcome (CentralOrderBook MQ TQ) :=
  q ← vec_at queueID (m_outgoingMessages cob);
  q' ← fifo_push fuel message q;
  Ok (with_outgoing (<[Z.to_nat queueID := q']> (m_outgoingMessages cob)) cob).

(** [ThreadPool::submitTask]: an [int] queue number becomes a [size_t]. *)
Definition ThreadPool_submitTask (fuel : nat) (task : MatchTask) (queueID : Z) cob
    : outcome (CentralOrderBook MQ TQ) :=
  if Z.of_nat (length (m_threadQueues cob)) <=? to_size queueID then Throw InvalidArgument
  else
    q ← vec_at queueID (m_threadQueues cob);
    q' ← fifo_push fuel task q;
    Ok (with_threadQueues (<[Z.to_nat queueID := q']> (m_threadQueues cob)) cob).

Definition message_of (order : Order) : OutgoingMessage :=
  OutgoingMessage_new order (if Order_isFilled order then FILLED else PARTIALLY_FILLED) [].

(** The loop that empties [processedOrders]. *)
Fixpoint push_processed (fuel : nat) (queueID : Z) (processedOrders : list Order) cob
    : outcome (CentralOrderBook MQ TQ) :=
  match processedOrders with
  | [] => Ok cob
  | order :: rest =>
      cob' ← push_outgoing fuel queueID (message_of order) cob;
      push_processed fuel queueID rest cob'
  end.

Definition CentralOrderBook_taskNewOrder (fuel : nat) (order : Order) cob : outcome (CentralOrderBook MQ TQ) :=
  let securityId := m_securityId order in
  let '(cob, queueID) := queueID_of securityId cob in
  let '(d, book) := map_index securityId OrderBook_empty (m_orderBookDictionary cob) in
  '(book', processedOrders, _) ← OrderBook_processMatching (OrderBook_insert order book) [];
  push_processed fuel queueID processedOrders (with_books (<[securityId := book']> d) cob).

Definition CentralOrderBook_addOrder (fuel : nat) (order : Order) cob
    : outcome (CentralOrderBook MQ TQ * Order * bool) :=
  let n := to_int (m_orderNumber cob + 1) in
  let order := Order_setOrderId (to_size n) order in
  let securityId := m_securityId order in
  let '(cob, queueID) := queueID_of securityId (with_orderNumber n cob) in
  cob ← push_outgoing fuel queueID (OutgoingMessage_new order ACCEPTED []) cob;
  cob ← (if m_isMatchingMultithreaded cob then ThreadPool_submitTask fuel (TaskNewOrder order) queueID cob
         else CentralOrderBook_taskNewOrder fuel order cob);
  Ok (cob, order, true).

Definition CentralOrderBook_rejectOrder (fuel : nat) (order : Order) (message : str) cob
    : outcome (CentralOrderBook MQ TQ) :=
  let '(cob, queueID) := queueID_of (m_securityId order) cob in
  push_outgoing fuel queueID (OutgoingMessage_new order REJECTED message) cob.

(** The text for an order that is not found prints the client order identifier with
    [%d]: what is printed is the address [addr] of its characters. *)
Definition cancel_failure_text (addr : Z) (sessionId : Z) : outcome str :=
  format ($"Order to cancel could not be found, client session %d, client ID %d") [FInt sessionId; FInt addr].

Definition CentralOrderBook_taskCancelOrder (fuel : nat) (addr : Z) (order : Order) (origClientOrderID : str) cob
    : outcome (CentralOrderBook MQ TQ) :=
  let sessionId := m_sessionId order in
  let securityId := m_securityId order in
  let '(cob, queueID) := queueID_of securityId cob in
  let side := m_side order in
  let '(d, book) := map_index securityId OrderBook_empty (m_orderBookDictionary cob) in
  let cob := with_books d cob in
  match OrderBook_find origClientOrderID sessionId side book with
  | Some (orderPtr, found) =>
      let canceled := Order_cancel found in
      let book := OrderBook_assign orderPtr canceled book in
      cob ← push_outgoing fuel queueID (OutgoingMessage_new canceled CANCELED ($"Order canceled"))
              (with_books (<[securityId := book]> d) cob);
      Ok (with_books (<[securityId := OrderBook_erase canceled book]> d) cob)
  | None =>
      message ← cancel_failure_text addr sessionId;
      CentralOrderBook_rejectOrder fuel order message cob
  end.

Definition CentralOrderBook_cancelOrder (fuel : nat) (addr : Z) (order : Order) (origClientOrderID : str) cob
    : outcome (CentralOrderBook MQ TQ) :=
  if m_isMatchingMultithreaded cob then
    let '(cob, queueID) := queueID_of (m_securityId order) cob in
    ThreadPool_submitTask fuel (TaskCancelOrder order origClientOrderID) queueID cob
  else CentralOrderBook_taskCancelOrder fuel addr order origClientOrderID cob.

(** One round of [ThreadPool::workerThreadFunction] for the worker of [queueID]. The
    boolean tells whether there was a task. *)
Definition ThreadPool_workerRound (fuel : nat) (addr : Z) (queueID : Z) cob
    : outcome (CentralOrderBook MQ TQ * bool) :=
  q ← vec_at queueID (m_threadQueues cob);
  '(q', popped) ← fifo_tryPop q;
  let cob := with_threadQueues (<[Z.to_nat queueID := q']> (m_threadQueues cob)) cob in
  match popped with
  | None => Ok (cob, false)
  | Some (TaskNewOrder order) => cob ← CentralOrderBook_taskNewOrder fuel order cob; Ok (cob, true)
  | Some (TaskCancelOrder order orig) =>
      cob ← CentralOrderBook_taskCancelOrder fuel addr order orig cob; Ok (cob, true)
  end.
End cob.

(** * The invariant: price-time priority by order number *)

(** Of two entries with equivalent prices the one in front has the smaller number. *)
Definition time_le (comp : double → double → bool) (a b : double * Order) : Prop :=
  comp a.1 b.1 = false → comp b.1 a.1 = false → m_orderID a.2 < m_orderID b.2.

(** An order of the book of [sec] with a number up to [n] and a side. *)
Definition known (n sec : Z) (o : Order) : Prop :=
  m_orderID o <= n ∧ m_securityId o = sec ∧ m_side o ≠ SIDE_NON_SUPPORTED.

Record book_inv (n sec : Z) (book : OrderBook) : Prop := {
  bi_ok : book_ok book;
  bi_uncrossed : uncrossed book;
  bi_bid_time : StronglySorted (time_le greater) (m_bidOrders book);
  bi_ask_time : StronglySorted (time_le less) (m_askOrders book);
  bi_bid_ids : Forall (λ e, known n sec e.2) (m_bidOrders book);
  bi_ask_ids : Forall (λ e, known n sec e.2) (m_askOrders book)
}.

Lemma book_inv_empty n sec : book_inv n sec OrderBook_empty.
Proof. split; try constructor; try constructor. intros b a Hb. by apply elem_of_nil in Hb. Qed.

Lemma book_inv_mono n n' sec book : n <= n' → book_inv n sec book → book_inv n' sec book.
Proof.
  intros Hn [H1 H2 H3 H4 H5 H6]. split; try done;
    (eapply Forall_impl; [eassumption|]; unfold known; simpl; intuition lia).
Qed.

Lemma suffix_exec_sorted (R : double * Order → double * Order → Prop) l l' :
  (∀ k o o' x, same_terms o o' → R (k, o) x → R (k, o') x) →
  suffix_exec l l' → StronglySorted R l → StronglySorted R l'.
Proof.
  intros HR. induction 1 as [| |k o o' l l' Ht _ _ IH]; intros Hs; [done| |].
  - apply StronglySorted_inv in Hs as [Hs _]. auto.
  - apply IH. apply StronglySorted_inv in Hs as [Hs Hh]. constructor; [done|].
    eapply Forall_impl; [exact Hh|]. eauto.
Qed.

Lemma suffix_exec_Forall (P : double * Order → Prop) l l' :
  (∀ k o o', same_terms o o' → P (k, o) → P (k, o')) →
  suffix_exec l l' → Forall P l → Forall P l'.
Proof.
  intros HP. induction 1 as [| |k o o' l l' Ht _ _ IH]; intros Hs; [done| |].
  - apply Forall_cons in Hs as [_ Hs]. auto.
  - apply IH. apply Forall_cons in Hs as [Hh Hs]. constructor; eauto.
Qed.

Lemma time_le_terms comp k o o' x : same_terms o o' → time_le comp (k, o) x → time_le comp (k, o') x.
Proof. intros (Hid & _). unfold time_le. simpl. by rewrite Hid. Qed.

Lemma known_terms n sec o o' : same_terms o o' → known n sec o → known n sec o'.
Proof. unfold known. intros (-> & _ & -> & _ & -> & _). done. Qed.

(** A new order with the next number goes behind its equals. *)
Lemma insert_time comp o n sec (l : side_map) `{!StrictWeakOrder number comp} :
  number (m_price o) → mm_valid number l → mm_sorted comp l → m_orderID o = n + 1 → known (n + 1) sec o →
  StronglySorted (time_le comp) l → Forall (λ e, known n sec e.2) l →
  StronglySorted (time_le comp) (mm_insert comp (m_price o) o l) ∧
  Forall (λ e, known (n + 1) sec e.2) (mm_insert comp (m_price o) o l).
Proof.
  intros Hp Hv Hs Hid Hk Ht Hids. split.
  - apply (mm_insert_StronglySorted number comp); try done.
    + intros e He _ _ _. eapply Forall_forall in Hids as (Hle & _); [|exact He]. simpl in *. lia.
    + intros e He Hc. unfold time_le. simpl. congruence.
  - apply mm_insert_Forall. split; [done|]. eapply Forall_impl; [exact Hids|]. unfold known. simpl. intuition lia.
Qed.

Lemma OrderBook_insert_size o book : book_size (OrderBook_insert o book) = S (book_size book).
Proof.
  unfold OrderBook_insert, book_size. destruct (bool_decide (m_side o = BUY)); cbn [m_bidOrders m_askOrders].
  - pose proof (Permutation_length (mm_insert_perm greater (m_price o) o (m_bidOrders book))) as L. simpl in L. lia.
  - pose proof (Permutation_length (mm_insert_perm less (m_price o) o (m_askOrders book))) as L. simpl in L. lia.
Qed.

(** Matching a new order keeps the invariant of its book. *)
Lemma match_book_inv n sec o book :
  book_inv n sec book → live o → m_orderID o = n + 1 → known (n + 1) sec o →
  ∃ book' trades, OrderBook_processMatching (OrderBook_insert o book) [] =
      Ok (book', processed_of trades, bool_decide (processed_of trades ≠ [])) ∧
    book_inv (n + 1) sec book' ∧ (length (processed_of trades) <= 2 * S (book_size book))%nat.
Proof.
  intros [Hok Hu Hbt Hat Hbi Hai] Hl Hid Hk.
  pose proof (insert_ok o book Hl Hok) as Hok'. pose proof (ok_price o (proj1 Hl)) as Hp.
  destruct (processMatching_spec (OrderBook_insert o book) [] Hok') as (book' & trades & Hrun & Hm).
  exists book', trades. split; [exact Hrun|].
  pose proof (OrderBook_insert_size o book) as Hsize.
  assert (length (processed_of trades) = 2 * length trades)%nat as Hlen.
  { clear. induction trades as [|t l IH]; [done|]. rewrite processed_of_cons, length_app, IH. simpl. lia. }
  pose proof (mr_count _ _ _ Hm). split; [|lia].
  assert (StronglySorted (time_le greater) (m_bidOrders (OrderBook_insert o book)) ∧
          Forall (λ e, known (n + 1) sec e.2) (m_bidOrders (OrderBook_insert o book)) ∧
          StronglySorted (time_le less) (m_askOrders (OrderBook_insert o book)) ∧
          Forall (λ e, known (n + 1) sec e.2) (m_askOrders (OrderBook_insert o book)))
    as (H1 & H2 & H3 & H4).
  { pose proof (bok_bids _ Hok) as Hb%entries_valid. pose proof (bok_asks _ Hok) as Ha%entries_valid.
    unfold OrderBook_insert. destruct (bool_decide (m_side o = BUY)); simpl.
    - destruct (insert_time greater o n sec (m_bidOrders book)); try done; [apply Hok|].
      split_and!; try done. eapply Forall_impl; [exact Hai|]. unfold known. simpl. intuition lia.
    - destruct (insert_time less o n sec (m_askOrders book)); try done; [apply Hok|].
      split_and!; try done. eapply Forall_impl; [exact Hbi|]. unfold known. simpl. intuition lia. }
  split; [apply Hm|apply Hm| | | |].
  - eapply suffix_exec_sorted; [|apply Hm|done]. intros; by eapply time_le_terms.
  - eapply suffix_exec_sorted; [|apply Hm|done]. intros; by eapply time_le_terms.
  - eapply suffix_exec_Forall; [|apply Hm|done]. intros k x x'. simpl. by apply known_terms.
  - eapply suffix_exec_Forall; [|apply Hm|done]. intros k x x'. simpl. by apply known_terms.
Qed.

(** Removing an order keeps it. *)
Lemma remove_book_inv n sec (buy : bool) l1 e l2 book :
  side_of buy book = l1 ++ e :: l2 → book_inv n sec book → book_inv n sec (with_side buy (l1 ++ l2) book).
Proof.
  intros E [[Hb Ha Hbs Has] Hu Hbt Hat Hbi Hai].
  assert (∀ x, x ∈ l1 ++ l2 → x ∈ side_of buy book) as Hin
    by (intros x; rewrite E, !elem_of_app, elem_of_cons; tauto).
  assert (∀ (P : double * Order → Prop), Forall P (l1 ++ e :: l2) → Forall P (l1 ++ l2)) as HF.
  { intros P. rewrite !Forall_app, Forall_cons. tauto. }
  destruct buy; simpl in *; rewrite E in *;
    (split; [split| | | | |]; simpl; try done; try (by apply HF); try (by eapply StronglySorted_remove)).
  - intros b a Hb' Ha'. simpl in *. apply Hu; [rewrite E; by apply Hin|done].
  - intros b a Hb' Ha'. simpl in *. apply Hu; [done|rewrite E; by apply Hin].
Qed.

(** An order that [find] returns stands on the side asked for, and cancelling it
    removes it alone. *)
Lemma cancel_book_inv n sec cl ses side book p found :
  book_inv n sec book → OrderBook_find cl ses side book = Some (p, found) →
  ∃ l1 k l2, side_of (ptr_bid p) book = l1 ++ (k, found) :: l2 ∧
    Forall (λ e, ¬ is_order cl ses e.2) l1 ∧
    OrderBook_erase (Order_cancel found) (OrderBook_assign p (Order_cancel found) book) =
      with_side (ptr_bid p) (l1 ++ l2) book ∧
    book_inv n sec (with_side (ptr_bid p) (l1 ++ l2) book).
Proof.
  intros Hb Hfind.
  pose proof (proj1 (find_Some _ _ _ _ _ _) Hfind) as (Hns & Hp & m1 & kf & m2 & E & _ & Hid & _).
  assert (m_side found = side) as Hside.
  { destruct Hb as [[Hbe Hae _ _] _ _ _ Hbk Hak]. rewrite Hp in E.
    destruct side eqn:Eo; simpl in E; [done| |]; rewrite E in *.
    - apply Forall_app in Hbe as [_ [(_ & _ & H) _]%Forall_cons]. by apply bool_decide_eq_true in H.
    - apply Forall_app in Hae as [_ [(_ & _ & H) _]%Forall_cons]. apply bool_decide_eq_false in H.
      apply Forall_app in Hak as [_ [(_ & _ & Hk) _]%Forall_cons]. simpl in *.
      by destruct (m_side found). }
  destruct (erase_found _ _ _ _ _ _ Hfind Hside) as (l1 & k & l2 & El & Hf1 & Her).
  exists l1, k, l2. split; [done|]. split; [done|]. split; [done|]. by eapply remove_book_inv.
Qed.

(** * Handling requests *)

Section handling.
Context {MQ TQ : Type} `{!Fifo OutgoingMessage MQ} `{!FifoLaws OutgoingMessage MQ}.
Context `{!Fifo MatchTask TQ} `{!FifoLaws MatchTask TQ}.
Implicit Types cob : CentralOrderBook MQ TQ.

Record cob_inv cob : Prop := {
  ci_number : 0 <= m_orderNumber cob <= INT_MAX;
  ci_books : map_Forall (λ sec book, book_inv (m_orderNumber cob) sec book) (m_orderBookDictionary cob)
}.

Definition book_of cob (securityId : Z) : OrderBook :=
  default OrderBook_empty (m_orderBookDictionary cob !! securityId).

(** The outgoing queue [queueID] exists and can take [n] more messages. *)
Definition queue_room (queueID : Z) (n : nat) cob : Prop :=
  0 <= queueID ∧ ∃ q, m_outgoingMessages cob !! Z.to_nat queueID = Some q ∧ fifo_room n q.

(** [cob'] is [cob] with [msgs] appended to the outgoing queue [queueID], which stays
    well formed. *)
Definition sends (queueID : Z) (msgs : list OutgoingMessage) cob cob' : Prop :=
  ∃ q q', m_outgoingMessages cob !! Z.to_nat queueID = Some q ∧
    cob' = with_outgoing (<[Z.to_nat queueID := q']> (m_outgoingMessages cob)) cob ∧
    fifo_list q' = fifo_list q ++ msgs ∧ (fifo_inv q → fifo_after (length msgs) q q').

Lemma sends_trans i m1 m2 c1 c2 c3 : sends i m1 c1 c2 → sends i m2 c2 c3 → sends i (m1 ++ m2) c1 c3.
Proof.
  intros (q1 & q1' & E1 & -> & L1 & I1) (q2 & q2' & E2 & -> & L2 & I2). simpl in *.
  rewrite list_lookup_insert_eq in E2 by (by eapply lookup_lt_Some). injection E2 as <-.
  exists q1, q2'. split; [done|]. split; [|split; [by rewrite L2, L1, app_assoc|]].
  - unfold with_outgoing. simpl. by rewrite list_insert_insert_eq.
  - intros Hi. rewrite length_app. apply (fifo_after_trans _ _ _ q1'); [by apply I1|apply I2, I1, Hi].
Qed.

Lemma sends_nil i n cob : queue_room i n cob → sends i [] cob cob.
Proof.
  intros (_ & q & E & _). exists q, q. split; [done|]. rewrite app_nil_r. split; [|by split; [|apply fifo_after_refl]].
  rewrite list_insert_id by done. by destruct cob.
Qed.

Lemma queue_room_le i n m cob : (m <= n)%nat → queue_room i n cob → queue_room i m cob.
Proof.
  intros Hm (Hi & q & E & H1 & H2 & H3). split; [done|]. exists q. split; [done|].
  split_and!; [done|lia|lia].
Qed.

Lemma push_outgoing_ok fuel i m n cob : (0 < fuel)%nat → queue_room i (S n) cob →
  ∃ cob', push_outgoing fuel i m cob = Ok cob' ∧ sends i [m] cob cob' ∧ queue_room i n cob'.
Proof.
  intros Hf (Hi & q & E & Hr). destruct (fifo_push_after fuel m q n Hf Hr) as (q' & Hp & Hl & Ha).
  eexists. unfold push_outgoing, vec_at. destruct (Z.ltb_spec i 0); [lia|]. rewrite E. simpl.
  rewrite Hp. simpl. split; [done|]. split.
  { exists q, q'. by split_and!. }
  split; [done|]. exists q'. split; [|by apply (fifo_after_room [m] n q q')]. simpl.
  apply list_lookup_insert_eq. by eapply lookup_lt_Some.
Qed.

Lemma push_processed_ok fuel i os n cob : (0 < fuel)%nat → queue_room i (length os + n) cob →
  ∃ cob', push_processed fuel i os cob = Ok cob' ∧ sends i (message_of <$> os) cob cob' ∧ queue_room i n cob'.
Proof.
  intros Hf. revert cob. induction os as [|o os IH]; intros cob Hr; simpl in *.
  - exists cob. split; [done|]. split; [by eapply sends_nil|done].
  - destruct (push_outgoing_ok fuel i (message_of o) _ cob Hf Hr) as (c1 & -> & Hs1 & Hr1). simpl.
    destruct (IH c1 Hr1) as (c2 & -> & Hs2 & Hr2). exists c2. split; [done|]. split; [|done].
    exact (sends_trans _ [_] _ _ _ _ Hs1 Hs2).
Qed.

Lemma queueID_of_Some sec i cob : m_queueIDDictionary cob !! sec = Some i → queueID_of sec cob = (cob, i).
Proof. intros E. unfold queueID_of, map_index. rewrite E. by destruct cob. Qed.

Lemma map_index_book sec cob :
  map_index sec OrderBook_empty (m_orderBookDictionary cob) =
    (<[sec := book_of cob sec]> (m_orderBookDictionary cob), book_of cob sec).
Proof.
  unfold map_index, book_of. destruct (_ !! sec) eqn:E; simpl; [|done].
  by rewrite insert_id.
Qed.

Lemma book_of_inv sec cob : cob_inv cob → book_inv (m_orderNumber cob) sec (book_of cob sec).
Proof.
  intros [_ Hb]. unfold book_of. destruct (_ !! sec) eqn:E; simpl; [by apply Hb in E|apply book_inv_empty].
Qed.

Lemma cob_inv_insert sec book n cob :
  cob_inv cob → m_orderNumber cob <= n <= INT_MAX → book_inv n sec book →
  cob_inv (with_books (<[sec := book]> (m_orderBookDictionary cob)) (with_orderNumber n cob)).
Proof.
  intros [Hn Hb] Hle Hbook. split; simpl; [lia|].
  apply map_Forall_insert_2; [done|]. intros s b Hs. apply Hb in Hs. eapply book_inv_mono; [|exact Hs]. lia.
Qed.

(** Sending does not touch the books. *)
Lemma sends_inv i msgs cob cob' : sends i msgs cob cob' → cob_inv cob → cob_inv cob'.
Proof. intros (q & q' & _ & -> & _) [H1 H2]. by split. Qed.

(** The matching of a numbered order against the book of its security. *)
Lemma taskNewOrder_spec fuel i o n cob :
  (0 < fuel)%nat → m_queueIDDictionary cob !! m_securityId o = Some i → live o →
  m_side o ≠ SIDE_NON_SUPPORTED → m_orderID o = n + 1 → book_inv n (m_securityId o) (book_of cob (m_securityId o)) →
  queue_room i (2 * S (book_size (book_of cob (m_securityId o)))) cob →
  ∃ cob' book' pushed r,
    OrderBook_processMatching (OrderBook_insert o (book_of cob (m_securityId o))) [] = Ok (book', pushed, r) ∧
    CentralOrderBook_taskNewOrder fuel o cob = Ok cob' ∧
    sends i (message_of <$> pushed)
      (with_books (<[m_securityId o := book']> (m_orderBookDictionary cob)) cob) cob' ∧
    book_inv (n + 1) (m_securityId o) book'.
Proof.
  intros Hf Hq Hl Hside Hid Hb Hroom.
  destruct (match_book_inv _ _ o _ Hb Hl Hid) as (book' & trades & Hrun & Hb' & Hlen);
    [split_and!; (done || lia)|].
  unfold CentralOrderBook_taskNewOrder. rewrite (queueID_of_Some _ i) by done.
  rewrite map_index_book, Hrun. simpl. rewrite insert_insert_eq.
  destruct (push_processed_ok fuel i (processed_of trades) 0
    (with_books (<[m_securityId o := book']> (m_orderBookDictionary cob)) cob) Hf) as (cob' & Hp & Hs & _).
  { rewrite Nat.add_0_r. exact (queue_room_le i _ _ cob Hlen Hroom). }
  exists cob', book', (processed_of trades). eexists. split_and!; done.
Qed.

Lemma setOrderId_live id o : live o → live (Order_setOrderId id o).
Proof. intros [[H1 H2 H3 H4 H5] H6]. split; [split|]; done. Qed.

Lemma addOrder_spec fuel i o cob :
  let o' := Order_setOrderId (m_orderNumber cob + 1) o in
  let book := book_of cob (m_securityId o) in
  (0 < fuel)%nat → cob_inv cob → m_isMatchingMultithreaded cob = false → m_orderNumber cob < INT_MAX →
  m_queueIDDictionary cob !! m_securityId o = Some i → live o → m_side o ≠ SIDE_NON_SUPPORTED →
  queue_room i (1 + 2 * S (book_size book)) cob →
  ∃ cob' book' pushed r,
    OrderBook_processMatching (OrderBook_insert o' book) [] = Ok (book', pushed, r) ∧
    CentralOrderBook_addOrder fuel o cob = Ok (cob', o', true) ∧
    sends i (OutgoingMessage_new o' ACCEPTED [] :: (message_of <$> pushed))
      (with_books (<[m_securityId o := book']> (m_orderBookDictionary cob))
         (with_orderNumber (m_orderNumber cob + 1) cob)) cob' ∧
    cob_inv cob'.
Proof.
  intros o' book Hf Hinv Hmt Hn Hq Hl Hside Hroom. pose proof Hinv as [Hnum _].
  unfold CentralOrderBook_addOrder.
  rewrite (to_int_small (m_orderNumber cob + 1)) by mlia. rewrite to_size_small by mlia.
  fold o'. rewrite (queueID_of_Some _ i) by done.
  destruct (push_outgoing_ok fuel i (OutgoingMessage_new o' ACCEPTED []) (2 * S (book_size book))
    (with_orderNumber (m_orderNumber cob + 1) cob) Hf Hroom) as (c1 & -> & Hs1 & Hr1). simpl.
  pose proof Hs1 as (q & q' & Eq & Ec1 & Lq & Iq).
  assert (m_isMatchingMultithreaded c1 = false) as -> by (by rewrite Ec1).
  destruct (taskNewOrder_spec fuel i o' (m_orderNumber cob) c1) as (c2 & book' & pushed & r & Hrun & -> & Hs2 & Hb');
    try done; [by rewrite Ec1|by apply setOrderId_live|rewrite Ec1; exact (book_of_inv (m_securityId o) cob Hinv)|
     rewrite Ec1; rewrite Ec1 in Hr1; exact Hr1|].
  replace (book_of c1 (m_securityId o')) with book in Hrun by (by rewrite Ec1).
  exists c2, book', pushed, r. split; [done|]. split; [done|].
  assert (sends i (OutgoingMessage_new o' ACCEPTED [] :: (message_of <$> pushed))
      (with_books (<[m_securityId o := book']> (m_orderBookDictionary cob))
         (with_orderNumber (m_orderNumber cob + 1) cob)) c2) as Hs.
  { apply (sends_trans i [_] (message_of <$> pushed) _
      (with_books (<[m_securityId o' := book']> (m_orderBookDictionary c1)) c1)); [|done].
    exists q, q'. split; [done|]. split; [|done]. by rewrite Ec1. }
  split; [done|]. eapply sends_inv; [exact Hs|]. apply cob_inv_insert; [done|lia|done].
Qed.

(** Cancelling an order that stands in the book. *)
Lemma taskCancelOrder_found fuel addr i o orig p found cob :
  (0 < fuel)%nat → cob_inv cob → m_queueIDDictionary cob !! m_securityId o = Some i →
  queue_room i 1 cob →
  OrderBook_find orig (m_sessionId o) (m_side o) (book_of cob (m_securityId o)) = Some (p, found) →
  ∃ cob' l1 k l2, side_of (ptr_bid p) (book_of cob (m_securityId o)) = l1 ++ (k, found) :: l2 ∧
    is_order orig (m_sessionId o) found ∧ Forall (λ e, ¬ is_order orig (m_sessionId o) e.2) l1 ∧
    CentralOrderBook_taskCancelOrder fuel addr o orig cob = Ok cob' ∧
    sends i [OutgoingMessage_new (Order_cancel found) CANCELED ($"Order canceled")]
      (with_books (<[m_securityId o := with_side (ptr_bid p) (l1 ++ l2) (book_of cob (m_securityId o))]>
        (m_orderBookDictionary cob)) cob) cob' ∧
    cob_inv cob'.
Proof.
  intros Hf Hinv Hq Hroom Hfind. pose proof (book_of_inv (m_securityId o) cob Hinv) as Hb.
  set (book := book_of cob (m_securityId o)) in *.
  pose proof (proj1 (find_Some _ _ _ _ _ _) Hfind) as (Hns & Hp & m1 & kf & m2 & E & _ & Hid & _).
  destruct (cancel_book_inv _ _ _ _ _ _ _ _ Hb Hfind) as (l1 & k & l2 & El & Hf1 & Her & Hb').
  unfold CentralOrderBook_taskCancelOrder. rewrite (queueID_of_Some _ i) by done.
  rewrite map_index_book. fold book. rewrite Hfind.
  destruct (push_outgoing_ok fuel i (OutgoingMessage_new (Order_cancel found) CANCELED ($"Order canceled")) 0
    (with_books (<[m_securityId o:=OrderBook_assign p (Order_cancel found) book]>
       (<[m_securityId o:=book]> (m_orderBookDictionary cob)))
       (with_books (<[m_securityId o:=book]> (m_orderBookDictionary cob)) cob)) Hf Hroom)
    as (c1 & -> & (q & q' & Eq & -> & Lq & Iq) & _). simpl.
  eexists _, l1, k, l2. split; [done|]. split; [done|]. split; [done|]. split; [done|].
  rewrite Her, insert_insert_eq. split.
  - exists q, q'. done.
  - destruct Hinv as [Hn Hall].
    split; simpl; [done|]. by apply map_Forall_insert_2.
Qed.

(** An order that does not stand in the book: the request is rejected. *)
Lemma taskCancelOrder_missing fuel addr i o orig cob :
  (0 < fuel)%nat → cob_inv cob → m_queueIDDictionary cob !! m_securityId o = Some i →
  queue_room i 1 cob →
  OrderBook_find orig (m_sessionId o) (m_side o) (book_of cob (m_securityId o)) = None →
  ∃ cob' text, cancel_failure_text addr (m_sessionId o) = Ok text ∧
    CentralOrderBook_taskCancelOrder fuel addr o orig cob = Ok cob' ∧
    sends i [OutgoingMessage_new o REJECTED text]
      (with_books (<[m_securityId o := book_of cob (m_securityId o)]> (m_orderBookDictionary cob)) cob) cob' ∧
    cob_inv cob'.
Proof.
  intros Hf Hinv Hq Hroom Hfind. pose proof (book_of_inv (m_securityId o) cob Hinv) as Hb.
  destruct (cancel_failure_text addr (m_sessionId o)) as [text| | |] eqn:Et; try discriminate Et.
  unfold CentralOrderBook_taskCancelOrder. rewrite (queueID_of_Some _ i) by done.
  rewrite map_index_book, Hfind, Et. simpl. unfold CentralOrderBook_rejectOrder.
  rewrite (queueID_of_Some _ i) by done.
  destruct (push_outgoing_ok fuel i (OutgoingMessage_new o REJECTED text) 0
    (with_books (<[m_securityId o:=book_of cob (m_securityId o)]> (m_orderBookDictionary cob)) cob) Hf Hroom)
    as (c1 & E1 & Hs & _).
  exists c1, text. split; [done|]. split; [exact E1|]. split; [done|].
  eapply sends_inv; [exact Hs|]. destruct Hinv as [Hn Hall].
  split; simpl; [done|]. by apply map_Forall_insert_2.
Qed.
End handling.

(** * Symbols and queues *)

Section symbols.
Context {MQ TQ : Type}.
Implicit Types cob : CentralOrderBook MQ TQ.

(** The symbols with numbers below [k] are registered, each with the queue of its number. *)
Definition registered (k : Z) (sm : SecurityManager) cob : Prop :=
  SecurityManager_inv sm ∧ Z.of_nat (size (m_securitiesById sm)) = k ∧ m_securityIds cob = seqZ 0 k ∧
  ∀ sec i, m_queueIDDictionary cob !! sec = Some i ↔ sec = i ∧ 0 <= i < k.

Lemma setSymbols_from_ok k symbols sm cob :
  0 <= k → k + Z.of_nat (length symbols) <= INT_MAX → registered k sm cob →
  ∃ sm' cob', setSymbols_from (k - 1) symbols sm cob = Ok (sm', cob') ∧
    registered (k + Z.of_nat (length symbols)) sm' cob' ∧
    (∀ j s, SecurityManager_getSecurityName sm j = Ok s → SecurityManager_getSecurityName sm' j = Ok s) ∧
    (∀ j s, symbols !! j = Some s → SecurityManager_getSecurityName sm' (k + Z.of_nat j) = Ok s).
Proof.
  revert k sm cob. induction symbols as [|s symbols IH]; intros k sm cob Hk Hlen (Hi & Hs & Hids & Hq); simpl in *.
  - exists sm, cob. rewrite Z.add_0_r. done.
  - pose proof (addSecurity_inv sm s Hi) as Hi'. pose proof (addSecurity_name sm s Hi) as Hname.
    pose proof (addSecurity_fresh sm Hi) as Hfresh.
    unfold SecurityManager_addSecurity in *. simpl in Hi'. rewrite Hs in *. destruct Hname as [Hn1 Hn2].
    set (sm1 := mkSecurityManager _ _) in *.
    rewrite int_add_Ok by mlia. simpl. replace (k - 1 + 1) with (k + 1 - 1) by lia.
    set (cob1 := mkCentralOrderBook _ _ _ _ _ _ _).
    destruct (IH (k + 1) sm1 cob1) as (sm' & cob' & E & Hr & Hold & Hnew); [lia|lia| |].
    { split; [done|]. split; [|split].
      - unfold sm1. simpl. unfold map_insert_new. rewrite Hfresh, map_size_insert_None by done. lia.
      - unfold cob1. simpl. rewrite Hids, seqZ_app by lia. done.
      - intros sec i. unfold cob1. simpl. unfold map_insert_new.
        destruct (m_queueIDDictionary cob !! k) eqn:Ek; [apply Hq in Ek; lia|].
        rewrite lookup_insert. case_decide; [split; [intros [= <-]; lia|intros [<- _]; f_equal; lia]|].
        rewrite Hq. lia. }
    exists sm', cob'. rewrite E. replace (k + Z.of_nat (S (length symbols))) with (k + 1 + Z.of_nat (length symbols)) by lia.
    split; [done|]. split; [done|]. split; [by auto|].
    intros [|j] x Hx; simpl in *.
    + simplify_eq. apply Hold. by rewrite Z.add_0_r.
    + replace (k + Z.of_nat (S j)) with (k + 1 + Z.of_nat j) by lia. by apply Hnew.
Qed.
End symbols.

(** On a fresh exchange [setSymbols] gives the symbols the identifiers 0, 1, ... in
    order, and each identifier its own queue: no two securities share a worker. *)
Theorem setSymbols_one_queue_each {MQ TQ} (symbols : list str) (cob : CentralOrderBook MQ TQ)
    (Hlen : Z.of_nat (length symbols) <= INT_MAX)
    (Hids : m_securityIds cob = []) (Hqueues : m_queueIDDictionary cob = ∅) :
  ∃ sm' cob', CentralOrderBook_setSymbols symbols SecurityManager_empty cob = Ok (sm', cob') ∧
    SecurityManager_inv sm' ∧ m_securityIds cob' = seqZ 0 (Z.of_nat (length symbols)) ∧
    (∀ k s, symbols !! k = Some s → SecurityManager_getSecurityName sm' (Z.of_nat k) = Ok s) ∧
    (∀ sec i, m_queueIDDictionary cob' !! sec = Some i ↔ sec = i ∧ 0 <= i < Z.of_nat (length symbols)).
Proof.
  destruct (setSymbols_from_ok 0 symbols SecurityManager_empty cob) as (sm' & cob' & E & (H1 & H2 & H3 & H4) & _ & H5);
    [lia|lia| |].
  { split; [apply SecurityManager_empty_inv|]. split; [done|]. split; [done|].
    intros sec i. rewrite Hqueues, lookup_empty. split; [done|lia]. }
  exists sm', cob'. done.
Qed.

(** * The properties of request handling *)

(** C10: In single-threaded mode [addOrder] returns; it numbers the order, replaces the
    book of its security by the result of matching the order into it, and appends to
    the outgoing queue of the security the acceptance followed by one report per
    executed order, [FILLED] exactly for those that have nothing left; every other
    book, queue and setting is untouched. *)
Theorem addOrder_outcome {MQ TQ} `{!Fifo OutgoingMessage MQ} `{!FifoLaws OutgoingMessage MQ} `{!Fifo MatchTask TQ}
    (fuel : nat) (queueID : Z) (order : Order) (cob : CentralOrderBook MQ TQ)
    (Hfuel : (0 < fuel)%nat) (Hinv : cob_inv cob) (Hsync : m_isMatchingMultithreaded cob = false)
    (Hnumber : m_orderNumber cob < INT_MAX)
    (Hqueue : m_queueIDDictionary cob !! m_securityId order = Some queueID)
    (Hlive : live order) (Hside : m_side order ≠ SIDE_NON_SUPPORTED)
    (Hroom : queue_room queueID (1 + 2 * S (book_size (book_of cob (m_securityId order)))) cob) :
  let order' := Order_setOrderId (m_orderNumber cob + 1) order in
  ∃ cob' book' processed r,
    OrderBook_processMatching (OrderBook_insert order' (book_of cob (m_securityId order))) [] =
      Ok (book', processed, r) ∧
    CentralOrderBook_addOrder fuel order cob = Ok (cob', order', true) ∧
    sends queueID
      (OutgoingMessage_new order' ACCEPTED [] ::
       ((λ o, OutgoingMessage_new o (if Order_isFilled o then FILLED else PARTIALLY_FILLED) []) <$> processed))
      (with_books (<[m_securityId order := book']> (m_orderBookDictionary cob))
         (with_orderNumber (m_orderNumber cob + 1) cob)) cob'.
Proof.
  destruct (addOrder_spec fuel queueID order cob Hfuel Hinv Hsync Hnumber Hqueue Hlive Hside Hroom)
    as (cob' & book' & processed & r & H1 & H2 & H3 & _).
  by exists cob', book', processed, r.
Qed.

(** [addOrder] keeps every book well formed, uncrossed and in price-time order, where
    time is the order number, which is at most the number of the last order. *)
Theorem addOrder_keeps_priority {MQ TQ} `{!Fifo OutgoingMessage MQ} `{!FifoLaws OutgoingMessage MQ} `{!Fifo MatchTask TQ}
    (fuel : nat) (queueID : Z) (order : Order) (cob : CentralOrderBook MQ TQ)
    (Hfuel : (0 < fuel)%nat) (Hinv : cob_inv cob) (Hsync : m_isMatchingMultithreaded cob = false)
    (Hnumber : m_orderNumber cob < INT_MAX)
    (Hqueue : m_queueIDDictionary cob !! m_securityId order = Some queueID)
    (Hlive : live order) (Hside : m_side order ≠ SIDE_NON_SUPPORTED)
    (Hroom : queue_room queueID (1 + 2 * S (book_size (book_of cob (m_securityId order)))) cob) :
  ∃ cob' order', CentralOrderBook_addOrder fuel order cob = Ok (cob', order', true) ∧
    m_orderNumber cob' = m_orderNumber cob + 1 ∧ m_orderID order' = m_orderNumber cob' ∧
    cob_inv cob' ∧
    ∀ sec, sec ≠ m_securityId order → book_of cob' sec = book_of cob sec.
Proof.
  destruct (addOrder_spec fuel queueID order cob Hfuel Hinv Hsync Hnumber Hqueue Hlive Hside Hroom)
    as (cob' & book' & processed & r & H1 & H2 & (q & q' & _ & E & _) & H4).
  exists cob', (Order_setOrderId (m_orderNumber cob + 1) order). split; [done|].
  split; [by rewrite E|]. split; [by rewrite E|]. split; [done|].
  intros sec Hne. rewrite E. unfold book_of. simpl. by rewrite lookup_insert_ne.
Qed.


(** ** A concrete exchange: two securities, ring buffers as queues *)

Definition demo_message : OutgoingMessage :=
  OutgoingMessage_new (demo_order 0 BUY 0 0) ACCEPTED [].
Abbreviation demo_cob := (CentralOrderBook (RingBuffer OutgoingMessage) (RingBuffer MatchTask)).

Definition demo_setup (threaded : bool) : demo_cob :=
  match CentralOrderBook_setSymbols [$"AAA"; $"BBB"] SecurityManager_empty CentralOrderBook_empty with
  | Ok (_, cob) =>
      let cob := CentralOrderBook_initialiseOutgoingMessageQueues (RingBuffer_new demo_message) 2 64 cob in
      if threaded then
        CentralOrderBook_initialiseMultithreadedMatching (RingBuffer_new (TaskNewOrder (demo_order 0 BUY 0 0)))
          16 [$"AAA"; $"BBB"] cob
      else cob
  | _ => CentralOrderBook_empty
  end.

Definition demo_add (o : Order) (cob : demo_cob) : demo_cob :=
  match CentralOrderBook_addOrder 1 o cob with Ok (cob', _, _) => cob' | _ => cob end.

Lemma demo_setup_inv : cob_inv (demo_setup false).
Proof.
  split; [vm_compute; split; discriminate|].
  change (m_orderBookDictionary (demo_setup false)) with (∅ : gmap Z OrderBook). apply map_Forall_empty.
Qed.

Lemma demo_room n : (n <= 64)%nat → queue_room 0 n (demo_setup false).
Proof.
  intros Hn. split; [done|]. exists (RingBuffer_new demo_message 64). split; [reflexivity|].
  split; [apply RingBuffer_new_inv; mlia|]. split; [simpl; mlia|]. change (0 + n <= 64)%nat. lia.
Qed.

Lemma setSymbols_one_queue_each_witness : ∃ sm' (cob' : demo_cob),
  CentralOrderBook_setSymbols [$"AAA"; $"BBB"] SecurityManager_empty CentralOrderBook_empty = Ok (sm', cob') ∧
  SecurityManager_inv sm' ∧ m_securityIds cob' = seqZ 0 2 ∧
  (∀ k s, [$"AAA"; $"BBB"] !! k = Some s → SecurityManager_getSecurityName sm' (Z.of_nat k) = Ok s) ∧
  (∀ sec i, m_queueIDDictionary cob' !! sec = Some i ↔ sec = i ∧ 0 <= i < 2).
Proof. apply (setSymbols_one_queue_each [$"AAA"; $"BBB"]); [vm_compute; discriminate|reflexivity..]. Defined.

Lemma addOrder_outcome_witness :
  let order := demo_order 0 BUY 100 5 in
  let order' := Order_setOrderId 1 order in
  ∃ (cob' : demo_cob) book' processed r,
    OrderBook_processMatching (OrderBook_insert order' OrderBook_empty) [] = Ok (book', processed, r) ∧
    CentralOrderBook_addOrder 1 order (demo_setup false) = Ok (cob', order', true) ∧
    sends 0
      (OutgoingMessage_new order' ACCEPTED [] ::
       ((λ o, OutgoingMessage_new o (if Order_isFilled o then FILLED else PARTIALLY_FILLED) []) <$> processed))
      (with_books (<[0 := book']> (m_orderBookDictionary (demo_setup false)))
         (with_orderNumber 1 (demo_setup false))) cob'.
Proof.
  apply (addOrder_outcome 1 0 (demo_order 0 BUY 100 5) (demo_setup false));
    [lia|apply demo_setup_inv|reflexivity|reflexivity|reflexivity|apply demo_order_live; lia|discriminate|].
  apply demo_room. vm_compute. lia.
Defined.

Lemma addOrder_keeps_priority_witness : ∃ (cob' : demo_cob) order',
  CentralOrderBook_addOrder 1 (demo_order 0 BUY 100 5) (demo_setup false) = Ok (cob', order', true) ∧
  m_orderNumber cob' = 0 + 1 ∧ m_orderID order' = m_orderNumber cob' ∧ cob_inv cob' ∧
  ∀ sec, sec ≠ 0 → book_of cob' sec = book_of (demo_setup false) sec.
Proof.
  apply (addOrder_keeps_priority 1 0 (demo_order 0 BUY 100 5) (demo_setup false));
    [lia|apply demo_setup_inv|reflexivity|reflexivity|reflexivity|apply demo_order_live; lia|discriminate|].
  apply demo_room. vm_compute. lia.
Defined.

(** The exchange after one order: the order can be cancelled. *)
Lemma demo_add_inv : cob_inv (demo_add (demo_order 7 BUY 100 5) (demo_setup false)).
Proof.
  unfold demo_add.
  destruct (addOrder_spec 1 0 (demo_order 7 BUY 100 5) (demo_setup false)) as (c & b & p & r & _ & -> & _ & H);
    [lia|apply demo_setup_inv|reflexivity|reflexivity|reflexivity|apply demo_order_live; lia|discriminate| |done].
  apply demo_room. vm_compute. lia.
Qed.

Lemma demo_add_room : queue_room 0 1 (demo_add (demo_order 7 BUY 100 5) (demo_setup false)).
Proof.
  split; [done|]. eexists. split; [vm_compute; reflexivity|].
  split; [|split; [vm_compute; discriminate|vm_compute; lia]].
  split; vm_compute; repeat split; discriminate.
Qed.

