(* ===== verification/ThreadedMatching.v ===== *)
(** * Matching by worker threads

    In multithreaded mode [addOrder] and [cancelOrder] queue a task for the worker of
    the security, and the workers run their tasks in any interleaving. The file shows
    that the books are those of handling the requests one after the other: a book is
    at every moment the result of replaying a prefix of the requests for its security,
    and of all of them once its queue is empty. The steps of the system are whole
    requests and whole tasks; what two producers do to one outgoing queue is the
    subject of [RingBufferConcurrent.v]. *)
From Stdlib Require Import ZArith Lia Ascii String SpecFloat Sorted.
From stdpp Require Import base decidable sets list gmap strings relations.
From S2P Require Import Prelude.
From S2P Require Import MachineInt.
From S2P Require Import StringUtility.
From S2P Require Import Double.
From S2P Require Import Multimap.
From S2P Require Import SecurityManager.
From S2P Require Import Order.
From S2P Require Import OrderBook.
From S2P Require Import Fifo.
From S2P Require Import RingBuffer.
From S2P Require Import CentralOrderBook.
Local Open Scope Z_scope.

(** ** Replaying tasks on one book *)

Definition task_security (t : MatchTask) : Z :=
  match t with TaskNewOrder o => m_securityId o | TaskCancelOrder o _ => m_securityId o end.

Definition task_book (t : MatchTask) (book : OrderBook) : outcome OrderBook :=
  match t with
  | TaskNewOrder o =>
      '(book', _, _) ← OrderBook_processMatching (OrderBook_insert o book) []; Ok book'
  | TaskCancelOrder o orig =>
      match OrderBook_find orig (m_sessionId o) (m_side o) book with
      | Some (p, found) => Ok (OrderBook_erase (Order_cancel found) (OrderBook_assign p (Order_cancel found) book))
      | None => Ok book
      end
  end.

Fixpoint replay (tasks : list MatchTask) (book : OrderBook) : outcome OrderBook :=
  match tasks with
  | [] => Ok book
  | t :: tasks' => book' ← task_book t book; replay tasks' book'
  end.

Definition for_security (sec : Z) (tasks : list MatchTask) : list MatchTask :=
  filter (λ t, task_security t = sec) tasks.

Lemma replay_app t1 t2 book b1 : replay t1 book = Ok b1 → replay (t1 ++ t2) book = replay t2 b1.
Proof.
  revert book. induction t1 as [|t t1 IH]; intros book H; simpl in *; [by simplify_eq|].
  apply bind_Ok_inv in H as (b & -> & H). simpl. by apply IH.
Qed.

Lemma replay_snoc tasks t book b1 b2 :
  replay tasks book = Ok b1 → task_book t b1 = Ok b2 → replay (tasks ++ [t]) book = Ok b2.
Proof. intros H1 H2. rewrite (replay_app _ _ _ _ H1). simpl. by rewrite H2. Qed.

Lemma for_security_app sec t1 t2 : for_security sec (t1 ++ t2) = for_security sec t1 ++ for_security sec t2.
Proof. apply filter_app. Qed.

Lemma for_security_snoc_eq tasks t :
  for_security (task_security t) (tasks ++ [t]) = for_security (task_security t) tasks ++ [t].
Proof. rewrite for_security_app. unfold for_security. by rewrite (filter_cons_True _ t). Qed.

Lemma for_security_snoc_ne sec tasks t :
  task_security t ≠ sec → for_security sec (tasks ++ [t]) = for_security sec tasks.
Proof.
  intros H. rewrite for_security_app. unfold for_security at 2.
  rewrite filter_cons_False by done. by rewrite app_nil_r.
Qed.

(** What the tasks of a new order must be for the book to be well ordered: live, with a
    side, and with growing numbers. *)
Fixpoint numbered (n : Z) (tasks : list MatchTask) : Prop :=
  match tasks with
  | [] => True
  | TaskNewOrder o :: tasks' =>
      live o ∧ m_side o ≠ SIDE_NON_SUPPORTED ∧ n < m_orderID o ∧ numbered (m_orderID o) tasks'
  | TaskCancelOrder _ _ :: tasks' => numbered n tasks'
  end.

Fixpoint last_number (n : Z) (tasks : list MatchTask) : Z :=
  match tasks with
  | [] => n
  | TaskNewOrder o :: tasks' => last_number (m_orderID o) tasks'
  | TaskCancelOrder _ _ :: tasks' => last_number n tasks'
  end.

Lemma numbered_app n t1 t2 : numbered n (t1 ++ t2) ↔ numbered n t1 ∧ numbered (last_number n t1) t2.
Proof.
  revert n. induction t1 as [|[o|o orig] t1 IH]; intros n; simpl; [tauto| |apply IH].
  rewrite IH. tauto.
Qed.

Lemma last_number_app n t1 t2 : last_number n (t1 ++ t2) = last_number (last_number n t1) t2.
Proof. revert n. induction t1 as [|[o|o orig] t1 IH]; intros n; simpl; [done|apply IH..]. Qed.

Lemma last_number_ge n tasks : numbered n tasks → n <= last_number n tasks.
Proof.
  revert n. induction tasks as [|[o|o orig] tasks IH]; intros n H; simpl in *; [lia| |by apply IH].
  destruct H as (_ & _ & Hn & H). specialize (IH _ H). lia.
Qed.

Lemma numbered_weaken n n' tasks : n' <= n → numbered n tasks → numbered n' tasks.
Proof.
  revert n n'. induction tasks as [|[o|o orig] tasks IH]; intros n n' Hn H; simpl in *; [done| |by eapply IH].
  intuition lia.
Qed.

Lemma numbered_filter n sec tasks : numbered n tasks → numbered n (for_security sec tasks).
Proof.
  unfold for_security. revert n. induction tasks as [|[o|o orig] tasks IH]; intros n H; simpl in *; [done| |].
  - destruct H as (Hl & Hs & Hn & H). rewrite filter_cons. case_decide; simpl.
    + split_and!; try done. by apply IH.
    + apply (numbered_weaken (m_orderID o)); [lia|]. by apply IH.
  - rewrite filter_cons. case_decide; simpl; by apply IH.
Qed.

Lemma last_number_filter n sec tasks : numbered n tasks → last_number n (for_security sec tasks) <= last_number n tasks.
Proof.
  unfold for_security. revert n. induction tasks as [|[o|o orig] tasks IH]; intros n H; simpl in *; [lia| |].
  - destruct H as (Hl & Hs & Hn & H). rewrite filter_cons. case_decide; simpl; [by apply IH|].
    etrans; [|by apply (IH (m_orderID o))].
    clear -Hn. generalize (filter (λ t, task_security t = sec) tasks) as l.
    intros l. revert n Hn. destruct l as [|[x|x orig] l]; intros n Hn; simpl; [lia|lia|].
    induction l as [|[y|y orig'] l IHl]; simpl; [lia|lia|done].
  - rewrite filter_cons. case_decide; simpl; by apply IH.
Qed.

(** Replaying numbered tasks keeps the invariant of the book, and cannot fail. *)
Lemma replay_inv n sec tasks book :
  Forall (λ t, task_security t = sec) tasks → numbered n tasks → book_inv n sec book →
  ∃ book', replay tasks book = Ok book' ∧ book_inv (last_number n tasks) sec book'.
Proof.
  revert n book. induction tasks as [|t tasks IH]; intros n book Hsec Hn Hb; simpl in *; [by exists book|].
  apply Forall_cons in Hsec as [Ht Hsec]. destruct t as [o|o orig]; simpl in *.
  - destruct Hn as (Hl & Hside & Hlt & Hn).
    destruct (match_book_inv (m_orderID o - 1) sec o book) as (b1 & trades & -> & Hb1 & _); try done.
    + eapply book_inv_mono; [|exact Hb]. lia.
    + lia.
    + split_and!; (done || lia).
    + simpl. apply IH; [done|done|]. by replace (m_orderID o - 1 + 1) with (m_orderID o) in Hb1 by lia.
  - destruct (OrderBook_find orig (m_sessionId o) (m_side o) book) as [[p f]|] eqn:Hf; simpl; [|by apply IH].
    destruct (cancel_book_inv n sec _ _ _ _ _ _ Hb Hf) as (l1 & k & l2 & _ & _ & -> & Hb1).
    by apply IH.
Qed.

(** ** The system *)

Section threaded.
Context {MQ TQ : Type} `{!Fifo OutgoingMessage MQ} `{!Fifo MatchTask TQ} `{!FifoLaws MatchTask TQ}.
Implicit Types cob : CentralOrderBook MQ TQ.

(** The central order book, with the tasks submitted and those run so far. *)
Record ThreadedState : Type := mkThreadedState {
  th_cob : CentralOrderBook MQ TQ;
  th_submitted : list MatchTask;
  th_done : list MatchTask
}.

Definition task_queue_ready (sec : Z) cob : Prop :=
  ∃ i q, m_queueIDDictionary cob !! sec = Some i ∧ 0 <= i ∧
    m_threadQueues cob !! Z.to_nat i = Some q ∧ fifo_room 1 q.

(** A client that finds the queue of the worker full waits: it takes no step. *)
Inductive threaded_step : ThreadedState → ThreadedState → Prop :=
  | th_add fuel o o' cob cob' submitted run :
      task_queue_ready (m_securityId o) cob →
      live o → m_side o ≠ SIDE_NON_SUPPORTED → m_orderNumber cob < INT_MAX →
      CentralOrderBook_addOrder fuel o cob = Ok (cob', o', true) →
      threaded_step (mkThreadedState cob submitted run)
        (mkThreadedState cob' (submitted ++ [TaskNewOrder o']) run)
  | th_cancel fuel addr o orig cob cob' submitted run :
      task_queue_ready (m_securityId o) cob →
      CentralOrderBook_cancelOrder fuel addr o orig cob = Ok cob' →
      threaded_step (mkThreadedState cob submitted run)
        (mkThreadedState cob' (submitted ++ [TaskCancelOrder o orig]) run)
  | th_work fuel addr i q t l cob cob' submitted run :
      0 <= i → m_threadQueues cob !! Z.to_nat i = Some q → fifo_list q = t :: l →
      ThreadPool_workerRound fuel addr i cob = Ok (cob', true) →
      threaded_step (mkThreadedState cob submitted run) (mkThreadedState cob' submitted (run ++ [t])).

(** *** What the handlers change *)

Definition pending (i : Z) cob : list MatchTask :=
  match m_threadQueues cob !! Z.to_nat i with Some q => fifo_list q | None => [] end.

(** [cob'] is [cob] but for the contents of the outgoing queues. *)
Definition only_outgoing cob cob' : Prop := ∃ qs, cob' = with_outgoing qs cob.

Lemma only_outgoing_trans c1 c2 c3 : only_outgoing c1 c2 → only_outgoing c2 c3 → only_outgoing c1 c3.
Proof. intros [q1 ->] [q2 ->]. by exists q2. Qed.

Lemma push_outgoing_frame fuel i m cob cob' : push_outgoing fuel i m cob = Ok cob' → only_outgoing cob cob'.
Proof. unfold push_outgoing. intros H. outcome_inv H. subst. by eexists. Qed.

Lemma push_processed_frame fuel i os cob cob' : push_processed fuel i os cob = Ok cob' → only_outgoing cob cob'.
Proof.
  revert cob. induction os as [|o os IH]; intros cob H; simpl in H.
  - simplify_eq. exists (m_outgoingMessages cob'). by destruct cob'.
  - apply bind_Ok_inv in H as (c & H1 & H2). eapply only_outgoing_trans; [by eapply push_outgoing_frame|eauto].
Qed.

Lemma task_frame fuel addr t i cob cob' :
  m_queueIDDictionary cob !! task_security t = Some i →
  match t with
  | TaskNewOrder o => CentralOrderBook_taskNewOrder fuel o cob
  | TaskCancelOrder o orig => CentralOrderBook_taskCancelOrder fuel addr o orig cob
  end = Ok cob' →
  ∃ book', task_book t (book_of cob (task_security t)) = Ok book' ∧
    only_outgoing (with_books (<[task_security t := book']> (m_orderBookDictionary cob)) cob) cob'.
Proof.
  intros Hq H. destruct t as [o|o orig]; simpl in *.
  - unfold CentralOrderBook_taskNewOrder in H. rewrite (queueID_of_Some _ i) in H by done.
    rewrite map_index_book in H. apply bind_Ok_inv in H as ([[b' os] r] & -> & H). simpl in *.
    rewrite insert_insert_eq in H. exists b'. split; [done|]. by eapply push_processed_frame.
  - unfold CentralOrderBook_taskCancelOrder in H. rewrite (queueID_of_Some _ i) in H by done.
    rewrite map_index_book in H. destruct (OrderBook_find _ _ _ _) as [[p f]|].
    + apply bind_Ok_inv in H as (c & H1 & H2). apply push_outgoing_frame in H1 as [qs ->].
      eexists. split; [done|]. simplify_eq/=. rewrite insert_insert_eq. by eexists.
    + apply bind_Ok_inv in H as (text & _ & H). unfold CentralOrderBook_rejectOrder in H.
      rewrite (queueID_of_Some _ i) in H by done. apply push_outgoing_frame in H.
      eexists. split; [done|done].
Qed.

Lemma submitTask_frame fuel t i q cob cob' :
  0 <= i → m_threadQueues cob !! Z.to_nat i = Some q → fifo_room 1 q →
  ThreadPool_submitTask fuel t i cob = Ok cob' →
  ∃ q', cob' = with_threadQueues (<[Z.to_nat i := q']> (m_threadQueues cob)) cob ∧
    fifo_inv q' ∧ fifo_list q' = fifo_list q ++ [t].
Proof.
  intros Hi Hq Hr H. unfold ThreadPool_submitTask in H. case_match; [done|].
  unfold vec_at in H. destruct (Z.ltb_spec i 0); [lia|]. rewrite Hq in H. simpl in H.
  apply bind_Ok_inv in H as (q' & Hp & [= <-]). destruct fuel as [|fuel]; [done|].
  destruct (fifo_push_ok (S fuel) t q 0 ltac:(lia) Hr) as (q1 & Hp1 & Hl & Hi1 & _).
  rewrite Hp1 in Hp. injection Hp as <-. by exists q1.
Qed.

(** *** The invariant *)

Record threaded_inv (s : ThreadedState) : Prop := {
  ti_threaded : m_isMatchingMultithreaded (th_cob s) = true;
  ti_ids sec i : m_queueIDDictionary (th_cob s) !! sec = Some i → 0 <= i;
  ti_queues : Forall fifo_inv (m_threadQueues (th_cob s));
  ti_home i t : 0 <= i → t ∈ pending i (th_cob s) →
    m_queueIDDictionary (th_cob s) !! task_security t = Some i;
  ti_split sec i : m_queueIDDictionary (th_cob s) !! sec = Some i →
    for_security sec (th_submitted s) =
      for_security sec (th_done s) ++ for_security sec (pending i (th_cob s));
  ti_books sec : replay (for_security sec (th_done s)) OrderBook_empty = Ok (book_of (th_cob s) sec);
  ti_numbered : numbered 0 (th_submitted s);
  ti_last : last_number 0 (th_submitted s) <= m_orderNumber (th_cob s) <= INT_MAX
}.

Lemma pending_insert i j q qs cob : 0 <= i → 0 <= j → (Z.to_nat i < length qs)%nat →
  pending j (with_threadQueues (<[Z.to_nat i := q]> qs) cob) =
    if decide (i = j) then fifo_list q else pending j (with_threadQueues qs cob).
Proof.
  intros Hi Hj Hl. unfold pending. simpl. case_decide as Hd.
  - subst j. rewrite list_lookup_insert_eq by lia. done.
  - rewrite list_lookup_insert_ne by lia. done.
Qed.

Lemma submit_inv t i q q' qs n cob submitted run :
  threaded_inv (mkThreadedState cob submitted run) →
  m_queueIDDictionary cob !! task_security t = Some i →
  m_threadQueues cob !! Z.to_nat i = Some q → fifo_inv q' → fifo_list q' = fifo_list q ++ [t] →
  numbered 0 (submitted ++ [t]) → last_number 0 (submitted ++ [t]) <= n <= INT_MAX →
  threaded_inv (mkThreadedState
    (with_threadQueues (<[Z.to_nat i := q']> (m_threadQueues cob)) (with_outgoing qs (with_orderNumber n cob)))
    (submitted ++ [t]) run).
Proof.
  intros [H1 H2 H3 H4 H5 H6 H7 H8] Hid Hq Hi' Hl' Hn Hlast. simpl in *.
  pose proof (H2 _ _ Hid) as Hi0. apply lookup_lt_Some in Hq as Hlen.
  assert (pending i cob = fifo_list q) as Ep by (unfold pending; by rewrite Hq).
  split; simpl; try done.
  - by apply Forall_insert.
  - intros j x Hj Hx. rewrite pending_insert in Hx by lia. case_decide as Hd; [|by apply (H4 j)].
    subst j. rewrite Hl', elem_of_app, list_elem_of_singleton in Hx. destruct Hx as [Hx| ->]; [|done].
    apply H4; [done|]. by rewrite Ep.
  - intros sec j Hj. pose proof (H2 _ _ Hj) as Hj0. rewrite pending_insert by lia.
    destruct (decide (task_security t = sec)) as [<-|Hne].
    + assert (i = j) as <- by congruence. rewrite decide_True by done.
      rewrite Hl', !for_security_snoc_eq, (H5 _ i), Ep by done. by rewrite app_assoc.
    + rewrite for_security_snoc_ne by done. case_decide as Hd; [|by apply H5]. subst j.
      rewrite Hl', for_security_snoc_ne by done. rewrite (H5 _ i) by done. by rewrite Ep.
Qed.

Lemma addOrder_inv fuel o o' cob cob' submitted run :
  threaded_inv (mkThreadedState cob submitted run) → task_queue_ready (m_securityId o) cob →
  live o → m_side o ≠ SIDE_NON_SUPPORTED → m_orderNumber cob < INT_MAX →
  CentralOrderBook_addOrder fuel o cob = Ok (cob', o', true) →
  threaded_inv (mkThreadedState cob' (submitted ++ [TaskNewOrder o']) run).
Proof.
  intros Hinv (i & q & Hid & Hi & Hq & Hr) Hl Hside Hn H.
  pose proof (ti_last _ Hinv) as Hlast. pose proof (ti_threaded _ Hinv) as Hmt. simpl in *.
  pose proof (last_number_ge _ _ (ti_numbered _ Hinv)) as H0. simpl in H0.
  unfold CentralOrderBook_addOrder in H.
  rewrite (to_int_small (m_orderNumber cob + 1)), to_size_small in H by mlia.
  rewrite (queueID_of_Some _ i) in H by done.
  apply bind_Ok_inv in H as (c1 & [qs ->]%push_outgoing_frame & H). simpl in H. rewrite Hmt in H.
  apply bind_Ok_inv in H as (c2 & H & [= <- <-]).
  eapply submitTask_frame in H as (q' & -> & Hi' & Hl'); [|done|exact Hq|done].
  apply (submit_inv _ i q q' qs (m_orderNumber cob + 1) cob); try done.
  - apply numbered_app. split; [by apply (ti_numbered _ Hinv)|]. simpl.
    split_and!; try done; [by apply setOrderId_live|simpl; lia].
  - rewrite last_number_app. simpl. lia.
Qed.

Lemma cancelOrder_inv fuel addr o orig cob cob' submitted run :
  threaded_inv (mkThreadedState cob submitted run) → task_queue_ready (m_securityId o) cob →
  CentralOrderBook_cancelOrder fuel addr o orig cob = Ok cob' →
  threaded_inv (mkThreadedState cob' (submitted ++ [TaskCancelOrder o orig]) run).
Proof.
  intros Hinv (i & q & Hid & Hi & Hq & Hr) H.
  pose proof (ti_last _ Hinv) as Hlast. pose proof (ti_threaded _ Hinv) as Hmt. simpl in *.
  unfold CentralOrderBook_cancelOrder in H. rewrite Hmt, (queueID_of_Some _ i) in H by done.
  eapply submitTask_frame in H as (q' & -> & Hi' & Hl'); [|done|exact Hq|done].
  replace (with_threadQueues (<[Z.to_nat i:=q']> (m_threadQueues cob)) cob) with
    (with_threadQueues (<[Z.to_nat i:=q']> (m_threadQueues cob))
      (with_outgoing (m_outgoingMessages cob) (with_orderNumber (m_orderNumber cob) cob))) by (by destruct cob).
  apply (submit_inv _ i q q'); try done.
  - apply numbered_app. split; [by apply (ti_numbered _ Hinv)|done].
  - by rewrite last_number_app.
Qed.

Lemma worker_inv fuel addr i q t l cob cob' submitted run :
  threaded_inv (mkThreadedState cob submitted run) →
  0 <= i → m_threadQueues cob !! Z.to_nat i = Some q → fifo_list q = t :: l →
  ThreadPool_workerRound fuel addr i cob = Ok (cob', true) →
  threaded_inv (mkThreadedState cob' submitted (run ++ [t])).
Proof.
  intros [H1 H2 H3 H4 H5 H6 H7 H8] Hi Hq Hl H. simpl in *. apply lookup_lt_Some in Hq as Hlen.
  assert (pending i cob = t :: l) as Ep by (unfold pending; by rewrite Hq).
  assert (m_queueIDDictionary cob !! task_security t = Some i) as Ht by (apply H4; [done|rewrite Ep; by left]).
  destruct (fifo_pop_cons t l q) as (q' & Hpop & Hi' & Hl' & _); [by eapply Forall_lookup in Hq; [|exact H3]|done|].
  unfold ThreadPool_workerRound, vec_at in H. destruct (Z.ltb_spec i 0); [lia|].
  rewrite Hq in H. simpl in H. rewrite Hpop in H. simpl in H.
  set (c := with_threadQueues (<[Z.to_nat i:=q']> (m_threadQueues cob)) cob) in *.
  assert (match t with
    | TaskNewOrder o => CentralOrderBook_taskNewOrder fuel o c
    | TaskCancelOrder o orig => CentralOrderBook_taskCancelOrder fuel addr o orig c end = Ok cob') as Hrun.
  { destruct t; apply bind_Ok_inv in H as (c' & -> & [= ->]); done. }
  destruct (task_frame fuel addr t i c cob' Ht Hrun) as (book' & Hbook & [qs ->]).
  change (book_of c (task_security t)) with (book_of cob (task_security t)) in Hbook.
  split; simpl; try done.
  - by apply Forall_insert.
  - intros j x Hj Hx. apply H4; [done|].
    change (x ∈ pending j c) in Hx. unfold c in Hx. rewrite pending_insert in Hx by lia.
    case_decide as Hd; [|done]. subst j. rewrite Ep. rewrite Hl' in Hx. by apply elem_of_cons; right.
  - intros sec j Hj. pose proof (H2 _ _ Hj) as Hj0. rewrite (H5 sec j) by done.
    change (pending j _) with (pending j c) at 2. unfold c. rewrite pending_insert by lia.
    case_decide as Hd.
    + subst j. rewrite Ep, Hl', for_security_app, <- app_assoc. f_equal.
      unfold for_security. rewrite filter_cons. simpl. by rewrite filter_cons; case_decide.
    + assert (task_security t ≠ sec) as Hne by congruence.
      by rewrite (for_security_snoc_ne sec run).
  - intros sec. destruct (decide (task_security t = sec)) as [<-|Hne].
    + rewrite for_security_snoc_eq. eapply replay_snoc; [apply H6|].
      unfold book_of at 2. simpl. by rewrite lookup_insert_eq.
    + rewrite for_security_snoc_ne by done. rewrite H6. unfold book_of. simpl. by rewrite lookup_insert_ne.
Qed.

Lemma threaded_inv_step s s' : threaded_inv s → threaded_step s s' → threaded_inv s'.
Proof.
  intros Hi Hs. destruct Hs; [by eapply addOrder_inv|by eapply cancelOrder_inv|by eapply worker_inv].
Qed.

Lemma threaded_inv_reachable s s' : rtc threaded_step s s' → threaded_inv s → threaded_inv s'.
Proof. induction 1; eauto using threaded_inv_step. Qed.

Lemma for_security_all sec tasks : Forall (λ t, task_security t = sec) (for_security sec tasks).
Proof. apply Forall_forall. intros t Ht. by apply list_elem_of_filter in Ht as [H _]. Qed.

(** In a state of the invariant a book is the replay of a prefix of its requests. *)
Lemma threaded_book s sec i : threaded_inv s → m_queueIDDictionary (th_cob s) !! sec = Some i →
  replay (for_security sec (th_done s)) OrderBook_empty = Ok (book_of (th_cob s) sec) ∧
  for_security sec (th_submitted s) = for_security sec (th_done s) ++ for_security sec (pending i (th_cob s)) ∧
  book_inv (m_orderNumber (th_cob s)) sec (book_of (th_cob s) sec).
Proof.
  intros Hinv Hid. pose proof (ti_books _ Hinv sec) as Hb. pose proof (ti_split _ Hinv sec i Hid) as Hs.
  split; [done|]. split; [done|].
  pose proof (numbered_filter 0 sec _ (ti_numbered _ Hinv)) as Hn.
  pose proof (last_number_filter 0 sec _ (ti_numbered _ Hinv)) as Hl.
  rewrite Hs in Hn, Hl. apply numbered_app in Hn as [Hn Hn2]. rewrite last_number_app in Hl.
  apply last_number_ge in Hn2. pose proof (ti_last _ Hinv) as Hlast.
  destruct (replay_inv 0 sec (for_security sec (th_done s)) OrderBook_empty) as (b & Hb' & Hbi);
    [apply for_security_all|done|apply book_inv_empty|].
  rewrite Hb in Hb'. injection Hb' as <-. eapply book_inv_mono; [|exact Hbi]. lia.
Qed.
End threaded.
Arguments ThreadedState : clear implicits.
Arguments mkThreadedState {MQ TQ}.

(** A started system: nothing submitted, all books and task queues empty. *)
Record threaded_start {MQ TQ} `{!Fifo MatchTask TQ} (cob : CentralOrderBook MQ TQ) : Prop := {
  ts_threaded : m_isMatchingMultithreaded cob = true;
  ts_ids sec i : m_queueIDDictionary cob !! sec = Some i → 0 <= i;
  ts_queues : Forall (λ q, fifo_inv q ∧ fifo_list q = []) (m_threadQueues cob);
  ts_books sec : book_of cob sec = OrderBook_empty;
  ts_number : 0 <= m_orderNumber cob <= INT_MAX
}.

Lemma threaded_start_inv {MQ TQ} `{!Fifo MatchTask TQ} (cob : CentralOrderBook MQ TQ) :
  threaded_start cob → threaded_inv (mkThreadedState cob [] []).
Proof.
  intros [H1 H2 H3 H4 H5].
  assert (∀ i, pending i cob = []) as Hp.
  { intros i. unfold pending. destruct (_ !! _) eqn:E; [|done].
    eapply Forall_lookup in H3 as [_ H3]; [|exact E]. done. }
  split; simpl; try done.
  - eapply Forall_impl; [exact H3|]. tauto.
  - intros i t _ Ht. rewrite Hp in Ht. by apply elem_of_nil in Ht.
  - intros sec i _. by rewrite Hp.
  - intros sec. by rewrite H4.
Qed.

(** C8: Whatever the interleaving of clients and workers, the book of a security is the
    result of handling a prefix of the requests for that security one after the other,
    of all of them once its queue is empty; and it is well formed, uncrossed and in
    price-time order. *)
Theorem threaded_books_sequential {MQ TQ} `{!Fifo OutgoingMessage MQ} `{!Fifo MatchTask TQ} `{!FifoLaws MatchTask TQ}
    (cob : CentralOrderBook MQ TQ) (s : ThreadedState MQ TQ) (sec queueID : Z)
    (Hstart : threaded_start cob) (Hreach : rtc threaded_step (mkThreadedState cob [] []) s)
    (Hqueue : m_queueIDDictionary (th_cob s) !! sec = Some queueID) :
  ∃ handled, handled ++ for_security sec (pending queueID (th_cob s)) = for_security sec (th_submitted s) ∧
    replay handled OrderBook_empty = Ok (book_of (th_cob s) sec) ∧
    (pending queueID (th_cob s) = [] → handled = for_security sec (th_submitted s)) ∧
    book_inv (m_orderNumber (th_cob s)) sec (book_of (th_cob s) sec).
Proof.
  pose proof (threaded_inv_reachable _ _ Hreach (threaded_start_inv _ Hstart)) as Hinv.
  destruct (threaded_book s sec queueID Hinv Hqueue) as (H1 & H2 & H3).
  exists (for_security sec (th_done s)). split; [done|]. split; [done|]. split; [|done].
  intros Hp. rewrite H2, Hp. unfold for_security. by rewrite app_nil_r.
Qed.

(** ** A run: an order for each security, and the worker of the second one *)

Definition demo_order_of (sec : Z) (side : OrderSide) (price quantity : Z) : Order :=
  Order_new 0 ($"X") sec 1 side LIMIT (of_long price) quantity.

Definition demo_cob1 : demo_cob := demo_add (demo_order_of 0 BUY 100 5) (demo_setup true).
Definition demo_cob2 : demo_cob := demo_add (demo_order_of 1 SELL 90 3) demo_cob1.
Definition demo_cob3 : demo_cob :=
  match ThreadPool_workerRound 1 0 1 demo_cob2 with Ok (c, _) => c | _ => demo_cob2 end.

Definition demo_task (n sec : Z) (side : OrderSide) (price quantity : Z) : MatchTask :=
  TaskNewOrder (Order_setOrderId n (demo_order_of sec side price quantity)).

Lemma demo_start : threaded_start (demo_setup true).
Proof.
  split; [reflexivity| | | |vm_compute; split; discriminate].
  - intros sec i H. change (m_queueIDDictionary (demo_setup true)) with (<[1 := 1]> (<[0 := 0]> (∅ : gmap Z Z))) in H.
    rewrite !lookup_insert in H. repeat case_decide; simplify_eq; lia.
  - repeat constructor; vm_compute; repeat split; discriminate.
  - intros sec. unfold book_of.
    change (m_orderBookDictionary (demo_setup true)) with
      (<[1 := OrderBook_empty]> (<[0 := OrderBook_empty]> (∅ : gmap Z OrderBook))).
    rewrite !lookup_insert. repeat case_decide; reflexivity.
Qed.

Lemma demo_ready (cob : demo_cob) sec i q :
  m_queueIDDictionary cob !! sec = Some i → 0 <= i → m_threadQueues cob !! Z.to_nat i = Some q →
  rb_inv q → m_write q < INT_MAX → m_write q - m_read q < m_capacity q → task_queue_ready sec cob.
Proof.
  intros H1 H2 H3 H4 H5 H6. exists i, q. split; [done|]. split; [done|]. split; [done|].
  split; [done|]. pose proof (rb_list_length q H4). destruct H4. split; simpl in *; lia.
Qed.

Definition demo_state0 := mkThreadedState (demo_setup true) [] [].
Definition demo_state1 := mkThreadedState demo_cob1 [demo_task 1 0 BUY 100 5] [].
Definition demo_state2 := mkThreadedState demo_cob2 [demo_task 1 0 BUY 100 5; demo_task 2 1 SELL 90 3] [].
Definition demo_state3 :=
  mkThreadedState demo_cob3 [demo_task 1 0 BUY 100 5; demo_task 2 1 SELL 90 3] [demo_task 2 1 SELL 90 3].

Lemma demo_step1 : threaded_step demo_state0 demo_state1.
Proof.
  apply (th_add 1 (demo_order_of 0 BUY 100 5) (Order_setOrderId 1 (demo_order_of 0 BUY 100 5)) _ demo_cob1);
    [|apply Order_new_live; [mlia|apply of_long_not_nan]|discriminate|reflexivity|vm_compute; reflexivity].
  eapply (demo_ready _ _ 0); [reflexivity|lia|vm_compute; reflexivity| |reflexivity..].
  split; vm_compute; repeat split; discriminate.
Qed.

Lemma demo_step2 : threaded_step demo_state1 demo_state2.
Proof.
  apply (th_add 1 (demo_order_of 1 SELL 90 3) (Order_setOrderId 2 (demo_order_of 1 SELL 90 3)) _ demo_cob2);
    [|apply Order_new_live; [mlia|apply of_long_not_nan]|discriminate|reflexivity|vm_compute; reflexivity].
  eapply (demo_ready _ _ 1); [reflexivity|lia|vm_compute; reflexivity| |reflexivity..].
  split; vm_compute; repeat split; discriminate.
Qed.

Lemma demo_step3 : threaded_step demo_state2 demo_state3.
Proof.
  eapply (th_work 1 0 1 _ (demo_task 2 1 SELL 90 3) [] demo_cob2 demo_cob3
    [demo_task 1 0 BUY 100 5; demo_task 2 1 SELL 90 3] []);
    [lia|vm_compute; reflexivity|vm_compute; reflexivity|vm_compute; reflexivity].
Qed.

Lemma demo_reach : rtc threaded_step demo_state0 demo_state3.
Proof. eapply rtc_l; [apply demo_step1|]. eapply rtc_l; [apply demo_step2|]. apply rtc_once, demo_step3. Qed.

Lemma threaded_books_sequential_witness : ∃ handled,
  handled ++ for_security 1 (pending 1 demo_cob3) =
    for_security 1 [demo_task 1 0 BUY 100 5; demo_task 2 1 SELL 90 3] ∧
  replay handled OrderBook_empty = Ok (book_of demo_cob3 1) ∧
  (pending 1 demo_cob3 = [] → handled = for_security 1 [demo_task 1 0 BUY 100 5; demo_task 2 1 SELL 90 3]) ∧
  book_inv 2 1 (book_of demo_cob3 1).
Proof.
  apply (threaded_books_sequential (demo_setup true) _ 1 1 demo_start demo_reach). reflexivity.
Defined.
