(* ===== verification/ThreadPoolLiveness.v ===== *)
(** * The workers get through their tasks

    [ThreadedMatching.v] shows that whatever the workers have done is right; this file
    that they do it. Here the threads are cut finer: a turn of a worker takes a task off
    its queue, or changes the book, or tries once to push one report; a turn of the thread
    that sends reports tries to take one report from the queue its loop has reached. A
    schedule says whose turn it is, and nothing else: it does not say that a turn gets
    anywhere. A worker whose outgoing queue is full tries in vain, for as many turns as it
    takes, and that no turn fails is proved. No thread is asked to finish: the flags that
    end the loops are left out, and so are the waits between their rounds. *)
From Stdlib Require Import ZArith Lia Ascii String SpecFloat.
From stdpp Require Import base decidable sets list gmap strings relations.
From S2P Require Import Prelude.
From S2P Require Import MachineInt.
From S2P Require Import StringUtility.
From S2P Require Import Order.
From S2P Require Import OrderBook.
From S2P Require Import Fifo.
From S2P Require Import RingBuffer.
From S2P Require Import CentralOrderBook.
From S2P Require Import ThreadedMatching.
Local Open Scope Z_scope.

(** ** A task, cut into what its worker does *)

Inductive work_item : Type :=
  | SetBook (securityId : Z) (book : OrderBook)
  | Report (message : OutgoingMessage).

(** What a task makes of the book of its security, in the order of the code. *)
Definition task_work (addr : Z) (t : MatchTask) (book : OrderBook) : outcome (list work_item) :=
  match t with
  | TaskNewOrder o =>
      '(book', processedOrders, _) ← OrderBook_processMatching (OrderBook_insert o book) [];
      Ok (SetBook (m_securityId o) book' :: ((λ order, Report (message_of order)) <$> processedOrders))
  | TaskCancelOrder o origClientOrderID =>
      match OrderBook_find origClientOrderID (m_sessionId o) (m_side o) book with
      | Some (orderPtr, found) =>
          let canceled := Order_cancel found in
          let book := OrderBook_assign orderPtr canceled book in
          Ok [SetBook (m_securityId o) book; Report (OutgoingMessage_new canceled CANCELED ($"Order canceled"));
              SetBook (m_securityId o) (OrderBook_erase canceled book)]
      | None =>
          message ← cancel_failure_text addr (m_sessionId o);
          Ok [SetBook (m_securityId o) book; Report (OutgoingMessage_new o REJECTED message)]
      end
  end.

(** The book after the items. *)
Fixpoint final_book (items : list work_item) (book : OrderBook) : OrderBook :=
  match items with
  | [] => book
  | SetBook _ book' :: items' => final_book items' book'
  | Report _ :: items' => final_book items' book
  end.

Fixpoint reports_in (items : list work_item) : nat :=
  match items with [] => 0 | SetBook _ _ :: items' => reports_in items' | Report _ :: items' => S (reports_in items') end.

Fixpoint item_reports (items : list work_item) : list OutgoingMessage :=
  match items with [] => [] | SetBook _ _ :: items' => item_reports items' | Report m :: items' => m :: item_reports items' end.

(** Tasks that are handled one after the other: the book they leave and their reports. *)
Fixpoint work_through (addr : Z) (tasks : list MatchTask) (book : OrderBook) : outcome (OrderBook * list OutgoingMessage) :=
  match tasks with
  | [] => Ok (book, [])
  | t :: tasks' =>
      items ← task_work addr t book;
      '(book, reports) ← work_through addr tasks' (final_book items book);
      Ok (book, item_reports items ++ reports)
  end.

Definition item_of (sec : Z) (x : work_item) : Prop := match x with SetBook s _ => s = sec | Report _ => True end.

Section work.
Context {MQ TQ : Type} `{!Fifo OutgoingMessage MQ} `{!Fifo MatchTask TQ}.
Implicit Types cob : CentralOrderBook MQ TQ.

Fixpoint run_work (fuel : nat) (i : Z) (items : list work_item) cob : outcome (CentralOrderBook MQ TQ) :=
  match items with
  | [] => Ok cob
  | SetBook sec book :: items' => run_work fuel i items' (with_books (<[sec := book]> (m_orderBookDictionary cob)) cob)
  | Report message :: items' => cob ← push_outgoing fuel i message cob; run_work fuel i items' cob
  end.

Lemma run_work_reports fuel i os cob :
  run_work fuel i ((λ o, Report (message_of o)) <$> os) cob = push_processed fuel i os cob.
Proof.
  revert cob. induction os as [|o os IH]; intros cob; [done|]. cbn [fmap list_fmap run_work push_processed].
  destruct (push_outgoing fuel i (message_of o) cob); cbn [mbind outcome_bind]; [apply IH|done..].
Qed.

(** The handlers of the tasks do their items one after the other. *)
Lemma handlers_do_work fuel addr i t cob : m_queueIDDictionary cob !! task_security t = Some i →
  match t with
  | TaskNewOrder o => CentralOrderBook_taskNewOrder fuel o cob
  | TaskCancelOrder o orig => CentralOrderBook_taskCancelOrder fuel addr o orig cob
  end = (items ← task_work addr t (book_of cob (task_security t)); run_work fuel i items cob).
Proof.
  intros Hq. destruct t as [o|o orig]; cbn [task_security task_work] in *.
  - unfold CentralOrderBook_taskNewOrder. rewrite (queueID_of_Some _ i), map_index_book by done.
    destruct (OrderBook_processMatching _ _) as [[[book' os] b]| | |]; [|done..]. cbn [mbind outcome_bind run_work].
    by rewrite insert_insert_eq, run_work_reports.
  - unfold CentralOrderBook_taskCancelOrder. rewrite (queueID_of_Some _ i), map_index_book by done.
    destruct (OrderBook_find _ _ _ _) as [[p f]|].
    + cbn [mbind outcome_bind run_work]. rewrite insert_insert_eq. unfold push_outgoing. cbn [m_outgoingMessages with_books].
      destruct (vec_at i _); [|done..]. cbn [mbind outcome_bind]. destruct (fifo_push _ _ _); [|done..].
      cbn [mbind outcome_bind]. unfold with_books, with_outgoing. simpl. by rewrite !insert_insert_eq.
    + destruct (cancel_failure_text _ _); [|done..]. cbn [mbind outcome_bind run_work].
      unfold CentralOrderBook_rejectOrder. rewrite (queueID_of_Some _ i) by done.
      by destruct (push_outgoing _ _ _ _).
Qed.

(** ** The threads *)

(** The exchange, what each worker still has to do of its task, the queue that the loop of
    the report thread has reached, and the reports it has taken, with their queues. *)
Record PoolState : Type := mkPoolState {
  po_cob : CentralOrderBook MQ TQ;
  po_work : list (list work_item);
  po_cursor : nat;
  po_taken : list (nat * OutgoingMessage)
}.

(** A turn of worker [j]: of the loop over its tasks, or of the loop inside [push]. *)
Definition worker_turn (addr : Z) (j : nat) (s : PoolState) : outcome PoolState :=
  let cob := po_cob s in
  let next cob items := Ok (mkPoolState cob (<[j := items]> (po_work s)) (po_cursor s) (po_taken s)) in
  work ← vec_at (Z.of_nat j) (po_work s);
  match work with
  | [] =>
      q ← vec_at (Z.of_nat j) (m_threadQueues cob);
      '(q, popped) ← fifo_tryPop q;
      let cob := with_threadQueues (<[j := q]> (m_threadQueues cob)) cob in
      match popped with
      | None => next cob []
      | Some t => items ← task_work addr t (book_of cob (task_security t)); next cob items
      end
  | SetBook sec book :: items => next (with_books (<[sec := book]> (m_orderBookDictionary cob)) cob) items
  | Report message :: items =>
      q ← vec_at (Z.of_nat j) (m_outgoingMessages cob);
      '(q, pushed) ← fifo_tryPush message q;
      next (with_outgoing (<[j := q]> (m_outgoingMessages cob)) cob) (if pushed : bool then items else work)
  end.

(** A turn of the report thread: one queue of its loop, or the start of the next round. *)
Definition report_turn (s : PoolState) : outcome PoolState :=
  let cob := po_cob s in
  if (po_cursor s <? length (m_outgoingMessages cob))%nat then
    q ← vec_at (Z.of_nat (po_cursor s)) (m_outgoingMessages cob);
    '(q, popped) ← fifo_tryPop q;
    Ok (mkPoolState (with_outgoing (<[po_cursor s := q]> (m_outgoingMessages cob)) cob) (po_work s) (S (po_cursor s))
          (po_taken s ++ (pair (po_cursor s) <$> option_list popped)))
  else Ok (mkPoolState cob (po_work s) 0 (po_taken s)).

Inductive agent : Type := Worker (j : nat) | Reporter.

Definition turn (addr : Z) (a : agent) (s : PoolState) : outcome PoolState :=
  match a with Worker j => worker_turn addr j s | Reporter => report_turn s end.

(** The state after the first [n] turns of a schedule. *)
Fixpoint run_schedule (addr : Z) (schedule : nat → agent) (n : nat) (s : PoolState) : outcome PoolState :=
  match n with
  | O => Ok s
  | S n' => s' ← run_schedule addr schedule n' s; turn addr (schedule n') s'
  end.

Lemma run_schedule_first addr a n s :
  run_schedule addr (λ _, a) (S n) s = (s' ← turn addr a s; run_schedule addr (λ _, a) n s').
Proof.
  revert s. induction n as [|n IH]; intros s; [cbn; by destruct (turn addr a s)|].
  change (run_schedule addr (λ _, a) (S (S n)) s) with (s' ← run_schedule addr (λ _, a) (S n) s; turn addr a s').
  rewrite IH. by destruct (turn addr a s).
Qed.

(** A worker that finds room at every push does in its turns what [run_work] does. *)
Lemma turns_do_work addr j items cob cob' work cursor taken : (j < length work)%nat →
  run_work 1 (Z.of_nat j) items cob = Ok cob' →
  run_schedule addr (λ _, Worker j) (length items) (mkPoolState cob (<[j := items]> work) cursor taken) =
    Ok (mkPoolState cob' (<[j := []]> work) cursor taken).
Proof.
  intros Hj. revert cob. induction items as [|x items IH]; intros cob Hr; [cbn in *; by simplify_eq|].
  cbn [length]. rewrite run_schedule_first. cbn [turn]. unfold worker_turn. cbn [po_cob po_work po_cursor po_taken].
  rewrite (vec_at_nat j _ (x :: items)) by (by apply list_lookup_insert_eq). cbn [mbind outcome_bind].
  destruct x as [sec book|message]; cbn [run_work] in Hr.
  - rewrite list_insert_insert_eq. cbn [mbind outcome_bind]. by apply IH.
  - apply bind_Ok_inv in Hr as (c & Hp & Hr). unfold push_outgoing in Hp.
    apply bind_Ok_inv in Hp as (q & -> & Hp). apply bind_Ok_inv in Hp as (q' & Hp & E). simplify_eq.
    cbn [mbind outcome_bind]. cbn [fifo_push] in Hp. apply bind_Ok_inv in Hp as ([q1 b] & -> & Hp). cbn [mbind outcome_bind].
    destruct b; [|done]. simplify_eq. rewrite list_insert_insert_eq, Nat2Z.id in *. by apply IH.
Qed.
End work.
Arguments PoolState : clear implicits.
Arguments mkPoolState {MQ TQ}.

(** ** Every turn succeeds, and some get somewhere *)

(** What a task needs of the outgoing queue. *)
Lemma task_work_ok m sec t book addr : book_inv m sec book → numbered m [t] → task_security t = sec →
  ∃ items, task_work addr t book = Ok items ∧ task_book t book = Ok (final_book items book) ∧
    Forall (item_of sec) items ∧ (reports_in items <= 2 * S (book_size book))%nat ∧
    (book_size (final_book items book) <= S (book_size book))%nat.
Proof.
  intros Hb Hn <-. destruct t as [o|o orig]; cbn [task_security numbered task_work task_book] in *.
  - destruct Hn as (Hl & Hside & Hlt & _).
    destruct (match_book_inv (m_orderID o - 1) (m_securityId o) o book) as (b1 & trades & Hrun & _ & Hlen); try done.
    { eapply book_inv_mono; [|exact Hb]. lia. }
    { lia. }
    { split_and!; (done || lia). }
    destruct (processMatching_spec (OrderBook_insert o book) [] (insert_ok o book Hl (bi_ok _ _ _ Hb))) as (b2 & tr2 & Hrun2 & Hm).
    rewrite Hrun in Hrun2. simplify_eq. pose proof (match_result_size _ _ _ Hm) as Hsize. rewrite OrderBook_insert_size in Hsize.
    rewrite Hrun. cbn [mbind outcome_bind]. eexists. split; [reflexivity|]. cbn [final_book].
    assert (∀ os book, final_book ((λ order, Report (message_of order)) <$> os) book = book ∧
      reports_in ((λ order, Report (message_of order)) <$> os) = length os) as Hreports.
    { induction os as [|x os IH]; intros b; [done|]. cbn. destruct (IH b) as [-> ->]. done. }
    destruct (Hreports (processed_of trades) b2) as [-> Er]. cbn [reports_in]. rewrite Er.
    split; [done|]. split; [|split; [done|done]]. constructor; [done|]. apply Forall_fmap. by apply Forall_true.
  - destruct (OrderBook_find orig (m_sessionId o) (m_side o) book) as [[p f]|] eqn:Hf.
    + destruct (cancel_book_inv m (m_securityId o) _ _ _ _ _ _ Hb Hf) as (l1 & k & l2 & El & _ & Her & _).
      eexists. split; [reflexivity|]. cbn [final_book reports_in]. split; [done|]. split; [by repeat constructor|]. split; [lia|].
      rewrite Her. unfold side_of in El. unfold book_size, with_side.
      destruct (ptr_bid p); cbn [m_bidOrders m_askOrders]; apply (f_equal length) in El; rewrite !length_app in *; simpl in El; lia.
    + destruct (cancel_failure_text addr (m_sessionId o)) as [text| | |] eqn:Et; try discriminate Et.
      cbn [mbind outcome_bind]. eexists. split; [reflexivity|]. cbn [final_book reports_in].
      split; [done|]. split; [by repeat constructor|]. lia.
Qed.

Lemma task_work_book addr t book items : task_work addr t book = Ok items → task_book t book = Ok (final_book items book).
Proof.
  destruct t as [o|o orig]; cbn [task_work task_book]; intros H.
  - apply bind_Ok_inv in H as ([[b' os] r] & -> & H). simplify_eq. cbn [mbind outcome_bind final_book]. f_equal.
    induction os as [|x os IH]; [done|exact IH].
  - destruct (OrderBook_find _ _ _ _) as [[p f]|]; [by simplify_eq|].
    apply bind_Ok_inv in H as (text & _ & H). by simplify_eq.
Qed.

Lemma work_through_replay addr tasks book book' reports : work_through addr tasks book = Ok (book', reports) →
  replay tasks book = Ok book'.
Proof.
  revert book reports. induction tasks as [|t tasks IH]; intros book reports H; cbn [work_through replay] in *; [by simplify_eq|].
  apply bind_Ok_inv in H as (items & E & H). apply bind_Ok_inv in H as ([b rs] & Hr & H). simplify_eq.
  rewrite (task_work_book _ _ _ _ E). cbn [mbind outcome_bind]. by eapply IH.
Qed.

Lemma work_through_snoc addr tasks t book book' reports items :
  work_through addr tasks book = Ok (book', reports) → task_work addr t book' = Ok items →
  work_through addr (tasks ++ [t]) book = Ok (final_book items book', reports ++ item_reports items).
Proof.
  revert book reports. induction tasks as [|t1 tasks IH]; intros book reports H Hw; cbn [work_through app] in *.
  - simplify_eq. rewrite Hw. cbn [mbind outcome_bind]. by rewrite app_nil_r.
  - apply bind_Ok_inv in H as (its & -> & H). apply bind_Ok_inv in H as ([b rs] & Hr & H). simplify_eq. cbn [mbind outcome_bind].
    rewrite (IH _ _ Hr Hw). cbn [mbind outcome_bind]. by rewrite app_assoc.
Qed.

(** Reports of [k] more tasks on a book of size [b]. *)
Fixpoint reports_bound (k b : nat) : nat := match k with O => 0 | S k' => 2 * S b + reports_bound k' (S b) end.

Lemma reports_bound_mono k b b' : (b <= b')%nat → (reports_bound k b <= reports_bound k b')%nat.
Proof. revert b b'. induction k as [|k IH]; intros b b' H; simpl; [done|]. specialize (IH (S b) (S b')). lia. Qed.

(** The order in which three numbers decrease. *)
Definition lex (a b : nat * nat * nat) : Prop :=
  (a.1.1 < b.1.1 ∨ a.1.1 = b.1.1 ∧ (a.1.2 < b.1.2 ∨ a.1.2 = b.1.2 ∧ a.2 < b.2))%nat.

Lemma lex_wf : well_founded lex.
Proof.
  intros [[p l] q]. revert l q. induction (lt_wf p) as [p _ IHp]. intros l. induction (lt_wf l) as [l _ IHl].
  intros q. induction (lt_wf q) as [q _ IHq]. constructor. intros [[p' l'] q'] H. unfold lex in H. simpl in H.
  destruct H as [H|[-> [H|[-> H]]]]; [by apply IHp|by apply IHl|by apply IHq].
Qed.

Lemma lex_trans a b c : lex a b → lex b c → lex a c.
Proof. unfold lex. lia. Qed.

Section drain.
Context {MQ TQ : Type} `{!Fifo OutgoingMessage MQ} `{!FifoLaws OutgoingMessage MQ} `{!Fifo MatchTask TQ} `{!FifoLaws MatchTask TQ}.
(** At the start lane [j] has the tasks [tasks0 j] before it, its book is [book0 j], with
    numbers up to [number0 j], and the reports [out0 j] wait. *)
Context (addr : Z) (n : nat) (tasks0 : nat → list MatchTask) (book0 : nat → OrderBook) (number0 : nat → Z)
  (out0 : nat → list OutgoingMessage).
Context (Hnumbered : ∀ j, (j < n)%nat → numbered (number0 j) (tasks0 j)).
Context (Hown : ∀ j, (j < n)%nat → Forall (λ t, task_security t = Z.of_nat j) (tasks0 j)).
Context (Hbook0 : ∀ j, (j < n)%nat → book_inv (number0 j) (Z.of_nat j) (book0 j)).
Implicit Types s : PoolState MQ TQ.

(** What the report thread has taken from queue [j]. *)
Definition taken_from (j : nat) s : list OutgoingMessage := (filter (λ x, x.1 = j) (po_taken s)).*2.

(** Lane [j]: the queue of worker [j], its outgoing queue, the rest of its task and the
    book of its security, of whose tasks it has begun [handled]. *)
Record lane_ok (j : nat) s (q : TQ) (oq : MQ) (items : list work_item) (handled : list MatchTask) : Prop := {
  ln_queue : m_threadQueues (po_cob s) !! j = Some q;
  ln_out : m_outgoingMessages (po_cob s) !! j = Some oq;
  ln_work : po_work s !! j = Some items;
  ln_split : handled ++ fifo_list q = tasks0 j;
  ln_book : ∃ reports,
    work_through addr handled (book0 j) = Ok (final_book items (book_of (po_cob s) (Z.of_nat j)), reports) ∧
    taken_from j s ++ fifo_list oq ++ item_reports items = out0 j ++ reports;
  ln_items : Forall (item_of (Z.of_nat j)) items;
  ln_invs : fifo_inv q ∧ fifo_inv oq;
  ln_cap : (0 < fifo_cap oq ∧ length (fifo_list oq) <= fifo_cap oq)%nat;
  ln_credit : Z.of_nat (reports_in items + reports_bound (length (fifo_list q))
                (book_size (final_book items (book_of (po_cob s) (Z.of_nat j))))) <= fifo_credit oq
}.

Record pool_ok s : Prop := {
  pk_out : length (m_outgoingMessages (po_cob s)) = n;
  pk_cursor : (po_cursor s <= n)%nat;
  pk_lanes j : (j < n)%nat → ∃ q oq items handled, lane_ok j s q oq items handled
}.

(** The tasks that wait, the items and the reports of a lane. *)
Definition measure (j : nat) s : nat * nat * nat :=
  (match m_threadQueues (po_cob s) !! j with Some q => length (fifo_list q) | None => 0%nat end,
   match po_work s !! j with Some items => length items | None => 0%nat end,
   match m_outgoingMessages (po_cob s) !! j with Some oq => length (fifo_list oq) | None => 0%nat end).

Lemma lane_measure j s q oq items handled : lane_ok j s q oq items handled →
  measure j s = (length (fifo_list q), length items, length (fifo_list oq)).
Proof. intros []. unfold measure. by rewrite ln_queue0, ln_out0, ln_work0. Qed.

(** Nothing of lane [j] has changed. *)
Definition same_lane (j : nat) s s' : Prop :=
  m_threadQueues (po_cob s') !! j = m_threadQueues (po_cob s) !! j ∧
  m_outgoingMessages (po_cob s') !! j = m_outgoingMessages (po_cob s) !! j ∧
  po_work s' !! j = po_work s !! j ∧ book_of (po_cob s') (Z.of_nat j) = book_of (po_cob s) (Z.of_nat j) ∧
  taken_from j s' = taken_from j s.

Lemma same_lane_ok j s s' q oq items handled : same_lane j s s' → lane_ok j s q oq items handled → lane_ok j s' q oq items handled.
Proof. intros (E1 & E2 & E3 & E4 & E5) []. by split; rewrite ?E1, ?E2, ?E3, ?E4, ?E5. Qed.

Lemma same_lane_measure j s s' : same_lane j s s' → measure j s' = measure j s.
Proof. intros (E1 & E2 & E3 & _). unfold measure. by rewrite E1, E2, E3. Qed.

(** What one turn does to a lane: it gets nearer to the end, or nothing changes. *)
Definition lane_turn (j : nat) s s' : Prop :=
  (∃ q oq items handled, lane_ok j s' q oq items handled) ∧ (measure j s' = measure j s ∨ lex (measure j s') (measure j s)).

Lemma lane_turn_same j s s' q oq items handled : lane_ok j s q oq items handled → same_lane j s s' → lane_turn j s s'.
Proof. intros Hl Hs. split; [by eexists _, _, _, _; eapply same_lane_ok|left; by apply same_lane_measure]. Qed.

(** The worker of lane [j] takes its next task. *)
Lemma worker_pops j s q oq handled t l : (j < n)%nat → lane_ok j s q oq [] handled → fifo_list q = t :: l →
  ∃ s', worker_turn addr j s = Ok s' ∧ (∃ q' items, lane_ok j s' q' oq items (handled ++ [t]) ∧ fifo_list q' = l) ∧
    m_outgoingMessages (po_cob s') = m_outgoingMessages (po_cob s) ∧ po_cursor s' = po_cursor s ∧
    (∀ j', j' ≠ j → same_lane j' s s').
Proof.
  intros Hj [Hq Ho Hw Hsplit (reports & Hbook & Hout) Hitems [Hiq Hio] Hcap Hcredit] El. cbn [final_book reports_in] in *.
  destruct (fifo_pop_cons t l q Hiq El) as (q' & Hpop & Hiq' & El' & _).
  pose proof (Hnumbered j Hj) as Hn. pose proof (Hown j Hj) as Ho'. rewrite <- Hsplit, El in Hn, Ho'.
  apply numbered_app in Hn as [Hn1 Hn2]. apply Forall_app in Ho' as [Ho1 [Ht _]%Forall_cons].
  destruct (replay_inv (number0 j) (Z.of_nat j) handled (book0 j) Ho1 Hn1 (Hbook0 j Hj)) as (b & Hb & Hbi).
  rewrite (work_through_replay _ _ _ _ _ Hbook) in Hb. injection Hb as <-.
  destruct (task_work_ok _ _ t _ addr Hbi) as (items & Hwork & Htask & Hitems' & Hrep & Hsize).
  { change (t :: l) with ([t] ++ l) in Hn2. by apply numbered_app in Hn2 as [? _]. }
  { done. }
  eexists. split.
  { unfold worker_turn. rewrite (vec_at_nat _ _ _ Hw). cbn [mbind outcome_bind]. rewrite (vec_at_nat _ _ _ Hq).
    cbn [mbind outcome_bind]. rewrite Hpop. cbn [mbind outcome_bind]. rewrite Ht.
    change (book_of (with_threadQueues _ (po_cob s)) (Z.of_nat j)) with (book_of (po_cob s) (Z.of_nat j)).
    rewrite Hwork. reflexivity. }
  split; [exists q', items; split; [|done]|split; [done|split; [done|]]].
  - split; simpl.
    + apply list_lookup_insert_eq. by eapply lookup_lt_Some.
    + done.
    + apply list_lookup_insert_eq. by eapply lookup_lt_Some.
    + rewrite El', <- app_assoc. by rewrite El in Hsplit.
    + exists (reports ++ item_reports items). split; [by eapply work_through_snoc|].
      change (taken_from j _) with (taken_from j s). cbn [item_reports] in Hout. rewrite app_nil_r in Hout.
      by rewrite app_assoc, Hout, <- app_assoc.
    + done.
    + done.
    + done.
    + rewrite El', El in *. cbn [length reports_bound] in Hcredit.
      change (book_of (with_threadQueues _ (po_cob s)) (Z.of_nat j)) with (book_of (po_cob s) (Z.of_nat j)).
      pose proof (reports_bound_mono (length l) _ _ Hsize). lia.
  - intros j' Hne. split_and!; simpl; by rewrite ?list_lookup_insert_ne by done.
Qed.

(** It changes the book. *)
Lemma worker_sets j s q oq items handled sec book : lane_ok j s q oq (SetBook sec book :: items) handled →
  ∃ s', worker_turn addr j s = Ok s' ∧ lane_ok j s' q oq items handled ∧
    m_outgoingMessages (po_cob s') = m_outgoingMessages (po_cob s) ∧ po_cursor s' = po_cursor s ∧
    (∀ j', j' ≠ j → same_lane j' s s').
Proof.
  intros [Hq Ho Hw Hsplit Hbook Hitems Hinvs Hcap Hcredit]. apply Forall_cons in Hitems as [Hsec Hitems]. cbn in Hsec. subst sec.
  cbn [final_book reports_in] in *. eexists. split.
  { unfold worker_turn. rewrite (vec_at_nat _ _ _ Hw). reflexivity. }
  assert (book_of (with_books (<[Z.of_nat j := book]> (m_orderBookDictionary (po_cob s))) (po_cob s)) (Z.of_nat j) = book) as Eb
    by (unfold book_of; simpl; by rewrite lookup_insert_eq).
  split; [|split; [done|split; [done|]]].
  - split; cbn [po_cob po_work]; rewrite ?Eb; try done. apply list_lookup_insert_eq. by eapply lookup_lt_Some.
  - intros j' Hne. split_and!; try done; simpl; [by rewrite list_lookup_insert_ne|].
    unfold book_of. simpl. by rewrite lookup_insert_ne by lia.
Qed.

(** It tries to push a report. *)
Lemma worker_pushes j s q oq items handled m : lane_ok j s q oq (Report m :: items) handled →
  ∃ s' oq' items', worker_turn addr j s = Ok s' ∧ lane_ok j s' q oq' items' handled ∧
    (items' = items ∨ items' = Report m :: items ∧ oq' = oq ∧ (0 < length (fifo_list oq))%nat) ∧
    length (m_outgoingMessages (po_cob s')) = length (m_outgoingMessages (po_cob s)) ∧ po_cursor s' = po_cursor s ∧
    (∀ j', j' ≠ j → same_lane j' s s').
Proof.
  intros [Hq Ho Hw Hsplit Hbook Hitems [Hiq Hio] [Hcap Hlen] Hcredit]. apply Forall_cons in Hitems as [_ Hitems].
  cbn [final_book reports_in] in *.
  assert (∃ oq' pushed, fifo_tryPush m oq = Ok (oq', pushed) ∧ fifo_inv oq' ∧ fifo_cap oq' = fifo_cap oq ∧
    (length (fifo_list oq') <= fifo_cap oq)%nat ∧
    (pushed = true ∧ fifo_credit oq' = fifo_credit oq - 1 ∧ fifo_list oq' = fifo_list oq ++ [m] ∨
     pushed = false ∧ oq' = oq ∧ (0 < length (fifo_list oq))%nat)) as (oq' & pushed & Hpush & Hio' & Hcap' & Hlen' & Hcases).
  { destruct (decide (length (fifo_list oq) < fifo_cap oq)%nat) as [Hlt|Hge].
    - destruct (fifo_push_room m oq Hio) as (oq' & E & Hi & Hl & Hc & Hr); [lia|done|].
      exists oq', true. split_and!; try done; [rewrite Hl, length_app; simpl; lia|by left].
    - exists oq, false. split_and!; try done; [apply fifo_push_full; (done || lia)|]. right. split_and!; (done || lia). }
  exists (mkPoolState (with_outgoing (<[j := oq']> (m_outgoingMessages (po_cob s))) (po_cob s))
    (<[j := if pushed then items else Report m :: items]> (po_work s)) (po_cursor s) (po_taken s)), oq',
    (if pushed then items else Report m :: items).
  split_and!.
  - unfold worker_turn. rewrite (vec_at_nat _ _ _ Hw). cbn [mbind outcome_bind]. rewrite (vec_at_nat _ _ _ Ho).
    cbn [mbind outcome_bind]. by rewrite Hpush.
  - split; cbn [po_cob po_work with_outgoing m_threadQueues m_outgoingMessages];
      change (book_of (mkCentralOrderBook _ _ (m_orderBookDictionary (po_cob s)) _ _ _ _)) with (book_of (po_cob s)); try done.
    + apply list_lookup_insert_eq. by eapply lookup_lt_Some.
    + apply list_lookup_insert_eq. by eapply lookup_lt_Some.
    + destruct Hbook as (reports & Hbook & Hout). exists reports. split; [by destruct pushed|].
      change (taken_from j _) with (taken_from j s). cbn [item_reports] in Hout. rewrite <- Hout.
      destruct Hcases as [(-> & _ & ->)|(-> & -> & _)]; [by rewrite <- (app_assoc _ [m])|done].
    + destruct pushed; [done|by constructor].
    + rewrite Hcap'. by split.
    + change (book_of (with_outgoing _ (po_cob s))) with (book_of (po_cob s)).
      destruct Hcases as [(-> & -> & _)|(-> & -> & _)]; cbn [reports_in final_book]; lia.
  - destruct Hcases as [(-> & _)|(-> & -> & ?)]; [by left|by right].
  - simpl. by rewrite length_insert.
  - done.
  - intros j' Hne. split_and!; simpl; try done; by rewrite list_lookup_insert_ne.
Qed.

(** A turn of a worker, for all lanes; its own gets on unless there is nothing to do or a
    report waits to be taken. *)
Lemma worker_turn_spec j s : pool_ok s → (j < n)%nat → ∃ s', worker_turn addr j s = Ok s' ∧
  length (m_outgoingMessages (po_cob s')) = n ∧ po_cursor s' = po_cursor s ∧
  (∀ j', (j' < n)%nat → lane_turn j' s s') ∧
  (lex (measure j s') (measure j s) ∨ measure j s' = measure j s ∧
     ((measure j s).1 = (0, 0)%nat ∨ (0 < (measure j s).2)%nat)).
Proof.
  intros [Hlen Hcur Hlanes] Hj. destruct (Hlanes j Hj) as (q & oq & items & handled & Hl).
  pose proof (lane_measure _ _ _ _ _ _ Hl) as Em.
  assert (∀ s', (∃ q oq items handled, lane_ok j s' q oq items handled) → (∀ j', j' ≠ j → same_lane j' s s') →
    (measure j s' = measure j s ∨ lex (measure j s') (measure j s)) → ∀ j', (j' < n)%nat → lane_turn j' s s') as Hall.
  { intros s' Hok Hs Hmj j' Hj'. destruct (decide (j' = j)) as [->|Hne]; [by split|].
    destruct (Hlanes j' Hj') as (q' & oq' & items' & handled' & Hl'). by eapply lane_turn_same; [|apply Hs]. }
  destruct items as [|[sec book|m] items].
  - destruct (fifo_list q) as [|t l] eqn:El.
    + pose proof Hl as [Hq Ho Hw _ _ _ [Hiq _] _ _].
      exists (mkPoolState (with_threadQueues (<[j := q]> (m_threadQueues (po_cob s))) (po_cob s)) (<[j := []]> (po_work s))
        (po_cursor s) (po_taken s)).
      assert (∀ j', same_lane j' s (mkPoolState (with_threadQueues (<[j := q]> (m_threadQueues (po_cob s))) (po_cob s))
        (<[j := []]> (po_work s)) (po_cursor s) (po_taken s))) as Hsame
        by (intros j'; split_and!; simpl; rewrite ?list_insert_id by done; done).
      split_and!; [|done|done| |].
      * unfold worker_turn. rewrite (vec_at_nat _ _ _ Hw). cbn [mbind outcome_bind]. rewrite (vec_at_nat _ _ _ Hq).
        cbn [mbind outcome_bind]. by rewrite (fifo_pop_nil q Hiq El).
      * apply Hall; [by eexists _, _, _, _; eapply same_lane_ok|by intros|left; by apply same_lane_measure].
      * right. split; [by apply same_lane_measure|left]. by rewrite Em.
    + destruct (worker_pops j s q oq handled t l Hj Hl El) as (s' & E & (q' & items & Hl' & El') & Eo & Ec & Hs).
      pose proof (lane_measure _ _ _ _ _ _ Hl') as Em'. rewrite El' in Em'.
      assert (lex (measure j s') (measure j s)) as Hlex by (rewrite Em, Em'; left; simpl; lia).
      exists s'. split_and!; [done|by rewrite Eo|done|apply Hall; [by eexists _, _, _, _|done|by right]|by left].
  - destruct (worker_sets j s q oq items handled sec book Hl) as (s' & E & Hl' & Eo & Ec & Hs).
    pose proof (lane_measure _ _ _ _ _ _ Hl') as Em'.
    assert (lex (measure j s') (measure j s)) as Hlex by (rewrite Em, Em'; right; simpl; lia).
    exists s'. split_and!; [done|by rewrite Eo|done|apply Hall; [by eexists _, _, _, _|done|by right]|by left].
  - destruct (worker_pushes j s q oq items handled m Hl) as (s' & oq' & items' & E & Hl' & Hc & Eo & Ec & Hs).
    pose proof (lane_measure _ _ _ _ _ _ Hl') as Em'. exists s'.
    assert (lex (measure j s') (measure j s) ∨ measure j s' = measure j s ∧ (0 < (measure j s).2)%nat) as Hm.
    { rewrite Em, Em'. destruct Hc as [->|(-> & -> & Hpos)]; [left; right; simpl; lia|by right]. }
    split_and!; [done|by rewrite Eo|done|apply Hall; [by eexists _, _, _, _|done|tauto]|].
    destruct Hm as [?|[? ?]]; [by left|right; split; [done|by right]].
Qed.

(** A turn of the report thread: it takes a report if one waits where its loop is. *)
Definition next_cursor (c : nat) : nat := if (c <? n)%nat then S c else 0%nat.

Lemma report_turn_spec s : pool_ok s → ∃ s', report_turn s = Ok s' ∧
  length (m_outgoingMessages (po_cob s')) = n ∧ po_cursor s' = next_cursor (po_cursor s) ∧
  (∀ j, (j < n)%nat → lane_turn j s s') ∧
  ((po_cursor s < n)%nat → (0 < (measure (po_cursor s) s).2)%nat → lex (measure (po_cursor s) s') (measure (po_cursor s) s)).
Proof.
  intros [Hlen Hcur Hlanes]. unfold report_turn, next_cursor. rewrite Hlen. destruct (Nat.ltb_spec (po_cursor s) n) as [Hc|Hc].
  2:{ eexists. split_and!; [done|done|done| |lia]. intros j Hj. destruct (Hlanes j Hj) as (q & oq & items & handled & Hl).
      eapply lane_turn_same; [exact Hl|done]. }
  set (c := po_cursor s) in *. destruct (Hlanes c Hc) as (q & oq & items & handled & Hl). pose proof (lane_measure _ _ _ _ _ _ Hl) as Em.
  pose proof Hl as [Hq Ho Hw Hsplit Hbook Hitems [Hiq Hio] [Hcap Hle] Hcredit].
  assert (∃ oq' popped, fifo_tryPop oq = Ok (oq', popped) ∧ fifo_inv oq' ∧ fifo_cap oq' = fifo_cap oq ∧
    fifo_credit oq' = fifo_credit oq ∧ fifo_list oq = option_list popped ++ fifo_list oq' ∧
    (oq' = oq ∧ length (fifo_list oq) = 0 ∨ length (fifo_list oq) = S (length (fifo_list oq')))%nat)
    as (oq' & popped & Hpop & Hio' & Hcap' & Hcr' & Hlist & Hcase).
  { destruct (fifo_list oq) as [|m l] eqn:El.
    - exists oq, None. split_and!; try done; [by apply fifo_pop_nil|by left].
    - destruct (fifo_pop_cons m l oq Hio El) as (oq' & E & Hi & El' & Hc' & Hr). exists oq', (Some m).
      split_and!; try done; [simpl; by rewrite El'|]. right. simpl. by rewrite El'. }
  rewrite (vec_at_nat _ _ _ Ho). cbn [mbind outcome_bind]. rewrite Hpop. cbn [mbind outcome_bind].
  set (s' := mkPoolState _ _ _ _).
  assert (lane_ok c s' q oq' items handled) as Hl'.
  { split; cbn [s' po_cob po_work with_outgoing m_threadQueues m_outgoingMessages]; try done.
    - apply list_lookup_insert_eq. by eapply lookup_lt_Some.
    - destruct Hbook as (reports & Hbook & Hout). exists reports. split; [done|]. unfold taken_from. simpl.
      rewrite filter_app, fmap_app, <- app_assoc, <- Hout, Hlist, <- app_assoc. unfold taken_from. f_equal.
      destruct popped; [|done]. cbn. by rewrite decide_True.
    - rewrite Hcap'. split; [done|]. destruct Hcase as [[-> _]|?]; lia.
    - by rewrite Hcr'. }
  pose proof (lane_measure _ _ _ _ _ _ Hl') as Em'. exists s'. split_and!; [done|simpl; by rewrite length_insert|done| |].
  - intros j Hj. destruct (decide (j = c)) as [->|Hne].
    + split; [by eexists _, _, _, _|]. rewrite Em, Em'. destruct Hcase as [[-> _]|E]; [by left|right; right; simpl; lia].
    + destruct (Hlanes j Hj) as (q1 & oq1 & items1 & handled1 & Hl1). eapply lane_turn_same; [exact Hl1|].
      split_and!; simpl; try done; [by rewrite list_lookup_insert_ne|]. unfold taken_from. simpl.
      rewrite filter_app. destruct popped; [|cbn; by rewrite app_nil_r].
      cbn. by rewrite decide_False, app_nil_r by done.
  - intros _ Hpos. rewrite Em in Hpos. simpl in Hpos. rewrite Em, Em'. destruct Hcase as [[_ E]|E]; [lia|right; simpl; lia].
Qed.

(** ** Schedules *)

Definition agent_ok (a : agent) : Prop := match a with Worker j => (j < n)%nat | Reporter => True end.

Lemma turn_spec a s : pool_ok s → agent_ok a → ∃ s', turn addr a s = Ok s' ∧ pool_ok s' ∧
  (∀ j, (j < n)%nat → measure j s' = measure j s ∨ lex (measure j s') (measure j s)).
Proof.
  intros Hs Ha. destruct a as [j|]; simpl in *.
  - destruct (worker_turn_spec j s Hs Ha) as (s' & E & Hlen & Hc & Hl & _). exists s'. split; [done|]. split.
    + split; [done|rewrite Hc; apply Hs|]. intros j' Hj'. by apply Hl.
    + intros j' Hj'. by apply Hl.
  - destruct (report_turn_spec s Hs) as (s' & E & Hlen & Hc & Hl & _). exists s'. split; [done|]. split.
    + split; [done|rewrite Hc; unfold next_cursor; case_match eqn:El; [apply Nat.ltb_lt in El|]; lia|]. intros j' Hj'. by apply Hl.
    + intros j' Hj'. by apply Hl.
Qed.

Context (schedule : nat → agent) (Hagents : ∀ k, agent_ok (schedule k)) (s0 : PoolState MQ TQ) (Hs0 : pool_ok s0).

(** The state before turn [k]. *)
Definition state_at (k : nat) : PoolState MQ TQ := match run_schedule addr schedule k s0 with Ok s => s | _ => s0 end.

Lemma state_at_ok k : run_schedule addr schedule k s0 = Ok (state_at k) ∧ pool_ok (state_at k).
Proof.
  unfold state_at. induction k as [|k [E Hk]]; [done|]. cbn [run_schedule]. rewrite E in *.
  destruct (run_schedule addr schedule k s0) as [s| | |]; try done. cbn [mbind outcome_bind].
  destruct (turn_spec (schedule k) s Hk (Hagents k)) as (s' & -> & Hs' & _). done.
Qed.

Lemma state_at_turn k : turn addr (schedule k) (state_at k) = Ok (state_at (S k)).
Proof.
  destruct (state_at_ok k) as [E _]. destruct (state_at_ok (S k)) as [E' _]. cbn [run_schedule] in E'. by rewrite E in E'.
Qed.

Lemma measure_step j k : (j < n)%nat →
  measure j (state_at (S k)) = measure j (state_at k) ∨ lex (measure j (state_at (S k))) (measure j (state_at k)).
Proof.
  intros Hj. destruct (turn_spec (schedule k) (state_at k) (proj2 (state_at_ok k)) (Hagents k)) as (s' & E & _ & H).
  rewrite state_at_turn in E. injection E as <-. by apply H.
Qed.

Lemma measure_steps j k m : (j < n)%nat → (k <= m)%nat →
  measure j (state_at m) = measure j (state_at k) ∨ lex (measure j (state_at m)) (measure j (state_at k)).
Proof.
  intros Hj. induction 1 as [|m Hm IH]; [by left|]. destruct (measure_step j m Hj) as [E|E].
  - by rewrite E.
  - destruct IH as [IH|IH]; [right; by rewrite <- IH|right; by eapply lex_trans].
Qed.

Context (Hreporter : ∀ k, ∃ m, (k <= m)%nat ∧ schedule m = Reporter).

(** The next turn of the report thread finds its loop where it is. *)
Lemma next_report k : ∃ m, (k <= m)%nat ∧ schedule m = Reporter ∧ po_cursor (state_at m) = po_cursor (state_at k).
Proof.
  destruct (Hreporter k) as (m & Hm & Es). remember (m - k)%nat as d eqn:Ed. revert k Hm Ed.
  induction d as [|d IH]; intros k Hm Ed; [exists m; assert (k = m) as -> by lia; done|].
  destruct (schedule k) as [j|] eqn:Ek; [|by exists k].
  destruct (IH (S k)) as (m' & Hm' & Es' & Ec); [lia|lia|]. exists m'. split; [lia|]. split; [done|]. rewrite Ec.
  pose proof (Hagents k) as Ha. pose proof (state_at_turn k) as Et. rewrite Ek in Ha, Et. simpl in Ha, Et.
  destruct (worker_turn_spec j _ (proj2 (state_at_ok k)) Ha) as (s' & E & _ & Hc & _). rewrite Et in E. by injection E as <-.
Qed.

Lemma report_at k : schedule k = Reporter →
  po_cursor (state_at (S k)) = next_cursor (po_cursor (state_at k)) ∧
  ((po_cursor (state_at k) < n)%nat → (0 < (measure (po_cursor (state_at k)) (state_at k)).2)%nat →
   lex (measure (po_cursor (state_at k)) (state_at (S k))) (measure (po_cursor (state_at k)) (state_at k))).
Proof.
  intros Es. pose proof (state_at_turn k) as Et. rewrite Es in Et. simpl in Et.
  destruct (report_turn_spec _ (proj2 (state_at_ok k))) as (s' & E & _ & Hc & _ & Hl). rewrite Et in E. by injection E as <-.
Qed.

(** Its loop comes to every queue again and again. *)
Lemma reporter_visits j k : (j < n)%nat → ∃ m, (k <= m)%nat ∧ schedule m = Reporter ∧ po_cursor (state_at m) = j.
Proof.
  intros Hj. pose (distance c := if (c <=? j)%nat then (j - c)%nat else (n + 1 - c + j)%nat).
  remember (distance (po_cursor (state_at k))) as d eqn:Ed. revert k Ed. induction (lt_wf d) as [d _ IH]. intros k ->.
  destruct (next_report k) as (m & Hm & Es & Ec). destruct (decide (po_cursor (state_at m) = j)) as [E|Hne]; [by exists m|].
  destruct (report_at m Es) as [En _]. pose proof (pk_cursor _ (proj2 (state_at_ok m))) as Hle.
  destruct (IH (distance (po_cursor (state_at (S m)))) ) with (k := S m) as (m' & Hm' & H'); [|done|exists m'; split; [lia|done]].
  rewrite En, <- Ec. unfold distance, next_cursor.
  destruct (Nat.ltb_spec (po_cursor (state_at m)) n), (Nat.leb_spec (po_cursor (state_at m)) j); try lia;
    destruct (Nat.leb_spec (S (po_cursor (state_at m))) j); simpl; lia.
Qed.

(** A lane in which a report waits gets on. *)
Lemma waiting_gets_on j k : (j < n)%nat → (0 < (measure j (state_at k)).2)%nat →
  ∃ m, (k <= m)%nat ∧ lex (measure j (state_at m)) (measure j (state_at k)).
Proof.
  intros Hj Hpos. destruct (reporter_visits j k Hj) as (m & Hm & Es & Ec).
  destruct (measure_steps j k m Hj Hm) as [E|E]; [|by exists m]. destruct (report_at m Es) as [_ Hl]. rewrite Ec in Hl.
  exists (S m). split; [lia|]. rewrite <- E. apply Hl; [done|by rewrite E].
Qed.

(** A lane in which anything is left gets on. *)
Lemma lane_gets_on j k : (j < n)%nat → (∀ k, ∃ m, (k <= m)%nat ∧ schedule m = Worker j) → measure j (state_at k) ≠ (0, 0, 0)%nat →
  ∃ m, (k <= m)%nat ∧ lex (measure j (state_at m)) (measure j (state_at k)).
Proof.
  intros Hj Hworker Hne. destruct (decide (0 < (measure j (state_at k)).2)%nat) as [Hpos|Hz]; [by apply waiting_gets_on|].
  destruct (Hworker k) as (m & Hm & Es). destruct (measure_steps j k m Hj Hm) as [E|E]; [|by exists m].
  pose proof (state_at_turn m) as Et. rewrite Es in Et. simpl in Et.
  destruct (worker_turn_spec j _ (proj2 (state_at_ok m)) Hj) as (s' & E' & _ & _ & _ & Hc). rewrite Et in E'. injection E' as <-.
  destruct Hc as [Hc|[_ [Hc|Hc]]]; [exists (S m); split; [lia|by rewrite <- E]| |rewrite E in Hc; lia].
  rewrite E in Hc. destruct Hne. destruct (measure j (state_at k)) as [[a b] c]. simpl in *. simplify_eq. f_equal. lia.
Qed.

(** It is empty in the end, and stays so. *)
Lemma lane_drains j : (j < n)%nat → (∀ k, ∃ m, (k <= m)%nat ∧ schedule m = Worker j) →
  ∃ k, ∀ m, (k <= m)%nat → measure j (state_at m) = (0, 0, 0)%nat.
Proof.
  intros Hj Hworker.
  assert (∀ k, ∃ m, (k <= m)%nat ∧ measure j (state_at m) = (0, 0, 0)%nat) as H.
  { intros k. remember (measure j (state_at k)) as d eqn:Ed. revert k Ed. induction (lex_wf d) as [d _ IH]. intros k ->.
    destruct (decide (measure j (state_at k) = (0, 0, 0)%nat)) as [E|E]; [by exists k|].
    destruct (lane_gets_on j k Hj Hworker E) as (m & Hm & Hl). destruct (IH _ Hl m eq_refl) as (m' & Hm' & H'). exists m'.
    split; [lia|done]. }
  destruct (H 0%nat) as (k & _ & Hk). exists k. intros m Hm. destruct (measure_steps j k m Hj Hm) as [E|E]; [by rewrite E|].
  rewrite Hk in E. unfold lex in E. simpl in E. lia.
Qed.
End drain.

(** ** From a state of the exchange in which no more requests come *)

Section start.
Context {MQ TQ : Type} `{!Fifo OutgoingMessage MQ} `{!FifoLaws OutgoingMessage MQ} `{!Fifo MatchTask TQ} `{!FifoLaws MatchTask TQ}.
Implicit Types cob : CentralOrderBook MQ TQ.

(** No worker is in the middle of a task. *)
Definition idle_pool cob : PoolState MQ TQ := mkPoolState cob (replicate (length (m_outgoingMessages cob)) []) 0 [].

(** The reports that wait in outgoing queue [j]. *)
Definition waiting_reports (j : nat) cob : list OutgoingMessage :=
  match m_outgoingMessages cob !! j with Some oq => fifo_list oq | None => [] end.

(** Security [i] has worker [i] and outgoing queue [i], as [setSymbols] makes it. *)
Definition one_queue_each cob : Prop :=
  length (m_threadQueues cob) = length (m_outgoingMessages cob) ∧
  ∀ sec i, m_queueIDDictionary cob !! sec = Some i ↔ sec = i ∧ 0 <= i < Z.of_nat (length (m_outgoingMessages cob)).

(** An outgoing queue, which may be full, whose counters allow for the reports to come. *)
Record outgoing_ready (j : nat) cob (oq : MQ) : Prop := {
  or_inv : fifo_inv oq;
  or_cap : (0 < fifo_cap oq ∧ length (fifo_list oq) <= fifo_cap oq)%nat;
  or_credit : Z.of_nat (reports_bound (length (pending (Z.of_nat j) cob)) (book_size (book_of cob (Z.of_nat j)))) <= fifo_credit oq
}.

Definition ready_for_reports cob : Prop := ∀ j oq, m_outgoingMessages cob !! j = Some oq → outgoing_ready j cob oq.

Lemma pending_own (s : ThreadedState MQ TQ) j : threaded_inv s → one_queue_each (th_cob s) →
  Forall (λ t, task_security t = Z.of_nat j) (pending (Z.of_nat j) (th_cob s)).
Proof.
  intros Hi [_ Hq]. apply Forall_forall. intros t Ht. pose proof (ti_home _ Hi (Z.of_nat j) t ltac:(lia) Ht) as Hh.
  by apply Hq in Hh as [? _].
Qed.

Lemma pending_split (s : ThreadedState MQ TQ) j : threaded_inv s → one_queue_each (th_cob s) →
  (j < length (m_outgoingMessages (th_cob s)))%nat →
  for_security (Z.of_nat j) (th_submitted s) = for_security (Z.of_nat j) (th_done s) ++ pending (Z.of_nat j) (th_cob s).
Proof.
  intros Hi Hq Hj. rewrite (ti_split _ Hi (Z.of_nat j) (Z.of_nat j)) by (apply Hq; lia). f_equal.
  pose proof (pending_own s j Hi Hq) as Ho. unfold for_security. induction Ho as [|t l Ht _ IH]; [done|].
  by rewrite filter_cons_True, IH.
Qed.

Definition number_of (s : ThreadedState MQ TQ) (j : nat) : Z := last_number 0 (for_security (Z.of_nat j) (th_done s)).

Lemma idle_numbers (s : ThreadedState MQ TQ) j : threaded_inv s → one_queue_each (th_cob s) →
  (j < length (m_outgoingMessages (th_cob s)))%nat →
  numbered (number_of s j) (pending (Z.of_nat j) (th_cob s)) ∧
  book_inv (number_of s j) (Z.of_nat j) (book_of (th_cob s) (Z.of_nat j)).
Proof.
  intros Hi Hq Hj. pose proof (numbered_filter 0 (Z.of_nat j) _ (ti_numbered _ Hi)) as Hn.
  fold (for_security (Z.of_nat j) (th_submitted s)) in Hn. rewrite (pending_split s j Hi Hq Hj) in Hn.
  apply numbered_app in Hn as [Hn1 Hn2]. split; [done|].
  destruct (replay_inv 0 (Z.of_nat j) (for_security (Z.of_nat j) (th_done s)) OrderBook_empty) as (b & Hb & Hbi);
    [apply for_security_all|done|apply book_inv_empty|].
  rewrite (ti_books _ Hi) in Hb. by injection Hb as <-.
Qed.

Lemma idle_pool_ok addr (s : ThreadedState MQ TQ) : threaded_inv s → one_queue_each (th_cob s) → ready_for_reports (th_cob s) →
  pool_ok addr (length (m_outgoingMessages (th_cob s))) (λ j, pending (Z.of_nat j) (th_cob s))
    (λ j, book_of (th_cob s) (Z.of_nat j)) (λ j, waiting_reports j (th_cob s)) (idle_pool (th_cob s)).
Proof.
  intros Hi [Hlen Hids] Hready. split; [done|simpl; lia|]. intros j Hj.
  destruct (lookup_lt_is_Some_2 (m_threadQueues (th_cob s)) j) as [q Eq]; [lia|].
  destruct (lookup_lt_is_Some_2 (m_outgoingMessages (th_cob s)) j) as [oq Eo]; [lia|].
  assert (pending (Z.of_nat j) (th_cob s) = fifo_list q) as Ep by (unfold pending; by rewrite Nat2Z.id, Eq).
  destruct (Hready j oq Eo) as [Hio Hcap Hcredit]. exists q, oq, [], []. split; cbn [po_cob po_work idle_pool final_book reports_in]; try done.
  - by apply lookup_replicate_2.
  - exists []. split; [done|]. unfold taken_from, waiting_reports. cbn. by rewrite Eo, !app_nil_r.
  - split; [by eapply Forall_lookup in Eq; [|exact (ti_queues _ Hi)]|done].
  - by rewrite <- Ep.
Qed.
End start.

(** C9: Every request is handled and every report taken. Take any state that clients and
    workers reach, with no worker in the middle of a task and with counters of the outgoing
    queues that do not overflow on the reports to come, and let no more requests come. However the turns of the workers and of
    the report thread are scheduled from then on, if only worker [j] and the report thread
    get turns again and again, no turn of any thread fails, and from some moment on worker
    [j] has handled all requests that were submitted for its security, in order, none of its
    reports waits, and the report thread has taken, in order, exactly the reports that
    waited before and those of the requests. Its outgoing queue may be full, now and then
    or at the start: turns in which the worker pushes in vain are turns too. *)
Theorem requests_eventually_handled {MQ TQ} `{!Fifo OutgoingMessage MQ} `{!FifoLaws OutgoingMessage MQ} `{!Fifo MatchTask TQ}
    `{!FifoLaws MatchTask TQ} (addr : Z) (cob : CentralOrderBook MQ TQ) (s : ThreadedState MQ TQ) (schedule : nat → agent) (j : nat)
    (Hstart : threaded_start cob) (Hreach : rtc threaded_step (mkThreadedState cob [] []) s)
    (Hqueues : one_queue_each (th_cob s)) (Hready : ready_for_reports (th_cob s))
    (Hj : (j < length (m_outgoingMessages (th_cob s)))%nat)
    (Hagents : ∀ k, agent_ok (length (m_outgoingMessages (th_cob s))) (schedule k))
    (Hworker : ∀ k, ∃ m, (k <= m)%nat ∧ schedule m = Worker j)
    (Hreporter : ∀ k, ∃ m, (k <= m)%nat ∧ schedule m = Reporter) :
  ∃ k, ∀ m, (k <= m)%nat → ∃ s', run_schedule addr schedule m (idle_pool (th_cob s)) = Ok s' ∧
    pending (Z.of_nat j) (po_cob s') = [] ∧ po_work s' !! j = Some [] ∧ waiting_reports j (po_cob s') = [] ∧
    replay (for_security (Z.of_nat j) (th_submitted s)) OrderBook_empty = Ok (book_of (po_cob s') (Z.of_nat j)) ∧
    ∃ reports, work_through addr (pending (Z.of_nat j) (th_cob s)) (book_of (th_cob s) (Z.of_nat j)) =
        Ok (book_of (po_cob s') (Z.of_nat j), reports) ∧
      taken_from j s' = waiting_reports j (th_cob s) ++ reports.
Proof.
  pose proof (threaded_inv_reachable _ _ Hreach (threaded_start_inv _ Hstart)) as Hi.
  pose proof (idle_pool_ok addr s Hi Hqueues Hready) as Hok. set (n := length (m_outgoingMessages (th_cob s))) in *.
  assert (Hnum : ∀ j, (j < n)%nat → numbered (number_of s j) (pending (Z.of_nat j) (th_cob s)))
    by (intros i Hi'; by apply idle_numbers).
  assert (Hbook : ∀ j, (j < n)%nat → book_inv (number_of s j) (Z.of_nat j) (book_of (th_cob s) (Z.of_nat j)))
    by (intros i Hi'; by apply idle_numbers).
  assert (Hown : ∀ j, (j < n)%nat → Forall (λ t, task_security t = Z.of_nat j) (pending (Z.of_nat j) (th_cob s)))
    by (intros i _; by apply pending_own).
  destruct (lane_drains addr n _ _ _ _ Hnum Hown Hbook schedule Hagents _ Hok Hreporter j Hj Hworker) as (k & Hk).
  exists k. intros m Hm. specialize (Hk m Hm).
  destruct (state_at_ok addr n _ _ _ _ Hnum Hown Hbook schedule Hagents _ Hok m) as [E [_ _ Hlanes]].
  exists (state_at addr schedule (idle_pool (th_cob s)) m). split; [exact E|].
  destruct (Hlanes j Hj) as (q & oq & items & handled & Hl). rewrite (lane_measure _ _ _ _ _ _ _ _ _ _ Hl) in Hk.
  destruct Hl as [Hq Ho Hw Hsplit (reports & Hthrough & Hout) _ _ _ _].
  destruct (fifo_list q) eqn:Eq; [|done]. destruct items; [|done]. destruct (fifo_list oq) eqn:Eoq; [|done].
  cbn [final_book item_reports app] in *. rewrite app_nil_r in Hsplit, Hout. subst handled.
  split; [unfold pending; by rewrite Nat2Z.id, Hq|]. split; [done|]. split; [unfold waiting_reports; by rewrite Ho|]. split.
  - rewrite (pending_split s j Hi Hqueues Hj). rewrite (replay_app _ _ _ _ (ti_books _ Hi _)). by eapply work_through_replay.
  - exists reports. by split.
Qed.

(** ** Two orders that wait, and threads that take turns *)

Definition demo_schedule (k : nat) : agent := match (k mod 3)%nat with O => Worker 0 | 1%nat => Worker 1 | _ => Reporter end.

Lemma demo_schedule_fair (r : nat) : (r < 3)%nat → ∀ k, ∃ m, (k <= m)%nat ∧ demo_schedule m = demo_schedule r.
Proof.
  intros Hr k. exists (r + k * 3)%nat. split; [lia|]. unfold demo_schedule. by rewrite Nat.Div0.mod_add.
Qed.

Lemma requests_eventually_handled_witness :
  ∃ k, ∀ m, (k <= m)%nat → ∃ s', run_schedule 0 demo_schedule m (idle_pool demo_cob2) = Ok s' ∧
    pending 1 (po_cob s') = [] ∧ po_work s' !! 1%nat = Some [] ∧ waiting_reports 1 (po_cob s') = [] ∧
    replay (for_security 1 (th_submitted demo_state2)) OrderBook_empty = Ok (book_of (po_cob s') 1) ∧
    ∃ reports, work_through 0 (pending 1 demo_cob2) (book_of demo_cob2 1) = Ok (book_of (po_cob s') 1, reports) ∧
      taken_from 1 s' = waiting_reports 1 demo_cob2 ++ reports.
Proof.
  apply (requests_eventually_handled 0 (demo_setup true) demo_state2 demo_schedule 1 demo_start).
  - eapply rtc_l; [apply demo_step1|]. apply rtc_once, demo_step2.
  - split; [vm_compute; reflexivity|]. intros sec i.
    change (m_queueIDDictionary (th_cob demo_state2)) with (<[1 := 1]> (<[0 := 0]> (∅ : gmap Z Z))).
    change (Z.of_nat (length (m_outgoingMessages (th_cob demo_state2)))) with 2.
    rewrite !lookup_insert. repeat case_decide; split; try (intros [= <-]; lia); try (intros [-> ?]; f_equal; lia); try done.
  - intros [|[|j]] oq E; vm_compute in E; simplify_eq;
      (split; [split; vm_compute; repeat split; discriminate|vm_compute; lia|vm_compute; discriminate]).
  - vm_compute. lia.
  - intros k. unfold demo_schedule. change (length (m_outgoingMessages (th_cob demo_state2))) with 2%nat.
    destruct (k mod 3)%nat as [|[|]]; simpl; lia.
  - exact (demo_schedule_fair 1 ltac:(lia)).
  - exact (demo_schedule_fair 2 ltac:(lia)).
Defined.
