(* ===== verification/ExchangeSpec.v ===== *)
(** * What the order matcher promises

    [Module Spec] is a limit order book as a textbook has it: integral prices, two
    lists of orders with the best in front and, at one price, the oldest in front, and
    a function that serves one request and says what happened. The rest of the file
    relates it to the order matcher: [book_rel] reads a book of [OrderBook.v] as one of
    the specification, and the simulation lemmas show that inserting with matching and
    cancelling do to it what the specification does. *)
From Stdlib Require Import ZArith Lia Ascii String SpecFloat Sorted.
From stdpp Require Import base decidable sets list gmap strings.
From S2P Require Import Prelude.
From S2P Require Import MachineInt.
From S2P Require Import StringUtility.
From S2P Require Import Double.
From S2P Require Import Multimap.
From S2P Require Import SecurityManager.
From S2P Require Import Order.
From S2P Require Import OrderBook.
From S2P Require Import Fifo.
From S2P Require Import RingBuffer.
From S2P Require Import CentralOrderBook.
From S2P Require Import ThreadedMatching.
Local Open Scope Z_scope.

Module Spec.

Record order : Type := mkOrder {
  id : Z;
  client : str;
  session : Z;
  buy : bool;
  price : Z;
  open : Z  (** the quantity not yet executed *)
}.

Record book : Type := mkBook { bids : list order; asks : list order }.

Definition empty : book := mkBook [] [].
Definition side (b : bool) (bk : book) : list order := if b then bids bk else asks bk.
Definition set_side (b : bool) (l : list order) (bk : book) : book :=
  if b then mkBook l (asks bk) else mkBook (bids bk) l.

Definition reduce (q : Z) (o : order) : order :=
  mkOrder (id o) (client o) (session o) (buy o) (price o) (open o - q).
Arguments reduce : simpl never.

(** Price [p] stands in front of price [q]. *)
Definition better (b : bool) (p q : Z) : bool := if b then q <? p else p <? q.

(** An order takes its place behind all that are as good. *)
Fixpoint enqueue (o : order) (l : list order) : list order :=
  match l with
  | [] => [o]
  | x :: l' => if better (buy o) (price o) (price x) then o :: l else x :: enqueue o l'
  end.

(** An execution, with the order after it. *)
Record fill : Type := mkFill { who : order; at_price : Z; amount : Z }.

Definition crosses (taker maker : order) : bool :=
  if buy taker then price maker <=? price taker else price taker <=? price maker.

(** Trades are at the price of the sell order; the buyer is told first. *)
Definition trade (taker maker : order) : order * order * list fill :=
  let q := open taker `min` open maker in
  let p := if buy taker then price maker else price taker in
  let t := reduce q taker in
  let m := reduce q maker in
  (t, m, if buy taker then [mkFill t p q; mkFill m p q] else [mkFill m p q; mkFill t p q]).

(** The arriving order trades with the best of the other side, as long as it can. *)
Fixpoint sweep (taker : order) (makers : list order) : option order * list order * list fill :=
  match makers with
  | [] => (Some taker, [], [])
  | maker :: makers' =>
      if crosses taker maker then
        let '(t, m, fs) := trade taker maker in
        if open t =? 0 then (None, if open m =? 0 then makers' else m :: makers', fs)
        else let '(rest, others, fs') := sweep t makers' in (rest, others, fs ++ fs')
      else (Some taker, makers, [])
  end.

Definition enter (o : order) (bk : book) : book * list fill :=
  let '(rest, others, fs) := sweep o (side (negb (buy o)) bk) in
  let bk := set_side (negb (buy o)) others bk in
  (match rest with Some o' => set_side (buy o) (enqueue o' (side (buy o) bk)) bk | None => bk end, fs).

(** The first order of a client, and the others. *)
Fixpoint take_out (cl : str) (ses : Z) (l : list order) : option (order * list order) :=
  match l with
  | [] => None
  | o :: l' =>
      if bool_decide (client o = cl ∧ session o = ses) then Some (o, l')
      else match take_out cl ses l' with Some (x, l'') => Some (x, o :: l'') | None => None end
  end.

(** *** The exchange *)

Inductive event : Type :=
  | Accepted (o : order)
  | Filled (f : fill)
  | Canceled (o : order)
  | Rejected (client : str) (session : Z).

(** A request for a security; a cancel may name no side. *)
Inductive request : Type :=
  | New (security : Z) (client : str) (session : Z) (buy : bool) (price quantity : Z)
  | Cancel (security : Z) (client : str) (session : Z) (side : option bool) (orig : str).

Definition security (r : request) : Z := match r with New s _ _ _ _ _ => s | Cancel s _ _ _ _ => s end.

Record exchange : Type := mkExchange { last : Z; books : Z → book }.

Definition set_book (s : Z) (bk : book) (x : exchange) : exchange :=
  mkExchange (last x) (λ s', if decide (s' = s) then bk else books x s').

Definition serve (r : request) (x : exchange) : exchange * list event :=
  match r with
  | New s cl ses b p q =>
      let o := mkOrder (last x + 1) cl ses b p q in
      let '(bk, fs) := enter o (books x s) in
      (set_book s bk (mkExchange (last x + 1) (books x)), Accepted o :: (Filled <$> fs))
  | Cancel s cl ses None orig => (x, [Rejected cl ses])
  | Cancel s cl ses (Some b) orig =>
      match take_out orig ses (side b (books x s)) with
      | Some (o, l) => (set_book s (set_side b l (books x s)) x, [Canceled o])
      | None => (x, [Rejected cl ses])
      end
  end.

(** Requests one after the other; every event with the security it belongs to. *)
Fixpoint serve_all (rs : list request) (x : exchange) : exchange * list (Z * event) :=
  match rs with
  | [] => (x, [])
  | r :: rs' =>
      let '(x', es) := serve r x in
      let '(x'', es') := serve_all rs' x' in
      (x'', ((security r,.) <$> es) ++ es')
  end.

(** *** One book, with the tasks of its worker: orders are already numbered *)

Inductive task : Type :=
  | Enter (o : order)
  | Remove (session : Z) (side : option bool) (orig : str).

Definition run_task (t : task) (bk : book) : book :=
  match t with
  | Enter o => (enter o bk).1
  | Remove ses None orig => bk
  | Remove ses (Some b) orig =>
      match take_out orig ses (side b bk) with Some (_, l) => set_side b l bk | None => bk end
  end.

Definition run_tasks (ts : list task) (bk : book) : book := foldl (λ bk t, run_task t bk) bk ts.

Lemma serve_all_snoc rs r x :
  serve_all (rs ++ [r]) x =
    let '(x', es) := serve_all rs x in
    let '(x'', es') := serve r x' in (x'', es ++ ((security r,.) <$> es')).
Proof.
  revert x. induction rs as [|r' rs IH]; intros x; simpl.
  - destruct (serve r x). by rewrite app_nil_r.
  - destruct (serve r' x) as [x1 e1]. rewrite IH. destruct (serve_all rs x1) as [x2 e2].
    destruct (serve r x2) as [x3 e3]. by rewrite app_assoc.
Qed.
End Spec.

(** ** Reading the program's orders and books *)

Record order_rel (o : Order) (s : Spec.order) : Prop := {
  or_id : m_orderID o = Spec.id s;
  or_client : m_clientOrderID o = Spec.client s;
  or_session : m_sessionId o = Spec.session s;
  or_side : bool_decide (m_side o = BUY) = Spec.buy s;
  or_price : m_price o = of_long (Spec.price s);
  or_exact : exact_long (Spec.price s);
  or_open : m_openQuantity o = Spec.open s
}.

Definition side_rel (l : side_map) (ss : list Spec.order) : Prop := Forall2 (λ e s, order_rel e.2 s) l ss.

Definition book_rel (book : OrderBook) (bk : Spec.book) : Prop :=
  side_rel (m_bidOrders book) (Spec.bids bk) ∧ side_rel (m_askOrders book) (Spec.asks bk).

(** An order pushed by the matching loop, as an execution. *)
Record fill_rel (o : Order) (f : Spec.fill) : Prop := {
  fr_who : order_rel o (Spec.who f);
  fr_price : m_lastExecutedPrice o = of_long (Spec.at_price f);
  fr_amount : m_lastExecutedQuantity o = Spec.amount f;
  fr_filled : Order_isFilled o = (Spec.open (Spec.who f) =? 0)
}.

Lemma executed_rel p P q o o' s :
  order_rel o s → executed_by p q o o' → order_ok o' → p = of_long P →
  order_rel o' (Spec.reduce q s) ∧ fill_rel o' (Spec.mkFill (Spec.reduce q s) P q) ∧
  Order_isFilled o' = (Spec.open (Spec.reduce q s) =? 0).
Proof.
  intros [R1 R2 R3 R4 R5 R6 R7] ((T1 & T2 & _ & T4 & T5 & _ & T7 & _) & Eo & _ & Ep & Eq) Hok ->.
  assert (order_rel o' (Spec.reduce q s)) as Hr.
  { split; simpl; rewrite ?T1, ?T2, ?T4, ?T5, ?T7, ?Eo, ?R7; done. }
  assert (Order_isFilled o' = (Spec.open (Spec.reduce q s) =? 0)) as Hf.
  { apply eq_true_iff_eq. rewrite isFilled_open, Z.eqb_eq by done. by rewrite (or_open _ _ Hr). }
  done.
Qed.

Lemma sweep_trade_rel bid ask sb sa :
  live bid → live ask → order_rel bid sb → order_rel ask sa →
  let q := Spec.open sb `min` Spec.open sa in
  ∃ bid' ask', sweep_trade bid ask = Ok (bid', ask') ∧
    same_terms bid bid' ∧ same_terms ask ask' ∧ order_ok bid' ∧ order_ok ask' ∧
    order_rel bid' (Spec.reduce q sb) ∧ order_rel ask' (Spec.reduce q sa) ∧
    fill_rel bid' (Spec.mkFill (Spec.reduce q sb) (Spec.price sa) q) ∧
    fill_rel ask' (Spec.mkFill (Spec.reduce q sa) (Spec.price sa) q) ∧
    Order_isFilled bid' = (Spec.open (Spec.reduce q sb) =? 0) ∧
    Order_isFilled ask' = (Spec.open (Spec.reduce q sa) =? 0).
Proof.
  intros Hb Ha Rb Ra q. rewrite <- matchTwoOrders_sweep.
  destruct (matchTwoOrders_ok bid ask Hb Ha) as (bid' & ask' & Hm & Eb & Ea & Ob & Oa).
  rewrite (or_open _ _ Rb), (or_open _ _ Ra) in Eb, Ea. fold q in Eb, Ea.
  destruct (executed_rel _ (Spec.price sa) q bid bid' sb Rb Eb Ob (or_price _ _ Ra)) as (H1 & H2 & H3).
  destruct (executed_rel _ (Spec.price sa) q ask ask' sa Ra Ea Oa (or_price _ _ Ra)) as (H4 & H5 & H6).
  exists bid', ask'. split_and!; try done; [apply Eb|apply Ea].
Qed.

(** ** Matching *)

Lemma crosses_rel bid ask sb sa :
  order_rel bid sb → order_rel ask sa →
  dge (m_price bid) (m_price ask) = (Spec.price sa <=? Spec.price sb).
Proof.
  intros Rb Ra. apply eq_true_iff_eq.
  by rewrite (or_price _ _ Rb), (or_price _ _ Ra), of_long_ge, Z.leb_le by (by eapply or_exact).
Qed.

Lemma rest_of_rel k o' l s ss :
  order_rel o' s → side_rel l ss → Order_isFilled o' = (Spec.open s =? 0) →
  side_rel (rest_of k o' l) (if Spec.open s =? 0 then ss else s :: ss).
Proof. intros Hr Hl <-. unfold rest_of. destruct (Order_isFilled o'); [done|by constructor]. Qed.

Lemma sweep_asks_rel bid asks s ss :
  live bid → order_rel bid s → Spec.buy s = true → Forall (entry_ok false) asks → side_rel asks ss →
  ∃ rem rest fills, sweep_asks bid asks = Ok (rem, rest, fills) ∧
    let '(srem, srest, sfills) := Spec.sweep s ss in
    option_Forall2 order_rel rem srem ∧ side_rel rest srest ∧ Forall2 fill_rel fills sfills.
Proof.
  intros Hl Hr Hb Hf Hs. revert bid s Hl Hr Hb.
  induction Hs as [|[k ask] sa asks ss Ra Hs IH]; intros bid s Hl Hr Hb; simpl in *.
  { exists (Some bid), [], []. split_and!; [done|by constructor|constructor..]. }
  apply Forall_cons in Hf as [(Hla & _ & _) Hf]. simpl in *.
  unfold Spec.crosses, Spec.trade. rewrite (crosses_rel bid ask s sa), Hb by done.
  destruct (Spec.price sa <=? Spec.price s).
  2:{ exists (Some bid), ((k, ask) :: asks), []. split_and!; [done|by constructor|by constructor|constructor]. }
  destruct (sweep_trade_rel bid ask s sa Hl Hla Hr Ra)
    as (bid' & ask' & -> & Tb & Ta & Ob & Oa & Rb' & Ra' & Fb & Fa & Eb & Ea).
  cbn [mbind outcome_bind]. rewrite Eb. set (q := _ `min` _) in *. simpl.
  destruct (Spec.open s - q =? 0) eqn:E0.
  - exists None, (rest_of k ask' asks), [bid'; ask']. split; [done|].
    split_and!; [constructor|by apply (rest_of_rel k ask' asks (Spec.reduce q sa))|by do 3 try (constructor; try done)].
  - destruct (IH Hf bid' (Spec.reduce q s)) as (rem & rest & fills & -> & H);
      [by apply not_filled_live; [|rewrite Eb]|done|done|].
    destruct (Spec.sweep (Spec.reduce q s) ss) as [[srem srest] sfills]. destruct H as (H1 & H2 & H3).
    exists rem, rest, (bid' :: ask' :: fills). split_and!; try done. by constructor; [|constructor].
Qed.

Lemma sweep_bids_rel ask bids s ss :
  live ask → order_rel ask s → Spec.buy s = false → Forall (entry_ok true) bids → side_rel bids ss →
  ∃ rem rest fills, sweep_bids ask bids = Ok (rem, rest, fills) ∧
    let '(srem, srest, sfills) := Spec.sweep s ss in
    option_Forall2 order_rel rem srem ∧ side_rel rest srest ∧ Forall2 fill_rel fills sfills.
Proof.
  intros Hl Hr Hb Hf Hs. revert ask s Hl Hr Hb.
  induction Hs as [|[k bid] sb bids ss Rb Hs IH]; intros ask s Hl Hr Hb; simpl in *.
  { exists (Some ask), [], []. split_and!; [done|by constructor|constructor..]. }
  apply Forall_cons in Hf as [(Hlb & _ & _) Hf]. simpl in *.
  unfold Spec.crosses, Spec.trade. rewrite (crosses_rel bid ask sb s), Hb by done.
  destruct (Spec.price s <=? Spec.price sb).
  2:{ exists (Some ask), ((k, bid) :: bids), []. split_and!; [done|by constructor|by constructor|constructor]. }
  destruct (sweep_trade_rel bid ask sb s Hlb Hl Rb Hr)
    as (bid' & ask' & -> & Tb & Ta & Ob & Oa & Rb' & Ra' & Fb & Fa & Eb & Ea).
  rewrite (Z.min_comm (Spec.open sb)) in *.
  cbn [mbind outcome_bind]. rewrite Ea. set (q := _ `min` _) in *. simpl.
  destruct (Spec.open s - q =? 0) eqn:E0.
  - exists None, (rest_of k bid' bids), [bid'; ask']. split; [done|].
    split_and!; [constructor|by apply (rest_of_rel k bid' bids (Spec.reduce q sb))|by do 3 try (constructor; try done)].
  - destruct (IH Hf ask' (Spec.reduce q s)) as (rem & rest & fills & -> & H);
      [by apply not_filled_live; [|rewrite Ea]|done|done|].
    destruct (Spec.sweep (Spec.reduce q s) ss) as [[srem srest] sfills]. destruct H as (H1 & H2 & H3).
    exists rem, rest, (bid' :: ask' :: fills). split_and!; try done. by constructor; [|constructor].
Qed.

(** Taking a place in a side. *)
Lemma enqueue_rel (b : bool) o s l ss :
  order_rel o s → Spec.buy s = b → Forall (entry_ok b) l → side_rel l ss →
  side_rel (mm_insert (if b then greater else less) (m_price o) o l) (Spec.enqueue s ss).
Proof.
  intros Hr Hb Hf Hs. induction Hs as [|[k x] sx l ss Hx Hs IH]; simpl in *.
  { by constructor; [|constructor]. }
  apply Forall_cons in Hf as [(_ & Hk & _) Hf]. simpl in Hk. subst k.
  assert ((if b then greater else less) (m_price o) (m_price x) =
    Spec.better (Spec.buy s) (Spec.price s) (Spec.price sx)) as ->.
  { pose proof (or_exact _ _ Hr). pose proof (or_exact _ _ Hx).
    rewrite (or_price _ _ Hr), (or_price _ _ Hx), Hb. unfold Spec.better, greater, less.
    apply eq_true_iff_eq. destruct b; by rewrite of_long_lt, Z.ltb_lt by done. }
  destruct (Spec.better _ _ _); [by constructor; [|constructor]|]. constructor; [done|by apply IH].
Qed.

(** What is left of an arriving order is on its side. *)
Lemma sweep_side t ss rest others fs :
  Spec.sweep t ss = (Some rest, others, fs) → Spec.buy rest = Spec.buy t.
Proof.
  revert t others fs. induction ss as [|m ss IH]; intros t others fs H; simpl in H; [by simplify_eq|].
  destruct (Spec.crosses t m); [|by simplify_eq]. unfold Spec.trade in H. case_match; [done|].
  destruct (Spec.sweep _ ss) as [[rest' others'] fs'] eqn:E. simplify_eq.
  by apply IH in E.
Qed.

(** Inserting an order and matching is [Spec.enter]. *)
Lemma match_rel o s book bk :
  book_ok book → uncrossed book → live o → order_rel o s → book_rel book bk →
  ∃ book' fills r, OrderBook_processMatching (OrderBook_insert o book) [] = Ok (book', fills, r) ∧
    book_rel book' (Spec.enter s bk).1 ∧ Forall2 fill_rel fills (Spec.enter s bk).2.
Proof.
  intros Hok Hu Hl Hr [Rb Ra]. pose proof (or_side _ _ Hr) as Hside. unfold Spec.enter.
  destruct bk as [sbids sasks]. simpl in *. destruct (Spec.buy s) eqn:Eb; simpl.
  - apply bool_decide_eq_true in Hside. rewrite insert_sweep_bid by done.
    destruct (sweep_asks_rel o (m_askOrders book) s sasks) as (rem & rest & fills & -> & H); try done; [apply Hok|].
    destruct (Spec.sweep s sasks) as [[srem srest] sfills] eqn:Es. destruct H as (H1 & H2 & H3).
    cbn [mbind outcome_bind]. eexists _, fills, _. split; [done|]. split; [|done].
    destruct H1 as [o' s' H1|]; simpl; [|by split]. split; simpl; [|done].
    apply (enqueue_rel true); [done|by rewrite (sweep_side _ _ _ _ _ Es)|apply Hok|done].
  - apply bool_decide_eq_false in Hside. rewrite insert_sweep_ask by done.
    destruct (sweep_bids_rel o (m_bidOrders book) s sbids) as (rem & rest & fills & -> & H); try done; [apply Hok|].
    destruct (Spec.sweep s sbids) as [[srem srest] sfills] eqn:Es. destruct H as (H1 & H2 & H3).
    cbn [mbind outcome_bind]. eexists _, fills, _. split; [done|]. split; [|done].
    destruct H1 as [o' s' H1|]; simpl; [|by split]. split; simpl; [done|].
    apply (enqueue_rel false); [done|by rewrite (sweep_side _ _ _ _ _ Es)|apply Hok|done].
Qed.

(** ** Cancelling *)

Definition side_of_request (side : OrderSide) : option bool :=
  match side with BUY => Some true | SELL => Some false | SIDE_NON_SUPPORTED => None end.

Lemma is_order_rel o s cl ses : order_rel o s → is_order cl ses o ↔ Spec.client s = cl ∧ Spec.session s = ses.
Proof. intros [_ R2 R3 _ _ _ _]. unfold is_order. by rewrite R2, R3. Qed.

Lemma take_out_rel cl ses l1 k o l2 ss :
  side_rel (l1 ++ (k, o) :: l2) ss → is_order cl ses o →
  Forall (λ e, ¬ is_order cl ses e.2) l1 →
  ∃ s ss', Spec.take_out cl ses ss = Some (s, ss') ∧ order_rel o s ∧ side_rel (l1 ++ l2) ss'.
Proof.
  intros Hs Ho Hf. revert ss Hs. induction l1 as [|e l1 IH]; intros ss Hs; simpl in *.
  - apply Forall2_cons_inv_l in Hs as (s & ss' & Hr & Hs & ->). simpl in *.
    rewrite bool_decide_true by (by apply (is_order_rel o)). by exists s, ss'.
  - apply Forall2_cons_inv_l in Hs as (s & ss' & Hr & Hs & ->). apply Forall_cons in Hf as [He Hf]. simpl.
    rewrite bool_decide_false by (by rewrite <- (is_order_rel e.2)).
    destruct (IH Hf ss' Hs) as (x & sx & -> & Hx & Hsx). exists x, (s :: sx). split_and!; [done|done|by constructor].
Qed.

Lemma take_out_none cl ses l ss :
  side_rel l ss → Forall (λ e, ¬ is_order cl ses e.2) l → Spec.take_out cl ses ss = None.
Proof.
  intros Hs. induction Hs as [|e s l ss Hr Hs IH]; intros Hf; [done|]. simpl.
  apply Forall_cons in Hf as [He Hf]. rewrite bool_decide_false by (by rewrite <- (is_order_rel e.2)).
  by rewrite IH.
Qed.

Lemma side_of_rel b book bk : book_rel book bk → side_rel (side_of b book) (Spec.side b bk).
Proof. intros [H1 H2]. by destruct b. Qed.

Lemma with_side_rel b l ss book bk :
  book_rel book bk → side_rel l ss → book_rel (with_side b l book) (Spec.set_side b ss bk).
Proof. intros [H1 H2] H. by destruct b. Qed.

Lemma order_rel_cancel o s : order_rel o s → order_rel (Order_cancel o) s.
Proof. intros [H1 H2 H3 H4 H5 H6 H7]. by split. Qed.

(** ** Requests and reports *)

(** What the application asks of the central order book. *)
Inductive Request : Type :=
  | ReqNew (o : Order)
  | ReqCancel (o : Order) (orig : str).

Definition request_order (r : Request) : Order := match r with ReqNew o => o | ReqCancel o _ => o end.
Definition request_security (r : Request) : Z := m_securityId (request_order r).

Inductive request_rel : Request → Spec.request → Prop :=
  | rr_new o p : live o → m_side o ≠ SIDE_NON_SUPPORTED → exact_long p → m_price o = of_long p →
      request_rel (ReqNew o) (Spec.New (m_securityId o) (m_clientOrderID o) (m_sessionId o)
        (bool_decide (m_side o = BUY)) p (m_openQuantity o))
  | rr_cancel o orig :
      request_rel (ReqCancel o orig) (Spec.Cancel (m_securityId o) (m_clientOrderID o) (m_sessionId o)
        (side_of_request (m_side o)) orig).

Definition reports_as (st : OrderStatus) (m : OutgoingMessage) : Prop :=
  m_orderStatus (om_order m) = st ∧ m_lastExecution (om_order m) = st.

Inductive message_rel : OutgoingMessage → Spec.event → Prop :=
  | mr_accepted m s : reports_as ACCEPTED m → order_rel (om_order m) s → message_rel m (Spec.Accepted s)
  | mr_filled m f :
      reports_as (if Spec.open (Spec.who f) =? 0 then FILLED else PARTIALLY_FILLED) m →
      fill_rel (om_order m) f → message_rel m (Spec.Filled f)
  | mr_canceled m s : reports_as CANCELED m → order_rel (om_order m) s → message_rel m (Spec.Canceled s)
  | mr_rejected m cl ses : reports_as REJECTED m → m_clientOrderID (om_order m) = cl →
      m_sessionId (om_order m) = ses → message_rel m (Spec.Rejected cl ses).

Lemma message_of_rel o f : fill_rel o f → message_rel (message_of o) (Spec.Filled f).
Proof.
  intros [[R1 R2 R3 R4 R5 R6 R7] R8 R9 R10]. apply mr_filled.
  - unfold message_of. rewrite R10. done.
  - by split.
Qed.

Lemma messages_of_rel os fs : Forall2 fill_rel os fs → Forall2 message_rel (message_of <$> os) (Spec.Filled <$> fs).
Proof. intros H. apply Forall2_fmap. eapply Forall2_impl; [exact H|]. apply message_of_rel. Qed.

Section exchange.
Context {MQ TQ : Type} `{!Fifo OutgoingMessage MQ} `{!FifoLaws OutgoingMessage MQ} `{!Fifo MatchTask TQ}.
Implicit Types cob : CentralOrderBook MQ TQ.

Definition handle (fuel : nat) (addr : Z) (r : Request) cob : outcome (CentralOrderBook MQ TQ) :=
  match r with
  | ReqNew o => '(cob', _, _) ← CentralOrderBook_addOrder fuel o cob; Ok cob'
  | ReqCancel o orig => CentralOrderBook_cancelOrder fuel addr o orig cob
  end.

Record exchange_rel cob (x : Spec.exchange) : Prop := {
  xr_last : m_orderNumber cob = Spec.last x;
  xr_books sec : book_rel (book_of cob sec) (Spec.books x sec)
}.

(** How many reports a request may need. *)
Definition request_reports (r : Request) cob : nat :=
  match r with ReqNew o => 1 + 2 * S (book_size (book_of cob (m_securityId o))) | ReqCancel _ _ => 1 end.

(** [cob'] has [msgs] in its outgoing queue [i] after those of [cob], and the same settings. *)
Definition reports_to (i : Z) (msgs : list OutgoingMessage) cob cob' : Prop :=
  (∃ q q', m_outgoingMessages cob !! Z.to_nat i = Some q ∧
    m_outgoingMessages cob' = <[Z.to_nat i := q']> (m_outgoingMessages cob) ∧
    fifo_list q' = fifo_list q ++ msgs ∧ (fifo_inv q → fifo_after (length msgs) q q')) ∧
  m_queueIDDictionary cob' = m_queueIDDictionary cob ∧
  m_isMatchingMultithreaded cob' = m_isMatchingMultithreaded cob.

Lemma set_book_rel cob cob' x sec book bk :
  exchange_rel cob x → book_rel book bk → m_orderNumber cob' = m_orderNumber cob →
  m_orderBookDictionary cob' = <[sec := book]> (m_orderBookDictionary cob) →
  exchange_rel cob' (Spec.set_book sec bk x).
Proof.
  intros [H1 H2] Hb E1 E2. split; simpl; [congruence|]. intros s. unfold book_of. rewrite E2.
  destruct (decide (s = sec)) as [->|Hne]; [by rewrite lookup_insert_eq|].
  rewrite lookup_insert_ne by done. apply H2.
Qed.

Lemma new_rel fuel addr i o sr cob x :
  (0 < fuel)%nat → cob_inv cob → m_isMatchingMultithreaded cob = false → m_orderNumber cob < INT_MAX →
  m_queueIDDictionary cob !! m_securityId o = Some i → request_rel (ReqNew o) sr →
  queue_room i (request_reports (ReqNew o) cob) cob → exchange_rel cob x →
  ∃ cob' msgs, handle fuel addr (ReqNew o) cob = Ok cob' ∧ cob_inv cob' ∧
    exchange_rel cob' (Spec.serve sr x).1 ∧ Forall2 message_rel msgs (Spec.serve sr x).2 ∧
    reports_to i msgs cob cob'.
Proof.
  intros Hf Hinv Hs Hn Hq Hr Hroom [Hx1 Hx2]. inversion Hr as [o' p Hl Hside Hp Ep|]; subst.
  destruct (addOrder_spec fuel i o cob Hf Hinv Hs Hn Hq Hl Hside Hroom)
    as (cob' & book' & pushed & r & Hrun & Hadd & Hsend & Hinv').
  set (o1 := Order_setOrderId (m_orderNumber cob + 1) o) in *.
  set (s := Spec.mkOrder (Spec.last x + 1) (m_clientOrderID o) (m_sessionId o)
    (bool_decide (m_side o = BUY)) p (m_openQuantity o)).
  assert (order_rel o1 s) as Hrel by (split; simpl; [by rewrite Hx1|done..]).
  pose proof (book_of_inv (m_securityId o) cob Hinv) as Hb.
  destruct (match_rel o1 s (book_of cob (m_securityId o)) (Spec.books x (m_securityId o)))
    as (b & fills & r' & Hrun' & Hbr & Hfr); try done; [apply Hb|apply Hb|by apply setOrderId_live|].
  rewrite Hrun in Hrun'. simplify_eq. simpl. fold s.
  destruct (Spec.enter s (Spec.books x (m_securityId o))) as [bk fs]. simpl in Hbr, Hfr.
  destruct Hsend as (q & q' & Eq & Ec & Lq & Iq).
  exists cob', (OutgoingMessage_new o1 ACCEPTED [] :: (message_of <$> fills)).
  split; [by rewrite Hadd|]. split; [done|]. simpl. split_and!.
  - apply (set_book_rel (with_orderNumber (m_orderNumber cob + 1) cob) _ _ _ b); try (rewrite Ec; done); [|done].
    split; simpl; [by rewrite Hx1|exact Hx2].
  - constructor; [apply mr_accepted; [by split|by destruct Hrel; split]|by apply messages_of_rel].
  - split; [exists q, q'; by rewrite Ec|]. by rewrite Ec.
Qed.

Lemma cancel_rel fuel addr i o orig sr cob x :
  (0 < fuel)%nat → cob_inv cob → m_isMatchingMultithreaded cob = false →
  m_queueIDDictionary cob !! m_securityId o = Some i → request_rel (ReqCancel o orig) sr →
  queue_room i 1 cob → exchange_rel cob x →
  ∃ cob' msgs, handle fuel addr (ReqCancel o orig) cob = Ok cob' ∧ cob_inv cob' ∧
    exchange_rel cob' (Spec.serve sr x).1 ∧ Forall2 message_rel msgs (Spec.serve sr x).2 ∧
    reports_to i msgs cob cob'.
Proof.
  intros Hf Hinv Hs Hq Hr Hroom Hx. inversion Hr as [|o' orig']; subst.
  pose proof (xr_books _ _ Hx (m_securityId o)) as Hbr.
  unfold handle, CentralOrderBook_cancelOrder. rewrite Hs.
  destruct (OrderBook_find orig (m_sessionId o) (m_side o) (book_of cob (m_securityId o))) as [[p found]|] eqn:Hfind.
  - pose proof (proj1 (find_Some _ _ _ _ _ _) Hfind) as (Hns & Hp & _).
    destruct (taskCancelOrder_found fuel addr i o orig p found cob Hf Hinv Hq Hroom Hfind)
      as (cob' & l1 & k & l2 & El & Hid & Hl1 & Hrun & (q & q' & Eq & Ec & Lq & Iq) & Hinv').
    pose proof (side_of_rel (ptr_bid p) _ _ Hbr) as Hsr. rewrite El in Hsr.
    destruct (take_out_rel _ _ _ _ _ _ _ Hsr Hid Hl1) as (s & ss & Et & Hrel & Hss).
    exists cob', [OutgoingMessage_new (Order_cancel found) CANCELED ($"Order canceled")].
    split; [exact Hrun|]. split; [done|].
    assert (side_of_request (m_side o) = Some (ptr_bid p)) as -> by (rewrite Hp; by destruct (m_side o)).
    simpl. rewrite Et. simpl. split_and!.
    + eapply set_book_rel; [exact Hx|by apply (with_side_rel (ptr_bid p) _ _ _ _ Hbr Hss)|by rewrite Ec..].
    + constructor; [|constructor]. apply mr_canceled; [by split|]. by destruct Hrel; split.
    + split; [exists q, q'; by rewrite Ec|]. by rewrite Ec.
  - destruct (taskCancelOrder_missing fuel addr i o orig cob Hf Hinv Hq Hroom Hfind)
      as (cob' & text & Et & Hrun & (q & q' & Eq & Ec & Lq & Iq) & Hinv').
    exists cob', [OutgoingMessage_new o REJECTED text]. split; [exact Hrun|]. split; [done|].
    assert (exchange_rel cob' x) as Hx'.
    { destruct Hx as [Hx1 Hx2]. split; [by rewrite Ec|]. intros s. rewrite Ec. unfold book_of at 1. simpl.
      destruct (decide (s = m_securityId o)) as [->|Hne]; [by rewrite lookup_insert_eq|].
      rewrite lookup_insert_ne by done. apply Hx2. }
    assert (Spec.serve (Spec.Cancel (m_securityId o) (m_clientOrderID o) (m_sessionId o)
      (side_of_request (m_side o)) orig) x = (x, [Spec.Rejected (m_clientOrderID o) (m_sessionId o)])) as ->.
    { pose proof (λ b, find_None orig (m_sessionId o) b (book_of cob (m_securityId o))) as HN.
      destruct (m_side o); cbn [Spec.serve side_of_request]; [done| |].
      - rewrite (take_out_none orig (m_sessionId o) _ _ (side_of_rel true _ _ Hbr)); [done|]. by apply (HN true).
      - rewrite (take_out_none orig (m_sessionId o) _ _ (side_of_rel false _ _ Hbr)); [done|]. by apply (HN false). }
    split_and!; [done| |].
    + constructor; [|constructor]. by apply mr_rejected.
    + split; [exists q, q'; by rewrite Ec|]. by rewrite Ec.
Qed.

(** One request is one step of the specification. *)
Lemma handle_rel fuel addr i r sr cob x :
  (0 < fuel)%nat → cob_inv cob → m_isMatchingMultithreaded cob = false → m_orderNumber cob < INT_MAX →
  m_queueIDDictionary cob !! request_security r = Some i → request_rel r sr →
  queue_room i (request_reports r cob) cob → exchange_rel cob x →
  ∃ cob' msgs, handle fuel addr r cob = Ok cob' ∧ cob_inv cob' ∧
    exchange_rel cob' (Spec.serve sr x).1 ∧ Forall2 message_rel msgs (Spec.serve sr x).2 ∧
    reports_to i msgs cob cob'.
Proof. destruct r; intros; [by eapply new_rel|by eapply cancel_rel]. Qed.

(** *** Executions

    The exchange handles requests, and the threads that send reports take messages from
    the outgoing queues whenever they like. *)
Record Execution : Type := mkExecution {
  ex_cob : CentralOrderBook MQ TQ;
  ex_requests : list Request;
  ex_taken : list (Z * OutgoingMessage)  (** with the number of the queue *)
}.

(** A client whose outgoing queue has no room for the reports waits. *)
Inductive ex_step : Execution → Execution → Prop :=
  | ex_handle fuel addr i r sr cob cob' rs taken :
      (0 < fuel)%nat → request_rel r sr → m_orderNumber cob < INT_MAX →
      m_queueIDDictionary cob !! request_security r = Some i →
      queue_room i (request_reports r cob) cob →
      handle fuel addr r cob = Ok cob' →
      ex_step (mkExecution cob rs taken) (mkExecution cob' (rs ++ [r]) taken)
  | ex_take i q q' m cob rs taken :
      0 <= i → m_outgoingMessages cob !! Z.to_nat i = Some q → fifo_tryPop q = Ok (q', Some m) →
      ex_step (mkExecution cob rs taken)
        (mkExecution (with_outgoing (<[Z.to_nat i := q']> (m_outgoingMessages cob)) cob) rs (taken ++ [(i, m)])).

(** Everything ever reported through queue [i]: what was taken and what waits. *)
Definition reported (i : Z) (s : Execution) : list OutgoingMessage :=
  (snd <$> filter (λ e, e.1 = i) (ex_taken s)) ++
  match m_outgoingMessages (ex_cob s) !! Z.to_nat i with Some q => fifo_list q | None => [] end.

(** The events of the securities whose reports go through queue [i]. *)
Definition routed (ids : gmap Z Z) (i : Z) (es : list (Z * Spec.event)) : list Spec.event :=
  snd <$> filter (λ e, ids !! e.1 = Some i) es.

Record ex_inv (ids : gmap Z Z) (x0 : Spec.exchange) (s : Execution) : Prop := {
  xi_cob : cob_inv (ex_cob s);
  xi_sync : m_isMatchingMultithreaded (ex_cob s) = false;
  xi_ids : m_queueIDDictionary (ex_cob s) = ids;
  xi_queues : Forall fifo_inv (m_outgoingMessages (ex_cob s));
  xi_spec : ∃ srs, Forall2 request_rel (ex_requests s) srs ∧
    let '(x, es) := Spec.serve_all srs x0 in
    exchange_rel (ex_cob s) x ∧
    ∀ i, 0 <= i → Forall2 message_rel (reported i s) (routed ids i es)
}.

Lemma routed_request ids i r sr es :
  request_rel r sr →
  routed ids i ((Spec.security sr,.) <$> es) = if decide (ids !! request_security r = Some i) then es else [].
Proof.
  intros Hr. assert (Spec.security sr = request_security r) as -> by (by inversion Hr).
  unfold routed. induction es as [|e es IH]; simpl; [by case_decide|].
  rewrite filter_cons. cbn [fst]. case_decide; [|done].
  rewrite fmap_cons. cbn [snd]. by f_equal.
Qed.

Lemma reported_after i j msgs cob cob' rs rs' taken :
  0 <= i → 0 <= j → reports_to j msgs cob cob' →
  reported i (mkExecution cob' rs' taken) =
    reported i (mkExecution cob rs taken) ++ if decide (j = i) then msgs else [].
Proof.
  intros Hi Hj ((q & q' & Eq & Ec & Lq & _) & _). unfold reported. simpl. rewrite Ec, <- app_assoc. f_equal.
  case_decide as Hd.
  - subst j. rewrite list_lookup_insert_eq by (by eapply lookup_lt_Some). by rewrite Eq.
  - rewrite list_lookup_insert_ne by lia. by rewrite app_nil_r.
Qed.

(** The messages of a request are those of the specification, whatever was taken before. *)
Lemma reports_routed ids i r sr msgs es es' cob cob' rs rs' taken :
  request_rel r sr → ids !! request_security r = Some i → 0 <= i → reports_to i msgs cob cob' →
  Forall2 message_rel msgs es' →
  (∀ j, 0 <= j → Forall2 message_rel (reported j (mkExecution cob rs taken)) (routed ids j es)) →
  ∀ j, 0 <= j → Forall2 message_rel (reported j (mkExecution cob' rs' taken))
    (routed ids j (es ++ ((Spec.security sr,.) <$> es'))).
Proof.
  intros Hr Hid Hi Hto Hms Hm j Hj. rewrite (reported_after j i msgs cob _ rs _ taken) by done.
  unfold routed. rewrite filter_app, fmap_app. fold (routed ids j ((Spec.security sr,.) <$> es')).
  apply Forall2_app; [by apply Hm|]. rewrite (routed_request _ _ r) by done. rewrite Hid.
  repeat case_decide; by simplify_eq.
Qed.

(** Taking a message changes what waits, not what was reported. *)
Lemma reported_take i j q q' m cob rs taken :
  0 <= i → 0 <= j → m_outgoingMessages cob !! Z.to_nat i = Some q → fifo_list q = m :: fifo_list q' →
  reported j (mkExecution (with_outgoing (<[Z.to_nat i := q']> (m_outgoingMessages cob)) cob) rs (taken ++ [(i, m)])) =
    reported j (mkExecution cob rs taken).
Proof.
  intros Hi Hj Eq El. unfold reported. simpl. rewrite filter_app, fmap_app, <- app_assoc. f_equal.
  rewrite filter_cons. simpl. case_decide as Hd.
  - subst j. rewrite list_lookup_insert_eq by (by eapply lookup_lt_Some). by rewrite Eq, El.
  - by rewrite list_lookup_insert_ne by lia.
Qed.

Lemma ex_handle_inv ids x0 fuel addr j r sr cob cob' rs taken :
  ex_inv ids x0 (mkExecution cob rs taken) →
  (0 < fuel)%nat → request_rel r sr → m_orderNumber cob < INT_MAX →
  m_queueIDDictionary cob !! request_security r = Some j →
  queue_room j (request_reports r cob) cob → handle fuel addr r cob = Ok cob' →
  ex_inv ids x0 (mkExecution cob' (rs ++ [r]) taken).
Proof.
  intros [H1 H2 H3 H4 (srs & Hsrs & Hspec)] Hf Hr Hn Hid Hroom Hrun. simpl in *.
  destruct (Spec.serve_all srs x0) as [x es] eqn:Es. destruct Hspec as [Hx Hm].
  destruct (handle_rel fuel addr j r sr cob x Hf H1 H2 Hn Hid Hr Hroom Hx)
    as (c & msgs & Hrun' & Hinv & Hx' & Hms & Hto).
  rewrite Hrun in Hrun'. simplify_eq. pose proof Hto as ((q & q' & Eq & Ec & Lq & Iq) & Ed & Et).
  split; simpl; [done|congruence|congruence| |].
  - rewrite Ec. apply Forall_insert; [done|]. apply Iq. by eapply Forall_lookup in Eq; [|exact H4].
  - exists (srs ++ [sr]). split; [by apply Forall2_app; [|constructor]|].
    rewrite Spec.serve_all_snoc, Es. destruct (Spec.serve sr x) as [x' es']. simpl in *. split; [done|].
    destruct Hroom as [Hj _]. by eapply reports_routed.
Qed.

Lemma ex_take_inv ids x0 i q q' m cob rs taken :
  ex_inv ids x0 (mkExecution cob rs taken) →
  0 <= i → m_outgoingMessages cob !! Z.to_nat i = Some q → fifo_tryPop q = Ok (q', Some m) →
  ex_inv ids x0
    (mkExecution (with_outgoing (<[Z.to_nat i := q']> (m_outgoingMessages cob)) cob) rs (taken ++ [(i, m)])).
Proof.
  intros [[Hn Hb] H2 H3 H4 (srs & Hsrs & Hspec)] Hi Eq Hpop. simpl in *.
  assert (fifo_inv q) as Iq by (by eapply Forall_lookup in Eq; [|exact H4]).
  destruct (fifo_pop_inv q q' m Iq Hpop) as (El & Iq' & _).
  split; simpl; [by split|done|done|by apply Forall_insert|].
  exists srs. split; [done|]. destruct (Spec.serve_all srs x0) as [x es]. destruct Hspec as [[Hx1 Hx2] Hm].
  split; [by split|]. intros j Hj. rewrite (reported_take i j q q' m) by done. by apply Hm.
Qed.

Lemma ex_inv_reachable ids x0 s s' : rtc ex_step s s' → ex_inv ids x0 s → ex_inv ids x0 s'.
Proof.
  induction 1 as [|s1 s2 s3 Hstep _ IH]; intros Hi; [done|]. apply IH.
  destruct Hstep; [by eapply ex_handle_inv|by eapply ex_take_inv].
Qed.
End exchange.
Arguments Execution : clear implicits.
Arguments mkExecution {MQ TQ}.

(** An exchange before its first request. *)
Record exchange_start {MQ TQ} `{!Fifo OutgoingMessage MQ} (cob : CentralOrderBook MQ TQ) : Prop := {
  es_inv : cob_inv cob;
  es_sync : m_isMatchingMultithreaded cob = false;
  es_queues : Forall (λ q, fifo_inv q ∧ fifo_list q = []) (m_outgoingMessages cob);
  es_books sec : book_of cob sec = OrderBook_empty
}.

Definition spec_start {MQ TQ} (cob : CentralOrderBook MQ TQ) : Spec.exchange :=
  Spec.mkExchange (m_orderNumber cob) (λ _, Spec.empty).

Lemma exchange_start_inv {MQ TQ} `{!Fifo OutgoingMessage MQ} (cob : CentralOrderBook MQ TQ) :
  exchange_start cob → ex_inv (m_queueIDDictionary cob) (spec_start cob) (mkExecution cob [] []).
Proof.
  intros [H1 H2 H3 H4]. split; simpl; try done.
  - eapply Forall_impl; [exact H3|]. by intros q [Hq _].
  - exists []. split; [constructor|]. simpl. split.
    + split; [done|]. intros sec. rewrite H4. by split; constructor.
    + intros i _. unfold reported, routed. simpl.
      destruct (_ !! _) as [q|] eqn:E; [|constructor].
      eapply Forall_lookup in H3 as [_ ->]; [|exact E]. constructor.
Qed.

(** C2: The single-threaded exchange refines the specification. Take any execution from
    the start: requests with integral prices, handled when their outgoing queue has room,
    and reports taken from the queues in between, in any interleaving. Serving the same
    requests on [Spec] gives the number of the last order, every book, and, for every
    outgoing queue, exactly the messages reported through it, in order. And a request
    that finds room is handled: [addOrder] and [cancelOrder] return. *)
Theorem exchange_refines_spec {MQ TQ} `{!Fifo OutgoingMessage MQ} `{!FifoLaws OutgoingMessage MQ}
    `{!Fifo MatchTask TQ} (cob : CentralOrderBook MQ TQ) (s : Execution MQ TQ)
    (Hstart : exchange_start cob) (Hreach : rtc ex_step (mkExecution cob [] []) s) :
  (∃ srs, Forall2 request_rel (ex_requests s) srs ∧
    let '(x, es) := Spec.serve_all srs (spec_start cob) in
    exchange_rel (ex_cob s) x ∧
    ∀ i, 0 <= i → Forall2 message_rel (reported i s) (routed (m_queueIDDictionary cob) i es)) ∧
  (∀ fuel addr i r sr, (0 < fuel)%nat → request_rel r sr → m_orderNumber (ex_cob s) < INT_MAX →
    m_queueIDDictionary cob !! request_security r = Some i →
    queue_room i (request_reports r (ex_cob s)) (ex_cob s) →
    ∃ cob', handle fuel addr r (ex_cob s) = Ok cob').
Proof.
  pose proof (ex_inv_reachable _ _ _ _ Hreach (exchange_start_inv cob Hstart)) as [H1 H2 H3 H4 H5].
  split; [exact H5|]. destruct H5 as (srs & _ & Hspec).
  destruct (Spec.serve_all srs (spec_start cob)) as [x es]. destruct Hspec as [Hx _].
  intros fuel addr i r sr Hf Hr Hn Hid Hroom. rewrite <- H3 in Hid.
  destruct (handle_rel fuel addr i r sr (ex_cob s) x) as (c & _ & Hrun & _); try done. by exists c.
Qed.

(** ** Worker threads *)

Inductive task_rel : MatchTask → Spec.task → Prop :=
  | tr_enter o s : order_rel o s → task_rel (TaskNewOrder o) (Spec.Enter s)
  | tr_remove o orig :
      task_rel (TaskCancelOrder o orig) (Spec.Remove (m_sessionId o) (side_of_request (m_side o)) orig).

Lemma cancel_book_rel n sec o orig book bk :
  book_inv n sec book → book_rel book bk →
  ∃ book', task_book (TaskCancelOrder o orig) book = Ok book' ∧
    book_rel book' (Spec.run_task (Spec.Remove (m_sessionId o) (side_of_request (m_side o)) orig) bk) ∧
    book_inv n sec book'.
Proof.
  intros Hb Hr. cbn [task_book].
  destruct (OrderBook_find orig (m_sessionId o) (m_side o) book) as [[p found]|] eqn:Hfind.
  - pose proof (proj1 (find_Some _ _ _ _ _ _) Hfind) as (Hns & Hp & _ & _ & _ & _ & _ & Hid & _).
    destruct (cancel_book_inv _ _ _ _ _ _ _ _ Hb Hfind) as (l1 & k & l2 & El & Hl1 & Her & Hb').
    pose proof (side_of_rel (ptr_bid p) _ _ Hr) as Hsr. rewrite El in Hsr.
    destruct (take_out_rel _ _ _ _ _ _ _ Hsr Hid Hl1) as (s & ss & Et & _ & Hss).
    eexists. split; [done|]. rewrite Her. split; [|done].
    assert (side_of_request (m_side o) = Some (ptr_bid p)) as -> by (rewrite Hp; by destruct (m_side o)).
    cbn [Spec.run_task]. rewrite Et. by apply (with_side_rel (ptr_bid p) _ _ _ _ Hr Hss).
  - exists book. split; [done|]. split; [|done].
    pose proof (λ b, find_None orig (m_sessionId o) b book) as HN.
    destruct (m_side o); cbn [Spec.run_task side_of_request]; [done| |].
    + rewrite (take_out_none orig (m_sessionId o) _ _ (side_of_rel true _ _ Hr)); [done|]. by apply (HN true).
    + rewrite (take_out_none orig (m_sessionId o) _ _ (side_of_rel false _ _ Hr)); [done|]. by apply (HN false).
Qed.

(** Replaying the tasks of one book is running them on the specification. *)
Lemma replay_rel n sec tasks sts book bk book' :
  Forall (λ t, task_security t = sec) tasks → numbered n tasks → book_inv n sec book →
  book_rel book bk → Forall2 task_rel tasks sts → replay tasks book = Ok book' →
  book_rel book' (Spec.run_tasks sts bk).
Proof.
  intros Hsec Hn Hb Hr Ht. revert n book bk Hsec Hn Hb Hr.
  induction Ht as [|t st tasks sts Ht _ IH]; intros n book bk Hsec Hn Hb Hr Hrun; simpl in Hrun; [by simplify_eq|].
  apply Forall_cons in Hsec as [Hs Hsec]. apply bind_Ok_inv in Hrun as (b1 & E1 & Hrun).
  destruct Ht as [o s Ho|o orig]; simpl in Hn, Hs.
  - destruct Hn as (Hl & Hside & Hlt & Hn).
    destruct (match_rel o s book bk) as (b & fs & r & Hm & Hr1 & _); try done; [apply Hb|apply Hb|].
    destruct (match_book_inv (m_orderID o - 1) sec o book) as (b2 & trades & Hm2 & Hb2 & _);
      [eapply book_inv_mono; [|exact Hb]; lia|done|lia|split_and!; (done || lia)|].
    simpl in E1. rewrite Hm in E1, Hm2. simplify_eq/=.
    apply (IH (m_orderID o) b1 (Spec.enter s bk).1); try done.
    by replace (m_orderID o - 1 + 1) with (m_orderID o) in Hb2 by lia.
  - destruct (cancel_book_rel n sec o orig book bk Hb Hr) as (b & Ec & Hr1 & Hb1).
    rewrite Ec in E1. simplify_eq. by eapply (IH n b1).
Qed.

(** C3: With worker threads too: whatever the interleaving of clients and workers, the
    book of a security is what the specification makes of the requests handled so far,
    which are the first of those submitted for it, all but the ones that wait in its
    queue. *)
Theorem threaded_refines_spec {MQ TQ} `{!Fifo OutgoingMessage MQ} `{!Fifo MatchTask TQ} `{!FifoLaws MatchTask TQ}
    (cob : CentralOrderBook MQ TQ) (s : ThreadedState MQ TQ) (sec queueID : Z) (sts : list Spec.task)
    (Hstart : threaded_start cob) (Hreach : rtc threaded_step (mkThreadedState cob [] []) s)
    (Hqueue : m_queueIDDictionary (th_cob s) !! sec = Some queueID)
    (Htasks : Forall2 task_rel (for_security sec (th_submitted s)) sts) :
  let waiting := length (for_security sec (pending queueID (th_cob s))) in
  book_rel (book_of (th_cob s) sec) (Spec.run_tasks (take (length sts - waiting) sts) Spec.empty).
Proof.
  intros waiting. pose proof (threaded_inv_reachable _ _ Hreach (threaded_start_inv _ Hstart)) as Hinv.
  destruct (threaded_book s sec queueID Hinv Hqueue) as (H1 & H2 & _).
  pose proof (numbered_filter 0 sec _ (ti_numbered _ Hinv)) as Hn.
  rewrite H2 in Htasks, Hn. apply numbered_app in Hn as [Hn _].
  apply Forall2_app_inv_l in Htasks as (sts1 & sts2 & Ht1 & Ht2 & ->).
  apply Forall2_length in Ht2 as Hlen. fold waiting in Hlen.
  assert (length (sts1 ++ sts2) - waiting = length sts1)%nat as -> by (rewrite length_app; lia).
  rewrite take_app_length. eapply replay_rel; [|exact Hn|apply (book_inv_empty 0 sec)| |exact Ht1|exact H1].
  - apply for_security_all.
  - by split; constructor.
Qed.

(** ** An execution: a sell order, a report taken, and a buy order that trades with it *)

Definition demo_sell : Request := ReqNew (demo_order_of 0 SELL 100 5).
Definition demo_buy : Request := ReqNew (demo_order_of 0 BUY 101 3).
Definition demo_handled (r : Request) (cob : demo_cob) : demo_cob :=
  match handle 1 0 r cob with Ok c => c | _ => cob end.
Definition demo_take (cob : demo_cob) : demo_cob :=
  match m_outgoingMessages cob !! 0%nat with
  | Some q => match fifo_tryPop q with
              | Ok (q', _) => with_outgoing (<[0%nat := q']> (m_outgoingMessages cob)) cob
              | _ => cob end
  | None => cob
  end.
Definition demo_ex1 : demo_cob := demo_handled demo_sell (demo_setup false).
Definition demo_ex2 : demo_cob := demo_take demo_ex1.
Definition demo_ex3 : demo_cob := demo_handled demo_buy demo_ex2.
Definition demo_report : OutgoingMessage :=
  OutgoingMessage_new (Order_setOrderId 1 (demo_order_of 0 SELL 100 5)) ACCEPTED [].

Lemma demo_request_rel sec side p q : exact_long p → 0 < q <= LONG_MAX → side ≠ SIDE_NON_SUPPORTED →
  request_rel (ReqNew (demo_order_of sec side p q)) (Spec.New sec ($"X") 1 (bool_decide (side = BUY)) p q).
Proof.
  intros Hp Hq Hs. apply (rr_new (demo_order_of sec side p q) p); try done.
  apply Order_new_live; [done|apply of_long_not_nan].
Qed.

Lemma demo_queue_room n (cob : demo_cob) q :
  m_outgoingMessages cob !! 0%nat = Some q → rb_inv q → Z.of_nat n <= INT_MAX - m_write q →
  m_write q - m_read q + Z.of_nat n <= m_capacity q → queue_room 0 n cob.
Proof.
  intros E Hi Hc Hl. split; [done|]. exists q. split; [done|]. split; [done|].
  pose proof (rb_list_length q Hi). destruct Hi. split; simpl in *; lia.
Qed.

Lemma demo_exchange_start : exchange_start (demo_setup false).
Proof.
  split; [apply demo_setup_inv|reflexivity| |].
  - repeat constructor; vm_compute; repeat split; discriminate.
  - intros sec. unfold book_of. change (m_orderBookDictionary (demo_setup false)) with (∅ : gmap Z OrderBook).
    by rewrite lookup_empty.
Qed.

Lemma demo_execution : rtc ex_step (mkExecution (demo_setup false) [] [])
  (mkExecution demo_ex3 [demo_sell; demo_buy] [(0, demo_report)]).
Proof.
  eapply rtc_l.
  { apply (ex_handle 1 0 0 demo_sell (Spec.New 0 ($"X") 1 false 100 5) _ demo_ex1);
      [lia|apply demo_request_rel; [done|mlia|done]|reflexivity|reflexivity| |vm_compute; reflexivity].
    apply demo_room. vm_compute. lia. }
  eapply rtc_l.
  { eapply (ex_take 0 _ _ demo_report demo_ex1); [lia|vm_compute; reflexivity|vm_compute; reflexivity]. }
  eapply rtc_once.
  apply (ex_handle 1 0 0 demo_buy (Spec.New 0 ($"X") 1 true 101 3) demo_ex2 demo_ex3);
    [lia|apply demo_request_rel; [done|mlia|done]|reflexivity|reflexivity| |vm_compute; reflexivity].
  eapply demo_queue_room; [vm_compute; reflexivity| |vm_compute; discriminate..].
  split; vm_compute; repeat split; discriminate.
Qed.

Lemma exchange_refines_spec_witness :
  (∃ srs, Forall2 request_rel [demo_sell; demo_buy] srs ∧
    let '(x, es) := Spec.serve_all srs (spec_start (demo_setup false)) in
    exchange_rel demo_ex3 x ∧
    ∀ i, 0 <= i → Forall2 message_rel (reported i (mkExecution demo_ex3 [demo_sell; demo_buy] [(0, demo_report)]))
      (routed (m_queueIDDictionary (demo_setup false)) i es)) ∧
  (∀ fuel addr i r sr, (0 < fuel)%nat → request_rel r sr → m_orderNumber demo_ex3 < INT_MAX →
    m_queueIDDictionary (demo_setup false) !! request_security r = Some i →
    queue_room i (request_reports r demo_ex3) demo_ex3 →
    ∃ cob', handle fuel addr r demo_ex3 = Ok cob').
Proof. apply (exchange_refines_spec _ _ demo_exchange_start demo_execution). Defined.

Lemma threaded_refines_spec_witness :
  book_rel (book_of demo_cob3 1)
    (Spec.run_tasks [Spec.Enter (Spec.mkOrder 2 ($"X") 1 false 90 3)] Spec.empty).
Proof.
  apply (threaded_refines_spec (demo_setup true) _ 1 1 [Spec.Enter (Spec.mkOrder 2 ($"X") 1 false 90 3)]
    demo_start demo_reach); [reflexivity|].
  constructor; [apply tr_enter; split; (reflexivity || done)|constructor].
Defined.
