(* ===== verification/FixConstants.v ===== *)
(** * [fix/fix_constants.h]

    Versions, message types and their texts, and the tags. The enumerations of the
    source are plain [int]s that index tables of C strings, so they are [Z] here. *)
From Stdlib Require Import ZArith Lia Ascii String.
From stdpp Require Import base decidable list gmap strings.
From S2P Require Import Prelude.
From S2P Require Import MachineInt.
From S2P Require Import StringUtility.
Local Open Scope Z_scope.

Definition FIX_VERSION_NONE : Z := 0.
Definition FIX_4_0 : Z := 1.
Definition FIX_4_1 : Z := 2.
Definition FIX_4_2 : Z := 3.
Definition FIX_4_3 : Z := 4.
Definition FIX_4_4 : Z := 5.
Definition FIX_5_0 : Z := 6.
Definition FIX_5_0SP1 : Z := 7.
Definition FIX_5_0SP2 : Z := 8.

Definition FIX_VERSION_STRINGS : list str :=
  [$"NONE"; $"FIX.4.0"; $"FIX.4.1"; $"FIX.4.2"; $"FIX.4.3"; $"FIX.4.4"; $"FIX.5.0"; $"FIX.5.0SP1"; $"FIX.5.0SP2"].

Definition MESSAGE_TYPE_NONE : Z := 0.
Definition LOGON : Z := 1.
Definition LOGOFF : Z := 2.
Definition TEST_REQUEST : Z := 3.
Definition RESEND_REQUEST : Z := 4.
Definition ADMIN_REJECT : Z := 5.
Definition SEQUENCE_RESET : Z := 6.
Definition HEARTBEAT : Z := 7.
Definition USER_LOGON : Z := 8.
Definition USER_RESPONSE : Z := 9.
Definition NEW_ORDER : Z := 10.
Definition CANCEL : Z := 11.
Definition EXECUTION_REPORT : Z := 12.
Definition BUSINESS_REJECT : Z := 13.

Definition FIX_MESSAGE_TYPE_STRINGS : list str :=
  [$"NONE"; $"A"; $"5"; $"1"; $"2"; $"3"; $"4"; $"0"; $"BE"; $"BF"; $"D"; $"F"; $"8"; $"j"].

Definition FIX_EQUALS : ascii := "="%char.
Definition FIX_DELIMITER : ascii := chr 1.

Definition FIX_TAG_AVERAGE_PRICE : Z := 6.
Definition FIX_TAG_VERSION : Z := 8.
Definition FIX_TAG_BODY_LENGTH : Z := 9.
Definition FIX_TAG_BODY_CHECKSUM : Z := 10.
Definition FIX_TAG_CLIENT_ORDER_ID : Z := 11.
Definition FIX_TAG_CUMULATIVE_QUANTITY : Z := 14.
Definition FIX_TAG_EXEC_ID : Z := 17.
Definition FIX_TAG_EXEC_INST : Z := 18.
Definition FIX_TAG_EXEC_TRANSTYPE : Z := 20.
Definition FIX_TAG_HAND_INST : Z := 21.
Definition FIX_TAG_LAST_PRICE : Z := 31.
Definition FIX_TAG_LAST_QUANTITY : Z := 32.
Definition FIX_TAG_SEQUENCE_NUMBER : Z := 34.
Definition FIX_TAG_MESSAGE_TYPE : Z := 35.
Definition FIX_TAG_ORDER_ID : Z := 37.
Definition FIX_TAG_ORDER_QUANTITY : Z := 38.
Definition FIX_TAG_ORDER_STATUS : Z := 39.
Definition FIX_TAG_ORDER_TYPE : Z := 40.
Definition FIX_TAG_ORIG_CLIENT_ORDER_ID : Z := 41.
Definition FIX_TAG_ORDER_PRICE : Z := 44.
Definition FIX_TAG_REF_SEQ_NUM : Z := 45.
Definition FIX_TAG_SECURITY_ID : Z := 48.
Definition FIX_TAG_SENDER_COMPID : Z := 49.
Definition FIX_TAG_SENDER_SUBID : Z := 50.
Definition FIX_TAG_SENDING_TIME : Z := 52.
Definition FIX_TAG_ORDER_SIDE : Z := 54.
Definition FIX_TAG_SYMBOL : Z := 55.
Definition FIX_TAG_TARGET_COMPID : Z := 56.
Definition FIX_TAG_TARGET_SUBID : Z := 57.
Definition FIX_TAG_FREE_TEXT : Z := 58.
Definition FIX_TAG_TIME_IN_FORCE : Z := 59.
Definition FIX_TAG_TRANSACTION_TIME : Z := 60.
Definition FIX_TAG_ENCRYPT_METHOD : Z := 98.
Definition FIX_TAG_HEARBEAT_INTERVAL : Z := 108.
Definition FIX_TAG_TEST_REQUEST_ID : Z := 112.
Definition FIX_TAG_EXEC_TYPE : Z := 150.
Definition FIX_TAG_LEAVES_QTY : Z := 151.
Definition FIX_TAG_USERNAME : Z := 553.
Definition FIX_TAG_PASSWORD : Z := 554.
Definition FIX_TAG_REF_TAG : Z := 371.
Definition FIX_TAG_REF_MSG_TYPE : Z := 372.
Definition FIX_TAG_REJECT_REASON : Z := 373.
Definition FIX_TAG_USER_REQUEST_ID : Z := 923.
Definition FIX_TAG_USER_PASSWORD : Z := 924.
Definition FIX_ORDER_STATUS_NEW : Z := 0.
Definition FIX_ORDER_STATUS_PARTIALLY_FILLED : Z := 1.
Definition FIX_ORDER_STATUS_FILLED : Z := 2.
Definition FIX_ORDER_STATUS_DONE_FOR_DAY : Z := 3.
Definition FIX_ORDER_STATUS_CANCELED : Z := 4.
Definition FIX_ORDER_STATUS_REPLACED : Z := 5.
Definition FIX_ORDER_STATUS_PENDING_CANCEL : Z := 6.
Definition FIX_ORDER_STATUS_STOPPED : Z := 7.
Definition FIX_ORDER_STATUS_REJECTED : Z := 8.
Definition FIX_ORDER_TYPE_MARKET : Z := 1.
Definition FIX_ORDER_TYPE_LIMIT : Z := 2.
Definition FIX_ORDER_SIDE_BUY : Z := 1.
Definition FIX_ORDER_SIDE_SELL : Z := 2.
Definition FIX_ORDER_TIF_DAY : Z := 0.
Definition FIX_ENCRYPTION_NONE : Z := 0.

Definition getFixVersionFromString (version : str) : Z :=
  if compare version ($"FIX.4.0") then FIX_4_0
  else if compare version ($"FIX.4.1") then FIX_4_1
  else if compare version ($"FIX.4.2") then FIX_4_2
  else if compare version ($"FIX.4.3") then FIX_4_3
  else if compare version ($"FIX.4.4") then FIX_4_4
  else if compare version ($"FIX.5.0") then FIX_5_0
  else if compare version ($"FIX.5.0SP1") then FIX_5_0SP1
  else if compare version ($"FIX.5.0SP2") then FIX_5_0SP2
  else FIX_VERSION_NONE.

Definition getMessageTypeFromString (messageType : str) : Z :=
  if compare messageType ($"A") then LOGON
  else if compare messageType ($"0") then HEARTBEAT
  else if compare messageType ($"1") then TEST_REQUEST
  else if compare messageType ($"2") then RESEND_REQUEST
  else if compare messageType ($"4") then SEQUENCE_RESET
  else if compare messageType ($"5") then LOGOFF
  else if compare messageType ($"BE") then USER_LOGON
  else if compare messageType ($"BF") then USER_RESPONSE
  else if compare messageType ($"D") then NEW_ORDER
  else if compare messageType ($"F") then CANCEL
  else if compare messageType ($"8") then EXECUTION_REPORT
  else if compare messageType ($"3") then ADMIN_REJECT
  else if compare messageType ($"j") then BUSINESS_REJECT
  else MESSAGE_TYPE_NONE.

(** ** Both conversions invert their tables *)

(** Two texts that compare equal with one another compare alike with a third. *)
Lemma compare_eq_l s1 s2 t : compare s1 s2 = true → compare s1 t = compare s2 t.
Proof. rewrite compare_spec. unfold compare. intros ->. done. Qed.

Lemma version_of_table v s : FIX_VERSION_STRINGS !! v = Some s → getFixVersionFromString s = Z.of_nat v.
Proof. intros H. do 9 (destruct v as [|v]; [injection H as <-; reflexivity|]). destruct v; discriminate H. Qed.

Lemma type_of_table t s : FIX_MESSAGE_TYPE_STRINGS !! t = Some s → getMessageTypeFromString s = Z.of_nat t.
Proof. intros H. do 14 (destruct t as [|t]; [injection H as <-; reflexivity|]). destruct t; discriminate H. Qed.

Lemma version_compare s1 s2 : compare s1 s2 = true → getFixVersionFromString s1 = getFixVersionFromString s2.
Proof. intros H. unfold getFixVersionFromString. by rewrite !(compare_eq_l s1 s2) by done. Qed.

Lemma type_compare s1 s2 : compare s1 s2 = true → getMessageTypeFromString s1 = getMessageTypeFromString s2.
Proof. intros H. unfold getMessageTypeFromString. by rewrite !(compare_eq_l s1 s2) by done. Qed.

(** A text is read as a version exactly when it is, up to case, the text of that
    version in the table; every other text is no version. *)
Theorem version_text (s : str) (v : nat) : (0 < v < 9)%nat →
  getFixVersionFromString s = Z.of_nat v ↔
  ∃ t, FIX_VERSION_STRINGS !! v = Some t ∧ compare s t = true.
Proof.
  intros Hv. split.
  - intros H. unfold getFixVersionFromString in H.
    repeat match type of H with
    | (if compare s ?t then ?x else _) = _ =>
        destruct (compare s t) eqn:E;
        [assert (v = Z.to_nat x) as -> by (rewrite H; lia); exists t; split; [reflexivity|exact E]|clear E]
    end.
    unfold FIX_VERSION_NONE in H. lia.
  - intros (t & Ht & Hc). rewrite (version_compare s t Hc). by apply version_of_table.
Qed.

(** A text is read as a message type exactly when it is, up to case, the text of that type
    in the table; every other text is no message type. *)
Theorem message_type_text (s : str) (v : nat) : (0 < v < 14)%nat →
  getMessageTypeFromString s = Z.of_nat v ↔
  ∃ t, FIX_MESSAGE_TYPE_STRINGS !! v = Some t ∧ compare s t = true.
Proof.
  intros Hv. split.
  - intros H. unfold getMessageTypeFromString in H.
    repeat match type of H with
    | (if compare s ?t then ?x else _) = _ =>
        destruct (compare s t) eqn:E;
        [assert (v = Z.to_nat x) as -> by (rewrite H; lia); exists t; split; [reflexivity|exact E]|clear E]
    end.
    unfold MESSAGE_TYPE_NONE in H. lia.
  - intros (t & Ht & Hc). rewrite (type_compare s t Hc). by apply type_of_table.
Qed.

Lemma version_text_witness :
  getFixVersionFromString ($"fix.4.2") = Z.of_nat 3 ↔
  ∃ t, FIX_VERSION_STRINGS !! 3%nat = Some t ∧ compare ($"fix.4.2") t = true.
Proof. apply version_text. lia. Defined.

Lemma message_type_text_witness :
  getMessageTypeFromString ($"J") = Z.of_nat 13 ↔
  ∃ t, FIX_MESSAGE_TYPE_STRINGS !! 13%nat = Some t ∧ compare ($"J") t = true.
Proof. apply message_type_text. lia. Defined.
