(* ===== verification/FixMessage.v ===== *)
(** * [fix/fix_message.cpp]

    A message: the header fields and the other tags in a hash table. The hash table
    is iterated in an order the C++ library does not specify; it is the parameter
    [BodyOrder] of the definitions that iterate. *)
From Stdlib Require Import ZArith Lia Ascii String SpecFloat.
From stdpp Require Import base decidable sets list list_numbers gmap strings.
From S2P Require Import Prelude.
From S2P Require Import MachineInt.
From S2P Require Import StringUtility.
From S2P Require Import Double.
From S2P Require Import FixConstants.
Local Open Scope Z_scope.

Record FixMessage : Type := mkFixMessage {
  m_fixVersion : Z;
  m_sequenceNumber : Z;
  m_messageType : Z;
  m_senderCompId : str;
  m_targetCompId : str;
  m_sendingTime : str;
  m_bodyTagValuePairs : gmap Z str
}.

#[export] Instance FixMessage_eq_dec : EqDecision FixMessage.
Proof. solve_decision. Defined.

(** The constructor leaves [m_messageType] as it was in memory: [junk]. *)
Definition FixMessage_new (junk : Z) : FixMessage :=
  mkFixMessage FIX_VERSION_NONE 1 junk [] [] [] ∅.

Definition FixMessage_reset : FixMessage := mkFixMessage FIX_VERSION_NONE 1 0 [] [] [] ∅.

Definition setFixVersion (v : Z) (m : FixMessage) : FixMessage :=
  mkFixMessage v (m_sequenceNumber m) (m_messageType m) (m_senderCompId m) (m_targetCompId m)
    (m_sendingTime m) (m_bodyTagValuePairs m).
Definition setSequenceNumber (n : Z) (m : FixMessage) : FixMessage :=
  mkFixMessage (m_fixVersion m) n (m_messageType m) (m_senderCompId m) (m_targetCompId m)
    (m_sendingTime m) (m_bodyTagValuePairs m).
Definition setMessageType (t : Z) (m : FixMessage) : FixMessage :=
  mkFixMessage (m_fixVersion m) (m_sequenceNumber m) t (m_senderCompId m) (m_targetCompId m)
    (m_sendingTime m) (m_bodyTagValuePairs m).
Definition setSenderCompId (s : str) (m : FixMessage) : FixMessage :=
  mkFixMessage (m_fixVersion m) (m_sequenceNumber m) (m_messageType m) s (m_targetCompId m)
    (m_sendingTime m) (m_bodyTagValuePairs m).
Definition setTargetCompId (s : str) (m : FixMessage) : FixMessage :=
  mkFixMessage (m_fixVersion m) (m_sequenceNumber m) (m_messageType m) (m_senderCompId m) s
    (m_sendingTime m) (m_bodyTagValuePairs m).
Definition setSendingTime (s : str) (m : FixMessage) : FixMessage :=
  mkFixMessage (m_fixVersion m) (m_sequenceNumber m) (m_messageType m) (m_senderCompId m)
    (m_targetCompId m) s (m_bodyTagValuePairs m).
Definition setBody (b : gmap Z str) (m : FixMessage) : FixMessage :=
  mkFixMessage (m_fixVersion m) (m_sequenceNumber m) (m_messageType m) (m_senderCompId m)
    (m_targetCompId m) (m_sendingTime m) b.

Definition isAdminMessage (m : FixMessage) : bool :=
  let type := m_messageType m in
  (type =? LOGOFF) || (type =? LOGON) || (type =? HEARTBEAT) || (type =? TEST_REQUEST) ||
  (type =? USER_LOGON) || (type =? ADMIN_REJECT).

Definition removeTag (tag : Z) (m : FixMessage) : FixMessage :=
  setBody (delete tag (m_bodyTagValuePairs m)) m.
Definition hasTag (tag : Z) (m : FixMessage) : bool :=
  match m_bodyTagValuePairs m !! tag with Some _ => true | None => false end.

Definition setTag (tag : Z) (value : str) (m : FixMessage) : FixMessage :=
  setBody (<[tag := value]> (m_bodyTagValuePairs m)) m.
Definition setTag_int (tag : Z) (value : Z) (m : FixMessage) : FixMessage := setTag tag (to_string value) m.
Definition setTag_long (tag : Z) (value : Z) (m : FixMessage) : FixMessage := setTag tag (to_string value) m.
Definition setTag_char (tag : Z) (value : ascii) (m : FixMessage) : FixMessage := setTag tag [value] m.
Definition setTag_double (nan_text : str) (tag : Z) (value : double) (m : FixMessage) : FixMessage :=
  setTag tag (to_string_double nan_text value) m.

(** [getTagValue] is [const], but its table is [mutable]: a tag that is not there is
    inserted with an empty value. *)
Definition getTagValue (tag : Z) (m : FixMessage) : FixMessage * str :=
  let '(b, v) := map_index tag [] (m_bodyTagValuePairs m) in (setBody b m, v).
(** [valueAsString[0]] of an empty string is the terminating zero. *)
Definition getTagValueAsChar (tag : Z) (m : FixMessage) : FixMessage * ascii :=
  let '(m, v) := getTagValue tag m in (m, match v with c :: _ => c | [] => Ascii.zero end).
Definition getTagValueAsInt (tag : Z) (m : FixMessage) : outcome (FixMessage * Z) :=
  let '(m, v) := getTagValue tag m in n ← stoi v; Ok (m, n).
Definition getTagValueAsLong (tag : Z) (m : FixMessage) : outcome (FixMessage * Z) :=
  let '(m, v) := getTagValue tag m in n ← stol v; Ok (m, n).

(** The moving of one header field out of the table. *)
Definition take_tag (tag : Z) (set : str → FixMessage → FixMessage) (m : FixMessage) : FixMessage :=
  if hasTag tag m then let '(m, v) := getTagValue tag m in removeTag tag (set v m) else m.

Definition initialiseHeader (m : FixMessage) : outcome FixMessage :=
  let m := take_tag FIX_TAG_VERSION (λ v, setFixVersion (getFixVersionFromString v)) m in
  let m := take_tag FIX_TAG_MESSAGE_TYPE (λ v, setMessageType (getMessageTypeFromString v)) m in
  m ← (if hasTag FIX_TAG_SEQUENCE_NUMBER m then
         '(m, n) ← getTagValueAsInt FIX_TAG_SEQUENCE_NUMBER m;
         Ok (removeTag FIX_TAG_SEQUENCE_NUMBER (setSequenceNumber (to_size n) m))
       else Ok m);
  let m := take_tag FIX_TAG_SENDING_TIME setSendingTime m in
  let m := take_tag FIX_TAG_SENDER_COMPID setSenderCompId m in
  Ok (take_tag FIX_TAG_TARGET_COMPID setTargetCompId m).

(** [getUtcDatetime] reads the clock: [now] is what it returns. *)
Definition setSendingAndTransactionTimeAsCurrent (now : str) (m : FixMessage) : FixMessage :=
  setTag FIX_TAG_TRANSACTION_TIME now (setTag FIX_TAG_SENDING_TIME now m).

(** Lengths are [size_t]s added to an [int]. *)
Definition add_length (n : Z) (s : str) : Z := to_int (n + Z.of_nat (length s)).

Definition calculateHeaderLength (m : FixMessage) : outcome Z :=
  type ← vec_at (m_messageType m) FIX_MESSAGE_TYPE_STRINGS;
  let headerLength := add_length 20 type in
  let headerLength := add_length headerLength (to_string (m_sequenceNumber m)) in
  let headerLength := add_length headerLength (m_senderCompId m) in
  let headerLength := add_length headerLength (m_sendingTime m) in
  Ok (add_length headerLength (m_targetCompId m)).

Definition field (tag : Z) (value : str) : str :=
  to_string tag ++ FIX_EQUALS :: value ++ [FIX_DELIMITER].

Fixpoint sum_chars (sum : Z) (s : str) : outcome Z :=
  match s with
  | [] => Ok sum
  | c :: s' => sum' ← int_add sum (schar c); sum_chars sum' s'
  end.

(** [%] rounds towards zero. *)
Definition calculateCheckSum (message : str) : outcome str :=
  sum ← sum_chars 0 message;
  Ok (padLeft (to_string (Z.rem sum 256)) 3 "0"%char).

(** The order in which the hash table is iterated. *)
Class BodyOrder : Type := {
  body_iter : gmap Z str → list (Z * str);
  body_iter_perm (b : gmap Z str) : body_iter b ≡ₚ map_to_list b
}.

Section iterating.
Context `{!BodyOrder}.

Definition calculateBodyLength (m : FixMessage) : outcome Z :=
  let bodyLength :=
    foldl (λ bodyLength tagValue,
      let keyLength := Z.of_nat (length (to_string tagValue.1)) in
      to_int (bodyLength + (keyLength + 2 + Z.of_nat (length tagValue.2))))
      0 (body_iter (m_bodyTagValuePairs m)) in
  headerLength ← calculateHeaderLength m;
  int_add bodyLength headerLength.

(** The loop over the table: [getTagValue] finds every tag it is called with. *)
Fixpoint append_tags (tags : list Z) (m : FixMessage) (out : str) : FixMessage * str :=
  match tags with
  | [] => (m, out)
  | tag :: tags' =>
      let '(m', value) := getTagValue tag m in
      append_tags tags' m' (out ++ field tag value)
  end.

Definition FixMessage_toString (m : FixMessage) (stringOutput : str) : outcome (FixMessage * str) :=
  version ← vec_at (m_fixVersion m) FIX_VERSION_STRINGS;
  let out := stringOutput ++ field FIX_TAG_VERSION version in
  bodyLength ← calculateBodyLength m;
  let out := out ++ field FIX_TAG_BODY_LENGTH (to_string bodyLength) in
  type ← vec_at (m_messageType m) FIX_MESSAGE_TYPE_STRINGS;
  let out := out ++ field FIX_TAG_MESSAGE_TYPE type in
  let out := out ++ field FIX_TAG_SEQUENCE_NUMBER (to_string (m_sequenceNumber m)) in
  let out := out ++ field FIX_TAG_SENDER_COMPID (m_senderCompId m) in
  let out := out ++ field FIX_TAG_SENDING_TIME (m_sendingTime m) in
  let out := out ++ field FIX_TAG_TARGET_COMPID (m_targetCompId m) in
  let '(m, out) := append_tags (fst <$> body_iter (m_bodyTagValuePairs m)) m out in
  checksum ← calculateCheckSum out;
  Ok (m, out ++ field FIX_TAG_BODY_CHECKSUM checksum).
End iterating.

(** * The text of a message *)

Definition fields_text (l : list (Z * str)) : str := concat ((λ kv, field kv.1 kv.2) <$> l).
Definition total_chars (s : str) : Z := list_sum_Z (schar <$> s).

#[global] Arguments field : simpl never.
#[global] Arguments fields_text : simpl never.
#[global] Arguments to_string : simpl never.

Lemma fields_text_cons k v l : fields_text ((k, v) :: l) = field k v ++ fields_text l.
Proof. reflexivity. Qed.
Lemma fields_text_app l1 l2 : fields_text (l1 ++ l2) = fields_text l1 ++ fields_text l2.
Proof. unfold fields_text. by rewrite fmap_app, concat_app. Qed.

Lemma field_length k v : Z.of_nat (length (field k v)) = Z.of_nat (length (to_string k)) + 2 + Z.of_nat (length v).
Proof. unfold field. rewrite length_app. simpl. rewrite length_app. simpl. lia. Qed.

Lemma fields_text_length l :
  Z.of_nat (length (fields_text l)) =
  list_sum_Z ((λ kv, Z.of_nat (length (to_string kv.1)) + 2 + Z.of_nat (length kv.2)) <$> l).
Proof.
  induction l as [|[k v] l IH]; [done|]. rewrite fields_text_cons, length_app, Nat2Z.inj_add, IH, field_length. done.
Qed.

Lemma schar_bounds c : -128 <= schar c <= 127.
Proof. unfold schar. pose proof (code_range c). destruct (Z.ltb_spec (code c) 128); lia. Qed.

Lemma total_chars_cons c s : total_chars (c :: s) = schar c + total_chars s.
Proof. reflexivity. Qed.

Lemma sum_chars_spec s a :
  Z.abs a + 128 * Z.of_nat (length s) <= INT_MAX → sum_chars a s = Ok (a + total_chars s).
Proof.
  revert a. induction s as [|c s IH]; intros a H; [by rewrite Z.add_0_r|].
  cbn [length sum_chars] in *. rewrite Nat2Z.inj_succ in H. pose proof (schar_bounds c).
  rewrite int_add_Ok by mlia. cbn [mbind outcome_bind]. rewrite IH by lia. rewrite total_chars_cons. f_equal. lia.
Qed.

Lemma total_chars_bounds s : Z.abs (total_chars s) <= 128 * Z.of_nat (length s).
Proof.
  induction s as [|c s IH]; [done|]. cbn [length]. rewrite total_chars_cons, Nat2Z.inj_succ.
  pose proof (schar_bounds c). lia.
Qed.

Lemma add_length_to_int n s : add_length (to_int n) s = to_int (n + Z.of_nat (length s)).
Proof. apply to_int_add_l. Qed.

(** The header fields in the order of the text. *)
Definition header_fields (type : str) (m : FixMessage) : list (Z * str) :=
  [(FIX_TAG_MESSAGE_TYPE, type); (FIX_TAG_SEQUENCE_NUMBER, to_string (m_sequenceNumber m));
   (FIX_TAG_SENDER_COMPID, m_senderCompId m); (FIX_TAG_SENDING_TIME, m_sendingTime m);
   (FIX_TAG_TARGET_COMPID, m_targetCompId m)].

Lemma calculateHeaderLength_spec m type : vec_at (m_messageType m) FIX_MESSAGE_TYPE_STRINGS = Ok type →
  calculateHeaderLength m = Ok (to_int (Z.of_nat (length (fields_text (header_fields type m))))).
Proof.
  intros E. unfold calculateHeaderLength. rewrite E. cbn [mbind outcome_bind]. f_equal.
  change 20 with (to_int 20) at 1. rewrite !add_length_to_int. f_equal.
  rewrite fields_text_length. unfold header_fields. simpl.
  change (length (to_string FIX_TAG_MESSAGE_TYPE)) with 2%nat.
  change (length (to_string FIX_TAG_SEQUENCE_NUMBER)) with 2%nat.
  change (length (to_string FIX_TAG_SENDER_COMPID)) with 2%nat.
  change (length (to_string FIX_TAG_SENDING_TIME)) with 2%nat.
  change (length (to_string FIX_TAG_TARGET_COMPID)) with 2%nat. lia.
Qed.

Section text.
Context `{!BodyOrder}.

(** What the body length counts: the text from the message type on. *)
Definition body_text (type : str) (m : FixMessage) : str :=
  fields_text (header_fields type m ++ body_iter (m_bodyTagValuePairs m)).

Lemma body_fold a l :
  foldl (λ bodyLength tagValue,
      let keyLength := Z.of_nat (length (to_string tagValue.1)) in
      to_int (bodyLength + (keyLength + 2 + Z.of_nat (length tagValue.2)))) (to_int a) l =
  to_int (a + Z.of_nat (length (fields_text l))).
Proof.
  revert a. induction l as [|[k v] l IH]; intros a; cbn [foldl].
  - simpl. by rewrite Z.add_0_r.
  - simpl fst. simpl snd. cbv zeta. rewrite to_int_add_l, IH. f_equal.
    rewrite fields_text_cons, length_app, Nat2Z.inj_add, field_length. lia.
Qed.

Lemma calculateBodyLength_spec m type : vec_at (m_messageType m) FIX_MESSAGE_TYPE_STRINGS = Ok type →
  Z.of_nat (length (body_text type m)) <= INT_MAX →
  calculateBodyLength m = Ok (Z.of_nat (length (body_text type m))).
Proof.
  intros E Hlen. unfold calculateBodyLength. rewrite (calculateHeaderLength_spec _ _ E). cbn [mbind outcome_bind].
  unfold body_text in *. rewrite fields_text_app, length_app, Nat2Z.inj_add in *.
  change 0 with (to_int 0) at 1. rewrite body_fold.
  rewrite !to_int_small by mlia. rewrite int_add_Ok by mlia. f_equal. lia.
Qed.

Lemma append_tags_spec l m out : (∀ k v, (k, v) ∈ l → m_bodyTagValuePairs m !! k = Some v) →
  append_tags (fst <$> l) m out = (m, out ++ fields_text l).
Proof.
  revert out. induction l as [|[k v] l IH]; intros out Hl; simpl; [by rewrite app_nil_r|].
  unfold getTagValue, map_index. rewrite (Hl k v) by (by left).
  assert (setBody (m_bodyTagValuePairs m) m = m) as -> by (by destruct m).
  rewrite IH by (intros; apply Hl; by right). by rewrite fields_text_cons, app_assoc.
Qed.

Lemma body_iter_lookup b k v : (k, v) ∈ body_iter b ↔ b !! k = Some v.
Proof. rewrite body_iter_perm. apply elem_of_map_to_list. Qed.

(** The text of a message up to its checksum. *)
Definition text_before_checksum (version type : str) (m : FixMessage) : str :=
  fields_text ((FIX_TAG_VERSION, version) ::
    (FIX_TAG_BODY_LENGTH, to_string (Z.of_nat (length (body_text type m)))) ::
    header_fields type m ++ body_iter (m_bodyTagValuePairs m)).

Lemma text_before_checksum_body version type m :
  text_before_checksum version type m =
    field FIX_TAG_VERSION version ++
    field FIX_TAG_BODY_LENGTH (to_string (Z.of_nat (length (body_text type m)))) ++ body_text type m.
Proof. reflexivity. Qed.

(** [toString] on messages of up to 16 megabytes. *)
Lemma toString_spec m version type out :
  vec_at (m_fixVersion m) FIX_VERSION_STRINGS = Ok version →
  vec_at (m_messageType m) FIX_MESSAGE_TYPE_STRINGS = Ok type →
  128 * Z.of_nat (length (out ++ text_before_checksum version type m)) <= INT_MAX →
  FixMessage_toString m out =
    Ok (m, out ++ text_before_checksum version type m ++
           field FIX_TAG_BODY_CHECKSUM
             (padLeft (to_string (Z.rem (total_chars (out ++ text_before_checksum version type m)) 256)) 3 "0"%char)).
Proof.
  intros Ev Et Hlen. unfold FixMessage_toString. rewrite Ev, Et. cbn [mbind outcome_bind].
  rewrite (calculateBodyLength_spec m type Et).
  2:{ rewrite text_before_checksum_body in Hlen. rewrite !length_app, !Nat2Z.inj_add in Hlen. lia. }
  cbn [mbind outcome_bind]. rewrite append_tags_spec by (intros k v; apply body_iter_lookup).
  rewrite <- !app_assoc.
  replace (field FIX_TAG_VERSION version ++ _) with (text_before_checksum version type m)
    by (unfold text_before_checksum, header_fields; cbn [app]; by rewrite !fields_text_cons).
  unfold calculateCheckSum. rewrite sum_chars_spec by lia. cbn [mbind outcome_bind].
  by rewrite <- app_assoc, Z.add_0_l.
Qed.
End text.

(** ** The checksum *)

Definition ascii7 (s : str) : Prop := Forall (λ c, code c < 128) s.
Definition byte_sum (s : str) : Z := list_sum_Z (code <$> s).

Lemma total_chars_ascii s : ascii7 s → total_chars s = byte_sum s.
Proof.
  induction 1 as [|c s Hc _ IH]; [done|]. rewrite total_chars_cons, IH.
  change (byte_sum (c :: s)) with (code c + byte_sum s). unfold schar.
  destruct (Z.ltb_spec (code c) 128); lia.
Qed.

Lemma byte_sum_nonneg s : 0 <= byte_sum s.
Proof.
  induction s as [|c s IH]; [done|]. change (byte_sum (c :: s)) with (code c + byte_sum s).
  pose proof (code_range c). lia.
Qed.

Definition checksum_text (n : Z) : str := padLeft (to_string n) 3 "0"%char.

Lemma checksum_digits n : 0 <= n < 256 →
  length (checksum_text n) = 3%nat ∧ stoi (checksum_text n) = Ok n ∧ Forall numeral_char (checksum_text n).
Proof.
  intros Hn.
  assert (forallb (λ n, bool_decide (length (checksum_text n) = 3%nat) &&
                        bool_decide (stoi (checksum_text n) = Ok n) &&
                        forallb isdigit (checksum_text n)) (seqZ 0 256) = true) as H
    by (vm_compute; reflexivity).
  rewrite forallb_forall in H. specialize (H n).
  rewrite <- list_elem_of_In, elem_of_seqZ in H. specialize (H Hn).
  rewrite !andb_true_iff, !bool_decide_eq_true in H. destruct H as [[H1 H2] H3].
  split; [done|]. split; [done|]. rewrite forallb_forall in H3.
  apply Forall_forall. intros c Hc. left. apply H3. by apply list_elem_of_In.
Qed.

(** ** Reading a tag that is there *)

Lemma getTagValue_present tag v m : m_bodyTagValuePairs m !! tag = Some v → getTagValue tag m = (m, v).
Proof. intros E. unfold getTagValue, map_index. rewrite E. by destruct m. Qed.

Lemma getTagValueAsInt_present tag z m : m_bodyTagValuePairs m !! tag = Some (to_string z) → in_int z = true →
  getTagValueAsInt tag m = Ok (m, z).
Proof.
  intros E Hz. unfold getTagValueAsInt. rewrite (getTagValue_present _ _ _ E). by rewrite stoi_to_string_nil.
Qed.

Lemma getTagValueAsLong_present tag z m : m_bodyTagValuePairs m !! tag = Some (to_string z) → in_long z = true →
  getTagValueAsLong tag m = Ok (m, z).
Proof.
  intros E Hz. unfold getTagValueAsLong. rewrite (getTagValue_present _ _ _ E). by rewrite stol_to_string_nil.
Qed.

(** The text of a message is its version field, its body length field, its body and
    its checksum field. The body length is the number of characters from the message
    type field to the checksum field; for an ASCII message the checksum is three digits
    that denote the sum of all bytes before it modulo 256. *)
Theorem toString_framing `{!BodyOrder} (m : FixMessage) (version type : str)
    (Hversion : vec_at (m_fixVersion m) FIX_VERSION_STRINGS = Ok version)
    (Htype : vec_at (m_messageType m) FIX_MESSAGE_TYPE_STRINGS = Ok type)
    (Hsize : 128 * Z.of_nat (length (text_before_checksum version type m)) <= INT_MAX)
    (Hascii : ascii7 (text_before_checksum version type m)) :
  ∃ head body checksum,
    FixMessage_toString m [] = Ok (m, head ++ body ++ field FIX_TAG_BODY_CHECKSUM checksum) ∧
    head = field FIX_TAG_VERSION version ++ field FIX_TAG_BODY_LENGTH (to_string (Z.of_nat (length body))) ∧
    body = fields_text (header_fields type m ++ body_iter (m_bodyTagValuePairs m)) ∧
    length checksum = 3%nat ∧ stoi checksum = Ok (byte_sum (head ++ body) mod 256).
Proof.
  pose proof (toString_spec m version type [] Hversion Htype Hsize) as Hs.
  rewrite !app_nil_l in Hs. rewrite total_chars_ascii in Hs by done.
  pose proof (byte_sum_nonneg (text_before_checksum version type m)) as Hnn.
  rewrite Z.rem_mod_nonneg in Hs by lia.
  destruct (checksum_digits (byte_sum (text_before_checksum version type m) mod 256)) as (H1 & H2 & _);
    [by apply Z.mod_pos_bound|].
  unfold checksum_text in H1, H2.
  set (cs := padLeft _ 3 "0"%char) in *.
  exists (field FIX_TAG_VERSION version ++ field FIX_TAG_BODY_LENGTH (to_string (Z.of_nat (length (body_text type m))))),
    (body_text type m), cs.
  rewrite text_before_checksum_body in Hs, H2. rewrite <- !app_assoc in Hs |- *. split_and!; done.
Qed.

(** ** A concrete message, with the table iterated in the order of its keys *)

Definition demo_BodyOrder : BodyOrder := {| body_iter := map_to_list; body_iter_perm b := reflexivity _ |}.
#[local] Existing Instance demo_BodyOrder.

Definition demo_message_new_order : FixMessage :=
  setTag FIX_TAG_ORDER_PRICE ($"100") (setTag FIX_TAG_SYMBOL ($"GOOGL") (setTag FIX_TAG_CLIENT_ORDER_ID ($"1")
    (mkFixMessage FIX_4_2 7 NEW_ORDER ($"CLIENT1") ($"EXECUTOR") ($"20160101-00:00:00") ∅))).

Lemma toString_framing_witness : ∃ head body checksum,
  FixMessage_toString demo_message_new_order [] =
    Ok (demo_message_new_order, head ++ body ++ field FIX_TAG_BODY_CHECKSUM checksum) ∧
  head = field FIX_TAG_VERSION ($"FIX.4.2") ++ field FIX_TAG_BODY_LENGTH (to_string (Z.of_nat (length body))) ∧
  body = fields_text (header_fields ($"D") demo_message_new_order ++ body_iter (m_bodyTagValuePairs demo_message_new_order)) ∧
  length checksum = 3%nat ∧ stoi checksum = Ok (byte_sum (head ++ body) mod 256).
Proof.
  apply (toString_framing demo_message_new_order ($"FIX.4.2") ($"D"));
    [reflexivity|reflexivity|vm_compute; discriminate|].
  apply Forall_forall. intros c Hc. vm_compute in Hc.
  repeat (apply elem_of_cons in Hc as [->|Hc]; [reflexivity|]). by apply elem_of_nil in Hc.
Defined.
