(* ===== verification/FixParser.v ===== *)
(** * [fix/fix_parser.h]

    The four parsers of tag=value text, and [FixMessage::loadFromFile], which uses the
    first. A buffer is the list of the characters of its allocation; reading beyond
    them is undefined. *)
From Stdlib Require Import ZArith Lia Ascii String SpecFloat.
From stdpp Require Import base decidable sets list gmap strings.
From S2P Require Import Prelude.
From S2P Require Import MachineInt.
From S2P Require Import StringUtility.
From S2P Require Import Double.
From S2P Require Import FixConstants.
From S2P Require Import FixMessage.
Local Open Scope Z_scope.

(** ** [parseFromString] *)

Fixpoint parse_pairs (tagValuePairs : list str) (message : FixMessage) : outcome FixMessage :=
  match tagValuePairs with
  | [] => Ok message
  | tagValuePair :: rest =>
      if bool_decide (tagValuePair = []) then parse_pairs rest message
      else
        let tokens := split tagValuePair FIX_EQUALS in
        token0 ← vec_at 0 tokens;
        tag ← stoi token0;
        value ← vec_at 1 tokens;
        parse_pairs rest (setTag tag value message)
  end.

Definition FixParser_parseFromString (message : FixMessage) (input : str) : outcome FixMessage :=
  message ← parse_pairs (split input FIX_DELIMITER) message;
  initialiseHeader message.

(** [FixMessage::loadFromFile] on the contents of a file that can be opened. *)
Fixpoint load_lines (junk : Z) (lines : list str) (messages : list FixMessage) : outcome (list FixMessage) :=
  match lines with
  | [] => Ok messages
  | line :: rest =>
      if startsWith line "#"%char then load_lines junk rest messages
      else
        message ← FixParser_parseFromString (FixMessage_new junk) line;
        load_lines junk rest (messages ++ [message])
  end.
Definition FixMessage_loadFromFile (junk : Z) (file : option str) (messages : list FixMessage)
    : outcome (list FixMessage) :=
  match file with
  | None => Throw RuntimeError
  | Some content => load_lines junk (split content (chr 10)) messages
  end.

(** ** [parseFromBuffer] *)

(** The state of the loop: [target] points at [value] when [ps_in_value] holds. *)
Record ParseState : Type := mkParseState {
  ps_message : FixMessage;
  ps_tag : str;
  ps_value : str;
  ps_in_value : bool
}.

Definition parse_start (message : FixMessage) : ParseState := mkParseState message [] [] false.

Definition parse_char (iter : ascii) (s : ParseState) : outcome ParseState :=
  if bool_decide (iter = FIX_EQUALS) then Ok (mkParseState (ps_message s) (ps_tag s) (ps_value s) true)
  else if bool_decide (iter = FIX_DELIMITER) then
    tag ← stoi (ps_tag s);
    Ok (parse_start (setTag tag (ps_value s) (ps_message s)))
  else if ps_in_value s then Ok (mkParseState (ps_message s) (ps_tag s) (ps_value s ++ [iter]) true)
  else Ok (mkParseState (ps_message s) (ps_tag s ++ [iter]) (ps_value s) false).

(** [for (i = 0; i < length; i++)] over a buffer. *)
Fixpoint parse_chars (length : nat) (input : str) (s : ParseState) : outcome ParseState :=
  match length, input with
  | O, _ => Ok s
  | S _, [] => Undef IndexOutOfBounds
  | S length', iter :: input' => s' ← parse_char iter s; parse_chars length' input' s'
  end.

Definition FixParser_parseFromBuffer (message : FixMessage) (input : str) (length : nat) : outcome FixMessage :=
  s ← parse_chars length input (parse_start message);
  initialiseHeader (ps_message s).

(** ** [parseFromMultipleBuffers]

    The index runs over the first buffer, is reset (to -1, which the increment takes
    to 0) after its last character, and runs over the second. *)
Fixpoint multiple_loop (fuel : nat) (i iterations : Z) (switchedToSecondBuffer : bool)
    (buffer1 buffer2 : str) (length2 : Z) (s : ParseState) : outcome ParseState :=
  match fuel with
  | O => NoFuel
  | S fuel' =>
      if i <? iterations then
        iter ← vec_at i (if switchedToSecondBuffer then buffer2 else buffer1);
        s ← parse_char iter s;
        if i =? iterations - 1 then
          if switchedToSecondBuffer then Ok s
          else multiple_loop fuel' 0 length2 true buffer1 buffer2 length2 s
        else multiple_loop fuel' (i + 1) iterations switchedToSecondBuffer buffer1 buffer2 length2 s
      else Ok s
  end.

Definition FixParser_parseFromMultipleBuffers (message : FixMessage)
    (buffer1 : str) (length1 : nat) (buffer2 : str) (length2 : nat) : outcome FixMessage :=
  s ← multiple_loop (length1 + length2 + 1) 0 (Z.of_nat length1) false buffer1 buffer2 (Z.of_nat length2)
        (parse_start message);
  initialiseHeader (ps_message s).

(** ** [parseMultipleMessagesFromBuffer] *)

Record MultiState : Type := mkMultiState {
  mp_parse : ParseState;              (** [message], [tag], [value] and [target] *)
  mp_lastTagOfMessage : bool;
  mp_fixMessageStarted : bool;
  mp_messages : list FixMessage;
  mp_remainingBytesStartIndex : Z;
  mp_numOfFixMessages : Z
}.

Definition push_target (c : ascii) (s : ParseState) : ParseState :=
  if ps_in_value s then mkParseState (ps_message s) (ps_tag s) (ps_value s ++ [c]) true
  else mkParseState (ps_message s) (ps_tag s ++ [c]) (ps_value s) false.

(** The test for the start of a message, with the character to go on with. *)
Definition multi_start (buffer : str) (i : Z) (s : MultiState) : outcome (Z * ascii * MultiState) :=
  iter ← vec_at i buffer;
  if bool_decide (iter = "8"%char) then
    next ← vec_at (i + 1) buffer;
    if bool_decide (next = FIX_EQUALS) then
      Ok (i + 1, next,
          mkMultiState (push_target iter (mp_parse s)) (mp_lastTagOfMessage s) true (mp_messages s)
            (mp_remainingBytesStartIndex s) (mp_numOfFixMessages s))
    else Ok (i, iter, s)
  else Ok (i, iter, s).

Definition multi_char (i : Z) (iter : ascii) (s : MultiState) : outcome MultiState :=
  let p := mp_parse s in
  if negb (mp_fixMessageStarted s) then Ok s
  else if bool_decide (iter = FIX_EQUALS) then
    Ok (mkMultiState (mkParseState (ps_message p) (ps_tag p) (ps_value p) true)
          (mp_lastTagOfMessage s || bool_decide (ps_tag p = ($"10"))) true (mp_messages s)
          (mp_remainingBytesStartIndex s) (mp_numOfFixMessages s))
  else if bool_decide (iter = FIX_DELIMITER) then
    tag ← stoi (ps_tag p);
    let message := setTag tag (ps_value p) (ps_message p) in
    if mp_lastTagOfMessage s then
      message ← initialiseHeader message;
      Ok (mkMultiState (parse_start FixMessage_reset) false false (mp_messages s ++ [message])
            (i + 1) (mp_numOfFixMessages s + 1))
    else
      Ok (mkMultiState (parse_start message) false true (mp_messages s)
            (mp_remainingBytesStartIndex s) (mp_numOfFixMessages s))
  else
    Ok (mkMultiState (push_target iter p) (mp_lastTagOfMessage s) true (mp_messages s)
          (mp_remainingBytesStartIndex s) (mp_numOfFixMessages s)).

Fixpoint multi_loop (fuel : nat) (buffer : str) (bufferSize : Z) (i : Z) (s : MultiState) : outcome MultiState :=
  match fuel with
  | O => NoFuel
  | S fuel' =>
      if i <? bufferSize then
        '(i, iter, s) ← multi_start buffer i s;
        s ← multi_char i iter s;
        multi_loop fuel' buffer bufferSize (i + 1) s
      else Ok s
  end.

(** The count of messages, with the vector and the index that are passed by reference. *)
Definition FixParser_parseMultipleMessagesFromBuffer (junk : Z) (buffer : str) (bufferSize : Z)
    (messages : list FixMessage) (remainingBytesStartIndex : Z) : outcome (Z * list FixMessage * Z) :=
  s ← multi_loop (S (Z.to_nat bufferSize)) buffer bufferSize 0
        (mkMultiState (parse_start (FixMessage_new junk)) false false messages remainingBytesStartIndex 0);
  Ok (mp_numOfFixMessages s, mp_messages s, mp_remainingBytesStartIndex s).

(** * Fields *)

(** Text that can stand in a value: no separators. *)
Definition clean (s : str) : Prop := (FIX_EQUALS ∉ s) ∧ (FIX_DELIMITER ∉ s).

#[export] Instance clean_dec s : Decision (clean s).
Proof. unfold clean. apply _. Defined.

Definition field_ok (kv : Z * str) : Prop := in_int kv.1 = true ∧ clean kv.2.

Definition set_fields (fields : list (Z * str)) (message : FixMessage) : FixMessage :=
  foldl (λ m kv, setTag kv.1 kv.2 m) message fields.

(** The message a list of fields stands for, read into [message]. *)
Definition message_of_fields (message : FixMessage) (fields : list (Z * str)) : outcome FixMessage :=
  initialiseHeader (set_fields fields message).

Lemma clean_to_string k : clean (to_string k).
Proof.
  split; apply to_string_not_elem; intros [H|H]; try discriminate H; vm_compute in H; discriminate H.
Qed.

Lemma parse_chars_app s1 s2 st : parse_chars (length (s1 ++ s2)) (s1 ++ s2) st =
  (st' ← parse_chars (length s1) s1 st; parse_chars (length s2) s2 st').
Proof.
  revert st. induction s1 as [|c s1 IH]; intros st; simpl; [done|].
  destruct (parse_char c st); simpl; [apply IH|done..].
Qed.

Lemma parse_chars_prefix s1 s2 st : parse_chars (length s1) (s1 ++ s2) st = parse_chars (length s1) s1 st.
Proof.
  revert st. induction s1 as [|c s1 IH]; intros st; simpl; [by destruct s2|].
  destruct (parse_char c st); simpl; [apply IH|done..].
Qed.

(** Plain characters are appended to the target. *)
Lemma parse_chars_clean s st : clean s →
  parse_chars (length s) s st =
    Ok (if ps_in_value st then mkParseState (ps_message st) (ps_tag st) (ps_value st ++ s) true
        else mkParseState (ps_message st) (ps_tag st ++ s) (ps_value st) false).
Proof.
  revert st. induction s as [|c s IH]; intros st [H1 H2]; simpl.
  - destruct st as [m t v []]; simpl; by rewrite app_nil_r.
  - apply not_elem_of_cons in H1 as [H1 H1'], H2 as [H2 H2'].
    unfold parse_char. rewrite !bool_decide_false by congruence.
    destruct st as [m t v []]; simpl; rewrite IH by done; simpl; by rewrite <- app_assoc.
Qed.

Lemma parse_chars_field k v m : field_ok (k, v) →
  parse_chars (length (field k v)) (field k v) (parse_start m) = Ok (parse_start (setTag k v m)).
Proof.
  intros [Hk Hv]. unfold field.
  change (to_string k ++ FIX_EQUALS :: v ++ [FIX_DELIMITER]) with (to_string k ++ [FIX_EQUALS] ++ v ++ [FIX_DELIMITER]).
  rewrite parse_chars_app, parse_chars_clean by apply clean_to_string. cbn [mbind outcome_bind].
  rewrite parse_chars_app. simpl. rewrite parse_chars_app, parse_chars_clean by done. simpl.
  unfold parse_char. simpl. by rewrite stoi_to_string_nil.
Qed.

Lemma parse_chars_fields fields m : Forall field_ok fields →
  parse_chars (length (fields_text fields)) (fields_text fields) (parse_start m) = Ok (parse_start (set_fields fields m)).
Proof.
  intros H. revert m. induction H as [|[k v] fields Hkv _ IH]; intros m; [done|].
  rewrite fields_text_cons, parse_chars_app, parse_chars_field by done. apply IH.
Qed.

Lemma parseFromBuffer_fields fields m rest : Forall field_ok fields →
  FixParser_parseFromBuffer m (fields_text fields ++ rest) (length (fields_text fields)) = message_of_fields m fields.
Proof.
  intros H. unfold FixParser_parseFromBuffer. rewrite parse_chars_prefix, parse_chars_fields by done. done.
Qed.

(** ** Two buffers *)

Lemma position (b pre post : str) (c : ascii) : b = pre ++ c :: post →
  length b = (length pre + S (length post))%nat ∧ vec_at (Z.of_nat (length pre)) b = Ok c ∧
  b = (pre ++ [c]) ++ post ∧ Z.of_nat (length (pre ++ [c])) = Z.of_nat (length pre) + 1.
Proof.
  intros ->. rewrite !length_app. simpl. split_and!; [done| |by rewrite <- app_assoc|lia].
  apply vec_at_Ok. rewrite Nat2Z.id, list_lookup_middle by done. split; [lia|done].
Qed.

Lemma multiple_loop_second fuel b1 b2 (pre post : str) s : (length post < fuel)%nat → b2 = pre ++ post →
  multiple_loop fuel (Z.of_nat (length pre)) (Z.of_nat (length b2)) true b1 b2 (Z.of_nat (length b2)) s =
  parse_chars (length post) post s.
Proof.
  revert fuel pre s. induction post as [|c post IH]; intros fuel pre s Hf E; destruct fuel as [|fuel];
    try (simpl in Hf; lia); simpl multiple_loop.
  - rewrite app_nil_r in E. subst. by rewrite Z.ltb_irrefl.
  - destruct (position _ _ _ _ E) as (El & Ev & E' & Ep). simpl in Hf.
    destruct (Z.ltb_spec (Z.of_nat (length pre)) (Z.of_nat (length b2))); [|lia].
    rewrite Ev. simpl. destruct (parse_char c s) as [s'| | |]; simpl; try done.
    destruct (Z.eqb_spec (Z.of_nat (length pre)) (Z.of_nat (length b2) - 1)).
    + by assert (post = []) as -> by (destruct post; [done|simpl in *; lia]).
    + rewrite <- Ep. apply IH; [lia|done].
Qed.

Lemma multiple_loop_first fuel b1 b2 (pre post : str) s :
  (length post + length b2 < fuel)%nat → post ≠ [] → b1 = pre ++ post →
  multiple_loop fuel (Z.of_nat (length pre)) (Z.of_nat (length b1)) false b1 b2 (Z.of_nat (length b2)) s =
  parse_chars (length (post ++ b2)) (post ++ b2) s.
Proof.
  revert fuel pre s. induction post as [|c post IH]; intros fuel pre s Hf Hne E; [done|].
  destruct fuel as [|fuel]; [simpl in Hf; lia|]. simpl multiple_loop. simpl in Hf.
  destruct (position _ _ _ _ E) as (El & Ev & E' & Ep).
  destruct (Z.ltb_spec (Z.of_nat (length pre)) (Z.of_nat (length b1))); [|lia].
  rewrite Ev. simpl. destruct (parse_char c s) as [s'| | |]; simpl; try done.
  destruct (Z.eqb_spec (Z.of_nat (length pre)) (Z.of_nat (length b1) - 1)).
  - assert (post = []) as -> by (destruct post; [done|simpl in *; lia]). simpl in *.
    apply (multiple_loop_second fuel b1 b2 [] b2); [lia|done].
  - rewrite <- Ep. apply IH; [lia|intros ->; simpl in *; lia|done].
Qed.

Lemma parseFromMultipleBuffers_app m b1 b2 : b1 ≠ [] →
  FixParser_parseFromMultipleBuffers m b1 (length b1) b2 (length b2) =
  FixParser_parseFromBuffer m (b1 ++ b2) (length (b1 ++ b2)).
Proof.
  intros Hne. unfold FixParser_parseFromMultipleBuffers, FixParser_parseFromBuffer.
  pose proof (multiple_loop_first (length b1 + length b2 + 1) b1 b2 [] b1 (parse_start m) ltac:(lia) Hne eq_refl) as H.
  simpl length in H. change (Z.of_nat 0) with 0 in H. by rewrite H.
Qed.

(** ** What a list of fields becomes *)

Lemma set_fields_body fields m :
  set_fields fields m =
    setBody (foldl (λ b kv, <[kv.1 := kv.2]> b) (m_bodyTagValuePairs m) fields) m.
Proof.
  revert m. induction fields as [|[k v] fields IH]; intros m; simpl; [by destruct m|].
  rewrite IH. reflexivity.
Qed.

Lemma fold_insert_lookup (fields : list (Z * str)) (b : gmap Z str) k : NoDup fields.*1 →
  foldl (λ b kv, <[kv.1 := kv.2]> b) b fields !! k =
    match list_to_map (M := gmap Z str) fields !! k with Some v => Some v | None => b !! k end.
Proof.
  revert b. induction fields as [|[k' v] fields IH]; intros b Hnd; simpl.
  - by rewrite lookup_empty.
  - apply NoDup_cons in Hnd as [Hni Hnd]. rewrite IH by done.
    destruct (decide (k' = k)) as [->|Hne].
    + rewrite lookup_insert_eq. rewrite not_elem_of_list_to_map_1 by done. by rewrite lookup_insert_eq.
    + by rewrite !lookup_insert_ne by done.
Qed.

(** Messages that the text can carry: a version and a type, a sequence number that is
    an [int], no separators in the values, and header tags in the header only. *)
Definition header_tags : list Z :=
  [FIX_TAG_VERSION; FIX_TAG_BODY_LENGTH; FIX_TAG_BODY_CHECKSUM; FIX_TAG_MESSAGE_TYPE; FIX_TAG_SEQUENCE_NUMBER;
   FIX_TAG_SENDER_COMPID; FIX_TAG_SENDING_TIME; FIX_TAG_TARGET_COMPID].

Record sendable (m : FixMessage) : Prop := {
  sd_version : 1 <= m_fixVersion m <= 8;
  sd_type : 1 <= m_messageType m <= 13;
  sd_sequence : 0 <= m_sequenceNumber m <= INT_MAX;
  sd_sender : clean (m_senderCompId m);
  sd_target : clean (m_targetCompId m);
  sd_time : clean (m_sendingTime m);
  sd_body k v : m_bodyTagValuePairs m !! k = Some v → field_ok (k, v) ∧ k ∉ header_tags
}.

Definition version_string (m : FixMessage) : str := default [] (FIX_VERSION_STRINGS !! Z.to_nat (m_fixVersion m)).
Definition type_string (m : FixMessage) : str := default [] (FIX_MESSAGE_TYPE_STRINGS !! Z.to_nat (m_messageType m)).

(** ** Values without separators *)

Lemma clean_app s t : clean s → clean t → clean (s ++ t).
Proof. intros [] []. split; rewrite not_elem_of_app; done. Qed.

Lemma clean_dec_digits n : 0 <= n → clean (dec n).
Proof.
  intros Hn. replace (dec n) with (to_string n); [apply clean_to_string|]. unfold to_string.
  by rewrite (proj2 (Z.ltb_ge n 0)).
Qed.

Lemma clean_padLeft s n : clean s → clean (padLeft s n "0"%char).
Proof.
  intros [H1 H2]. unfold padLeft. case_bool_decide; [|done].
  split; rewrite elem_of_app, elem_of_replicate; intros [[[=] _]|?]; done.
Qed.

(** The text of a [double] has no separators. *)
Lemma clean_to_string_double nan_text a : clean nan_text → clean (to_string_double nan_text a).
Proof.
  assert (∀ s : str, bool_decide (clean s) = true → clean s) as Hc by (intros s; apply bool_decide_eq_true_1).
  intros Hn. destruct a as [s|s| |s m e]; simpl; [destruct s; by apply Hc|destruct s; by apply Hc|done|].
  apply clean_app; [destruct s; by apply Hc|]. unfold fixed6. destruct (Z.leb_spec 0 e).
  - apply clean_app; [|by apply Hc]. apply clean_dec_digits. apply Z.mul_nonneg_nonneg; [lia|]. apply Z.pow_nonneg. lia.
  - assert (0 < 2 ^ (- e)) as Hp by (apply Z.pow_pos_nonneg; lia).
    assert (0 <= round_half_even (Z.pos m * 1000000) (2 ^ (- e))) as Hq.
    { unfold round_half_even. assert (0 <= Z.pos m * 1000000 / 2 ^ (- e)) by (apply Z.div_pos; lia).
      repeat case_match; lia. }
    apply clean_app; [apply clean_dec_digits; apply Z.div_pos; lia|]. apply clean_app; [by apply Hc|].
    apply clean_padLeft, clean_dec_digits. apply Z.mod_pos_bound. lia.
Qed.

Section wire.
Context `{!BodyOrder}.

(** The fields of the text of a message. *)
Definition body_length_value (m : FixMessage) : str := to_string (Z.of_nat (length (body_text (type_string m) m))).
Definition checksum_value (m : FixMessage) : str :=
  padLeft (to_string (Z.rem (total_chars (text_before_checksum (version_string m) (type_string m) m)) 256)) 3 "0"%char.
Definition wire_fields (m : FixMessage) : list (Z * str) :=
  (FIX_TAG_VERSION, version_string m) :: (FIX_TAG_BODY_LENGTH, body_length_value m) ::
  header_fields (type_string m) m ++ body_iter (m_bodyTagValuePairs m) ++ [(FIX_TAG_BODY_CHECKSUM, checksum_value m)].

Definition wire_size_ok (m : FixMessage) : Prop :=
  128 * Z.of_nat (length (text_before_checksum (version_string m) (type_string m) m)) <= INT_MAX.

Lemma sendable_strings m : sendable m →
  vec_at (m_fixVersion m) FIX_VERSION_STRINGS = Ok (version_string m) ∧
  vec_at (m_messageType m) FIX_MESSAGE_TYPE_STRINGS = Ok (type_string m) ∧
  getFixVersionFromString (version_string m) = m_fixVersion m ∧
  getMessageTypeFromString (type_string m) = m_messageType m.
Proof.
  intros [Hv Ht _ _ _ _ _].
  destruct (lookup_lt_is_Some_2 FIX_VERSION_STRINGS (Z.to_nat (m_fixVersion m))) as [v Ev]; [simpl; lia|].
  destruct (lookup_lt_is_Some_2 FIX_MESSAGE_TYPE_STRINGS (Z.to_nat (m_messageType m))) as [t Et]; [simpl; lia|].
  unfold version_string, type_string. rewrite Ev, Et. simpl.
  rewrite (version_of_table _ _ Ev), (type_of_table _ _ Et).
  split_and!; [apply vec_at_Ok; split; [lia|done]|apply vec_at_Ok; split; [lia|done]|lia|lia].
Qed.

Lemma toString_wire m : vec_at (m_fixVersion m) FIX_VERSION_STRINGS = Ok (version_string m) →
  vec_at (m_messageType m) FIX_MESSAGE_TYPE_STRINGS = Ok (type_string m) → wire_size_ok m →
  FixMessage_toString m [] = Ok (m, fields_text (wire_fields m)).
Proof.
  intros Hv Ht Hsize.
  rewrite (toString_spec m _ _ [] Hv Ht Hsize). rewrite !app_nil_l. f_equal. f_equal.
  fold (checksum_value m). unfold text_before_checksum, wire_fields, body_length_value.
  rewrite !fields_text_cons, !fields_text_app, fields_text_cons.
  change (fields_text []) with (@nil ascii). by rewrite app_nil_r, <- !app_assoc.
Qed.

Lemma toString_fields m : sendable m → wire_size_ok m →
  FixMessage_toString m [] = Ok (m, fields_text (wire_fields m)).
Proof. intros Hs. destruct (sendable_strings m Hs) as (Hv & Ht & _ & _). by apply toString_wire. Qed.

Lemma tables_clean : Forall clean (FIX_VERSION_STRINGS ++ FIX_MESSAGE_TYPE_STRINGS).
Proof. apply (bool_decide_unpack _). vm_compute. exact I. Qed.

Lemma clean_nth (l : list str) n : Forall clean l → clean (default [] (l !! n)).
Proof.
  intros Hl. destruct (l !! n) eqn:E; simpl; [by eapply Forall_lookup in E|split; apply not_elem_of_nil].
Qed.

Lemma clean_version m : clean (version_string m).
Proof. apply clean_nth. by pose proof tables_clean as [Hc _]%Forall_app. Qed.
Lemma clean_type m : clean (type_string m).
Proof. apply clean_nth. by pose proof tables_clean as [_ Hc]%Forall_app. Qed.

Lemma wire_fields_ok m : sendable m → Forall field_ok (wire_fields m).
Proof.
  intros Hs. pose proof Hs as [Hv Ht Hq H1 H2 H3 Hb]. unfold wire_fields, header_fields, body_length_value.
  repeat (apply Forall_cons; split); try (split; [reflexivity|]);
    try apply clean_to_string; try apply clean_version; try apply clean_type; try done.
  apply Forall_app. split.
  - apply Forall_forall. intros [k v] Hk. apply body_iter_lookup in Hk. by apply Hb.
  - apply Forall_singleton. split; [reflexivity|]. apply clean_padLeft, clean_to_string.
Qed.

(** *** Reading the fields back *)

Lemma wire_fields_nodup m : sendable m → NoDup (wire_fields m).*1.
Proof.
  intros Hs. unfold wire_fields, header_fields. rewrite !fmap_cons, !fmap_app, !fmap_cons. cbn [fmap list_fmap fst app].
  assert (NoDup (body_iter (m_bodyTagValuePairs m)).*1) as Hnd
    by (rewrite body_iter_perm; apply NoDup_fst_map_to_list).
  assert (∀ k, k ∈ header_tags → k ∉ (body_iter (m_bodyTagValuePairs m)).*1) as Hd.
  { intros k Hk Hin. apply list_elem_of_fmap in Hin as ([k' v] & -> & Hin).
    apply body_iter_lookup in Hin. by apply (sd_body m Hs) in Hin as [_ Hin]. }
  assert (∀ k, k ∈ header_tags → k ≠ 10 → k ∉ (body_iter (m_bodyTagValuePairs m)).*1 ++ [10]) as Hd'.
  { intros k Hk Hne. rewrite elem_of_app, list_elem_of_singleton. intros [Hin|Hin]; [by apply (Hd k)|done]. }
  repeat (apply NoDup_cons; split;
    [rewrite ?not_elem_of_cons; repeat apply conj; try discriminate;
     apply Hd'; [unfold header_tags; repeat (first [by left|right])|discriminate]|]).
  apply NoDup_app. split; [done|]. split; [|apply NoDup_singleton].
  intros k Hk ->%list_elem_of_singleton. by apply (Hd 10); [unfold header_tags; repeat (first [by left|right])|].
Qed.

Definition wire_map (m : FixMessage) : gmap Z str :=
  foldl (λ b kv, <[kv.1 := kv.2]> b) ∅ (wire_fields m).

Lemma wire_map_Some m k v : sendable m → (k, v) ∈ wire_fields m → wire_map m !! k = Some v.
Proof.
  intros Hs Hin. pose proof (wire_fields_nodup m Hs) as Hnd. unfold wire_map.
  rewrite fold_insert_lookup by done. by rewrite (elem_of_list_to_map_1 _ k v).
Qed.

Lemma wire_map_None m k : sendable m → k ∉ (wire_fields m).*1 → wire_map m !! k = None.
Proof.
  intros Hs Hin. pose proof (wire_fields_nodup m Hs) as Hnd. unfold wire_map.
  rewrite fold_insert_lookup by done. by rewrite not_elem_of_list_to_map_1.
Qed.
End wire.

Lemma take_tag_present tag set m v : m_bodyTagValuePairs m !! tag = Some v →
  take_tag tag set m = removeTag tag (set v m).
Proof.
  intros E. unfold take_tag, hasTag, getTagValue, map_index. rewrite E. by destruct m.
Qed.

Lemma initialiseHeader_all v q t sc tc st b v8 v35 v34 v52 v49 v56 n :
  b !! 8 = Some v8 → b !! 35 = Some v35 → b !! 34 = Some v34 → b !! 52 = Some v52 →
  b !! 49 = Some v49 → b !! 56 = Some v56 → stoi v34 = Ok n →
  initialiseHeader (mkFixMessage v q t sc tc st b) =
    Ok (mkFixMessage (getFixVersionFromString v8) (to_size n) (getMessageTypeFromString v35) v49 v56 v52
          (delete 56 (delete 49 (delete 52 (delete 34 (delete 35 (delete 8 b))))))).
Proof.
  intros H8 H35 H34 H52 H49 H56 Hn. unfold initialiseHeader.
  rewrite (take_tag_present FIX_TAG_VERSION _ _ v8) by done.
  rewrite (take_tag_present FIX_TAG_MESSAGE_TYPE _ _ v35) by (simpl; by rewrite lookup_delete_ne).
  unfold hasTag, getTagValueAsInt, getTagValue, map_index. simpl.
  rewrite !lookup_delete_ne by done. change FIX_TAG_SEQUENCE_NUMBER with 34. rewrite H34. simpl. rewrite Hn. simpl.
  rewrite (take_tag_present FIX_TAG_SENDING_TIME _ _ v52) by (simpl; by rewrite !lookup_delete_ne).
  rewrite (take_tag_present FIX_TAG_SENDER_COMPID _ _ v49) by (simpl; by rewrite !lookup_delete_ne).
  rewrite (take_tag_present FIX_TAG_TARGET_COMPID _ _ v56) by (simpl; by rewrite !lookup_delete_ne).
  reflexivity.
Qed.

Section roundtrip.
Context `{!BodyOrder}.

Lemma wire_body m : sendable m →
  delete 56 (delete 49 (delete 52 (delete 34 (delete 35 (delete 8 (wire_map m)))))) =
  <[FIX_TAG_BODY_CHECKSUM := checksum_value m]> (<[FIX_TAG_BODY_LENGTH := body_length_value m]> (m_bodyTagValuePairs m)).
Proof.
  intros Hs. apply map_eq. intros k.
  assert (∀ k', k' ∈ header_tags → m_bodyTagValuePairs m !! k' = None) as Hh.
  { intros k' Hk'. destruct (_ !! k') eqn:E; [|done]. by apply (sd_body m Hs) in E as [_ E]. }
  destruct (decide (k ∈ [8; 35; 34; 52; 49; 56])) as [Hin|Hout].
  - repeat (apply elem_of_cons in Hin as [->|Hin];
      [rewrite !lookup_insert_ne by done; rewrite Hh by (unfold header_tags; repeat (first [by left|right]));
       rewrite ?lookup_delete_eq, ?lookup_delete_ne by done; rewrite ?lookup_delete_eq, ?lookup_delete_ne by done;
       rewrite ?lookup_delete_eq, ?lookup_delete_ne by done; rewrite ?lookup_delete_eq; done|]).
    by apply elem_of_nil in Hin.
  - rewrite !not_elem_of_cons in Hout. destruct Hout as (H8 & H35 & H34 & H52 & H49 & H56 & _).
    rewrite !lookup_delete_ne by done.
    destruct (decide (k = FIX_TAG_BODY_CHECKSUM)) as [->|H10].
    { rewrite lookup_insert_eq. apply wire_map_Some; [done|]. unfold wire_fields. set_solver. }
    rewrite lookup_insert_ne by done.
    destruct (decide (k = FIX_TAG_BODY_LENGTH)) as [->|H9].
    { rewrite lookup_insert_eq. apply wire_map_Some; [done|]. unfold wire_fields. set_solver. }
    rewrite lookup_insert_ne by done.
    destruct (m_bodyTagValuePairs m !! k) as [v|] eqn:E.
    + apply wire_map_Some; [done|]. apply body_iter_lookup in E. unfold wire_fields. set_solver.
    + apply wire_map_None; [done|]. unfold wire_fields, header_fields.
      rewrite !fmap_cons, !fmap_app, !fmap_cons. cbn [fmap list_fmap fst app].
      rewrite !not_elem_of_cons, elem_of_app, list_elem_of_singleton. split_and!; try done.
      intros [Hk|Hk]; [|done]. apply list_elem_of_fmap in Hk as ([k' v] & -> & Hk).
      apply body_iter_lookup in Hk. simpl in *. congruence.
Qed.

Lemma wire_roundtrip junk m : sendable m →
  message_of_fields (FixMessage_new junk) (wire_fields m) =
    Ok (setTag FIX_TAG_BODY_CHECKSUM (checksum_value m) (setTag FIX_TAG_BODY_LENGTH (body_length_value m) m)).
Proof.
  intros Hs. destruct (sendable_strings m Hs) as (_ & _ & Hv & Ht).
  pose proof (sd_sequence m Hs) as Hq.
  unfold message_of_fields. rewrite set_fields_body.
  change (setBody _ (FixMessage_new junk)) with (mkFixMessage FIX_VERSION_NONE 1 junk [] [] [] (wire_map m)).
  rewrite (initialiseHeader_all _ _ _ _ _ _ _ (version_string m) (type_string m) (to_string (m_sequenceNumber m))
    (m_sendingTime m) (m_senderCompId m) (m_targetCompId m) (m_sequenceNumber m));
    try (apply wire_map_Some; [done|]; unfold wire_fields, header_fields; cbn [app];
         repeat (first [by left|right])).
  - rewrite Hv, Ht, to_size_small, wire_body by (done || mlia). by destruct m.
  - apply stoi_to_string_nil. mlia.
Qed.
End roundtrip.

(** ** Many messages in one buffer *)

Section multi.
Context (buffer : str) (size : Z).

(** The loop gets from index [i] and state [s] to [i'] and [s'], in at most as many
    rounds as characters. *)
Definition runs (i : Z) (s : MultiState) (i' : Z) (s' : MultiState) : Prop :=
  ∃ n, Z.of_nat n <= i' - i ∧ ∀ f, multi_loop (n + f) buffer size i s = multi_loop f buffer size i' s'.

Lemma runs_refl i s : runs i s i s.
Proof. exists 0%nat. split; [lia|done]. Qed.

Lemma runs_trans i1 s1 i2 s2 i3 s3 : runs i1 s1 i2 s2 → runs i2 s2 i3 s3 → runs i1 s1 i3 s3.
Proof.
  intros (n1 & H1 & E1) (n2 & H2 & E2). exists (n1 + n2)%nat. split; [lia|].
  intros f. rewrite <- Nat.add_assoc, E1, E2. done.
Qed.

Lemma runs_step i s i1 iter s1 s2 : i < size → i <= i1 →
  multi_start buffer i s = Ok (i1, iter, s1) → multi_char i1 iter s1 = Ok s2 → runs i s (i1 + 1) s2.
Proof.
  intros Hi Hi1 E1 E2. exists 1%nat. split; [lia|]. intros f. simpl.
  destruct (Z.ltb_spec i size); [|lia]. rewrite E1. simpl. by rewrite E2.
Qed.

(** The state inside a message. *)
Definition inside (m : FixMessage) (tag value : str) (in_value last : bool)
    (msgs : list FixMessage) (rem num : Z) : MultiState :=
  mkMultiState (mkParseState m tag value in_value) last true msgs rem num.
Definition outside (m : FixMessage) (msgs : list FixMessage) (rem num : Z) : MultiState :=
  mkMultiState (parse_start m) false false msgs rem num.

Lemma start_other i c s : vec_at i buffer = Ok c → c ≠ "8"%char → multi_start buffer i s = Ok (i, c, s).
Proof. intros E Hc. unfold multi_start. rewrite E. simpl. by rewrite bool_decide_false. Qed.

Lemma start_no_equals i c next s : vec_at i buffer = Ok c → vec_at (i + 1) buffer = Ok next → next ≠ FIX_EQUALS →
  multi_start buffer i s = Ok (i, c, s).
Proof.
  intros E E' Hn. unfold multi_start. rewrite E. simpl. case_bool_decide; [|done].
  rewrite E'. simpl. by rewrite bool_decide_false.
Qed.

Lemma start_message i s : vec_at i buffer = Ok "8"%char → vec_at (i + 1) buffer = Ok FIX_EQUALS →
  multi_start buffer i s =
    Ok (i + 1, FIX_EQUALS,
        mkMultiState (push_target "8"%char (mp_parse s)) (mp_lastTagOfMessage s) true (mp_messages s)
          (mp_remainingBytesStartIndex s) (mp_numOfFixMessages s)).
Proof. intros E E'. unfold multi_start. rewrite E. simpl. rewrite E'. done. Qed.

Lemma char_plain i c m tag value iv last msgs rem num : c ≠ FIX_EQUALS → c ≠ FIX_DELIMITER →
  multi_char i c (inside m tag value iv last msgs rem num) =
    Ok (if iv then inside m tag (value ++ [c]) true last msgs rem num
        else inside m (tag ++ [c]) value false last msgs rem num).
Proof. intros H1 H2. unfold multi_char. simpl. rewrite !bool_decide_false by done. by destruct iv. Qed.

Lemma vec_at_middle (pre post : str) c i : buffer = pre ++ c :: post → i = Z.of_nat (length pre) →
  vec_at i buffer = Ok c.
Proof. intros -> ->. apply vec_at_Ok. rewrite Nat2Z.id, list_lookup_middle by done. split; [lia|done]. Qed.

Lemma run_tag t : ∀ tag0 pre post m last msgs rem num i,
  buffer = pre ++ t ++ FIX_EQUALS :: post → i = Z.of_nat (length pre) →
  i + Z.of_nat (length t) + 1 <= size → clean t →
  runs i (inside m tag0 [] false last msgs rem num) (i + Z.of_nat (length t) + 1)
    (inside m (tag0 ++ t) [] true (last || bool_decide (tag0 ++ t = $"10")) msgs rem num).
Proof.
  induction t as [|c t IH]; intros tag0 pre post m last msgs rem num i E Hi Hs [Hc1 Hc2].
  - simpl in *. rewrite Z.add_0_r in *. rewrite app_nil_r.
    eapply runs_step; [lia|lia|apply start_other; [by eapply vec_at_middle|done]|done].
  - apply not_elem_of_cons in Hc1 as [Hc1 Hc1'], Hc2 as [Hc2 Hc2']. simpl length in *.
    pose proof (vec_at_middle pre _ c i E Hi) as Ec.
    assert (E' : buffer = (pre ++ [c]) ++ t ++ FIX_EQUALS :: post) by (by rewrite <- app_assoc).
    assert (Hi' : i + 1 = Z.of_nat (length (pre ++ [c]))) by (rewrite length_app; simpl; lia).
    destruct t as [|d t].
    + simpl in *. pose proof (vec_at_middle (pre ++ [c]) _ _ (i + 1) E' Hi') as En.
      replace (i + Z.of_nat 1 + 1) with (i + 1 + 1) by lia.
      destruct (decide (c = "8"%char)) as [->|Hne].
      * eapply runs_step; [lia| |by apply start_message|]; [lia|]. done.
      * eapply runs_trans.
        { eapply runs_step; [lia| |by apply start_other|by apply char_plain]. lia. }
        pose proof (IH (tag0 ++ [c]) (pre ++ [c]) post m last msgs rem num (i + 1) E' Hi') as R.
        rewrite app_nil_r in R. replace (i + 1 + Z.of_nat 0 + 1) with (i + 1 + 1) in R by lia.
        apply R; [lia|split; apply not_elem_of_nil].
    + eapply runs_trans.
      { eapply runs_step; [lia| |eapply (start_no_equals i c d); [done|by eapply vec_at_middle|]|by apply char_plain];
          [lia|]. apply not_elem_of_cons in Hc1' as [H _]. congruence. }
      replace (i + Z.of_nat (S (length (d :: t))) + 1) with (i + 1 + Z.of_nat (length (d :: t)) + 1) by (simpl; lia).
      replace (tag0 ++ c :: d :: t) with ((tag0 ++ [c]) ++ d :: t) by (by rewrite <- app_assoc).
      eapply (IH (tag0 ++ [c]) (pre ++ [c])); [done|done|simpl in *; lia|done].
Qed.

Lemma run_value v : ∀ value0 pre post m tag last msgs rem num i,
  buffer = pre ++ v ++ FIX_DELIMITER :: post → i = Z.of_nat (length pre) →
  i + Z.of_nat (length v) + 1 <= size → clean v →
  runs i (inside m tag value0 true last msgs rem num) (i + Z.of_nat (length v))
    (inside m tag (value0 ++ v) true last msgs rem num).
Proof.
  induction v as [|c v IH]; intros value0 pre post m tag last msgs rem num i E Hi Hs [Hc1 Hc2].
  - simpl. rewrite Z.add_0_r, app_nil_r. apply runs_refl.
  - apply not_elem_of_cons in Hc1 as [Hc1 Hc1'], Hc2 as [Hc2 Hc2']. simpl length in *.
    pose proof (vec_at_middle pre _ c i E Hi) as Ec.
    assert (E' : buffer = (pre ++ [c]) ++ v ++ FIX_DELIMITER :: post) by (by rewrite <- app_assoc).
    assert (Hi' : i + 1 = Z.of_nat (length (pre ++ [c]))) by (rewrite length_app; simpl; lia).
    assert (∃ next, vec_at (i + 1) buffer = Ok next ∧ next ≠ FIX_EQUALS) as (next & En & Hn).
    { destruct v as [|d v].
      - exists FIX_DELIMITER. split; [by eapply vec_at_middle|done].
      - exists d. split; [by eapply vec_at_middle|]. apply not_elem_of_cons in Hc1' as [H _]. congruence. }
    eapply runs_trans.
    { eapply runs_step; [lia| |by apply (start_no_equals i c next)|by apply char_plain]. lia. }
    replace (i + Z.of_nat (S (length v))) with (i + 1 + Z.of_nat (length v)) by lia.
    replace (value0 ++ c :: v) with ((value0 ++ [c]) ++ v) by (by rewrite <- app_assoc).
    eapply (IH (value0 ++ [c]) (pre ++ [c])); [done|done|lia|done].
Qed.

(** *** Fields and messages *)

Lemma to_string_ten k : to_string k = ($"10") → k = 10.
Proof.
  intros E. pose proof (strtol_to_string k [] I) as H. rewrite app_nil_r, E in H. vm_compute in H. congruence.
Qed.

Lemma run_delimiter i k v m m' last msgs rem num : vec_at i buffer = Ok FIX_DELIMITER → i < size →
  in_int k = true → initialiseHeader (setTag k v m) = Ok m' ∨ last = false →
  runs i (inside m (to_string k) v true last msgs rem num) (i + 1)
    (if last then outside FixMessage_reset (msgs ++ [m']) (i + 1) (num + 1)
     else inside (setTag k v m) [] [] false false msgs rem num).
Proof.
  intros E Hi Hk Hh. eapply runs_step; [done| |by apply start_other|]; [lia|].
  unfold multi_char. simpl. rewrite stoi_to_string_nil by done. simpl.
  destruct last; [|done]. destruct Hh as [-> | Hl]; done.
Qed.

(** A field other than the checksum, inside a message. *)
Lemma run_field k v pre post m msgs rem num i :
  buffer = pre ++ field k v ++ post → i = Z.of_nat (length pre) →
  i + Z.of_nat (length (field k v)) <= size → field_ok (k, v) → k ≠ 10 →
  runs i (inside m [] [] false false msgs rem num) (i + Z.of_nat (length (field k v)))
    (inside (setTag k v m) [] [] false false msgs rem num).
Proof.
  intros E Hi Hs [Hk Hv] Hten. simpl in Hk, Hv. rewrite field_length in *.
  assert (E1 : buffer = pre ++ to_string k ++ FIX_EQUALS :: v ++ FIX_DELIMITER :: post).
  { rewrite E. unfold field. rewrite <- !app_assoc. simpl. by rewrite <- app_assoc. }
  assert (E2 : buffer = (pre ++ to_string k ++ [FIX_EQUALS]) ++ v ++ FIX_DELIMITER :: post).
  { rewrite E1, <- !app_assoc. simpl. done. }
  eapply runs_trans; [eapply (run_tag (to_string k) [] pre); [exact E1|done|lia|apply clean_to_string]|].
  simpl app. rewrite bool_decide_false by (intros H%to_string_ten; done). simpl orb.
  eapply runs_trans; [eapply (run_value v [] (pre ++ to_string k ++ [FIX_EQUALS])); [exact E2| |lia|done]|].
  { rewrite !length_app. simpl. lia. }
  simpl app. replace (i + (Z.of_nat (length (to_string k)) + 2 + Z.of_nat (length v))) with
    (i + Z.of_nat (length (to_string k)) + 1 + Z.of_nat (length v) + 1) by lia.
  eapply (run_delimiter _ k v m m false); [|lia|done|by right].
  eapply (vec_at_middle ((pre ++ to_string k ++ [FIX_EQUALS]) ++ v));
    [rewrite E2, <- !app_assoc; done|rewrite !length_app; simpl; lia].
Qed.

(** The checksum field ends the message. *)
Lemma run_checksum v pre post m m' msgs rem num i :
  buffer = pre ++ field 10 v ++ post → i = Z.of_nat (length pre) →
  i + Z.of_nat (length (field 10 v)) <= size → clean v → initialiseHeader (setTag 10 v m) = Ok m' →
  runs i (inside m [] [] false false msgs rem num) (i + Z.of_nat (length (field 10 v)))
    (outside FixMessage_reset (msgs ++ [m']) (i + Z.of_nat (length (field 10 v))) (num + 1)).
Proof.
  intros E Hi Hs Hv Hm. rewrite field_length in *. change (length (to_string 10)) with 2%nat in *.
  assert (E1 : buffer = pre ++ to_string 10 ++ FIX_EQUALS :: v ++ FIX_DELIMITER :: post).
  { rewrite E. unfold field. rewrite <- !app_assoc. simpl. by rewrite <- app_assoc. }
  assert (E2 : buffer = (pre ++ to_string 10 ++ [FIX_EQUALS]) ++ v ++ FIX_DELIMITER :: post).
  { rewrite E1, <- !app_assoc. simpl. done. }
  eapply runs_trans; [eapply (run_tag (to_string 10) [] pre); [exact E1|done| |apply clean_to_string]|].
  { change (length (to_string 10)) with 2%nat. lia. }
  change (length (to_string 10)) with 2%nat.
  change (false || bool_decide ([] ++ to_string 10 = $"10")) with true.
  eapply runs_trans; [eapply (run_value v [] (pre ++ to_string 10 ++ [FIX_EQUALS])); [exact E2| |lia|done]|].
  { rewrite !length_app. change (length (to_string 10)) with 2%nat. simpl. lia. }
  replace (i + (Z.of_nat 2 + 2 + Z.of_nat (length v))) with (i + Z.of_nat 2 + 1 + Z.of_nat (length v) + 1) by lia.
  change ([] ++ to_string 10) with (to_string 10). change ([] ++ v) with v.
  eapply (run_delimiter _ 10 v m m' true); [|lia|done|by left].
  eapply (vec_at_middle ((pre ++ to_string 10 ++ [FIX_EQUALS]) ++ v));
    [rewrite E2, <- !app_assoc; done|].
  rewrite !length_app. change (length (to_string 10)) with 2%nat. simpl. lia.
Qed.

(** The version field starts the message. *)
Lemma run_version v pre post m msgs rem num i :
  buffer = pre ++ field 8 v ++ post → i = Z.of_nat (length pre) →
  i + Z.of_nat (length (field 8 v)) <= size → clean v →
  runs i (outside m msgs rem num) (i + Z.of_nat (length (field 8 v)))
    (inside (setTag 8 v m) [] [] false false msgs rem num).
Proof.
  intros E Hi Hs Hv. rewrite field_length in *. change (length (to_string 8)) with 1%nat in *.
  assert (E1 : buffer = pre ++ "8"%char :: FIX_EQUALS :: v ++ FIX_DELIMITER :: post).
  { rewrite E. unfold field. change (to_string 8) with ["8"%char]. simpl. by rewrite <- app_assoc. }
  assert (E2 : buffer = (pre ++ ["8"%char; FIX_EQUALS]) ++ v ++ FIX_DELIMITER :: post).
  { rewrite E1, <- app_assoc. done. }
  eapply (runs_trans _ _ (i + 2) (inside m (to_string 8) [] true false msgs rem num)).
  { replace (i + 2) with (i + 1 + 1) by lia. eapply runs_step; [lia| |apply start_message|done]; [lia| |].
    - by eapply vec_at_middle.
    - eapply (vec_at_middle (pre ++ ["8"%char])); [by rewrite E1, <- app_assoc|rewrite length_app; simpl; lia]. }
  eapply runs_trans; [eapply (run_value v [] (pre ++ ["8"%char; FIX_EQUALS])); [exact E2| |lia|done]|].
  { rewrite length_app. simpl. lia. }
  replace (i + (Z.of_nat 1 + 2 + Z.of_nat (length v))) with (i + 2 + Z.of_nat (length v) + 1) by lia.
  eapply (run_delimiter _ 8 v m m false); [|lia|done|by right].
  eapply (vec_at_middle ((pre ++ ["8"%char; FIX_EQUALS]) ++ v));
    [rewrite E2, <- !app_assoc; done|rewrite !length_app; simpl; lia].
Qed.

Lemma run_fields fields : ∀ pre post m msgs rem num i,
  buffer = pre ++ fields_text fields ++ post → i = Z.of_nat (length pre) →
  i + Z.of_nat (length (fields_text fields)) <= size →
  Forall field_ok fields → Forall (λ kv, kv.1 ≠ 10) fields →
  runs i (inside m [] [] false false msgs rem num) (i + Z.of_nat (length (fields_text fields)))
    (inside (set_fields fields m) [] [] false false msgs rem num).
Proof.
  induction fields as [|[k v] fields IH]; intros pre post m msgs rem num i E Hi Hs Hok Hten.
  - simpl. rewrite Z.add_0_r. apply runs_refl.
  - apply Forall_cons in Hok as [Hkv Hok], Hten as [Hk Hten]. simpl in Hk.
    rewrite fields_text_cons in *. rewrite length_app, Nat2Z.inj_add in *.
    rewrite <- app_assoc in E. rewrite Z.add_assoc in *. eapply runs_trans.
    + eapply run_field; [exact E|done|lia|done|done].
    + apply (IH (pre ++ field k v) post); [by rewrite <- app_assoc|rewrite length_app; lia|lia|done|done].
Qed.
End multi.

(** A message on the wire: from its version field to its checksum field. *)
Record framed (fields : list (Z * str)) (version : str) (middle : list (Z * str)) (checksum : str) : Prop := {
  fr_fields : fields = (8, version) :: middle ++ [(10, checksum)];
  fr_ok : Forall field_ok fields;
  fr_middle : Forall (λ kv, kv.1 ≠ 10) middle
}.

Lemma run_message buffer size fields version middle checksum pre post m m' msgs rem num i :
  buffer = pre ++ fields_text fields ++ post → i = Z.of_nat (length pre) →
  i + Z.of_nat (length (fields_text fields)) <= size →
  framed fields version middle checksum → message_of_fields m fields = Ok m' →
  runs buffer size i (outside m msgs rem num) (i + Z.of_nat (length (fields_text fields)))
    (outside FixMessage_reset (msgs ++ [m']) (i + Z.of_nat (length (fields_text fields))) (num + 1)).
Proof.
  intros E Hi Hs [-> Hok Hmid] Hm.
  apply Forall_cons in Hok as [[_ Hv] Hok]. apply Forall_app in Hok as [Hok [[_ Hc] _]%Forall_cons].
  rewrite fields_text_cons, fields_text_app, fields_text_cons in *. change (fields_text []) with (@nil ascii) in *.
  rewrite app_nil_r in *. rewrite !length_app, !Nat2Z.inj_add in *. rewrite <- !app_assoc in E.
  rewrite !Z.add_assoc in *. simpl snd in *.
  eapply runs_trans; [eapply run_version; [exact E|done|lia|done]|].
  eapply runs_trans; [eapply (run_fields buffer size middle (pre ++ field 8 version)); [by rewrite <- app_assoc, E| | |done|done]|];
    [rewrite length_app; lia|lia|].
  eapply (run_checksum buffer size checksum (pre ++ field 8 version ++ fields_text middle)); [|rewrite !length_app; lia|lia|done|].
  - rewrite E, <- !app_assoc. done.
  - unfold message_of_fields, set_fields in *. simpl in Hm. by rewrite foldl_app in Hm.
Qed.

(** The messages that a sequence of framed texts stands for; the first is read into a
    message with the memory [junk], the others into a reset one. *)
Inductive decoded : Z → list (list (Z * str)) → list FixMessage → Prop :=
  | decoded_nil junk : decoded junk [] []
  | decoded_cons junk fields version middle checksum m rest ms :
      framed fields version middle checksum →
      message_of_fields (FixMessage_new junk) fields = Ok m →
      decoded 0 rest ms → decoded junk (fields :: rest) (m :: ms).

Definition stream_text (fieldss : list (list (Z * str))) : str := concat (fields_text <$> fieldss).

Lemma stream_text_cons fields rest : stream_text (fields :: rest) = fields_text fields ++ stream_text rest.
Proof. reflexivity. Qed.

Lemma run_messages buffer size junk fieldss ms : decoded junk fieldss ms →
  ∀ pre post msgs rem num i,
  buffer = pre ++ stream_text fieldss ++ post → i = Z.of_nat (length pre) →
  i + Z.of_nat (length (stream_text fieldss)) <= size → (fieldss = [] → rem = i) →
  runs buffer size i (outside (FixMessage_new junk) msgs rem num) (i + Z.of_nat (length (stream_text fieldss)))
    (outside (FixMessage_new (if decide (fieldss = []) then junk else 0)) (msgs ++ ms)
      (i + Z.of_nat (length (stream_text fieldss))) (num + Z.of_nat (length ms))).
Proof.
  induction 1 as [junk|junk fields version middle checksum m rest ms Hf Hm _ IH];
    intros pre post msgs rem num i E Hi Hs Hrem.
  - rewrite (Hrem eq_refl). simpl. rewrite !Z.add_0_r, app_nil_r. apply runs_refl.
  - rewrite stream_text_cons in *. rewrite length_app, Nat2Z.inj_add in *. rewrite <- app_assoc in E.
    rewrite decide_False by done. rewrite !Z.add_assoc in *.
    eapply runs_trans; [eapply run_message; [exact E|done|lia|done|done]|].
    pose proof (IH (pre ++ fields_text fields) post (msgs ++ [m]) (i + Z.of_nat (length (fields_text fields)))
      (num + 1) (i + Z.of_nat (length (fields_text fields)))) as R.
    rewrite <- !app_assoc in R. simpl length.
    replace (num + Z.of_nat (S (length ms))) with (num + 1 + Z.of_nat (length ms)) by lia.
    change FixMessage_reset with (FixMessage_new 0). change (m :: ms) with ([m] ++ ms).
    replace (if decide (rest = []) then 0 else 0) with 0 in R by (by destruct (decide (rest = []))).
    apply R; [done|rewrite length_app; lia|lia|done].
Qed.

(** Text without a delimiter completes nothing. *)
Definition same_output (s s' : MultiState) : Prop :=
  mp_messages s' = mp_messages s ∧ mp_remainingBytesStartIndex s' = mp_remainingBytesStartIndex s ∧
  mp_numOfFixMessages s' = mp_numOfFixMessages s.

#[export] Instance same_output_trans : Transitive same_output.
Proof. unfold same_output. intros s1 s2 s3. intuition congruence. Qed.

Lemma vec_at_inside (buffer : str) j : 0 <= j < Z.of_nat (length buffer) → ∃ c, vec_at j buffer = Ok c.
Proof.
  intros Hj. destruct (lookup_lt_is_Some_2 buffer (Z.to_nat j)) as [c Hc]; [lia|].
  exists c. apply vec_at_Ok. split; [lia|done].
Qed.

Lemma quiet_start buffer i c s : 0 <= i → i + 1 < Z.of_nat (length buffer) → vec_at i buffer = Ok c → c ≠ FIX_DELIMITER →
  ∃ i1 iter s1, multi_start buffer i s = Ok (i1, iter, s1) ∧ i <= i1 ∧ iter ≠ FIX_DELIMITER ∧ same_output s s1.
Proof.
  intros Hi Hl Hc Hne. destruct (vec_at_inside buffer (i + 1)) as [d Hd]; [lia|].
  unfold multi_start. rewrite Hc. simpl. case_bool_decide.
  - rewrite Hd. simpl. case_bool_decide as Hdq.
    + subst d. eexists _, _, _. split; [done|]. split; [lia|]. by split.
    + exists i, c, s. done.
  - exists i, c, s. done.
Qed.

Lemma quiet_char i c s : c ≠ FIX_DELIMITER → ∃ s', multi_char i c s = Ok s' ∧ same_output s s'.
Proof.
  intros Hne. unfold multi_char. destruct (mp_fixMessageStarted s); simpl; [|by exists s].
  case_bool_decide; [by eexists|]. rewrite bool_decide_false by done. by eexists.
Qed.

Lemma quiet_loop buffer size f : ∀ i s, 0 <= i → size - i <= Z.of_nat f →
  size < Z.of_nat (length buffer) →
  (∀ j c, i <= j < size → vec_at j buffer = Ok c → c ≠ FIX_DELIMITER) →
  ∃ s', multi_loop (S f) buffer size i s = Ok s' ∧ same_output s s'.
Proof.
  induction f as [|f IH]; intros i s Hi Hf Hlen Hq; cbn [multi_loop];
    (destruct (Z.ltb_spec i size); [|by exists s]); [lia|].
  destruct (vec_at_inside buffer i) as [c Hc]; [lia|].
  destruct (quiet_start buffer i c s) as (i1 & iter & s1 & -> & Hi1 & Hiter & Hs1); [lia|lia|done|by eapply Hq|].
  cbn [mbind outcome_bind]. destruct (quiet_char i1 iter s1 Hiter) as (s2 & -> & Hs2). cbn [mbind outcome_bind].
  destruct (IH (i1 + 1) s2) as (s3 & E & Hs3); [lia|lia|done|intros j d Hj; apply Hq; lia|].
  exists s3. split; [exact E|]. etrans; [exact Hs1|]. by etrans.
Qed.

(** An incomplete message: its first fields, without the checksum, and the characters of
    the next one up to but not including its delimiter. *)
Record incomplete (fields : list (Z * str)) (tail : str) : Prop := {
  ic_fields : fields = [] ∨ ∃ version middle, fields = (8, version) :: middle;
  ic_ok : Forall field_ok fields;
  ic_middle : Forall (λ kv, kv.1 ≠ 10) fields;
  ic_tail : FIX_DELIMITER ∉ tail
}.

Lemma run_incomplete buffer size fields tail pre post m msgs rem num i :
  incomplete fields tail → buffer = pre ++ fields_text fields ++ post → i = Z.of_nat (length pre) →
  i + Z.of_nat (length (fields_text fields)) <= size →
  ∃ s', runs buffer size i (outside m msgs rem num) (i + Z.of_nat (length (fields_text fields))) s' ∧
    same_output (outside m msgs rem num) s'.
Proof.
  intros [[->|(v & mid & ->)] Hok Hmid _] E Hi Hs.
  - eexists. split; [simpl; rewrite Z.add_0_r; apply runs_refl|by split].
  - apply Forall_cons in Hok as [[_ Hv] Hok], Hmid as [_ Hmid]. simpl snd in Hv.
    rewrite fields_text_cons in *. rewrite length_app, Nat2Z.inj_add in *. rewrite <- app_assoc in E.
    rewrite Z.add_assoc in *. eexists. split.
    + eapply runs_trans; [eapply run_version; [exact E|done|lia|done]|].
      eapply (run_fields buffer size mid (pre ++ field 8 v)); [by rewrite <- app_assoc, E|rewrite length_app; lia|lia|done|done].
    + by split.
Qed.

(** The framing of a stream: complete messages, an incomplete one, and at least one
    more character in the buffer. *)
Lemma parse_stream_spec junk fieldss ms fields tail spare msgs :
  decoded junk fieldss ms → incomplete fields tail → spare ≠ [] →
  FixParser_parseMultipleMessagesFromBuffer junk
    ((stream_text fieldss ++ fields_text fields ++ tail) ++ spare)
    (Z.of_nat (length (stream_text fieldss ++ fields_text fields ++ tail))) msgs 0 =
  Ok (Z.of_nat (length ms), msgs ++ ms, Z.of_nat (length (stream_text fieldss))).
Proof.
  intros Hd Hinc Hspare. unfold FixParser_parseMultipleMessagesFromBuffer. rewrite Nat2Z.id.
  set (buffer := _ ++ spare). set (n := length (stream_text fieldss ++ fields_text fields ++ tail)).
  assert (n = length (stream_text fieldss) + (length (fields_text fields) + length tail))%nat as Hn
    by (unfold n; by rewrite !length_app).
  assert (E : buffer = stream_text fieldss ++ fields_text fields ++ tail ++ spare) by (unfold buffer; by rewrite <- !app_assoc).
  assert (Hlen : Z.of_nat n < Z.of_nat (length buffer)).
  { rewrite E, !length_app. destruct spare; [done|simpl; lia]. }
  destruct (run_messages buffer (Z.of_nat n) junk fieldss ms Hd [] (fields_text fields ++ tail ++ spare) msgs 0 0 0)
    as (k1 & Hk1 & R1); [by rewrite E|done|lia|done|]. rewrite !Z.add_0_l in *.
  destruct (run_incomplete buffer (Z.of_nat n) fields tail (stream_text fieldss) (tail ++ spare)
    (FixMessage_new (if decide (fieldss = []) then junk else 0)) (msgs ++ ms) (Z.of_nat (length (stream_text fieldss)))
    (Z.of_nat (length ms)) (Z.of_nat (length (stream_text fieldss)))) as (s' & (k2 & Hk2 & R2) & Hs'); [done|done|done|lia|].
  destruct (quiet_loop buffer (Z.of_nat n) (n - k1 - k2)
    (Z.of_nat (length (stream_text fieldss)) + Z.of_nat (length (fields_text fields))) s') as (s'' & Hrun & H1 & H2 & H3).
  { lia. } { lia. } { done. }
  { intros j c Hj Hc. apply vec_at_Ok in Hc as [_ Hc]. rewrite E, app_assoc in Hc.
    rewrite lookup_app_r in Hc by (rewrite length_app; lia). rewrite lookup_app_l in Hc by (rewrite length_app; lia).
    apply list_elem_of_lookup_2 in Hc. intros ->. by apply (ic_tail _ _ Hinc). }
  change (mkMultiState (parse_start (FixMessage_new junk)) false false msgs 0 0) with (outside (FixMessage_new junk) msgs 0 0).
  replace (S n) with (k1 + (k2 + S (n - k1 - k2)))%nat by lia.
  rewrite R1, R2, Hrun. simpl. destruct Hs' as (-> & -> & ->) in H1, H2, H3.
  simpl in *. by rewrite H1, H2, H3.
Qed.

(** ** [parseFromString] on fields *)

Lemma clean_equals v : clean v → FIX_EQUALS ∉ v. Proof. by intros []. Qed.
Lemma clean_delimiter v : clean v → FIX_DELIMITER ∉ v. Proof. by intros []. Qed.

Lemma split_fields fields : Forall field_ok fields →
  split (fields_text fields) FIX_DELIMITER = (λ kv, to_string kv.1 ++ FIX_EQUALS :: kv.2) <$> fields.
Proof.
  induction 1 as [|[k v] fields [_ Hv] _ IH]; [done|]. rewrite fields_text_cons. unfold field.
  replace ((to_string k ++ FIX_EQUALS :: v ++ [FIX_DELIMITER]) ++ fields_text fields) with
    ((to_string k ++ FIX_EQUALS :: v) ++ FIX_DELIMITER :: fields_text fields)
    by (rewrite <- !app_assoc; simpl; by rewrite <- app_assoc).
  rewrite split_app, IH; [done|]. rewrite not_elem_of_app, not_elem_of_cons. simpl in Hv.
  split_and!; [apply clean_to_string|done|by apply clean_delimiter].
Qed.

Lemma parse_pairs_fields fields m : Forall field_ok fields → Forall (λ kv, kv.2 ≠ []) fields →
  parse_pairs ((λ kv, to_string kv.1 ++ FIX_EQUALS :: kv.2) <$> fields) m = Ok (set_fields fields m).
Proof.
  intros H. revert m. induction H as [|[k v] fields [Hk Hv] _ IH]; intros m Hne; [done|].
  apply Forall_cons in Hne as [Hne Hne']. simpl in *.
  rewrite bool_decide_false by (destruct (to_string k); done).
  rewrite split_app by apply clean_to_string. rewrite (split_no_sep _ v) by (done || by apply clean_equals).
  unfold vec_at. simpl. rewrite stoi_to_string_nil by done. simpl. by apply IH.
Qed.

(** * The properties of the parsers *)

(** C12: Reading back the text of a message gives the message, with the body length and
    the checksum of the text as two more tags. *)
Theorem parse_toString `{!BodyOrder} (junk : Z) (m : FixMessage) (Hsendable : sendable m) (Hsize : wire_size_ok m) :
  ∃ text, FixMessage_toString m [] = Ok (m, text) ∧
    FixParser_parseFromBuffer (FixMessage_new junk) text (length text) =
      Ok (setTag FIX_TAG_BODY_CHECKSUM (checksum_value m) (setTag FIX_TAG_BODY_LENGTH (body_length_value m) m)).
Proof.
  exists (fields_text (wire_fields m)). split; [by apply toString_fields|].
  pose proof (parseFromBuffer_fields (wire_fields m) (FixMessage_new junk) [] (wire_fields_ok m Hsendable)) as H1.
  rewrite app_nil_r in H1. rewrite H1. by apply wire_roundtrip.
Qed.

(** Parsing a message that is split over two buffers is parsing their
    concatenation, unless the first is empty: then the second is not read. *)
Theorem parse_two_buffers (message : FixMessage) (buffer1 buffer2 : str) :
  FixParser_parseFromMultipleBuffers message buffer1 (length buffer1) buffer2 (length buffer2) =
    if decide (buffer1 = []) then initialiseHeader message
    else FixParser_parseFromBuffer message (buffer1 ++ buffer2) (length (buffer1 ++ buffer2)).
Proof.
  case_decide as Hd; [|by apply parseFromMultipleBuffers_app]. subst buffer1.
  unfold FixParser_parseFromMultipleBuffers. simpl length.
  replace (0 + length buffer2 + 1)%nat with (S (length buffer2)) by lia. reflexivity.
Qed.

(** The stream parser frames messages: on complete messages followed by an
    incomplete one it delivers each of the complete ones, in order, and reports where
    the incomplete one begins. *)
Theorem parse_stream (junk : Z) (fieldss : list (list (Z * str))) (ms : list FixMessage)
    (fields : list (Z * str)) (tail spare : str) (messages : list FixMessage)
    (Hcomplete : decoded junk fieldss ms) (Hincomplete : incomplete fields tail) (Hspare : spare ≠ []) :
  let received := stream_text fieldss ++ fields_text fields ++ tail in
  FixParser_parseMultipleMessagesFromBuffer junk (received ++ spare) (Z.of_nat (length received)) messages 0 =
    Ok (Z.of_nat (length ms), messages ++ ms, Z.of_nat (length (stream_text fieldss))).
Proof. by apply parse_stream_spec. Qed.

(** The parser of the offline mode and the parser of received buffers agree on fields
    with non-empty values; on an empty value the former reads beyond its tokens. *)
Theorem parseFromString_agrees (message : FixMessage) (fields : list (Z * str)) (Hfields : Forall field_ok fields) :
  (Forall (λ kv, kv.2 ≠ []) fields →
   FixParser_parseFromString message (fields_text fields) =
     FixParser_parseFromBuffer message (fields_text fields) (length (fields_text fields))) ∧
  (∀ k, in_int k = true → Forall (λ kv, kv.2 ≠ []) fields →
   FixParser_parseFromString message (fields_text fields ++ field k []) = Undef IndexOutOfBounds).
Proof.
  split.
  - intros Hne. pose proof (parseFromBuffer_fields fields message [] Hfields) as H1.
    rewrite app_nil_r in H1. rewrite H1. unfold FixParser_parseFromString.
    by rewrite split_fields, parse_pairs_fields.
  - intros k Hk Hne.
    replace (fields_text fields ++ field k []) with (fields_text (fields ++ [(k, [])])).
    2:{ rewrite fields_text_app, fields_text_cons. change (fields_text []) with (@nil ascii). by rewrite app_nil_r. }
    unfold FixParser_parseFromString. rewrite split_fields.
    2:{ apply Forall_snoc. split; [done|]. split; [done|]. split; apply not_elem_of_nil. }
    rewrite fmap_app. simpl fmap.
    assert (∀ m rest, parse_pairs (((λ kv, to_string kv.1 ++ FIX_EQUALS :: kv.2) <$> fields) ++ rest) m =
      parse_pairs rest (set_fields fields m)) as Happ.
    { clear k Hk message. induction Hfields as [|[k v] fields [Hk Hv] _ IH]; intros m rest; [done|].
      apply Forall_cons in Hne as [Hne Hne']. simpl in *.
      rewrite bool_decide_false by (destruct (to_string k); done).
      rewrite split_app by apply clean_to_string. rewrite (split_no_sep _ v) by (done || by apply clean_equals).
      unfold vec_at. simpl. rewrite stoi_to_string_nil by done. simpl. by apply IH. }
    rewrite Happ. simpl. rewrite bool_decide_false by (destruct (to_string k); done).
    rewrite split_app by apply clean_to_string. unfold vec_at. simpl. by rewrite stoi_to_string_nil.
Qed.

(** ** Witnesses *)

#[local] Existing Instance demo_BodyOrder.

Lemma demo_sendable : sendable demo_message_new_order.
Proof.
  split; try (simpl; unfold FIX_4_2, NEW_ORDER; lia); try (apply (bool_decide_unpack _); vm_compute; exact I).
Qed.

Lemma parse_toString_witness : ∃ text,
  FixMessage_toString demo_message_new_order [] = Ok (demo_message_new_order, text) ∧
  FixParser_parseFromBuffer (FixMessage_new 77) text (length text) =
    Ok (setTag FIX_TAG_BODY_CHECKSUM (checksum_value demo_message_new_order)
          (setTag FIX_TAG_BODY_LENGTH (body_length_value demo_message_new_order) demo_message_new_order)).
Proof. apply (parse_toString 77 demo_message_new_order demo_sendable). vm_compute. discriminate. Defined.

Definition demo_wire (n : Z) : list (Z * str) :=
  [(8, $"FIX.4.2"); (9, $"5"); (35, $"0"); (34, to_string n); (10, $"018")].
Definition demo_parsed (n : Z) : FixMessage :=
  match message_of_fields (FixMessage_new 0) (demo_wire n) with Ok m => m | _ => FixMessage_new 0 end.

Lemma demo_framed n : framed (demo_wire n) ($"FIX.4.2") [(9, $"5"); (35, $"0"); (34, to_string n)] ($"018").
Proof.
  split; [done| |repeat constructor; discriminate].
  repeat (apply Forall_cons; split); try apply Forall_nil; try done;
    (split; [reflexivity|first [apply clean_to_string|apply (bool_decide_unpack _); vm_compute; exact I]]).
Qed.

Lemma parse_stream_witness :
  let received := stream_text [demo_wire 1; demo_wire 2] ++ fields_text [(8, $"FIX.4.2")] ++ $"9=1" in
  FixParser_parseMultipleMessagesFromBuffer 0 (received ++ $"xyz") (Z.of_nat (length received)) [] 0 =
    Ok (2, [demo_parsed 1; demo_parsed 2], Z.of_nat (length (stream_text [demo_wire 1; demo_wire 2]))).
Proof.
  apply (parse_stream 0 [demo_wire 1; demo_wire 2] [demo_parsed 1; demo_parsed 2] [(8, $"FIX.4.2")] ($"9=1") ($"xyz") []).
  - eapply decoded_cons; [apply demo_framed|vm_compute; reflexivity|].
    eapply decoded_cons; [apply demo_framed|vm_compute; reflexivity|apply decoded_nil].
  - split; [right; by eexists _, _| |repeat constructor; discriminate|].
    + repeat constructor; apply (bool_decide_unpack _); vm_compute; exact I.
    + apply (bool_decide_unpack _). vm_compute. exact I.
  - discriminate.
Defined.

Lemma parseFromString_agrees_witness :
  (Forall (λ kv : Z * str, kv.2 ≠ []) (demo_wire 3) →
   FixParser_parseFromString (FixMessage_new 0) (fields_text (demo_wire 3)) =
     FixParser_parseFromBuffer (FixMessage_new 0) (fields_text (demo_wire 3)) (length (fields_text (demo_wire 3)))) ∧
  (∀ k, in_int k = true → Forall (λ kv : Z * str, kv.2 ≠ []) (demo_wire 3) →
   FixParser_parseFromString (FixMessage_new 0) (fields_text (demo_wire 3) ++ field k []) = Undef IndexOutOfBounds).
Proof.
  apply (parseFromString_agrees (FixMessage_new 0) (demo_wire 3)). exact (fr_ok _ _ _ _ (demo_framed 3)).
Defined.
