(* ===== verification/FixReceiveCache.v ===== *)
(** * [fix/fix_receive_cache.cpp]

    The buffer in which a session gathers what it receives until messages are
    complete, and what becomes of a stream of messages that arrives in pieces. *)
From Stdlib Require Import ZArith Lia Ascii String SpecFloat.
From stdpp Require Import base decidable sets list gmap strings.
From S2P Require Import Prelude.
From S2P Require Import MachineInt.
From S2P Require Import StringUtility.
From S2P Require Import Double.
From S2P Require Import FixConstants.
From S2P Require Import FixMessage.
From S2P Require Import FixParser.
Local Open Scope Z_scope.

(** [m_buffer] is the whole allocation of [m_cacheCapacity] characters. *)
Record FixReceiveCache : Type := mkFixReceiveCache {
  m_cacheCapacity : Z;
  m_cacheSize : Z;
  m_cacheBuffer : str
}.

Definition FixReceiveCache_new : FixReceiveCache := mkFixReceiveCache 0 0 [].

(** [new char[capacity]]: [memory] is what the allocation contains. *)
Definition FixReceiveCache_initialise (memory : str) (c : FixReceiveCache) : FixReceiveCache :=
  mkFixReceiveCache (Z.of_nat (length memory)) (m_cacheSize c) memory.

Definition FixReceiveCache_getRemainingBufferSize (c : FixReceiveCache) : Z :=
  size_sub (m_cacheCapacity c) (m_cacheSize c).

(** A [recv] into [getBuffer()] followed by [incrementSize]. *)
Definition FixReceiveCache_append (data : str) (c : FixReceiveCache) : outcome FixReceiveCache :=
  if m_cacheSize c + Z.of_nat (length data) <=? Z.of_nat (length (m_cacheBuffer c)) then
    Ok (mkFixReceiveCache (m_cacheCapacity c) (size_add (m_cacheSize c) (Z.of_nat (length data)))
          (take (Z.to_nat (m_cacheSize c)) (m_cacheBuffer c) ++ data ++
           drop (Z.to_nat (m_cacheSize c) + length data) (m_cacheBuffer c)))
  else Undef BufferOverflow.

(** [memcpy] of regions that overlap is undefined. *)
Definition FixReceiveCache_moveBufferToStart (startIndex endIndex : Z) (c : FixReceiveCache) : outcome FixReceiveCache :=
  let newSize := size_add (size_sub endIndex startIndex) 1 in
  if Z.of_nat (length (m_cacheBuffer c)) <? startIndex + newSize then Undef BufferOverflow
  else if (startIndex <? newSize) && (0 <? startIndex) then Undef OverlappingCopy
  else
    Ok (mkFixReceiveCache (m_cacheCapacity c) newSize
          (take (Z.to_nat newSize) (drop (Z.to_nat startIndex) (m_cacheBuffer c)) ++
           drop (Z.to_nat newSize) (m_cacheBuffer c))).

Definition FixReceiveCache_parse (junk : Z) (messages : list FixMessage) (c : FixReceiveCache)
    : outcome (FixReceiveCache * list FixMessage * Z) :=
  let remainingBytesEndIndex := size_sub (m_cacheSize c) 1 in
  '(numMessages, messages, remainingBytesStartIndex) ←
    FixParser_parseMultipleMessagesFromBuffer junk (m_cacheBuffer c) (m_cacheSize c) messages 0;
  if 0 <? numMessages then
    if remainingBytesStartIndex <? remainingBytesEndIndex then
      c ← FixReceiveCache_moveBufferToStart remainingBytesStartIndex remainingBytesEndIndex c;
      Ok (c, messages, numMessages)
    else Ok (mkFixReceiveCache (m_cacheCapacity c) 0 (m_cacheBuffer c), messages, numMessages)
  else Ok (c, messages, numMessages).

(** * What the cache holds *)

(** The received text that has not been delivered yet, in a cache with room for at
    least one more character. *)
Record cache_holds (text : str) (c : FixReceiveCache) : Prop := {
  ch_size : m_cacheSize c = Z.of_nat (length text);
  ch_text : take (length text) (m_cacheBuffer c) = text;
  ch_capacity : Z.of_nat (length (m_cacheBuffer c)) = m_cacheCapacity c;
  ch_small : m_cacheCapacity c < SIZE_MOD;
  ch_spare : m_cacheSize c < m_cacheCapacity c
}.

Lemma cache_append text data c : cache_holds text c → m_cacheSize c + Z.of_nat (length data) < m_cacheCapacity c →
  ∃ c', FixReceiveCache_append data c = Ok c' ∧ cache_holds (text ++ data) c' ∧ m_cacheCapacity c' = m_cacheCapacity c.
Proof.
  intros [H1 H2 H3 H4 H5] Hd. unfold FixReceiveCache_append.
  destruct (Z.leb_spec (m_cacheSize c + Z.of_nat (length data)) (Z.of_nat (length (m_cacheBuffer c)))); [|lia].
  eexists. split; [reflexivity|]. split; [|done].
  rewrite H1, Nat2Z.id, H2. split; simpl.
  - rewrite length_app. unfold size_add. rewrite to_size_small by mlia. lia.
  - rewrite app_assoc. by rewrite take_app_length.
  - rewrite !length_app, length_drop. lia.
  - done.
  - unfold size_add. rewrite to_size_small by mlia. lia.
Qed.

Lemma cache_buffer text c : cache_holds text c → ∃ spare, m_cacheBuffer c = text ++ spare ∧ spare ≠ [].
Proof.
  intros [H1 H2 H3 H4 H5]. exists (drop (length text) (m_cacheBuffer c)). split.
  - rewrite <- H2 at 1. by rewrite take_drop.
  - intros E. apply (f_equal length) in E. rewrite length_drop in E. simpl in E. lia.
Qed.

Lemma decoded_length junk fieldss ms : decoded junk fieldss ms → ms ≠ [] → (1 < length (stream_text fieldss))%nat.
Proof.
  intros Hd Hne. destruct Hd as [|j fs version middle checksum m rest ms Hf _ _]; [done|].
  rewrite stream_text_cons, (fr_fields _ _ _ _ Hf), fields_text_cons, !length_app.
  pose proof (field_length 8 version). lia.
Qed.

(** Parsing delivers the complete messages; what follows them is kept, unless it is a
    single character. *)
Lemma cache_parse_spec junk fieldss ms fields tail messages c :
  let rest := fields_text fields ++ tail in
  decoded junk fieldss ms → incomplete fields tail → cache_holds (stream_text fieldss ++ rest) c →
  (ms ≠ [] → (length rest <= length (stream_text fieldss))%nat) →
  ∃ c', FixReceiveCache_parse junk messages c = Ok (c', messages ++ ms, Z.of_nat (length ms)) ∧
    m_cacheCapacity c' = m_cacheCapacity c ∧
    cache_holds (if decide (ms ≠ [] ∧ length rest = 1%nat) then [] else rest) c'.
Proof.
  intros rest Hd Hinc Hc Hfit. destruct (cache_buffer _ _ Hc) as (spare & Hbuf & Hspare).
  pose proof (parse_stream_spec junk fieldss ms fields tail spare messages Hd Hinc Hspare) as Hp.
  fold rest in Hp. pose proof Hc as [H1 H2 H3 H4 H5].
  unfold FixReceiveCache_parse. rewrite Hbuf, H1, Hp. cbn [mbind outcome_bind].
  destruct (Z.ltb_spec 0 (Z.of_nat (length ms))) as [Hms|Hms].
  - assert (ms ≠ []) as Hne by (intros ->; simpl in Hms; lia). specialize (Hfit Hne).
    pose proof (decoded_length _ _ _ Hd Hne) as Hpos.
    rewrite length_app in *. unfold size_sub. rewrite to_size_small by mlia.
    destruct (Z.ltb_spec (Z.of_nat (length (stream_text fieldss))) (Z.of_nat (length (stream_text fieldss) + length rest) - 1)) as [Hlt|Hge].
    + rewrite decide_False by lia. unfold FixReceiveCache_moveBufferToStart.
      unfold size_sub, size_add. rewrite !to_size_small by (try rewrite to_size_small by mlia; mlia).
      replace (Z.of_nat (length (stream_text fieldss) + length rest) - 1 - Z.of_nat (length (stream_text fieldss)) + 1)
        with (Z.of_nat (length rest)) by lia.
      destruct (Z.ltb_spec (Z.of_nat (length (m_cacheBuffer c))) (Z.of_nat (length (stream_text fieldss)) + Z.of_nat (length rest))); [lia|].
      destruct (Z.ltb_spec (Z.of_nat (length (stream_text fieldss))) (Z.of_nat (length rest))); [lia|]. simpl.
      eexists. split; [reflexivity|]. split; [done|].
      rewrite !Nat2Z.id, Hbuf, <- app_assoc, drop_app_length, take_app_length.
      split; simpl; try done.
      * by rewrite take_app_length.
      * rewrite <- H3, Hbuf, !length_app, length_drop, !length_app. lia.
      * lia.
    + eexists. split; [reflexivity|]. split; [done|].
      assert ((if decide (ms ≠ [] ∧ length rest = 1%nat) then [] else rest) = []) as ->.
      { case_decide as Hdec; [done|]. destruct rest as [|x [|y l]]; [done|exfalso; by apply Hdec|simpl in *; lia]. }
      split; simpl; try done; [by rewrite <- Hbuf|lia].
  - destruct ms as [|m ms]; [|simpl in Hms; lia]. inversion Hd; subst.
    rewrite decide_False by (intros [? _]; done). exists c. split; [done|]. split; [done|]. exact Hc.
Qed.

(** ** A stream cut into pieces *)

(** The whole messages of a stream: the fields of each, and what it is read as whatever
    memory the message had before. *)
Definition whole_messages (fieldss : list (list (Z * str))) (ms : list FixMessage) : Prop :=
  Forall2 (λ fields m, (∃ version middle checksum, framed fields version middle checksum) ∧
    ∀ junk, message_of_fields (FixMessage_new junk) fields = Ok m) fieldss ms.

Lemma whole_decoded fieldss ms junk : whole_messages fieldss ms → decoded junk fieldss ms.
Proof.
  intros Hw. revert junk. induction Hw as [|fields m fieldss ms [(v & mid & ck & Hf) Hm] _ IH]; intros junk; [constructor|].
  by eapply decoded_cons.
Qed.

(** How many of the messages are complete in the first characters [text] of the stream,
    and what is left behind the last of them. *)
Fixpoint take_messages (fieldss : list (list (Z * str))) (text : str) : nat * str :=
  match fieldss with
  | [] => (0%nat, text)
  | fields :: fieldss' =>
      if (length (fields_text fields) <=? length text)%nat
      then let '(k, rest) := take_messages fieldss' (drop (length (fields_text fields)) text) in (S k, rest)
      else (0%nat, text)
  end.

Lemma take_messages_app fieldss t1 t2 :
  take_messages fieldss (t1 ++ t2) =
    let '(k1, r1) := take_messages fieldss t1 in
    let '(k2, r2) := take_messages (drop k1 fieldss) (r1 ++ t2) in ((k1 + k2)%nat, r2).
Proof.
  revert t1. induction fieldss as [|fields fieldss IH]; intros t1; [done|]. cbn [take_messages].
  destruct (Nat.leb_spec (length (fields_text fields)) (length t1)) as [Hl|Hl].
  - rewrite (proj2 (Nat.leb_le _ _)) by (rewrite length_app; lia). rewrite drop_app_le, IH by done.
    destruct (take_messages fieldss (drop _ t1)) as [k1 r1]. cbn [drop].
    by destruct (take_messages (drop k1 fieldss) (r1 ++ t2)) as [k2 r2].
  - cbn [drop take_messages]. by case_match; [destruct (take_messages _ _)|].
Qed.

(** Nothing can be taken from a strict beginning of the first message. *)
Definition no_message (fieldss : list (list (Z * str))) (text : str) : Prop :=
  match fieldss with [] => text = [] | fields :: _ => (length text < length (fields_text fields))%nat end.

Lemma take_messages_none fieldss text : no_message fieldss text → take_messages fieldss text = (0%nat, text).
Proof. destruct fieldss; simpl; [done|]. intros H. by rewrite (proj2 (Nat.leb_gt _ _)). Qed.

Lemma take_messages_spec fieldss text k rest : text `prefix_of` stream_text fieldss →
  take_messages fieldss text = (k, rest) →
  text = stream_text (take k fieldss) ++ rest ∧ (k <= length fieldss)%nat ∧
  rest `prefix_of` stream_text (drop k fieldss) ∧ no_message (drop k fieldss) rest.
Proof.
  revert text k rest. induction fieldss as [|fields fieldss IH]; intros text k rest Hp E; cbn [take_messages] in E.
  - apply prefix_nil_inv in Hp. simplify_eq. by split_and!.
  - destruct (Nat.leb_spec (length (fields_text fields)) (length text)) as [Hl|Hl].
    + destruct Hp as [later Hp]. rewrite stream_text_cons in Hp.
      assert (text = fields_text fields ++ drop (length (fields_text fields)) text) as Et.
      { rewrite <- (take_drop (length (fields_text fields)) text) at 1. f_equal.
        apply (f_equal (take (length (fields_text fields)))) in Hp. by rewrite take_app_length, take_app_le in Hp. }
      destruct (take_messages fieldss (drop _ text)) as [k' r'] eqn:E'. simplify_eq.
      destruct (IH _ _ _ ltac:(exists later; rewrite Et, <- app_assoc in Hp; by apply app_inv_head in Hp) E')
        as (H1 & H2 & H3 & H4).
      split_and!; [|simpl; lia|done|done]. cbn [take]. by rewrite stream_text_cons, <- app_assoc, <- H1.
    + simplify_eq. split_and!; [done|lia|done|exact Hl].
Qed.
(** The beginning of a message is an incomplete one. *)
Lemma fields_prefix l text : Forall field_ok l → text `prefix_of` fields_text l → (length text < length (fields_text l))%nat →
  ∃ j tail, (j < length l)%nat ∧ text = fields_text (take j l) ++ tail ∧ FIX_DELIMITER ∉ tail.
Proof.
  intros Hok. revert text. induction Hok as [|[k v] l [_ Hv] _ IH]; intros text Hp Hl; [simpl in Hl; lia|].
  rewrite fields_text_cons in Hp, Hl. destruct Hp as [later Hp].
  destruct (decide (length (field k v) <= length text)%nat) as [Hle|Hlt].
  - assert (text = field k v ++ drop (length (field k v)) text) as Et.
    { rewrite <- (take_drop (length (field k v)) text) at 1. f_equal.
      apply (f_equal (take (length (field k v)))) in Hp. by rewrite take_app_length, take_app_le in Hp. }
    destruct (IH (drop (length (field k v)) text)) as (j & tail & Hj & Ej & Ht).
    { exists later. rewrite Et, <- app_assoc in Hp. by apply app_inv_head in Hp. }
    { rewrite length_drop. rewrite length_app in Hl. lia. }
    exists (S j), tail. split; [simpl; lia|]. split; [|done]. cbn [take]. by rewrite fields_text_cons, <- app_assoc, <- Ej.
  - exists 0%nat, text. split; [simpl; lia|]. split; [done|]. intros Hin.
    assert (field k v = (to_string k ++ FIX_EQUALS :: v) ++ [FIX_DELIMITER]) as Ef
      by (unfold field; by rewrite <- app_assoc).
    assert (text `prefix_of` to_string k ++ FIX_EQUALS :: v) as [x Hx].
    { rewrite Ef in Hp, Hlt. rewrite length_app in Hlt. simpl in Hlt. rewrite <- app_assoc in Hp.
      exists (drop (length text) (to_string k ++ FIX_EQUALS :: v)). apply (f_equal (take (length text))) in Hp.
      rewrite take_app_length, take_app_le in Hp by lia.
      rewrite <- (take_drop (length text) (to_string k ++ FIX_EQUALS :: v)) at 1. by rewrite Hp. }
    assert (FIX_DELIMITER ∈ to_string k ++ FIX_EQUALS :: v) as Hd by (rewrite Hx; apply elem_of_app; by left).
    apply elem_of_app in Hd as [Hd|[Hd|Hd]%elem_of_cons]; [by eapply clean_delimiter, Hd; apply clean_to_string|done|].
    by eapply clean_delimiter, Hd.
Qed.

Lemma no_message_incomplete fieldss ms rest : whole_messages fieldss ms → rest `prefix_of` stream_text fieldss →
  no_message fieldss rest → ∃ fields tail, incomplete fields tail ∧ rest = fields_text fields ++ tail.
Proof.
  intros Hw Hp Hno. destruct Hw as [|f m fieldss ms [(v & mid & ck & [Ef Hok Hmid]) _] _].
  - simpl in Hno. subst. exists [], []. split; [|done]. split; [by left|constructor|constructor|apply not_elem_of_nil].
  - destruct (fields_prefix f rest Hok) as (j & tail & Hj & -> & Ht); [|exact Hno|].
    { rewrite stream_text_cons in Hp. destruct Hp as [later Hp]. exists (drop (length rest) (fields_text f)).
      simpl in Hno. apply (f_equal (take (length rest))) in Hp. rewrite take_app_length, take_app_le in Hp by lia.
      rewrite <- (take_drop (length rest) (fields_text f)) at 1. by rewrite Hp. }
    exists (take j f), tail. split; [|done]. subst f. destruct j as [|j].
    { split; [by left|constructor|constructor|done]. }
    cbn [take]. simpl in Hj. rewrite length_app in Hj. simpl in Hj. rewrite take_app_le by lia. split; [|..|done].
    + right. by eexists _, _.
    + apply Forall_cons in Hok as [H1 H2]. constructor; [done|]. apply Forall_app in H2 as [H2 _]. by apply Forall_take.
    + constructor; [done|]. by apply Forall_take.
Qed.

(** What a session does with each piece that [recv] gives it: the piece is appended to the
    cache, which is then parsed, with whatever memory the first message has. *)
Fixpoint receive_pieces (pieces : list (Z * str)) (messages : list FixMessage) (c : FixReceiveCache)
    : outcome (FixReceiveCache * list FixMessage) :=
  match pieces with
  | [] => Ok (c, messages)
  | (junk, data) :: pieces' =>
      c ← FixReceiveCache_append data c;
      '(c, messages, _) ← FixReceiveCache_parse junk messages c;
      receive_pieces pieces' messages c
  end.

(** The cuts that the cache can take: every piece fits behind what is held, with a
    character to spare; and when a piece completes a message, what follows the last
    complete message is not exactly one character and is not longer than the messages
    that are taken out in front of it. *)
Fixpoint cuts_ok (capacity : Z) (fieldss : list (list (Z * str))) (held : str) (pieces : list (Z * str)) : Prop :=
  match pieces with
  | [] => True
  | (_, data) :: pieces' =>
      let '(k, rest) := take_messages fieldss (held ++ data) in
      Z.of_nat (length held) + Z.of_nat (length data) < capacity ∧
      (k ≠ 0%nat → length rest ≠ 1%nat ∧ (length rest <= length (stream_text (take k fieldss)))%nat) ∧
      cuts_ok capacity (drop k fieldss) rest pieces'
  end.

Lemma cache_step junk data held fieldss ms messages c k rest :
  whole_messages fieldss ms → cache_holds held c → Z.of_nat (length held) + Z.of_nat (length data) < m_cacheCapacity c →
  held ++ data `prefix_of` stream_text fieldss → take_messages fieldss (held ++ data) = (k, rest) →
  (k ≠ 0%nat → length rest ≠ 1%nat ∧ (length rest <= length (stream_text (take k fieldss)))%nat) →
  ∃ c1 c2, FixReceiveCache_append data c = Ok c1 ∧
    FixReceiveCache_parse junk messages c1 = Ok (c2, messages ++ take k ms, Z.of_nat (length (take k ms))) ∧
    cache_holds rest c2 ∧ m_cacheCapacity c2 = m_cacheCapacity c.
Proof.
  intros Hw Hheld Hroom Hp Ek Hcut. pose proof (take_messages_spec _ _ _ _ Hp Ek) as (Et & Hk & Hrest & Hno).
  destruct (cache_append held data c Hheld) as (c1 & Ha & Hh1 & Hcap1); [rewrite (ch_size _ _ Hheld); lia|].
  destruct (no_message_incomplete _ (drop k ms) rest (Forall2_drop _ _ _ _ Hw) Hrest Hno) as (fields & tail & Hinc & Er).
  rewrite Et, Er in Hh1. rewrite Er in Hcut.
  assert (take k ms ≠ [] → k ≠ 0%nat) as Hne by (intros H ->; by apply H).
  destruct (cache_parse_spec junk (take k fieldss) (take k ms) fields tail messages c1
    (whole_decoded _ _ _ (Forall2_take _ _ _ _ Hw)) Hinc Hh1) as (c2 & Hparse & Hcap2 & Hh2).
  { intros H. by apply Hcut, Hne. }
  rewrite decide_False in Hh2 by (intros [H1 H2]; by apply (Hcut (Hne H1))).
  exists c1, c2. rewrite Er. split_and!; try done. congruence.
Qed.

Lemma receive_pieces_spec pieces fieldss ms messages c held :
  whole_messages fieldss ms → no_message fieldss held → held ++ concat pieces.*2 `prefix_of` stream_text fieldss →
  cache_holds held c → cuts_ok (m_cacheCapacity c) fieldss held pieces →
  ∃ c' k rest, take_messages fieldss (held ++ concat pieces.*2) = (k, rest) ∧
    receive_pieces pieces messages c = Ok (c', messages ++ take k ms) ∧ cache_holds rest c'.
Proof.
  revert fieldss ms messages c held.
  induction pieces as [|[junk data] pieces IH]; intros fieldss ms messages c held Hw Hno Hp Hheld Hcuts.
  - exists c, 0%nat, held. cbn. rewrite !app_nil_r. by rewrite take_messages_none.
  - cbn [fmap list_fmap concat snd] in *. cbn [cuts_ok] in Hcuts. rewrite app_assoc in Hp |- *. rewrite take_messages_app.
    destruct (take_messages fieldss (held ++ data)) as [k rest] eqn:Ek. destruct Hcuts as (Hroom & Hcut & Hcuts).
    assert (held ++ data `prefix_of` stream_text fieldss) as Hp1 by (etrans; [by apply prefix_app_r|exact Hp]).
    destruct (cache_step junk data held fieldss ms messages c k rest Hw Hheld Hroom Hp1 Ek Hcut)
      as (c1 & c2 & Ha & Hparse & Hh2 & Hcap). destruct (take_messages_spec _ _ _ _ Hp1 Ek) as (Et & Hk & Hrest & Hno2).
    destruct (IH (drop k fieldss) (drop k ms) (messages ++ take k ms) c2 rest (Forall2_drop _ _ _ _ Hw) Hno2)
      as (c' & k2 & rest2 & E2 & Hrec & Hh); [|done|by rewrite Hcap|].
    + rewrite Et, <- app_assoc in Hp. rewrite <- (take_drop k fieldss) in Hp at 2. unfold stream_text in Hp.
      rewrite fmap_app, concat_app in Hp. by apply prefix_app_inv in Hp.
    + exists c', (k + k2)%nat, rest2. rewrite E2. split; [done|]. split; [|done]. cbn [receive_pieces].
      rewrite Ha. cbn [mbind outcome_bind]. rewrite Hparse. cbn [mbind outcome_bind]. rewrite Hrec.
      by rewrite <- app_assoc, take_take_drop.
Qed.

(** C13: However a stream of whole messages is cut into pieces that the cache can take
    ([cuts_ok]: every piece fits with a character to spare, and behind messages that a
    piece completes there is not exactly one character left, nor more than those messages
    were long), the cache hands over every message that has arrived completely, once and
    in order, and holds exactly the part that has arrived of the next one. *)
Theorem cache_delivers_stream (fieldss : list (list (Z * str))) (ms : list FixMessage) (pieces : list (Z * str))
    (messages : list FixMessage) (c : FixReceiveCache)
    (Hmessages : whole_messages fieldss ms) (Hstream : concat pieces.*2 `prefix_of` stream_text fieldss)
    (Hempty : cache_holds [] c) (Hcuts : cuts_ok (m_cacheCapacity c) fieldss [] pieces) :
  ∃ c' k rest, receive_pieces pieces messages c = Ok (c', messages ++ take k ms) ∧
    concat pieces.*2 = stream_text (take k fieldss) ++ rest ∧ no_message (drop k fieldss) rest ∧ cache_holds rest c'.
Proof.
  destruct (receive_pieces_spec pieces fieldss ms messages c [] Hmessages) as (c' & k & rest & Ek & Hrec & Hh); try done.
  { destruct Hmessages as [|f m ? ? [(v & mid & ck & [-> _ _]) _] _]; [done|].
    cbn [no_message length]. rewrite fields_text_cons, length_app. pose proof (field_length 8 v). lia. }
  destruct (take_messages_spec _ _ _ _ Hstream Ek) as (Et & _ & _ & Hno). by exists c', k, rest.
Qed.

(** A single character left behind complete messages is lost: the comparison that
    decides whether anything is left is strict. *)
Theorem cache_drops_single_character (junk : Z) (fieldss : list (list (Z * str))) (ms : list FixMessage) (last : ascii)
    (messages : list FixMessage) (c : FixReceiveCache)
    (Hcomplete : decoded junk fieldss ms) (Hsome : ms ≠ []) (Hlast : last ≠ FIX_DELIMITER)
    (Hheld : cache_holds (stream_text fieldss ++ [last]) c) :
  ∃ c', FixReceiveCache_parse junk messages c = Ok (c', messages ++ ms, Z.of_nat (length ms)) ∧ cache_holds [] c'.
Proof.
  destruct (cache_parse_spec junk fieldss ms [] [last] messages c Hcomplete) as (c' & Hp & _ & Hh).
  - split; [by left|done|done|]. rewrite not_elem_of_cons. split; [done|apply not_elem_of_nil].
  - exact Hheld.
  - intros _. simpl. pose proof (decoded_length _ _ _ Hcomplete Hsome). lia.
  - rewrite decide_True in Hh by done. by exists c'.
Qed.

(** ** Witnesses: a cache of 256 characters *)

Definition demo_cache (text : str) : FixReceiveCache :=
  mkFixReceiveCache 256 (Z.of_nat (length text)) (text ++ replicate (256 - length text) "x"%char).

Lemma demo_cache_holds text : (length text < 256)%nat → cache_holds text (demo_cache text).
Proof.
  intros Hl. split; simpl; [done|by rewrite take_app_length| |reflexivity|lia].
  rewrite length_app, length_replicate. lia.
Qed.

Lemma demo_decoded : decoded 0 [demo_wire 1; demo_wire 2] [demo_parsed 1; demo_parsed 2].
Proof.
  eapply decoded_cons; [apply demo_framed|vm_compute; reflexivity|].
  eapply decoded_cons; [apply demo_framed|vm_compute; reflexivity|apply decoded_nil].
Qed.

Lemma demo_whole : whole_messages [demo_wire 1; demo_wire 2] [demo_parsed 1; demo_parsed 2].
Proof.
  repeat constructor; try (by eexists _, _, _; apply demo_framed); intros junk; vm_compute; reflexivity.
Qed.

(** Two messages in three pieces: the second ends the first message and begins the next. *)
Definition demo_pieces : list (Z * str) :=
  let text := stream_text [demo_wire 1; demo_wire 2] in [(77, take 10 text); (5, take 40 (drop 10 text)); (-3, drop 50 text)].

Lemma cache_delivers_stream_witness : ∃ c' k rest,
  receive_pieces demo_pieces [] (demo_cache []) = Ok (c', [] ++ take k [demo_parsed 1; demo_parsed 2]) ∧
  concat demo_pieces.*2 = stream_text (take k [demo_wire 1; demo_wire 2]) ++ rest ∧
  no_message (drop k [demo_wire 1; demo_wire 2]) rest ∧ cache_holds rest c'.
Proof.
  apply (cache_delivers_stream [demo_wire 1; demo_wire 2] [demo_parsed 1; demo_parsed 2] demo_pieces [] (demo_cache []));
    [exact demo_whole|exists []; vm_compute; reflexivity|apply demo_cache_holds; simpl; lia|].
  vm_compute. repeat split; try discriminate; lia.
Defined.

Lemma cache_drops_single_character_witness : ∃ c',
  FixReceiveCache_parse 0 [] (demo_cache (stream_text [demo_wire 1; demo_wire 2] ++ $"8")) =
    Ok (c', [demo_parsed 1; demo_parsed 2], 2) ∧ cache_holds [] c'.
Proof.
  apply (cache_drops_single_character 0 [demo_wire 1; demo_wire 2] [demo_parsed 1; demo_parsed 2] "8"%char []);
    [apply demo_decoded|discriminate|discriminate|].
  apply demo_cache_holds. vm_compute. lia.
Defined.
