(* ===== verification/FixSequenceStore.v ===== *)
(** * [fix/fix_sequence_store.h] and the files it uses ([core/file_utility.h])

    The sequence numbers of a session survive in a text file per pair of comp ids.
    The file system is a map from names to contents; writing succeeds. *)
From Stdlib Require Import ZArith Lia Ascii String.
From stdpp Require Import base decidable sets list gmap strings.
From S2P Require Import Prelude.
From S2P Require Import MachineInt.
From S2P Require Import StringUtility.
Local Open Scope Z_scope.

Abbreviation files := (gmap str str).

Definition doesFileExist (fileName : str) (fs : files) : bool :=
  match fs !! fileName with Some _ => true | None => false end.
(** Reading a file that cannot be opened gives the empty text. *)
Definition readAllFile (fileName : str) (fs : files) : str := default [] (fs !! fileName).
Definition deleteFile (fileName : str) (fs : files) : files := delete fileName fs.
(** [std::ios_base::app] appends, [std::ios_base::out] truncates. *)
Definition appendTextToFile (fileName text : str) (createIfNecessary : bool) (fs : files) : files :=
  <[fileName := (if createIfNecessary then readAllFile fileName fs else []) ++ text]> fs.

Definition getSequenceStoreFileName (senderCompId targetCompid : str) : str :=
  senderCompId ++ ($"_") ++ targetCompid ++ ($"_sequence.txt").

(** The outgoing and the incoming number. *)
Definition loadFromSequenceStore (senderCompId targetCompid : str) (fs : files) : outcome (Z * Z) :=
  let fileName := getSequenceStoreFileName senderCompId targetCompid in
  if negb (doesFileExist fileName fs) then Ok (1, 0)
  else
    let numbers := split (readAllFile fileName fs) ","%char in
    number0 ← vec_at 0 numbers;
    outgoing ← stoi number0;
    number1 ← vec_at 1 numbers;
    incoming ← stoi number1;
    Ok (outgoing, incoming).

Definition updateSequenceStore (senderCompId targetCompid : str)
    (outgoingSequenceNumber incomingSequenceNumber : Z) (fs : files) : files :=
  let fileName := getSequenceStoreFileName senderCompId targetCompid in
  let newContent := to_string outgoingSequenceNumber ++ ($",") ++ to_string incomingSequenceNumber in
  appendTextToFile fileName newContent true (deleteFile fileName fs).

Lemma store_roundtrip sender target out inc fs : in_int out = true → in_int inc = true →
  loadFromSequenceStore sender target (updateSequenceStore sender target out inc fs) = Ok (out, inc).
Proof.
  intros Ho Hi. unfold loadFromSequenceStore, updateSequenceStore, appendTextToFile, deleteFile, readAllFile, doesFileExist.
  rewrite lookup_insert_eq. simpl negb. cbn [default from_option id].
  rewrite lookup_delete_eq. simpl.
  rewrite split_app by (apply to_string_not_elem; intros [H|H]; discriminate H).
  rewrite split_no_sep; [|apply to_string_not_elem; intros [H|H]; discriminate H|apply to_string_nonempty].
  unfold vec_at. simpl. by rewrite !stoi_to_string_nil.
Qed.

Lemma store_frame sender target out inc fs name : name ≠ getSequenceStoreFileName sender target →
  updateSequenceStore sender target out inc fs !! name = fs !! name.
Proof.
  intros H. unfold updateSequenceStore, appendTextToFile, deleteFile.
  by rewrite lookup_insert_ne, lookup_delete_ne.
Qed.

(** The file name determines a pair of ids without underscores. *)
Lemma store_name_inj s1 t1 s2 t2 : "_"%char ∉ s1 → "_"%char ∉ s2 →
  getSequenceStoreFileName s1 t1 = getSequenceStoreFileName s2 t2 → s1 = s2 ∧ t1 = t2.
Proof.
  unfold getSequenceStoreFileName. revert s2. induction s1 as [|c s1 IH]; intros [|d s2] H1 H2 E; simpl in *.
  - split; [done|]. injection E as E. by apply app_inv_tail in E.
  - injection E as <- E. apply not_elem_of_cons in H2 as [H2 _]. done.
  - injection E as -> E. apply not_elem_of_cons in H1 as [H1 _]. done.
  - injection E as -> E. apply not_elem_of_cons in H1 as [_ H1], H2 as [_ H2].
    destruct (IH s2 H1 H2 E) as [-> ->]. done.
Qed.

(** The store of another target. *)
Lemma load_other sender target target' out inc fs : target ≠ target' →
  loadFromSequenceStore sender target (updateSequenceStore sender target' out inc fs) =
    loadFromSequenceStore sender target fs.
Proof.
  intros Hne. assert (getSequenceStoreFileName sender target' ≠ getSequenceStoreFileName sender target) as Hn.
  { unfold getSequenceStoreFileName. intros E. apply app_inv_head, app_inv_head, app_inv_tail in E. done. }
  unfold loadFromSequenceStore, updateSequenceStore, appendTextToFile, deleteFile, readAllFile, doesFileExist.
  by rewrite lookup_insert_ne, lookup_delete_ne by done.
Qed.

(** Sequence numbers that are [int]s are restored as they were saved, whatever the
    store held before; saving those of one session leaves those of every session with
    other comp ids (without underscores) as they are; a session that was never saved
    starts with 1 and 0. *)
Theorem sequence_store_roundtrip (sender target : str) (outgoing incoming : Z) (fs : files)
    (Hout : in_int outgoing = true) (Hin : in_int incoming = true) :
  let fs' := updateSequenceStore sender target outgoing incoming fs in
  loadFromSequenceStore sender target fs' = Ok (outgoing, incoming) ∧
  (∀ sender' target', "_"%char ∉ sender → "_"%char ∉ sender' → (sender', target') ≠ (sender, target) →
    loadFromSequenceStore sender' target' fs' = loadFromSequenceStore sender' target' fs) ∧
  loadFromSequenceStore sender target ∅ = Ok (1, 0).
Proof.
  intros fs'. split; [by apply store_roundtrip|]. split; [|reflexivity].
  intros s t H1 H2 Hne. unfold loadFromSequenceStore, doesFileExist, readAllFile, fs'.
  rewrite store_frame; [done|]. intros E. apply store_name_inj in E as [-> ->]; done.
Qed.

Lemma sequence_store_roundtrip_witness :
  let fs' := updateSequenceStore ($"EXECUTOR") ($"CLIENT1") 17 (-4) ∅ in
  loadFromSequenceStore ($"EXECUTOR") ($"CLIENT1") fs' = Ok (17, -4) ∧
  (∀ sender' target', "_"%char ∉ ($"EXECUTOR") → "_"%char ∉ sender' → (sender', target') ≠ ($"EXECUTOR", $"CLIENT1") →
    loadFromSequenceStore sender' target' fs' = loadFromSequenceStore sender' target' ∅) ∧
  loadFromSequenceStore ($"EXECUTOR") ($"CLIENT1") ∅ = Ok (1, 0).
Proof. apply (sequence_store_roundtrip ($"EXECUTOR") ($"CLIENT1") 17 (-4) ∅); reflexivity. Defined.
