(* ===== verification/Configuration.v ===== *)
(** * [core/configuration.cpp]

    Configuration files: lines [attribute=value], empty lines and comments. The entries
    are in an [unordered_multimap]; the order in which it gives the values of one key is
    the library's, and a parameter here. *)
From Stdlib Require Import ZArith Lia Ascii String.
From stdpp Require Import base decidable sets list gmap strings.
From S2P Require Import Prelude.
From S2P Require Import MachineInt.
From S2P Require Import StringUtility.
From S2P Require Import FixSequenceStore.
Local Open Scope Z_scope.

(** [m_dictionary], the entries in the order of their insertion. *)
Record Configuration : Type := mkConfiguration { m_dictionary : list (str * str) }.

Definition Configuration_empty : Configuration := mkConfiguration [].

(** The values of a key, in the order of insertion. *)
Definition values_of (attribute : str) (config : Configuration) : list str :=
  snd <$> filter (λ kv, kv.1 = attribute) (m_dictionary config).

(** The order of [equal_range]; [find] gives its first element. *)
Class EqualRange : Type := {
  equal_range : str → Configuration → list str;
  equal_range_perm attribute config : equal_range attribute config ≡ₚ values_of attribute config
}.

Definition addAttribute (attribute value : str) (config : Configuration) : Configuration :=
  mkConfiguration (m_dictionary config ++ [(attribute, value)]).

(** One line of the file: an entry, nothing, or an error. *)
Definition parse_line (line : str) : outcome (option (str * str)) :=
  let line := trim line in
  if startsWith line "#"%char || bool_decide (length line = 0%nat) then Ok None
  else if bool_decide (length line < 3)%nat then Throw RuntimeError
  else
    match string_find line ($"=") with
    | None => Throw RuntimeError
    | Some equalsPos =>
        match string_find (drop (S equalsPos) line) ($"=") with
        | Some _ => Throw RuntimeError
        | None =>
            let tokens := split line "="%char in
            attribute ← vec_at 0 tokens;
            value ← vec_at 1 tokens;
            Ok (Some (attribute, value))
        end
    end.

Fixpoint load_configuration (lines : list str) (config : Configuration) : outcome Configuration :=
  match lines with
  | [] => Ok config
  | line :: rest =>
      entry ← parse_line line;
      load_configuration rest
        (match entry with Some (attribute, value) => addAttribute attribute value config | None => config end)
  end.

Definition Configuration_loadFromFile (fileName : str) (fs : files) : outcome Configuration :=
  match fs !! fileName with
  | None => Throw RuntimeError
  | Some content => load_configuration (split content (chr 10)) Configuration_empty
  end.

Definition getSubConfiguration (attributeSubString : str) (config : Configuration) : Configuration :=
  mkConfiguration (filter (λ kv, contains kv.1 attributeSubString = true) (m_dictionary config)).

Section values.
Context `{!EqualRange}.

Definition doesAttributeExist (attribute : str) (config : Configuration) : bool :=
  match equal_range attribute config with [] => false | _ => true end.

Definition getStringValue (attribute defaultVal : str) (config : Configuration) : str :=
  match equal_range attribute config with [] => defaultVal | value :: _ => value end.

Definition getBoolValue (attribute : str) (defaultVal : bool) (config : Configuration) : bool :=
  if doesAttributeExist attribute config
  then bool_decide (toLower (getStringValue attribute [] config) = $"true")
  else defaultVal.

Definition getIntValue (attribute : str) (defaultVal : Z) (config : Configuration) : outcome Z :=
  if doesAttributeExist attribute config then stoi (getStringValue attribute [] config) else Ok defaultVal.

Definition getArray (attribute : str) (config : Configuration) : list str :=
  equal_range (attribute ++ $"[]") config.
End values.

(** * What a file means *)

Inductive config_line : Type :=
  | Setting (attribute value : str)
  | Comment (text : str)
  | Blank (spaces : str).

Definition line_text (l : config_line) : str :=
  match l with Setting k v => k ++ "="%char :: v | Comment t => "#"%char :: t | Blank t => t end.

Definition file_text (ls : list config_line) : str := concat ((λ l, line_text l ++ [chr 10]) <$> ls).

Definition no_break (s : str) : Prop := chr 10 ∉ s.
#[export] Instance no_break_dec s : Decision (no_break s).
Proof. unfold no_break. apply _. Defined.

(** Texts that are read back as they are. *)
Record setting_ok (k v : str) : Prop := {
  st_key : ("="%char ∉ k) ∧ no_break k;
  st_value : ("="%char ∉ v) ∧ no_break v;
  st_first : ∃ c k', k = c :: k' ∧ isspace c = false ∧ c ≠ "#"%char;
  st_last : ∃ v' c, v = v' ++ [c] ∧ isspace c = false
}.

Definition line_ok (l : config_line) : Prop :=
  match l with
  | Setting k v => setting_ok k v
  | Comment t => no_break t
  | Blank t => no_break t ∧ Forall (λ c, isspace c = true) t
  end.

Definition entries (ls : list config_line) : list (str * str) :=
  omap (λ l, match l with Setting k v => Some (k, v) | _ => None end) ls.

Lemma find_from_absent pos s c : c ∉ s → find_from pos s [c] = None.
Proof.
  revert pos. induction s as [|d s IH]; intros pos Hc; simpl; [done|].
  apply not_elem_of_cons in Hc as [Hd Hc]. rewrite bool_decide_false by done. by apply IH.
Qed.

Lemma find_from_present pos s t c : c ∉ s → find_from pos (s ++ c :: t) [c] = Some (pos + length s)%nat.
Proof.
  revert pos. induction s as [|d s IH]; intros pos Hc; simpl.
  - rewrite bool_decide_true by done. simpl. f_equal. lia.
  - apply not_elem_of_cons in Hc as [Hd Hc]. rewrite bool_decide_false by done. simpl. rewrite IH by done. f_equal. lia.
Qed.

Lemma drop_space_stop c s : isspace c = false → drop_space (c :: s) = c :: s.
Proof. intros E. simpl. by rewrite E. Qed.

Lemma trim_id s c1 s1 s2 c2 : s = c1 :: s1 → s = s2 ++ [c2] → isspace c1 = false → isspace c2 = false → trim s = s.
Proof.
  intros E1 E2 H1 H2. unfold trim, trimLeft. rewrite E1, drop_space_stop, <- E1 by done.
  unfold trimRight. by rewrite E2, reverse_snoc, drop_space_stop, reverse_cons, reverse_involutive by done.
Qed.

Lemma parse_setting k v : setting_ok k v → parse_line (k ++ "="%char :: v) = Ok (Some (k, v)).
Proof.
  intros [[Hk Hkb] [Hv Hvb] (c & k' & -> & Hc & Hh) (v' & d & -> & Hd)]. unfold parse_line.
  rewrite (trim_id _ c (k' ++ "="%char :: v' ++ [d]) ((c :: k') ++ "="%char :: v') d)
    by (done || by rewrite <- ?app_assoc).
  cbn [startsWith app]. rewrite bool_decide_false by done. cbn [orb].
  rewrite bool_decide_false by done.
  rewrite bool_decide_false by (simpl; rewrite length_app; simpl; rewrite length_app; simpl; lia).
  change (c :: k' ++ "="%char :: v' ++ [d]) with ((c :: k') ++ "="%char :: v' ++ [d]).
  unfold string_find. change ($"=") with ["="%char]. rewrite find_from_present by done.
  rewrite Nat.add_0_l, drop_app_ge by lia. replace (S (length (c :: k')) - length (c :: k'))%nat with 1%nat by lia.
  cbn [drop]. rewrite find_from_absent by done.
  rewrite split_app by done. rewrite split_no_sep by (done || by destruct v'). reflexivity.
Qed.

Lemma parse_comment t : parse_line ("#"%char :: t) = Ok None.
Proof.
  unfold parse_line, trim, trimLeft. rewrite drop_space_stop by done. unfold trimRight. rewrite reverse_cons.
  assert (∃ u, reverse (drop_space (reverse t ++ ["#"%char])) = "#"%char :: u) as (u & ->); [|done].
  generalize (reverse t). induction l as [|d l [u IH]]; [by exists []|]. simpl.
  destruct (isspace d); [by exists u|]. rewrite reverse_cons, reverse_app. simpl. by eexists.
Qed.

Lemma parse_blank t : Forall (λ c, isspace c = true) t → parse_line t = Ok None.
Proof.
  intros Ht. assert (drop_space t = []) as E by (induction Ht as [|c t Hc _ IH]; simpl; [done|by rewrite Hc]).
  unfold parse_line, trim, trimLeft. by rewrite E.
Qed.

Lemma load_lines_entries ls config : Forall line_ok ls →
  load_configuration (line_text <$> ls) config = Ok (mkConfiguration (m_dictionary config ++ entries ls)).
Proof.
  intros Hok. revert config. induction Hok as [|l ls Hl _ IH]; intros config.
  - cbn. rewrite app_nil_r. by destruct config.
  - cbn [fmap list_fmap load_configuration]. destruct l as [k v|t|t]; cbn [line_text].
    + rewrite (parse_setting _ _ Hl). cbn [mbind outcome_bind]. rewrite IH. simpl. by rewrite <- app_assoc.
    + rewrite parse_comment. cbn [mbind outcome_bind]. by rewrite IH.
    + rewrite parse_blank by apply Hl. cbn [mbind outcome_bind]. by rewrite IH.
Qed.

Lemma split_file ls : Forall line_ok ls → split (file_text ls) (chr 10) = line_text <$> ls.
Proof.
  induction 1 as [|l ls Hl _ IH]; [done|]. unfold file_text. cbn [fmap list_fmap concat].
  rewrite <- app_assoc. change ([chr 10] ++ ?x) with (chr 10 :: x). rewrite split_app.
  - f_equal. exact IH.
  - destruct l as [k v|t|t]; simpl.
    + destruct Hl as [[_ Hk] [_ Hv] _ _]. rewrite not_elem_of_app, not_elem_of_cons. done.
    + by apply not_elem_of_cons.
    + apply Hl.
Qed.

Lemma getStringValue_set `{!EqualRange} k v dflt l : (k, v) ∈ l → (k, getStringValue k dflt (mkConfiguration l)) ∈ l.
Proof.
  intros Hin. pose proof (equal_range_perm k (mkConfiguration l)) as Hp. unfold values_of in Hp. simpl in Hp.
  assert (v ∈ (filter (λ kv : str * str, kv.1 = k) l).*2) as Hv.
  { apply list_elem_of_fmap. exists (k, v). split; [done|]. by apply list_elem_of_filter. }
  rewrite <- Hp in Hv. unfold getStringValue. destruct (equal_range k _) as [|v' vs]; [by apply elem_of_nil in Hv|].
  assert (v' ∈ (filter (λ kv : str * str, kv.1 = k) l).*2) as Hv' by (rewrite <- Hp; by left).
  apply list_elem_of_fmap in Hv' as ([k1 v1] & -> & [Hk Hin1]%list_elem_of_filter). simpl in Hk. by subst.
Qed.

(** C37: Loading a file of settings, comments and lines of white space, which may be empty,
    gives the settings: an attribute that is set once has its value, as a text, as a truth
    value (any case of "true" is true) and as a number; one that is set more often has one
    of its values; one that is not set has the default; and an array has all the values it
    was given, in some order. *)
Theorem configuration_loads `{!EqualRange} (fileName : str) (fs : files) (ls : list config_line)
    (Hfile : fs !! fileName = Some (file_text ls)) (Hok : Forall line_ok ls) :
  ∃ config, Configuration_loadFromFile fileName fs = Ok config ∧
    (∀ k v dflt, filter (λ kv, kv.1 = k) (entries ls) = [(k, v)] →
       getStringValue k dflt config = v ∧ (∀ n, getIntValue k n config = stoi v) ∧
       ∀ b, getBoolValue k b config = bool_decide (toLower v = $"true")) ∧
    (∀ k dflt, k ∈ (entries ls).*1 → (k, getStringValue k dflt config) ∈ entries ls) ∧
    (∀ k dflt n, k ∉ (entries ls).*1 →
       doesAttributeExist k config = false ∧ getStringValue k dflt config = dflt ∧ getIntValue k n config = Ok n ∧
       ∀ b, getBoolValue k b config = b) ∧
    ∀ k, getArray k config ≡ₚ (filter (λ kv, kv.1 = k ++ $"[]") (entries ls)).*2.
Proof.
  eexists. split.
  { unfold Configuration_loadFromFile. rewrite Hfile, split_file by done. by apply load_lines_entries. }
  simpl. split; [|split; [|split]].
  - intros k v dflt Hk. pose proof (equal_range_perm k (mkConfiguration (entries ls))) as Hp.
    unfold values_of in Hp. simpl in Hp. rewrite Hk in Hp. simpl in Hp. apply Permutation_singleton_r in Hp.
    unfold getIntValue, getBoolValue, doesAttributeExist, getStringValue. by rewrite Hp.
  - intros k dflt (kv & -> & Hin)%list_elem_of_fmap. destruct kv as [k v]. by apply (getStringValue_set k v).
  - intros k dflt n Hk. pose proof (equal_range_perm k (mkConfiguration (entries ls))) as Hp.
    unfold values_of in Hp. simpl in Hp.
    assert (filter (λ kv : str * str, kv.1 = k) (entries ls) = []) as E.
    { apply elem_of_nil_inv. intros [k' v] [Hk' Hin]%list_elem_of_filter. simpl in Hk'. subst k'. apply Hk.
      apply list_elem_of_fmap. by exists (k, v). }
    rewrite E in Hp. apply Permutation_nil_r in Hp.
    unfold getStringValue, getIntValue, getBoolValue, doesAttributeExist. by rewrite Hp.
  - intros k. apply (equal_range_perm (k ++ $"[]") (mkConfiguration (entries ls))).
Qed.

(** A line [AB=] reads a token that is not there. *)
Example empty_value_line : parse_line ($"AB=") = Undef IndexOutOfBounds.
Proof. vm_compute. reflexivity. Qed.

(** ** A witness *)

Definition demo_EqualRange : EqualRange :=
  {| equal_range := values_of; equal_range_perm attribute config := reflexivity _ |}.
#[local] Existing Instance demo_EqualRange.

Definition demo_lines : list config_line :=
  [Comment ($" the symbols"); Blank []; Setting ($"SYMBOL[]") ($"AAA"); Setting ($"SYMBOL[]") ($"BBB");
   Blank ($"  "); Setting ($"FIX_SERVER_PORT") ($"9999")].

Ltac decide_now := apply (bool_decide_unpack _); vm_compute; exact I.

Lemma configuration_loads_witness : ∃ config,
  Configuration_loadFromFile ($"liteExchange.ini") {[ $"liteExchange.ini" := file_text demo_lines ]} = Ok config ∧
  (∀ k v dflt, filter (λ kv, kv.1 = k) (entries demo_lines) = [(k, v)] →
     getStringValue k dflt config = v ∧ (∀ n, getIntValue k n config = stoi v) ∧
     ∀ b, getBoolValue k b config = bool_decide (toLower v = $"true")) ∧
  (∀ k dflt, k ∈ (entries demo_lines).*1 → (k, getStringValue k dflt config) ∈ entries demo_lines) ∧
  (∀ k dflt n, k ∉ (entries demo_lines).*1 →
     doesAttributeExist k config = false ∧ getStringValue k dflt config = dflt ∧ getIntValue k n config = Ok n ∧
     ∀ b, getBoolValue k b config = b) ∧
  ∀ k, getArray k config ≡ₚ (filter (λ kv, kv.1 = k ++ $"[]") (entries demo_lines)).*2.
Proof.
  apply (configuration_loads ($"liteExchange.ini") _ demo_lines); [by rewrite lookup_singleton_eq|].
  unfold demo_lines. repeat (apply Forall_cons; split); [| | | | | |apply Forall_nil_2].
  - simpl. decide_now.
  - split; decide_now.
  - split; [split; decide_now|split; decide_now
      |by exists "S"%char, ($"YMBOL[]")|by exists ($"AA"), "A"%char].
  - split; [split; decide_now|split; decide_now
      |by exists "S"%char, ($"YMBOL[]")|by exists ($"BB"), "B"%char].
  - split; decide_now.
  - split; [split; decide_now|split; decide_now
      |by exists "F"%char, ($"IX_SERVER_PORT")|by exists ($"999"), "9"%char].
Defined.
