(* ===== verification/QueueMPSC.v ===== *)
(** * [core/concurrency/queue_mpsc.hpp]

    The unbounded queue of the logger: a linked list behind a dummy node. The nodes are
    in a heap, by address, and pointers may dangle; the operations run under the queue's
    lock, one at a time. [flush] hands the whole list over without its nodes being freed. *)
From Stdlib Require Import ZArith Lia.
From stdpp Require Import base decidable sets list gmap.
From S2P Require Import Prelude.
Local Open Scope Z_scope.

(** [QueueMPSCNode]; the data of the dummy is not set. *)
Record QueueMPSCNode (A : Type) : Type := mkQueueMPSCNode {
  nd_data : option A;
  nd_next : option Z
}.
Arguments mkQueueMPSCNode {A}. Arguments nd_data {A}. Arguments nd_next {A}.

Record QueueMPSC (A : Type) : Type := mkQueueMPSC {
  mq_heap : gmap Z (QueueMPSCNode A);
  mq_head : Z;
  mq_tail : Z
}.
Arguments mkQueueMPSC {A}. Arguments mq_heap {A}. Arguments mq_head {A}. Arguments mq_tail {A}.

(** The constructor, for the address of the dummy. *)
Definition QueueMPSC_new {A} (dummy : Z) : QueueMPSC A :=
  mkQueueMPSC {[ dummy := mkQueueMPSCNode None None ]} dummy dummy.

Definition node_at {A} (p : Z) (q : QueueMPSC A) : outcome (QueueMPSCNode A) :=
  match mq_heap q !! p with Some n => Ok n | None => Undef UseAfterFree end.

(** [push], with the address the new node gets. *)
Definition QueueMPSC_push {A} (newNode : Z) (data : A) (q : QueueMPSC A) : outcome (QueueMPSC A) :=
  let heap := <[newNode := mkQueueMPSCNode (Some data) None]> (mq_heap q) in
  tail ← node_at (mq_tail q) (mkQueueMPSC heap (mq_head q) (mq_tail q));
  Ok (mkQueueMPSC (<[mq_tail q := mkQueueMPSCNode (nd_data tail) (Some newNode)]> heap) (mq_head q) newNode).

Definition QueueMPSC_isEmpty {A} (q : QueueMPSC A) : outcome bool :=
  head ← node_at (mq_head q) q;
  Ok (match nd_next head with None => true | Some _ => false end).

(** [flush]: the pointer to the first node, or null. *)
Definition QueueMPSC_flush {A} (q : QueueMPSC A) : outcome (QueueMPSC A * option Z) :=
  empty ← QueueMPSC_isEmpty q;
  if empty : bool then Ok (q, None)
  else
    head ← node_at (mq_head q) q;
    Ok (mkQueueMPSC (<[mq_head q := mkQueueMPSCNode (nd_data head) None]> (mq_heap q)) (mq_head q) (mq_head q),
        nd_next head).

(** The destructor frees the nodes that can be reached from the head. *)
Fixpoint QueueMPSC_destroy {A} (fuel : nat) (p : option Z) (q : QueueMPSC A) : outcome (QueueMPSC A) :=
  match p, fuel with
  | None, _ => Ok q
  | Some _, O => NoFuel
  | Some head, S fuel' =>
      node ← node_at head q;
      QueueMPSC_destroy fuel' (nd_next node) (mkQueueMPSC (delete head (mq_heap q)) (mq_head q) (mq_tail q))
  end.

(** The walk over a flushed list ([Logger::run]): the data of the nodes. *)
Fixpoint read_nodes {A} (fuel : nat) (p : option Z) (q : QueueMPSC A) : outcome (list A) :=
  match p, fuel with
  | None, _ => Ok []
  | Some _, O => NoFuel
  | Some currentLog, S fuel' =>
      node ← node_at currentLog q;
      rest ← read_nodes fuel' (nd_next node) q;
      match nd_data node with Some x => Ok (x :: rest) | None => Undef NullDeref end
  end.

(** * The list behind the pointers *)

Section chain.
Context {A : Type}.
Implicit Types (heap : gmap Z (QueueMPSCNode A)) (q : QueueMPSC A).

(** The nodes at the addresses [ps], linked in this order from [p] on, hold [xs]. *)
Fixpoint chain heap (p : option Z) (ps : list Z) (xs : list A) : Prop :=
  match ps, xs with
  | [], [] => p = None
  | a :: ps, x :: xs => p = Some a ∧ ∃ n, heap !! a = Some (mkQueueMPSCNode (Some x) n) ∧ chain heap n ps xs
  | _, _ => False
  end.

Lemma chain_insert_other heap p ps xs a n : a ∉ ps → chain heap p ps xs → chain (<[a := n]> heap) p ps xs.
Proof.
  revert p xs. induction ps as [|b ps IH]; intros p [|x xs]; simpl; try done. intros Ha (-> & m & Em & Hm).
  apply not_elem_of_cons in Ha as [Hb Ha]. split; [done|]. exists m. rewrite lookup_insert_ne by done.
  split; [done|]. by apply IH.
Qed.

(** The queue holds [xs], in the nodes [ps] after the dummy; the last node is the tail. *)
Record holds q (ps : list Z) (xs : list A) : Prop := {
  ho_nodup : NoDup (mq_head q :: ps);
  ho_tail : last (mq_head q :: ps) = Some (mq_tail q);
  ho_chain : ∃ dummy, mq_heap q !! mq_head q = Some dummy ∧ chain (mq_heap q) (nd_next dummy) ps xs
}.

Lemma holds_new dummy : holds (QueueMPSC_new dummy) [] [].
Proof.
  split; [apply NoDup_singleton|done|]. exists (mkQueueMPSCNode None None). split; [|done]. apply lookup_singleton_eq.
Qed.

(** Linking a new node behind the last node [last (a :: ps)] of a chain. *)
Lemma chain_link heap a na ps xs b y : NoDup (a :: ps) → b ∉ a :: ps → heap !! a = Some na → chain heap (nd_next na) ps xs →
  ∃ t tn, last (a :: ps) = Some t ∧ heap !! t = Some tn ∧
    let heap' := <[t := mkQueueMPSCNode (nd_data tn) (Some b)]> (<[b := mkQueueMPSCNode (Some y) None]> heap) in
    ∃ na', heap' !! a = Some na' ∧ chain heap' (nd_next na') (ps ++ [b]) (xs ++ [y]).
Proof.
  revert a na xs. induction ps as [|c ps IH]; intros a na [|x xs] Hnd Hb Ea Hc; simpl in Hc; try done.
  - exists a, na. split; [done|]. split; [done|]. intros heap'. eexists. split; [apply lookup_insert_eq|].
    simpl. split; [done|]. exists None. split; [|done].
    unfold heap'. rewrite lookup_insert_ne by (intros ->; apply Hb; by left). apply lookup_insert_eq.
  - destruct Hc as (En & n & Ec & Hn). apply NoDup_cons in Hnd as [Ha Hnd]. apply not_elem_of_cons in Hb as [Hba Hb].
    destruct (IH c (mkQueueMPSCNode (Some x) n) xs Hnd Hb Ec Hn) as (t & tn & Et & Etn & nc' & Ec' & Hch).
    exists t, tn. split; [done|]. split; [done|]. intros heap'. fold heap' in Ec', Hch.
    assert (t ≠ a) as Hta by (intros ->; apply Ha; by eapply last_Some_elem_of).
    exists na. split; [unfold heap'; by rewrite !lookup_insert_ne by done|]. rewrite En. simpl. split; [done|].
    exists (nd_next nc'). split; [|done]. rewrite Ec'. f_equal.
    revert Ec'. unfold heap'. destruct (decide (t = c)) as [->|].
    + rewrite lookup_insert_eq. rewrite Ec in Etn. by intros; simplify_eq.
    + rewrite lookup_insert_ne, lookup_insert_ne, Ec by (done || (intros ->; apply Hb; by left)). by intros; simplify_eq.
Qed.

Lemma push_holds q ps xs b y : holds q ps xs → mq_heap q !! b = None →
  ∃ q', QueueMPSC_push b y q = Ok q' ∧ holds q' (ps ++ [b]) (xs ++ [y]) ∧ mq_head q' = mq_head q.
Proof.
  intros [Hnd Ht (dummy & Ed & Hc)] Hb.
  assert (b ∉ mq_head q :: ps) as Hfresh.
  { rewrite not_elem_of_cons. split; [intros ->; congruence|]. clear - Hb Hc.
    revert Hc. generalize (nd_next dummy). revert xs. induction ps as [|a ps IH]; intros [|x xs] p; simpl; try done.
    - intros _. apply not_elem_of_nil.
    - intros (_ & n & Ea & Hn). apply not_elem_of_cons. split; [congruence|by eapply IH]. }
  destruct (chain_link _ _ _ _ _ b y Hnd Hfresh Ed Hc) as (t & tn & Et & Etn & na' & Ea' & Hc').
  assert (t = mq_tail q) as -> by congruence.
  eexists. split; [|split; [split|]].
  - unfold QueueMPSC_push, node_at. simpl.
    rewrite lookup_insert_ne by (intros E; congruence). rewrite Etn. reflexivity.
  - simpl. apply (NoDup_app (mq_head q :: ps) [b]). split; [done|]. split; [|apply NoDup_singleton].
    intros x Hx Hx'. apply list_elem_of_singleton in Hx' as ->. done.
  - simpl mq_head. simpl mq_tail. change (mq_head q :: ps ++ [b]) with ((mq_head q :: ps) ++ [b]). apply last_snoc.
  - exists na'. by split.
  - done.
Qed.

Lemma read_chain q p ps xs : chain (mq_heap q) p ps xs → read_nodes (length ps) p q = Ok xs.
Proof.
  revert p xs. induction ps as [|a ps IH]; intros p [|x xs]; simpl; try done; [by intros ->|].
  intros (-> & n & Ea & Hn). unfold node_at. rewrite Ea. cbn [mbind outcome_bind nd_next nd_data].
  by rewrite (IH _ _ Hn).
Qed.

(** [flush] gives the whole list, in the order of the pushes, and the queue is empty;
    the nodes stay allocated. *)
Lemma flush_holds q ps xs : holds q ps xs →
  ∃ q' p, QueueMPSC_flush q = Ok (q', p) ∧ holds q' [] [] ∧ chain (mq_heap q') p ps xs ∧
    read_nodes (length ps) p q' = Ok xs ∧ dom (mq_heap q') = dom (mq_heap q) ∧ mq_head q' = mq_head q.
Proof.
  intros [Hnd Ht (dummy & Ed & Hc)]. unfold QueueMPSC_flush, QueueMPSC_isEmpty, node_at.
  rewrite Ed. cbn [mbind outcome_bind]. destruct (nd_next dummy) as [a|] eqn:En.
  - cbn [mbind outcome_bind]. eexists _, _. split; [done|].
    apply NoDup_cons in Hnd as [Hd Hnd].
    assert (chain (<[mq_head q := mkQueueMPSCNode (nd_data dummy) None]> (mq_heap q)) (Some a) ps xs) as Hc'.
    { by apply chain_insert_other. }
    split; [split; [apply NoDup_singleton|done|]; simpl; eexists; split; [apply lookup_insert_eq|done]|].
    split; [exact Hc'|]. split; [by apply read_chain|]. simpl. split; [|done].
    apply dom_insert_lookup_L. by eexists.
  - exists q, None. split; [done|]. destruct ps as [|b ps], xs as [|x xs]; try done; [|by destruct Hc].
    split; [split; [done|done|by exists dummy; rewrite En]|]. by split_and!.
Qed.

(** Every node a queue ever flushed stays in the heap when the queue is destroyed. *)
Lemma destroy_leaks q ps xs q' p a : holds q ps xs → QueueMPSC_flush q = Ok (q', p) → a ∈ ps →
  ∃ q'', QueueMPSC_destroy 1 (Some (mq_head q')) q' = Ok q'' ∧ is_Some (mq_heap q'' !! a).
Proof.
  intros Hq Ef Ha. pose proof Hq as [Hnd _ _]. destruct (flush_holds q ps xs Hq) as (q1 & p1 & Ef1 & [_ _ (d & Ed & Hd)] & Hc & _ & _ & Eh).
  rewrite Ef1 in Ef. simplify_eq. eexists. split.
  - simpl. unfold node_at. rewrite Ed. cbn [mbind outcome_bind]. simpl in Hd. rewrite Hd. reflexivity.
  - simpl. apply NoDup_cons in Hnd as [Hn _]. rewrite Eh, lookup_delete_ne by (intros E; apply Hn; by rewrite E).
    clear - Hc Ha. revert p xs Hc. induction Ha as [a ps|a b ps Ha IH]; intros p [|y xs]; simpl; try done.
    + intros (_ & n & -> & _). by eexists.
    + intros (_ & n & _ & Hn). by eapply IH.
Qed.
End chain.
