(* ===== verification/SpinLock.v ===== *)
(** * [core/concurrency/spinlock.hpp]

    The lock, its acquisition loop, and what a section between [lock] and [unlock] is
    worth: threads whose operations are cut at their memory accesses and run under one
    lock, in any interleaving, leave the shared state as if each operation had run at
    once. Components that model an operation under its lock as one step rely on it;
    [QueueMPSC.v] is an instance. *)
From Stdlib Require Import ZArith Lia.
From stdpp Require Import base decidable list gmap relations.
From S2P Require Import Prelude.
From S2P Require Import MachineInt.
From S2P Require Import QueueMPSC.
Local Open Scope Z_scope.

(** ** The lock *)

Definition DEFAULT_SPIN_COUNT : Z := 1024.

Record SpinLock : Type := mkSpinLock {
  m_yielding : bool;
  m_spinCount : Z;
  m_flag : bool
}.

Definition SpinLock_unlock (l : SpinLock) : SpinLock := mkSpinLock (m_yielding l) (m_spinCount l) false.

(** The flag is [junk] until the constructor unlocks. *)
Definition SpinLock_new (junk : bool) : SpinLock := SpinLock_unlock (mkSpinLock true DEFAULT_SPIN_COUNT junk).

Definition SpinLock_setYieldingAndSpinCount (value : bool) (spinCount : Z) (l : SpinLock) : SpinLock :=
  mkSpinLock value spinCount (m_flag l).

(** [test_and_set] sets the flag and returns what it was. *)
Definition SpinLock_tryLock (l : SpinLock) : SpinLock * bool :=
  let was := m_flag l in
  let l := mkSpinLock (m_yielding l) (m_spinCount l) true in
  if was then (l, false) else (l, true).

(** One round of [lock], with the counter of its inner loop: a [tryLock], or the yield at
    the end of the inner loop. The result is the counter to go on with, or nothing when
    [lock] returns. *)
Definition SpinLock_lock_round (i : Z) (l : SpinLock) : SpinLock * option Z :=
  if m_yielding l then
    if i <? m_spinCount l then
      let '(l', locked) := SpinLock_tryLock l in
      (l', if locked : bool then None else Some (i + 1))
    else (l, Some 0)
  else
    let '(l', locked) := SpinLock_tryLock l in
    (l', if locked : bool then None else Some 0).

(** [lock] of a thread that runs alone. *)
Fixpoint SpinLock_lock (fuel : nat) (i : Z) (l : SpinLock) : outcome SpinLock :=
  match fuel with
  | O => NoFuel
  | S fuel' =>
      match SpinLock_lock_round i l with
      | (l', None) => Ok l'
      | (l', Some i') => SpinLock_lock fuel' i' l'
      end
  end.

Lemma lock_round_returns i l l' : SpinLock_lock_round i l = (l', None) →
  m_flag l = false ∧ m_flag l' = true.
Proof.
  unfold SpinLock_lock_round, SpinLock_tryLock. destruct (m_yielding l), (m_flag l); simpl;
    try (case_match; simpl); intros; by simplify_eq.
Qed.

Lemma lock_round_spins i j l l' : SpinLock_lock_round i l = (l', Some j) → l' = l.
Proof.
  destruct l as [y n f]. unfold SpinLock_lock_round, SpinLock_tryLock. simpl.
  destruct y, f; simpl; try (case_match; simpl); intros; by simplify_eq.
Qed.

Lemma lock_held fuel i l : m_flag l = true → SpinLock_lock fuel i l = NoFuel.
Proof.
  intros Hf. revert i. induction fuel as [|fuel IH]; intros i; [done|]. simpl.
  destruct (SpinLock_lock_round i l) as [l' [j|]] eqn:E.
  - apply lock_round_spins in E as ->. apply IH.
  - apply lock_round_returns in E as [E _]. congruence.
Qed.

(** A lock that gives its threads a chance to try. *)
Definition tries (l : SpinLock) : Prop := m_yielding l = true → 0 < m_spinCount l.

Lemma lock_never_tries fuel i l : ¬ tries l → 0 <= i → SpinLock_lock fuel i l = NoFuel.
Proof.
  intros Ht. assert (m_yielding l = true ∧ m_spinCount l <= 0) as [Hy Hn].
  { unfold tries in Ht. destruct (m_yielding l); [|by destruct Ht]. split; [done|].
    destruct (Z.lt_ge_cases 0 (m_spinCount l)); [by destruct Ht|done]. }
  revert i. induction fuel as [|fuel IH]; intros i Hi; [done|]. simpl.
  unfold SpinLock_lock_round. rewrite Hy. destruct (Z.ltb_spec i (m_spinCount l)); [lia|]. by apply IH.
Qed.

(** [lock] and [tryLock]. A free lock is taken in two rounds of the loop at most, from
    any point of it; a held lock is never taken; and a lock set to yield after zero
    attempts is never taken either, free or not: the loop yields forever. *)
Theorem lock_outcomes (fuel : nat) (i : Z) (l : SpinLock) (Hfuel : (2 <= fuel)%nat) (Hi : 0 <= i) :
  SpinLock_lock fuel i l =
    (if m_flag l then NoFuel
     else if m_yielding l && (m_spinCount l <=? 0) then NoFuel
     else Ok (mkSpinLock (m_yielding l) (m_spinCount l) true)).
Proof.
  destruct (m_flag l) eqn:Ef; [by apply lock_held|].
  destruct (m_yielding l && (m_spinCount l <=? 0)) eqn:En.
  { apply andb_true_iff in En as [Ey En]. apply lock_never_tries; [|done].
    intros Ht. specialize (Ht Ey). lia. }
  destruct fuel as [|[|fuel]]; [lia|lia|]. simpl. unfold SpinLock_lock_round, SpinLock_tryLock.
  destruct l as [y n f]. simpl in *. destruct y; simpl in *; [|by rewrite Ef].
  rewrite Ef. apply Z.leb_gt in En. destruct (Z.ltb_spec i n) as [H|H]; [done|]. simpl.
  rewrite ?Ef. destruct (Z.ltb_spec 0 n); [done|lia].
Qed.

(** ** Threads that share a state under one lock *)

Section locked.
Context {S L Op : Type}.

(** An operation is a sequence of accesses to the shared state and to its own variables. *)
Abbreviation access := (S * L → outcome (S * L)).
Context (body : Op → list access) (vars : Op → L).

Fixpoint run (ms : list access) (x : S * L) : outcome (S * L) :=
  match ms with
  | [] => Ok x
  | m :: ms' => x' ← m x; run ms' x'
  end.

(** The operation at once. *)
Definition run_op (op : Op) (s : S) : outcome (S * L) := run (body op) (s, vars op).

(** Operations one after the other, with the final values of their variables. *)
Fixpoint run_ops (ops : list (Op * L)) (s s' : S) : Prop :=
  match ops with
  | [] => s' = s
  | (op, l) :: ops' => ∃ s1, run_op op s = Ok (s1, l) ∧ run_ops ops' s1 s'
  end.

Inductive thread_state : Type :=
  | Outside
  | Locking (op : Op) (i : Z)
  | Inside (op : Op) (rest : list access) (l : L).

Record system : Type := mkSystem {
  sy_lock : SpinLock;
  sy_shared : S;
  sy_threads : nat → thread_state;
  sy_done : list (Op * L)  (** in the order of their [unlock] *)
}.

Definition upd (t : nat) (x : thread_state) (ts : nat → thread_state) : nat → thread_state :=
  λ t', if decide (t' = t) then x else ts t'.

Inductive locked_step : system → system → Prop :=
  | ls_call t op lk s ts d : ts t = Outside →
      locked_step (mkSystem lk s ts d) (mkSystem lk s (upd t (Locking op 0) ts) d)
  | ls_spin t op i j lk lk' s ts d : ts t = Locking op i → SpinLock_lock_round i lk = (lk', Some j) →
      locked_step (mkSystem lk s ts d) (mkSystem lk' s (upd t (Locking op j) ts) d)
  | ls_enter t op i lk lk' s ts d : ts t = Locking op i → SpinLock_lock_round i lk = (lk', None) →
      locked_step (mkSystem lk s ts d) (mkSystem lk' s (upd t (Inside op (body op) (vars op)) ts) d)
  | ls_access t op m ms l l' lk s s' ts d : ts t = Inside op (m :: ms) l → m (s, l) = Ok (s', l') →
      locked_step (mkSystem lk s ts d) (mkSystem lk s' (upd t (Inside op ms l') ts) d)
  | ls_leave t op l lk s ts d : ts t = Inside op [] l →
      locked_step (mkSystem lk s ts d)
        (mkSystem (SpinLock_unlock lk) s (upd t Outside ts) (d ++ [(op, l)])).

Definition inside (x : thread_state) : Prop := match x with Inside _ _ _ => True | _ => False end.

(** Either the lock is free, nobody is inside and the shared state is that of the
    operations done, or one thread is inside and has done the first part of its
    operation to that state. *)
Definition locked_inv (s0 : S) (y : system) : Prop :=
  if m_flag (sy_lock y) then
    ∃ t op before rest l s, sy_threads y t = Inside op rest l ∧
      (∀ t', inside (sy_threads y t') → t' = t) ∧
      run_ops (sy_done y) s0 s ∧ body op = before ++ rest ∧ run before (s, vars op) = Ok (sy_shared y, l)
  else (∀ t, ¬ inside (sy_threads y t)) ∧ run_ops (sy_done y) s0 (sy_shared y).

Lemma run_snoc ms m x y z : run ms x = Ok y → m y = Ok z → run (ms ++ [m]) x = Ok z.
Proof.
  revert x. induction ms as [|m' ms IH]; intros x; simpl; intros H1 H2; [simplify_eq; by rewrite H2|].
  apply bind_Ok_inv in H1 as (x' & -> & H1). simpl. by apply IH.
Qed.

Lemma run_ops_snoc ops op l s s1 s2 : run_ops ops s s1 → run_op op s1 = Ok (s2, l) → run_ops (ops ++ [(op, l)]) s s2.
Proof.
  revert s. induction ops as [|[o lo] ops IH]; intros s; simpl.
  - intros ->. by exists s2.
  - intros (s' & H1 & H2) H3. exists s'. split; [done|]. by apply IH.
Qed.

Lemma inside_upd t x ts t' : inside (upd t x ts t') → t' = t ∧ inside x ∨ t' ≠ t ∧ inside (ts t').
Proof. unfold upd. case_decide; tauto. Qed.

Lemma upd_eq t x ts : upd t x ts t = x.
Proof. unfold upd. by rewrite decide_True. Qed.
Lemma upd_ne t t' x ts : t' ≠ t → upd t x ts t' = ts t'.
Proof. intros. unfold upd. by rewrite decide_False. Qed.

(** Steps of a thread that stays outside of the section. *)
Lemma outside_inv s0 lk s t x ts d :
  ¬ inside x → ¬ inside (ts t) → locked_inv s0 (mkSystem lk s ts d) →
  locked_inv s0 (mkSystem lk s (upd t x ts) d).
Proof.
  unfold locked_inv. simpl. intros Hx Ht. destruct (m_flag lk).
  - intros (u & op & bf & rs & l & s1 & H1 & H2 & H3). exists u, op, bf, rs, l, s1.
    assert (u ≠ t) as Hne by (intros ->; apply Ht; by rewrite H1).
    split; [by rewrite upd_ne|]. split; [|done].
    intros t' [[-> H]|[_ H]]%inside_upd; [done|by apply H2].
  - intros [H1 H2]. split; [|done]. intros t' [[-> H]|[_ H]]%inside_upd; [done|by eapply H1].
Qed.

Lemma locked_inv_step s0 y y' : locked_inv s0 y → locked_step y y' → locked_inv s0 y'.
Proof.
  intros Hi Hs. destruct Hs as [t op lk s ts d E|t op i j lk lk' s ts d E Er|t op i lk lk' s ts d E Er
    |t op m ms l l' lk s s' ts d E Em|t op l lk s ts d E].
  - apply outside_inv; [simpl; tauto|rewrite E; simpl; tauto|done].
  - apply lock_round_spins in Er as ->. apply outside_inv; [simpl; tauto|rewrite E; simpl; tauto|done].
  - apply lock_round_returns in Er as [Ef Ef']. unfold locked_inv in *. simpl in *. rewrite Ef in Hi. rewrite Ef'.
    destruct Hi as [H1 H2]. exists t, op, [], (body op), (vars op), s. split; [by rewrite upd_eq|].
    split; [|done]. intros t' [[-> _]|[_ H]]%inside_upd; [done|]. by destruct (H1 t').
  - unfold locked_inv in *. simpl in *. destruct (m_flag lk).
    + destruct Hi as (u & op' & bf & rs & lu & s1 & H1 & H2 & H3 & H4 & H5).
      assert (u = t) as -> by (symmetry; apply H2; by rewrite E). rewrite E in H1. simplify_eq.
      exists t, op', (bf ++ [m]), ms, l', s1. split; [by rewrite upd_eq|]. split; [|split_and!; [done| |]].
      * intros t' [[-> _]|[_ H]]%inside_upd; [done|by apply H2].
      * by rewrite <- app_assoc.
      * by eapply run_snoc.
    + destruct Hi as [H1 _]. exfalso. apply (H1 t). by rewrite E.
  - unfold locked_inv in *. simpl in *. destruct (m_flag lk).
    + destruct Hi as (u & op' & bf & rs & lu & s1 & H1 & H2 & H3 & H4 & H5).
      assert (u = t) as -> by (symmetry; apply H2; by rewrite E). rewrite E in H1. simplify_eq.
      rewrite app_nil_r in H4. subst bf. split.
      * intros t' [[_ H]|[Hn H]]%inside_upd; [done|by apply Hn, H2].
      * by eapply run_ops_snoc.
    + destruct Hi as [H1 _]. exfalso. apply (H1 t). by rewrite E.
Qed.

Lemma locked_inv_reachable s0 y y' : rtc locked_step y y' → locked_inv s0 y → locked_inv s0 y'.
Proof. induction 1; eauto using locked_inv_step. Qed.

(** One step of thread [t], which calls [op] when it is outside; and a schedule. *)
Definition locked_next (t : nat) (op : Op) (y : system) : option system :=
  let '(mkSystem lk s ts d) := y in
  match ts t with
  | Outside => Some (mkSystem lk s (upd t (Locking op 0) ts) d)
  | Locking op i =>
      match SpinLock_lock_round i lk with
      | (lk', Some j) => Some (mkSystem lk' s (upd t (Locking op j) ts) d)
      | (lk', None) => Some (mkSystem lk' s (upd t (Inside op (body op) (vars op)) ts) d)
      end
  | Inside op (m :: ms) l =>
      match m (s, l) with Ok (s', l') => Some (mkSystem lk s' (upd t (Inside op ms l') ts) d) | _ => None end
  | Inside op [] l => Some (mkSystem (SpinLock_unlock lk) s (upd t Outside ts) (d ++ [(op, l)]))
  end.

Fixpoint locked_run (schedule : list (nat * Op)) (y : system) : option system :=
  match schedule with
  | [] => Some y
  | (t, op) :: rest => y' ← locked_next t op y; locked_run rest y'
  end.

Lemma locked_next_step t op y y' : locked_next t op y = Some y' → locked_step y y'.
Proof.
  destruct y as [lk s ts d]. unfold locked_next. intros E. destruct (ts t) as [|o i|o [|m ms] l] eqn:Et.
  - simplify_eq. by apply ls_call.
  - destruct (SpinLock_lock_round i lk) as [lk' [j|]] eqn:Er; simplify_eq; [by eapply ls_spin|by eapply ls_enter].
  - simplify_eq. by apply ls_leave.
  - destruct (m (s, l)) as [[s' l']| | |] eqn:Em; simplify_eq. by eapply ls_access.
Qed.

Lemma locked_run_reach schedule y y' : locked_run schedule y = Some y' → rtc locked_step y y'.
Proof.
  revert y. induction schedule as [|[t op] rest IH]; intros y E; simpl in E; [simplify_eq; done|].
  apply bind_Some in E as (y1 & H1 & H2). eapply rtc_l; [by eapply locked_next_step|by apply IH].
Qed.

Definition locked_start (lk : SpinLock) (s0 : S) : system := mkSystem lk s0 (λ _, Outside) [].

Lemma locked_start_inv lk s0 : m_flag lk = false → locked_inv s0 (locked_start lk s0).
Proof. intros E. unfold locked_inv. simpl. rewrite E. split; [tauto|done]. Qed.
End locked.
Arguments system : clear implicits.
Arguments mkSystem {S L Op}.

(** What the invariant says of the threads and of the state. *)
Lemma locked_exclusive {S L Op : Type} (body : Op → list (S * L → outcome (S * L))) (vars : Op → L) s0 y :
  locked_inv body vars s0 y →
  (∀ t1 t2, inside (sy_threads y t1) → inside (sy_threads y t2) → t1 = t2) ∧
  (m_flag (sy_lock y) = true ↔ ∃ t, inside (sy_threads y t)) ∧
  ((∀ t, ¬ inside (sy_threads y t)) → run_ops body vars (sy_done y) s0 (sy_shared y)).
Proof.
  unfold locked_inv. intros Hi. destruct (m_flag (sy_lock y)).
  - destruct Hi as (t & op & bf & rs & l & s & H1 & H2 & _). split_and!.
    + intros t1 t2 E1%H2 E2%H2. congruence.
    + split; [|done]. intros _. exists t. by rewrite H1.
    + intros Hn. exfalso. apply (Hn t). by rewrite H1.
  - destruct Hi as [H1 H2]. split_and!; [|split; [done|]|done].
    + intros t1 t2 E1. by destruct (H1 t1).
    + intros [t E]. by destruct (H1 t).
Qed.

(** Any number of threads, any operations, any interleaving of their memory accesses: at
    most one thread is between [lock] and [unlock], and whenever none is, the shared state
    is the one that the finished operations give when run whole, one after the other, in
    the order in which they released the lock, with the same results. [SpinLockOrders.v]
    has the same under the memory orders of the lock. *)
Theorem locked_sections_atomic {S L Op : Type} (body : Op → list (S * L → outcome (S * L))) (vars : Op → L)
    (junk : bool) (s0 : S) (y : system S L Op)
    (Hreach : rtc (locked_step body vars) (locked_start (SpinLock_new junk) s0) y) :
  (∀ t1 t2, inside (sy_threads y t1) → inside (sy_threads y t2) → t1 = t2) ∧
  (m_flag (sy_lock y) = true ↔ ∃ t, inside (sy_threads y t)) ∧
  ((∀ t, ¬ inside (sy_threads y t)) → run_ops body vars (sy_done y) s0 (sy_shared y)).
Proof.
  apply (locked_exclusive body vars s0). eapply locked_inv_reachable; [exact Hreach|by apply locked_start_inv].
Qed.

(** ** The instance: [push] of the logger's queue, access by access

    The node of a push is the thread's own until it is linked; it enters the modelled
    heap then. *)
Section mpsc.
Context {A : Type}.

Definition push_link (newNode : Z) (data : A) (x : QueueMPSC A * unit) : outcome (QueueMPSC A * unit) :=
  let q := x.1 in
  let heap := <[newNode := mkQueueMPSCNode (Some data) None]> (mq_heap q) in
  tail ← node_at (mq_tail q) (mkQueueMPSC heap (mq_head q) (mq_tail q));
  Ok (mkQueueMPSC (<[mq_tail q := mkQueueMPSCNode (nd_data tail) (Some newNode)]> heap) (mq_head q) (mq_tail q), ()).

Definition push_tail (newNode : Z) (x : QueueMPSC A * unit) : outcome (QueueMPSC A * unit) :=
  Ok (mkQueueMPSC (mq_heap x.1) (mq_head x.1) newNode, ()).

(** The locked part of the push of [data] in the node at [newNode]. *)
Definition push_body (op : Z * A) : list (QueueMPSC A * unit → outcome (QueueMPSC A * unit)) :=
  [push_link op.1 op.2; push_tail op.1].

Lemma push_body_run newNode data q q' l :
  run_op push_body (λ _, ()) (newNode, data) q = Ok (q', l) → QueueMPSC_push newNode data q = Ok q'.
Proof.
  unfold run_op, push_body, push_link, push_tail, QueueMPSC_push. simpl.
  destruct (node_at _ _); simpl; intros; by simplify_eq.
Qed.

Lemma pushes_hold ops q q' ps xs :
  run_ops push_body (λ _, ()) ops q q' → holds q ps xs → NoDup (ops.*1.*1) →
  (∀ a, a ∈ ops.*1.*1 → mq_heap q !! a = None) →
  ∃ ps', holds q' ps' (xs ++ ops.*1.*2).
Proof.
  revert q ps xs. induction ops as [|[[a x] l] ops IH]; intros q ps xs Hr Hh Hnd Hf; simpl in *.
  - subst q'. exists ps. by rewrite app_nil_r.
  - destruct Hr as (q1 & H1 & H2). apply push_body_run in H1. apply NoDup_cons in Hnd as [Ha Hnd].
    destruct (push_holds q ps xs a x Hh) as (q2 & Hp & Hh' & _); [apply Hf; by left|].
    rewrite Hp in H1. simplify_eq.
    destruct (IH q1 (ps ++ [a]) (xs ++ [x]) H2 Hh' Hnd) as (ps' & Hps).
    + intros b Hb. unfold QueueMPSC_push in Hp. apply bind_Ok_inv in Hp as (tl & Et & [= <-]). simpl.
      assert (b ≠ a) as Hba by (intros ->; done).
      assert (mq_heap q !! b = None) as Hbq by (apply Hf; by right).
      rewrite lookup_insert_ne; [by rewrite lookup_insert_ne|].
      intros E. unfold node_at in Et. simpl in Et. rewrite E, lookup_insert_ne, Hbq in Et by done. done.
    + exists ps'. by rewrite <- app_assoc in Hps.
Qed.
End mpsc.

(** C23: Threads that push into the logger's queue at the same time lose nothing: under
    every interleaving of their accesses, whenever no thread holds the lock, the queue
    holds the data of all finished pushes, in the order in which they released it. *)
Theorem concurrent_pushes_kept {A : Type} (junk : bool) (dummy : Z) (y : system (QueueMPSC A) unit (Z * A))
    (Hreach : rtc (locked_step push_body (λ _, ())) (locked_start (SpinLock_new junk) (QueueMPSC_new dummy)) y)
    (Hquiet : ∀ t, ¬ inside (sy_threads y t))
    (Hfresh : NoDup (dummy :: (sy_done y).*1.*1)) :
  ∃ ps, holds (sy_shared y) ps ((sy_done y).*1.*2).
Proof.
  pose proof (locked_inv_reachable _ _ _ _ _ Hreach
    (locked_start_inv push_body (λ _, ()) (SpinLock_new junk) (QueueMPSC_new dummy) eq_refl)) as Hi.
  unfold locked_inv in Hi. destruct (m_flag (sy_lock y)).
  { destruct Hi as (t & op & bf & rs & l & s & H1 & _). destruct (Hquiet t). by rewrite H1. }
  destruct Hi as [_ Hr]. apply NoDup_cons in Hfresh as [Hd Hnd].
  apply (pushes_hold _ _ _ [] [] Hr (holds_new dummy) Hnd).
  intros a Ha. simpl. apply lookup_singleton_ne. by intros ->.
Qed.

(** ** A run: thread 0 pushes 7 while thread 1 spins, then thread 1 pushes 8 *)

Lemma lock_outcomes_witness :
  SpinLock_lock 2 1024 (SpinLock_new true) = Ok (mkSpinLock true 1024 true).
Proof. apply (lock_outcomes 2 1024 (SpinLock_new true)); lia. Defined.

Definition demo_free : SpinLock := mkSpinLock true 1024 false.
Definition demo_held : SpinLock := mkSpinLock true 1024 true.
Definition demo_queue (xs : list (Z * Z)) : QueueMPSC Z :=
  foldl (λ q x, match QueueMPSC_push x.1 x.2 q with Ok q' => q' | _ => q end) (QueueMPSC_new 1) xs.

Definition demo_quiet : system (QueueMPSC Z) unit (Z * Z) :=
  mkSystem demo_free (demo_queue [(2, 7)])
    (upd 0 Outside (upd 0 (Inside (2, 7) [] ()) (upd 1 (Locking (3, 8) 1)
      (upd 0 (Inside (2, 7) [push_tail 2] ()) (upd 0 (Inside (2, 7) (push_body (2, 7)) ())
        (upd 1 (Locking (3, 8) 0) (upd 0 (Locking (2, 7) 0) (λ _, Outside))))))))
    [((2, 7), ())].

Lemma demo_locked_run :
  rtc (locked_step push_body (λ _, ())) (locked_start (SpinLock_new true) (QueueMPSC_new 1)) demo_quiet.
Proof.
  eapply rtc_l; [by apply (ls_call _ _ 0 (2, 7))|].
  eapply rtc_l; [by apply (ls_call _ _ 1 (3, 8))|].
  eapply rtc_l; [by eapply (ls_enter _ _ 0 (2, 7) 0)|].
  eapply rtc_l; [by eapply (ls_access _ _ 0 (2, 7))|].
  eapply rtc_l; [by eapply (ls_spin _ _ 1 (3, 8) 0 1)|].
  eapply rtc_l; [by eapply (ls_access _ _ 0 (2, 7))|].
  eapply rtc_once. by apply (ls_leave _ _ 0 (2, 7) ()).
Qed.

Lemma demo_is_quiet t : ¬ inside (sy_threads demo_quiet t).
Proof. unfold demo_quiet, upd. simpl. repeat case_decide; simpl; tauto. Qed.

Lemma locked_sections_atomic_witness :
  (∀ t1 t2, inside (sy_threads demo_quiet t1) → inside (sy_threads demo_quiet t2) → t1 = t2) ∧
  (m_flag (sy_lock demo_quiet) = true ↔ ∃ t, inside (sy_threads demo_quiet t)) ∧
  ((∀ t, ¬ inside (sy_threads demo_quiet t)) →
    run_ops push_body (λ _, ()) [((2, 7), ())] (QueueMPSC_new 1) (demo_queue [(2, 7)])).
Proof. apply (locked_sections_atomic _ _ true (QueueMPSC_new 1) demo_quiet demo_locked_run). Defined.

Lemma concurrent_pushes_kept_witness : ∃ ps, holds (demo_queue [(2, 7)]) ps [7].
Proof.
  apply (concurrent_pushes_kept true 1 demo_quiet demo_locked_run demo_is_quiet).
  apply (bool_decide_unpack _). vm_compute. exact I.
Defined.
