(* ===== verification/SpinLockOrders.v ===== *)
(** * The spin lock under its memory orders

    [SpinLock.v] has threads that run code between [lock] and [unlock], on a memory where
    an access sees the last one. This file adds what the memory orders of
    [core/concurrency/spinlock.hpp] give: a thread knows the accesses that happened before
    its next one ([thread_view]), [unlock] releases what its thread knows, and a [tryLock]
    that succeeds acquires what the last [unlock] released. A [tryLock] that fails is given
    nothing, although it acquires as well, which can only make races more likely. The flag
    itself is changed by read-modify-write operations and by the thread that holds the
    lock, so that every operation on it sees the last one.

    An access to the shared state that another thread's access did not happen before is a
    data race. There is none, and so the shared memory behaves as that of [SpinLock.v]. *)
From Stdlib Require Import ZArith Lia.
From stdpp Require Import base decidable list relations.
From S2P Require Import Prelude.
From S2P Require Import MachineInt.
From S2P Require Import QueueMPSC.
From S2P Require Import SpinLock.
Local Open Scope Z_scope.

(** ** The orders of the operations on the flag *)

Inductive memory_order : Type := memory_order_relaxed | memory_order_acquire | memory_order_release.

Definition tryLock_order : memory_order := memory_order_acquire.
Definition unlock_order : memory_order := memory_order_release.

(** How many accesses of each thread happened before. *)
Definition thread_view : Type := nat → nat.

Definition knows_nothing : thread_view := λ _, 0%nat.
Definition join_views (a b : thread_view) : thread_view := λ t, (a t `max` b t)%nat.
Definition set_view {A} (t : nat) (x : A) (f : nat → A) : nat → A := λ t', if decide (t' = t) then x else f t'.

(** What a thread knows after a [tryLock] that read the store which carries [released]. *)
Definition acquires (order : memory_order) (released v : thread_view) : thread_view :=
  match order with memory_order_acquire => join_views v released | _ => v end.

(** What a store by a thread that knows [v] carries. *)
Definition releases (order : memory_order) (v : thread_view) : thread_view :=
  match order with memory_order_release => v | _ => knows_nothing end.

Section ordered.
Context {S L Op : Type} (body : Op → list (S * L → outcome (S * L))) (vars : Op → L).

Record ordered_system : Type := mkOrderedLock {
  ol_system : system S L Op;
  ol_views : nat → thread_view;   (** what each thread knows *)
  ol_released : thread_view;      (** carried by the last store to the flag *)
  ol_accesses : thread_view       (** how many accesses each thread has made *)
}.

Inductive ordered_lock_step : ordered_system → ordered_system → Prop :=
  | ol_call t op lk s ts d vs r a : ts t = Outside →
      ordered_lock_step (mkOrderedLock (mkSystem lk s ts d) vs r a)
        (mkOrderedLock (mkSystem lk s (upd t (Locking op 0) ts) d) vs r a)
  | ol_spin t op i j lk lk' s ts d vs r a : ts t = Locking op i → SpinLock_lock_round i lk = (lk', Some j) →
      ordered_lock_step (mkOrderedLock (mkSystem lk s ts d) vs r a)
        (mkOrderedLock (mkSystem lk' s (upd t (Locking op j) ts) d) vs r a)
  | ol_enter t op i lk lk' s ts d vs r a : ts t = Locking op i → SpinLock_lock_round i lk = (lk', None) →
      ordered_lock_step (mkOrderedLock (mkSystem lk s ts d) vs r a)
        (mkOrderedLock (mkSystem lk' s (upd t (Inside op (body op) (vars op)) ts) d)
           (set_view t (acquires tryLock_order r (vs t)) vs) r a)
  | ol_access t op m ms l l' lk s s' ts d vs r a : ts t = Inside op (m :: ms) l → m (s, l) = Ok (s', l') →
      let n := (a t + 1)%nat in
      ordered_lock_step (mkOrderedLock (mkSystem lk s ts d) vs r a)
        (mkOrderedLock (mkSystem lk s' (upd t (Inside op ms l') ts) d)
           (set_view t (set_view t n (vs t)) vs) r (set_view t n a))
  | ol_leave t op l lk s ts d vs r a : ts t = Inside op [] l →
      ordered_lock_step (mkOrderedLock (mkSystem lk s ts d) vs r a)
        (mkOrderedLock (mkSystem (SpinLock_unlock lk) s (upd t Outside ts) (d ++ [(op, l)]))
           vs (releases unlock_order (vs t)) a).

(** The lock is made, and the shared state initialised, before the threads start. *)
Definition ordered_lock_start (lk : SpinLock) (s0 : S) : ordered_system :=
  mkOrderedLock (locked_start lk s0) (λ _, knows_nothing) knows_nothing knows_nothing.

(** The next access of [t] is a data race: some access did not happen before it. *)
Definition data_race (t : nat) (y : ordered_system) : Prop :=
  (∃ op m ms l, sy_threads (ol_system y) t = Inside op (m :: ms) l) ∧
  ∃ t', (ol_views y t t' < ol_accesses y t')%nat.

(** ** No data race *)

Definition knows_all (v a : thread_view) : Prop := ∀ t, (a t <= v t)%nat.

(** The last store to the free flag carries the knowledge of all accesses; so does the
    thread that holds the lock. *)
Definition ordered_lock_inv (y : ordered_system) : Prop :=
  (m_flag (sy_lock (ol_system y)) = false → knows_all (ol_released y) (ol_accesses y)) ∧
  ∀ t, inside (sy_threads (ol_system y) t) → knows_all (ol_views y t) (ol_accesses y).

Lemma set_view_eq {A} t (x : A) f : set_view t x f t = x.
Proof. unfold set_view. by rewrite decide_True. Qed.
Lemma set_view_ne {A} t t' (x : A) f : t' ≠ t → set_view t x f t' = f t'.
Proof. intros. unfold set_view. by rewrite decide_False. Qed.

Lemma acquired_knows r v a : knows_all r a → knows_all (acquires tryLock_order r v) a.
Proof. intros H t. specialize (H t). unfold acquires, tryLock_order, join_views. lia. Qed.

Lemma counted_knows t v a : knows_all v a → knows_all (set_view t (a t + 1)%nat v) (set_view t (a t + 1)%nat a).
Proof. intros H t'. specialize (H t'). unfold set_view. case_decide; lia. Qed.

(** The steps are those of [SpinLock.v]. *)
Lemma ordered_lock_project y y' : ordered_lock_step y y' → locked_step body vars (ol_system y) (ol_system y').
Proof. destruct 1; [by apply ls_call|by eapply ls_spin|by eapply ls_enter|by eapply ls_access|by eapply ls_leave]. Qed.

Lemma ordered_lock_reach y y' : rtc ordered_lock_step y y' → rtc (locked_step body vars) (ol_system y) (ol_system y').
Proof. induction 1; [done|]. eapply rtc_l; [by apply ordered_lock_project|done]. Qed.

Lemma ordered_lock_inv_step s0 y y' : locked_inv body vars s0 (ol_system y) → ordered_lock_inv y →
  ordered_lock_step y y' → ordered_lock_inv y'.
Proof.
  intros Hl [Hr Hv] Hs. destruct Hs as [t op lk s ts d vs r a E|t op i j lk lk' s ts d vs r a E Er
    |t op i lk lk' s ts d vs r a E Er|t op m ms l l' lk s s' ts d vs r a E Em n|t op l lk s ts d vs r a E]; cbn in *.
  - split; [done|]. cbn. intros u [[-> []]|[_ H]]%inside_upd. by apply Hv.
  - apply lock_round_spins in Er as ->. split; [done|]. cbn. intros u [[-> []]|[_ H]]%inside_upd. by apply Hv.
  - apply lock_round_returns in Er as [Ef Ef']. split; cbn; [by rewrite Ef'|].
    intros u [[-> _]|[Hne H]]%inside_upd; [|rewrite set_view_ne by done; by apply Hv].
    rewrite set_view_eq. by apply acquired_knows, Hr.
  - assert (inside (ts t)) as Ht by (by rewrite E). unfold locked_inv in Hl. cbn in Hl.
    destruct (m_flag lk) eqn:Ef; [|by destruct Hl as [Hl _]; destruct (Hl t)].
    destruct Hl as (u0 & _ & _ & _ & _ & _ & _ & Hu & _). split; cbn; [by rewrite Ef|].
    intros u [[-> _]|[Hne H]]%inside_upd; [|by rewrite (Hu u H), (Hu t Ht) in Hne].
    rewrite set_view_eq. by apply counted_knows, Hv.
  - assert (inside (ts t)) as Ht by (by rewrite E). unfold locked_inv in Hl. cbn in Hl.
    destruct (m_flag lk) eqn:Ef; [|by destruct Hl as [Hl _]; destruct (Hl t)].
    destruct Hl as (u0 & _ & _ & _ & _ & _ & _ & Hu & _). split; cbn.
    + intros _. by apply Hv.
    + intros u [[_ []]|[Hne H]]%inside_upd. by rewrite (Hu u H), (Hu t Ht) in Hne.
Qed.

Lemma ordered_lock_reach_inv s0 y y' : rtc ordered_lock_step y y' →
  locked_inv body vars s0 (ol_system y) → ordered_lock_inv y → ordered_lock_inv y'.
Proof.
  induction 1 as [|y y1 y2 Hs _ IH]; [done|]. intros Hl Hi. apply IH; [|by eapply ordered_lock_inv_step].
  eapply locked_inv_step; [done|by apply ordered_lock_project].
Qed.

Lemma ordered_lock_start_inv lk s0 : ordered_lock_inv (ordered_lock_start lk s0).
Proof. split; cbn; [intros _ t|intros t []]; cbn; lia. Qed.

Lemma knows_no_race y t : ordered_lock_inv y → ¬ data_race t y.
Proof.
  intros [_ Hv] ((op & m & ms & l & E) & t' & Hlt). assert (inside (sy_threads (ol_system y) t)) as Ht by (by rewrite E).
  specialize (Hv t Ht t'). lia.
Qed.
End ordered.
Arguments ordered_system : clear implicits.
Arguments mkOrderedLock {S L Op}.

(** C22: Any number of threads, any operations, any interleaving of their accesses, and
    only what the memory orders of the lock pass from one thread to another: no access to
    the shared state is a data race; at most one thread is between [lock] and [unlock], and
    one is exactly when the flag is set; and whenever none is, the shared state is the one
    that the finished operations give when run whole, one after the other, in the order in
    which they released the lock, with the same results. *)
Theorem locked_sections_race_free {S L Op : Type} (body : Op → list (S * L → outcome (S * L))) (vars : Op → L)
    (junk : bool) (s0 : S) (y : ordered_system S L Op)
    (Hreach : rtc (ordered_lock_step body vars) (ordered_lock_start (SpinLock_new junk) s0) y) :
  (∀ t, ¬ data_race t y) ∧
  (∀ t1 t2, inside (sy_threads (ol_system y) t1) → inside (sy_threads (ol_system y) t2) → t1 = t2) ∧
  (m_flag (sy_lock (ol_system y)) = true ↔ ∃ t, inside (sy_threads (ol_system y) t)) ∧
  ((∀ t, ¬ inside (sy_threads (ol_system y) t)) →
    run_ops body vars (sy_done (ol_system y)) s0 (sy_shared (ol_system y))).
Proof.
  pose proof (locked_start_inv body vars (SpinLock_new junk) s0 eq_refl) as Hl.
  split; [intros t; apply knows_no_race; by eapply ordered_lock_reach_inv, ordered_lock_start_inv|].
  apply (locked_exclusive body vars s0). eapply locked_inv_reachable; [|exact Hl].
  by apply (ordered_lock_reach body vars _ _ Hreach).
Qed.

(** ** A run: thread 1 enters after thread 0 has pushed, and is about to push itself *)

Lemma demo_ordered_run : ∃ y,
  rtc (ordered_lock_step push_body (λ _, ())) (ordered_lock_start (SpinLock_new true) (QueueMPSC_new 1)) y ∧
  sy_threads (ol_system y) 1 = Inside (3, 8) (push_body (3, 8)) () ∧
  (ol_accesses y 0 = 2 ∧ ol_views y 1 0 = 2)%nat ∧ sy_done (ol_system y) = [((2, 7), ())].
Proof.
  eexists. split.
  - eapply rtc_l; [by apply (ol_call _ _ 0 (2, 7))|].
    eapply rtc_l; [by apply (ol_call _ _ 1 (3, 8))|].
    eapply rtc_l; [by eapply (ol_enter _ _ 0 (2, 7) 0)|].
    eapply rtc_l; [by eapply (ol_access _ _ 0 (2, 7))|].
    eapply rtc_l; [by eapply (ol_spin _ _ 1 (3, 8) 0 1)|].
    eapply rtc_l; [by eapply (ol_access _ _ 0 (2, 7))|].
    eapply rtc_l; [by apply (ol_leave _ _ 0 (2, 7) ())|].
    eapply rtc_once. by eapply (ol_enter _ _ 1 (3, 8) 1).
  - vm_compute. done.
Qed.

Lemma locked_sections_race_free_witness : ∃ y : ordered_system (QueueMPSC Z) unit (Z * Z),
  sy_threads (ol_system y) 1 = Inside (3, 8) (push_body (3, 8)) () ∧ ¬ data_race 1 y.
Proof.
  destruct demo_ordered_run as (y & Hrun & H1 & _). exists y. split; [exact H1|].
  apply (locked_sections_race_free push_body (λ _, ()) true (QueueMPSC_new 1) y Hrun).
Defined.
