(* ===== verification/Singleton.v ===== *)
(** * [core/design_patterns/singleton_dclp.hpp]

    [SingletonDCLP::getInstance]: double-checked locking with relaxed accesses and two
    fences, on a machine where a thread may read old values. The file follows the view
    semantics of C++11 atomics: a [View] is what a thread knows, the writes to
    [m_instance] it has seen and the objects whose construction happened before; a
    relaxed load may return any write that is not older than those seen; a release fence
    is what later writes carry, an acquire fence is what makes the carried knowledge of
    earlier reads one's own; the lock passes knowledge from [unlock] to [lock]. The order
    of the writes to [m_instance] is that of their execution. *)
From Stdlib Require Import ZArith Lia.
From stdpp Require Import base decidable sets list gmap relations.
From S2P Require Import Prelude.
From S2P Require Import MachineInt.
From S2P Require Import SpinLock.
Local Open Scope Z_scope.

(** ** Views *)

Record View : Type := mkView { v_seen : nat; v_known : gset Z }.

Definition view_join (a b : View) : View := mkView (v_seen a `max` v_seen b) (v_known a ∪ v_known b).
Definition view_none : View := mkView 0 ∅.

(** A write to [m_instance]: the pointer, and the knowledge it carries. *)
Record Write : Type := mkWrite { wr_value : option Z; wr_view : View }.

(** ** The threads *)

(** Where a thread is in [getInstance]; [tmp] is the variable of that name. *)
Inductive GetInstance : Type :=
  | GI_outside
  | GI_load
  | GI_acquire_fence (tmp : option Z)
  | GI_test (tmp : option Z)
  | GI_lock (i : Z)
  | GI_load_again
  | GI_test_again (tmp : option Z)
  | GI_new
  | GI_release_fence (tmp : Z)
  | GI_store (tmp : Z)
  | GI_unlock (tmp : option Z)  (** the end of the [lock_guard]; nothing when [new T] threw *)
  | GI_returned (tmp : Z)
  | GI_threw.

Record Caller : Type := mkCaller {
  cl_pc : GetInstance;
  cl_cur : View;  (** what happened before the next access *)
  cl_acq : View;  (** carried by the writes read so far *)
  cl_rel : View   (** at the last release fence *)
}.

Record SingletonDCLP : Type := mkSingletonDCLP {
  m_lock : SpinLock;
  lock_view : View;              (** at the last [unlock] *)
  m_instance : list Write;       (** oldest first *)
  objects : list Z;              (** every [T] ever constructed *)
  callers : nat → Caller
}.

Definition set_caller (t : nat) (x : Caller) (ts : nat → Caller) : nat → Caller :=
  λ t', if decide (t' = t) then x else ts t'.

Definition caller_start : Caller := mkCaller GI_outside view_none view_none view_none.

Definition SingletonDCLP_start (junk : bool) : SingletonDCLP :=
  mkSingletonDCLP (SpinLock_new junk) view_none [mkWrite None view_none] [] (λ _, caller_start).

(** A relaxed load reads write [i]. *)
Definition relaxed_load (i : nat) (w : Write) (x : Caller) (pc : GetInstance) : Caller :=
  let seen := mkView i ∅ in
  mkCaller pc (view_join (cl_cur x) seen) (view_join (view_join (cl_acq x) seen) (wr_view w)) (cl_rel x).

Inductive getInstance_step : SingletonDCLP → SingletonDCLP → Prop :=
  | gi_call t x lk lv ws os ts :
      ts t = x → cl_pc x = GI_outside ∨ (∃ p, cl_pc x = GI_returned p) ∨ cl_pc x = GI_threw →
      getInstance_step (mkSingletonDCLP lk lv ws os ts)
        (mkSingletonDCLP lk lv ws os (set_caller t (mkCaller GI_load (cl_cur x) (cl_acq x) (cl_rel x)) ts))
  | gi_load t x i w lk lv ws os ts :
      ts t = x → cl_pc x = GI_load → (v_seen (cl_cur x) <= i)%nat → ws !! i = Some w →
      getInstance_step (mkSingletonDCLP lk lv ws os ts)
        (mkSingletonDCLP lk lv ws os (set_caller t (relaxed_load i w x (GI_acquire_fence (wr_value w))) ts))
  | gi_acquire_fence t x tmp lk lv ws os ts :
      ts t = x → cl_pc x = GI_acquire_fence tmp →
      getInstance_step (mkSingletonDCLP lk lv ws os ts)
        (mkSingletonDCLP lk lv ws os
          (set_caller t (mkCaller (GI_test tmp) (view_join (cl_cur x) (cl_acq x)) (cl_acq x) (cl_rel x)) ts))
  | gi_test t x tmp lk lv ws os ts :
      ts t = x → cl_pc x = GI_test tmp →
      getInstance_step (mkSingletonDCLP lk lv ws os ts)
        (mkSingletonDCLP lk lv ws os
          (set_caller t (mkCaller (match tmp with None => GI_lock 0 | Some p => GI_returned p end)
             (cl_cur x) (cl_acq x) (cl_rel x)) ts))
  | gi_spin t x i j lk lk' lv ws os ts :
      ts t = x → cl_pc x = GI_lock i → SpinLock_lock_round i lk = (lk', Some j) →
      getInstance_step (mkSingletonDCLP lk lv ws os ts)
        (mkSingletonDCLP lk' lv ws os (set_caller t (mkCaller (GI_lock j) (cl_cur x) (cl_acq x) (cl_rel x)) ts))
  | gi_lock t x i lk lk' lv ws os ts :
      ts t = x → cl_pc x = GI_lock i → SpinLock_lock_round i lk = (lk', None) →
      getInstance_step (mkSingletonDCLP lk lv ws os ts)
        (mkSingletonDCLP lk' lv ws os
          (set_caller t (mkCaller GI_load_again (view_join (cl_cur x) lv) (cl_acq x) (cl_rel x)) ts))
  | gi_load_again t x i w lk lv ws os ts :
      ts t = x → cl_pc x = GI_load_again → (v_seen (cl_cur x) <= i)%nat → ws !! i = Some w →
      getInstance_step (mkSingletonDCLP lk lv ws os ts)
        (mkSingletonDCLP lk lv ws os (set_caller t (relaxed_load i w x (GI_test_again (wr_value w))) ts))
  | gi_test_again t x tmp lk lv ws os ts :
      ts t = x → cl_pc x = GI_test_again tmp →
      getInstance_step (mkSingletonDCLP lk lv ws os ts)
        (mkSingletonDCLP lk lv ws os
          (set_caller t (mkCaller (match tmp with None => GI_new | Some p => GI_unlock (Some p) end)
             (cl_cur x) (cl_acq x) (cl_rel x)) ts))
  | gi_new t x p lk lv ws os ts :
      ts t = x → cl_pc x = GI_new → p ∉ os →
      getInstance_step (mkSingletonDCLP lk lv ws os ts)
        (mkSingletonDCLP lk lv ws (os ++ [p])
          (set_caller t (mkCaller (GI_release_fence p) (view_join (cl_cur x) (mkView 0 {[ p ]}))
             (cl_acq x) (cl_rel x)) ts))
  | gi_throw t x lk lv ws os ts :
      ts t = x → cl_pc x = GI_new →
      getInstance_step (mkSingletonDCLP lk lv ws os ts)
        (mkSingletonDCLP lk lv ws os (set_caller t (mkCaller (GI_unlock None) (cl_cur x) (cl_acq x) (cl_rel x)) ts))
  | gi_release_fence t x p lk lv ws os ts :
      ts t = x → cl_pc x = GI_release_fence p →
      getInstance_step (mkSingletonDCLP lk lv ws os ts)
        (mkSingletonDCLP lk lv ws os (set_caller t (mkCaller (GI_store p) (cl_cur x) (cl_acq x) (cl_cur x)) ts))
  | gi_store t x p lk lv ws os ts :
      ts t = x → cl_pc x = GI_store p →
      let stored := mkView (length ws) ∅ in
      getInstance_step (mkSingletonDCLP lk lv ws os ts)
        (mkSingletonDCLP lk lv (ws ++ [mkWrite (Some p) (view_join (cl_rel x) stored)]) os
          (set_caller t (mkCaller (GI_unlock (Some p)) (view_join (cl_cur x) stored)
             (view_join (cl_acq x) stored) (cl_rel x)) ts))
  | gi_unlock t x tmp lk lv ws os ts :
      ts t = x → cl_pc x = GI_unlock tmp →
      getInstance_step (mkSingletonDCLP lk lv ws os ts)
        (mkSingletonDCLP (SpinLock_unlock lk) (cl_cur x) ws os
          (set_caller t (mkCaller (match tmp with None => GI_threw | Some p => GI_returned p end)
             (cl_cur x) (cl_acq x) (cl_rel x)) ts)).

(** ** The invariant *)

Definition holds_lock (pc : GetInstance) : Prop :=
  match pc with
  | GI_load_again | GI_test_again _ | GI_new | GI_release_fence _ | GI_store _ | GI_unlock _ => True
  | _ => False
  end.

(** The writes and objects are those of an instance that does not exist yet, of one that
    is being published, or of a published one. *)
Inductive published : list Write → list Z → Prop :=
  | pb_none w0 : wr_value w0 = None → published [w0] []
  | pb_constructed w0 p : wr_value w0 = None → published [w0] [p]
  | pb_stored w0 p w : wr_value w0 = None → wr_value w = Some p → p ∈ v_known (wr_view w) →
      published [w0; w] [p].

(** Nobody has seen writes that are not there. *)
Definition seen_ok (n : nat) (x : Caller) : Prop :=
  (v_seen (cl_cur x) < n)%nat ∧ (v_seen (cl_acq x) < n)%nat ∧ (v_seen (cl_rel x) < n)%nat.

(** What a thread has got hold of it also knows. *)
Definition caller_ok (ws : list Write) (os : list Z) (x : Caller) : Prop :=
  match cl_pc x with
  | GI_acquire_fence (Some p) => os = [p] ∧ length ws = 2%nat ∧ p ∈ v_known (cl_acq x)
  | GI_test (Some p) | GI_returned p => os = [p] ∧ length ws = 2%nat ∧ p ∈ v_known (cl_cur x)
  | _ => True
  end.

(** The thread in the critical section knows everything. *)
Definition holder_ok (ws : list Write) (os : list Z) (x : Caller) : Prop :=
  match cl_pc x with
  | GI_load_again => length ws = S (length os)
  | GI_test_again None | GI_new | GI_unlock None => length ws = 1%nat ∧ os = []
  | GI_test_again (Some p) | GI_unlock (Some p) => length ws = 2%nat ∧ os = [p]
  | GI_release_fence p => length ws = 1%nat ∧ os = [p]
  | GI_store p => length ws = 1%nat ∧ os = [p] ∧ p ∈ v_known (cl_rel x)
  | _ => False
  end ∧ S (v_seen (cl_cur x)) = length ws ∧ (∀ p, p ∈ os → p ∈ v_known (cl_cur x)).

Record dclp_inv (y : SingletonDCLP) : Prop := {
  di_published : published (m_instance y) (objects y);
  di_seen t : seen_ok (length (m_instance y)) (callers y t);
  di_carried : Forall (λ w, (v_seen (wr_view w) < length (m_instance y))%nat) (m_instance y);
  di_callers t : caller_ok (m_instance y) (objects y) (callers y t);
  di_holder :
    if m_flag (m_lock y) then
      ∃ t, holder_ok (m_instance y) (objects y) (callers y t) ∧ ∀ t', holds_lock (cl_pc (callers y t')) → t' = t
    else (∀ t, ¬ holds_lock (cl_pc (callers y t))) ∧
      length (m_instance y) = S (length (objects y)) ∧
      S (v_seen (lock_view y)) = length (m_instance y) ∧ (∀ p, p ∈ objects y → p ∈ v_known (lock_view y))
}.

Lemma set_eq t x ts : set_caller t x ts t = x.
Proof. unfold set_caller. by rewrite decide_True. Qed.
Lemma set_ne t t' x ts : t' ≠ t → set_caller t x ts t' = ts t'.
Proof. intros. unfold set_caller. by rewrite decide_False. Qed.

(** A property of all callers, when one changes. *)
Lemma set_all (P : Caller → Prop) t x ts : P x → (∀ t', t' ≠ t → P (ts t')) → ∀ t', P (set_caller t x ts t').
Proof. intros Hx Ht t'. destruct (decide (t' = t)) as [->|]; [by rewrite set_eq|]. rewrite set_ne by done. by apply Ht. Qed.

Section steps.
Context (lk : SpinLock) (lv : View) (ws : list Write) (os : list Z) (ts : nat → Caller) (t : nat).
Context (Hi : dclp_inv (mkSingletonDCLP lk lv ws os ts)).

Lemma holder_is : holds_lock (cl_pc (ts t)) →
  m_flag lk = true ∧ holder_ok ws os (ts t) ∧ ∀ t', holds_lock (cl_pc (ts t')) → t' = t.
Proof.
  intros Ht. pose proof (di_holder _ Hi) as H. simpl in H. destruct (m_flag lk).
  - destruct H as (u & H1 & H2). by rewrite (H2 t Ht).
  - destruct H as [H _]. by destruct (H t).
Qed.

(** A step that changes only the caller, which keeps or does not take the lock. *)
Lemma caller_step x' :
  seen_ok (length ws) x' → caller_ok ws os x' → (holds_lock (cl_pc x') ↔ holds_lock (cl_pc (ts t))) →
  (holds_lock (cl_pc x') → holder_ok ws os (ts t) → holder_ok ws os x') →
  dclp_inv (mkSingletonDCLP lk lv ws os (set_caller t x' ts)).
Proof.
  intros Hs Hok Hh Hstep. destruct Hi as [H1 H2 H3 H4 H5]. split; simpl in *; [done| |done| |].
  - by apply (set_all (seen_ok _)).
  - by apply (set_all (caller_ok ws os)).
  - assert (∀ t', holds_lock (cl_pc (set_caller t x' ts t')) ↔ holds_lock (cl_pc (ts t'))) as Hall.
    { intros t'. destruct (decide (t' = t)) as [->|]; [by rewrite set_eq|by rewrite set_ne]. }
    destruct (m_flag lk).
    + destruct H5 as (u & Hu & Hun). exists u. split; [|intros t' Ht'; by apply Hun, Hall].
      destruct (decide (u = t)) as [->|Hne]; [|by rewrite set_ne].
      rewrite set_eq. apply Hstep; [|done]. apply Hh. destruct Hu as [Hu _]. by destruct (cl_pc (ts t)).
    + destruct H5 as [Hn H5]. split; [|done]. intros t' Ht'. apply Hall in Ht'. by apply (Hn t').
Qed.

(** The knowledge that a load brings. *)
Lemma load_bounds i w pc : ws !! i = Some w →
  seen_ok (length ws) (relaxed_load i w (ts t) pc).
Proof.
  intros Ew. destruct (di_seen _ Hi t) as (S1 & S2 & S3). simpl in *.
  pose proof (lookup_lt_Some _ _ _ Ew). pose proof (Forall_lookup_1 _ _ _ _ (di_carried _ Hi) Ew) as Sw. simpl in Sw.
  split_and!; simpl; lia.
Qed.

(** A write that is read is the initial one, or that of the published instance. *)
Lemma read_write i w : ws !! i = Some w →
  (wr_value w = None ∧ i = 0%nat) ∨
  (∃ p, wr_value w = Some p ∧ i = 1%nat ∧ length ws = 2%nat ∧ os = [p] ∧ p ∈ v_known (wr_view w)).
Proof.
  intros Ew. pose proof (di_published _ Hi) as Hp. simpl in Hp.
  destruct Hp as [w0 H0|w0 p H0|w0 p w1 H0 H1 H2]; destruct i as [|[|i]]; simpl in Ew; simplify_eq;
    first [left; by split | right; exists p; by split_and!].
Qed.

Lemma load_inv i w : cl_pc (ts t) = GI_load → ws !! i = Some w →
  dclp_inv (mkSingletonDCLP lk lv ws os (set_caller t (relaxed_load i w (ts t) (GI_acquire_fence (wr_value w))) ts)).
Proof.
  intros Hpc Ew. pose proof (load_bounds i w (GI_acquire_fence (wr_value w)) Ew) as S1.
  apply caller_step; [done| |simpl; by rewrite Hpc|done].
  unfold caller_ok. simpl. destruct (read_write i w Ew) as [[-> _]|(p & -> & _ & Hl & -> & Hk)]; [done|].
  split_and!; [done|done|]. simpl. set_solver.
Qed.

Lemma load_again_inv i w : cl_pc (ts t) = GI_load_again → (v_seen (cl_cur (ts t)) <= i)%nat → ws !! i = Some w →
  dclp_inv (mkSingletonDCLP lk lv ws os (set_caller t (relaxed_load i w (ts t) (GI_test_again (wr_value w))) ts)).
Proof.
  intros Hpc Hle Ew. pose proof (load_bounds i w (GI_test_again (wr_value w)) Ew) as S1.
  pose proof (lookup_lt_Some _ _ _ Ew) as Hlt.
  apply caller_step; [done|done|simpl; by rewrite Hpc|]. intros _ (Hh & Hs & Hk). rewrite Hpc in Hh.
  unfold holder_ok. simpl. destruct (read_write i w Ew) as [[-> Hi0]|(p & -> & Hi1 & Hl & Hos & Hkp)].
  - subst i. assert (length ws = 1)%nat as Hl by lia. rewrite Hl in Hh. destruct os; [|done].
    split_and!; [done|done|lia|]. intros p Hp. by apply elem_of_nil in Hp.
  - split_and!; [done|done|lia|]. intros q Hq. rewrite elem_of_union. left. by apply Hk.
Qed.

Lemma lock_inv i lk' : cl_pc (ts t) = GI_lock i → SpinLock_lock_round i lk = (lk', None) →
  dclp_inv (mkSingletonDCLP lk' lv ws os
    (set_caller t (mkCaller GI_load_again (view_join (cl_cur (ts t)) lv) (cl_acq (ts t)) (cl_rel (ts t))) ts)).
Proof.
  intros Hpc [Ef Ef']%lock_round_returns. destruct Hi as [H1 H2 H3 H4 H5]. simpl in *. rewrite Ef in H5.
  destruct H5 as (Hn & Hl & Hs & Hk). destruct (H2 t) as (S1 & S2 & S3).
  split; simpl; [done| |done| |].
  - apply (set_all (seen_ok _)); [unfold seen_ok; simpl; lia|done].
  - by apply (set_all (caller_ok ws os)).
  - rewrite Ef'. exists t. rewrite set_eq. split.
    + unfold holder_ok. simpl. split_and!; [done|lia|]. intros p Hp. rewrite elem_of_union. right. by apply Hk.
    + intros t' Ht'. destruct (decide (t' = t)); [done|]. rewrite set_ne in Ht' by done. by destruct (Hn t').
Qed.

Lemma construct_inv p : cl_pc (ts t) = GI_new →
  dclp_inv (mkSingletonDCLP lk lv ws (os ++ [p])
    (set_caller t (mkCaller (GI_release_fence p) (view_join (cl_cur (ts t)) (mkView 0 {[ p ]}))
      (cl_acq (ts t)) (cl_rel (ts t))) ts)).
Proof.
  intros Hpc. destruct holder_is as (Ef & (Hh & Hs & Hk) & Hu); [by rewrite Hpc|]. rewrite Hpc in Hh.
  destruct Hh as [Hl Hos]. destruct Hi as [H1 H2 H3 H4 H5]. simpl in *. subst os. destruct (H2 t) as (S1 & S2 & S3).
  split; simpl; [|apply (set_all (seen_ok _)); [unfold seen_ok; simpl; lia|done]|done| |].
  - inversion H1; subst; by constructor.
  - apply (set_all (caller_ok _ _)); [done|]. intros t' _. specialize (H4 t'). unfold caller_ok in *.
    by destruct (cl_pc (ts t')) as [| |[q|]|[q|]| | | | | | | |q|]; try done; destruct H4 as (_ & H4 & _); rewrite Hl in H4.
  - rewrite Ef. exists t. rewrite set_eq. split.
    + unfold holder_ok. simpl. split_and!; [done|done|lia|]. intros q ->%list_elem_of_singleton. set_solver.
    + intros t' Ht'. destruct (decide (t' = t)); [done|]. rewrite set_ne in Ht' by done. by apply Hu.
Qed.

Lemma store_inv p : cl_pc (ts t) = GI_store p →
  let stored := mkView (length ws) ∅ in
  dclp_inv (mkSingletonDCLP lk lv (ws ++ [mkWrite (Some p) (view_join (cl_rel (ts t)) stored)]) os
    (set_caller t (mkCaller (GI_unlock (Some p)) (view_join (cl_cur (ts t)) stored)
       (view_join (cl_acq (ts t)) stored) (cl_rel (ts t))) ts)).
Proof.
  intros Hpc stored. destruct holder_is as (Ef & (Hh & Hs & Hk) & Hu); [by rewrite Hpc|]. rewrite Hpc in Hh.
  destruct Hh as (Hl & Hos & Hp). destruct Hi as [H1 H2 H3 H4 H5]. simpl in *. subst os. destruct (H2 t) as (S1 & S2 & S3).
  split; simpl.
  - inversion H1; subst; simpl; [|done]. apply pb_stored; [done|done|]. simpl. set_solver.
  - rewrite length_app. simpl. apply (set_all (seen_ok _)); [unfold seen_ok; simpl; lia|].
    intros t' _. destruct (H2 t'). unfold seen_ok. lia.
  - rewrite length_app. simpl. rewrite Forall_app, Forall_singleton. simpl. split; [|lia].
    eapply Forall_impl; [exact H3|]. simpl. intros. lia.
  - apply (set_all (caller_ok _ _)); [done|]. intros t' _. specialize (H4 t'). unfold caller_ok in *.
    by destruct (cl_pc (ts t')) as [| |[q|]|[q|]| | | | | | | |q|]; try done; destruct H4 as (_ & H4 & _); rewrite Hl in H4.
  - rewrite Ef. exists t. rewrite set_eq. split.
    + unfold holder_ok. simpl. rewrite length_app. simpl. split_and!; [lia|done|lia|].
      intros q Hq. rewrite elem_of_union. left. by apply Hk.
    + intros t' Ht'. destruct (decide (t' = t)); [done|]. rewrite set_ne in Ht' by done. by apply Hu.
Qed.

Lemma unlock_inv tmp : cl_pc (ts t) = GI_unlock tmp →
  dclp_inv (mkSingletonDCLP (SpinLock_unlock lk) (cl_cur (ts t)) ws os
    (set_caller t (mkCaller (match tmp with None => GI_threw | Some p => GI_returned p end)
      (cl_cur (ts t)) (cl_acq (ts t)) (cl_rel (ts t))) ts)).
Proof.
  intros Hpc. destruct holder_is as (Ef & (Hh & Hs & Hk) & Hu); [by rewrite Hpc|]. rewrite Hpc in Hh.
  destruct Hi as [H1 H2 H3 H4 H5]. simpl in *. split; simpl; [done|apply (set_all (seen_ok _)); [exact (H2 t)|done]|done| |].
  - apply (set_all (caller_ok ws os)); [|done]. unfold caller_ok. simpl. destruct tmp as [p|]; [|done]. destruct Hh as [Hl Hos].
    split_and!; [done|done|]. apply Hk. rewrite Hos. by left.
  - split_and!; [|destruct tmp as [p|]; destruct Hh as [Hl ->]; exact Hl|done|done].
    intros t' Ht'. destruct (decide (t' = t)) as [->|Hne]; [by rewrite set_eq in Ht'; destruct tmp|].
    rewrite set_ne in Ht' by done. by apply Hne, Hu.
Qed.
End steps.

Lemma getInstance_inv y y' : dclp_inv y → getInstance_step y y' → dclp_inv y'.
Proof.
  intros Hi Hs. destruct Hs as
    [t x lk lv ws os ts E Hpc|t x i w lk lv ws os ts E Hpc Hle Ew|t x tmp lk lv ws os ts E Hpc
    |t x tmp lk lv ws os ts E Hpc|t x i j lk lk' lv ws os ts E Hpc Er|t x i lk lk' lv ws os ts E Hpc Er
    |t x i w lk lv ws os ts E Hpc Hle Ew|t x tmp lk lv ws os ts E Hpc|t x p lk lv ws os ts E Hpc Hp
    |t x lk lv ws os ts E Hpc|t x p lk lv ws os ts E Hpc|t x p lk lv ws os ts E Hpc|t x tmp lk lv ws os ts E Hpc];
    subst x; destruct (di_seen _ Hi t) as (S1 & S2 & S3); pose proof (di_callers _ Hi t) as Hok; simpl in *.
  - apply caller_step; try done. simpl. by destruct Hpc as [->|[[p ->]| ->]].
  - by apply load_inv.
  - apply caller_step; [done|unfold seen_ok; simpl; lia| |simpl; by rewrite Hpc|done].
    unfold caller_ok in *. rewrite Hpc in Hok. simpl. destruct tmp as [p|]; [|done].
    destruct Hok as (H1 & H2 & H3). split_and!; [done|done|]. simpl. set_solver.
  - apply caller_step; [done|done| |simpl; rewrite Hpc; by destruct tmp|by destruct tmp].
    unfold caller_ok in *. rewrite Hpc in Hok. simpl. by destruct tmp.
  - apply lock_round_spins in Er as ->. apply caller_step; try done. simpl. by rewrite Hpc.
  - by eapply lock_inv.
  - by apply load_again_inv.
  - apply caller_step; [done|done|unfold caller_ok; simpl; by destruct tmp|simpl; rewrite Hpc; by destruct tmp|].
    intros _. unfold holder_ok. rewrite Hpc. simpl. by destruct tmp.
  - by apply construct_inv.
  - apply caller_step; [done|done|done|simpl; by rewrite Hpc|]. intros _. unfold holder_ok. by rewrite Hpc.
  - apply caller_step; [done|done|done|simpl; by rewrite Hpc|].
    intros _. unfold holder_ok. rewrite Hpc. simpl. intros ([H1 ->] & H2 & H3). split_and!; try done. apply H3. by left.
  - by apply store_inv.
  - by eapply unlock_inv.
Qed.

Lemma dclp_inv_reachable y y' : rtc getInstance_step y y' → dclp_inv y → dclp_inv y'.
Proof. induction 1; eauto using getInstance_inv. Qed.

Lemma dclp_start_inv junk : dclp_inv (SingletonDCLP_start junk).
Proof.
  split; simpl.
  - by apply pb_none.
  - intros t. unfold seen_ok. simpl. lia.
  - constructor; [simpl; lia|constructor].
  - done.
  - split_and!; [simpl; tauto|done|done|]. intros p Hp. by apply elem_of_nil in Hp.
Qed.

(** C21: Whatever the number of threads and their interleaving, and whatever old value a
    relaxed load may return: [getInstance] constructs at most one object; every caller
    that returns got that object; and its construction happened before the caller's next
    step, which is what the two fences and the lock are for. *)
Theorem singleton_constructed_once (junk : bool) (y : SingletonDCLP)
    (Hreach : rtc getInstance_step (SingletonDCLP_start junk) y) :
  (length (objects y) <= 1)%nat ∧
  ∀ t p, cl_pc (callers y t) = GI_returned p →
    objects y = [p] ∧ p ∈ v_known (cl_cur (callers y t)).
Proof.
  pose proof (dclp_inv_reachable _ _ Hreach (dclp_start_inv junk)) as [H1 _ _ H4 _]. split.
  - inversion H1; simpl; lia.
  - intros t p Hpc. specialize (H4 t). unfold caller_ok in H4. rewrite Hpc in H4. tauto.
Qed.

(** ** A run: two callers find no instance, and the second waits for the first *)


Ltac caller_now :=
  match goal with |- ?a = ?x => let v := eval vm_compute in a in unify x v; exact (@eq_refl _ v <: a = v) end.
Tactic Notation "dclp_step" uconstr(s) := eapply rtc_l; [eapply s; [caller_now|..]; try reflexivity|].

Lemma demo_dclp_run : ∃ y, rtc getInstance_step (SingletonDCLP_start true) y ∧ cl_pc (callers y 1) = GI_returned 4096.
Proof.
  eexists. split.
  - dclp_step (gi_call 0); [by left|]. dclp_step (gi_call 1); [by left|].
    dclp_step (gi_load 0 _ 0). dclp_step (gi_load 1 _ 0).
    dclp_step (gi_acquire_fence 0). dclp_step (gi_acquire_fence 1). dclp_step (gi_test 0). dclp_step (gi_test 1).
    dclp_step (gi_lock 0). dclp_step (gi_spin 1).
    dclp_step (gi_load_again 0 _ 0). dclp_step (gi_test_again 0).
    dclp_step (gi_new 0 _ 4096); [apply not_elem_of_nil|].
    dclp_step (gi_release_fence 0). dclp_step (gi_store 0). dclp_step (gi_unlock 0).
    dclp_step (gi_lock 1). dclp_step (gi_load_again 1 _ 1).
    dclp_step (gi_test_again 1). dclp_step (gi_unlock 1). apply rtc_refl.
  - vm_compute. reflexivity.
Qed.

Lemma singleton_constructed_once_witness : ∃ y, cl_pc (callers y 1) = GI_returned 4096 ∧
  (length (objects y) <= 1)%nat ∧
  ∀ t p, cl_pc (callers y t) = GI_returned p → objects y = [p] ∧ p ∈ v_known (cl_cur (callers y t)).
Proof.
  destruct demo_dclp_run as (y & Hrun & Hpc). exists y. split; [exact Hpc|].
  apply (singleton_constructed_once true y Hrun).
Defined.
