(* ===== verification/Network.v ===== *)
(** * [core/network/socket.cpp]: the socket objects

    A socket object has a descriptor and a state of its own. The objects that are alive
    are in the [World], by the identity of the object, with what the program did to the
    operating system: the files it wrote, the bytes it handed to [::send], the
    descriptors it gave to [::close]. The results of the system calls are arguments. *)
From Stdlib Require Import ZArith Lia Ascii String.
From stdpp Require Import base decidable sets list gmap strings.
From S2P Require Import Prelude.
From S2P Require Import MachineInt.
From S2P Require Import StringUtility.
From S2P Require Import FixSequenceStore.
Local Open Scope Z_scope.

Inductive SOCKET_STATE : Type := SOCKET_DISCONNECTED | SOCKET_BOUND | SOCKET_CONNECTED | SOCKET_LISTENING | SOCKET_ACCEPTED.

#[export] Instance SOCKET_STATE_eq_dec : EqDecision SOCKET_STATE.
Proof. solve_decision. Defined.

Record Socket : Type := mkSocket {
  sk_descriptor : Z;
  sk_state : SOCKET_STATE
}.

#[export] Instance Socket_eq_dec : EqDecision Socket.
Proof. solve_decision. Defined.

Record World : Type := mkWorld {
  w_files : files;
  w_sent : list (Z * str);               (** handed to [::send], in order, whatever it returned; not what has arrived *)
  w_closed : list Z;
  w_sockets : gmap Z Socket
}.

Definition with_files (fs : files) (w : World) : World := mkWorld fs (w_sent w) (w_closed w) (w_sockets w).
Definition with_sockets (m : gmap Z Socket) (w : World) : World := mkWorld (w_files w) (w_sent w) (w_closed w) m.

(** A pointer to a socket object that has been deleted cannot be used. *)
Definition socket_at (id : Z) (w : World) : outcome Socket :=
  match w_sockets w !! id with Some sock => Ok sock | None => Undef UseAfterFree end.

(** [close] on the object, and what it does to the operating system. *)
Definition Socket_close (sock : Socket) : Socket * list Z :=
  if bool_decide (sk_state sock = SOCKET_DISCONNECTED) then (sock, [])
  else (mkSocket (sk_descriptor sock) SOCKET_DISCONNECTED, if 0 <? sk_descriptor sock then [sk_descriptor sock] else []).

Definition close_socket (id : Z) (w : World) : outcome World :=
  sock ← socket_at id w;
  let '(sock, closed) := Socket_close sock in
  Ok (mkWorld (w_files w) (w_sent w) (w_closed w ++ closed) (<[id := sock]> (w_sockets w))).

(** [~Socket], when the object is deleted. *)
Definition delete_socket (id : Z) (w : World) : outcome World :=
  w ← close_socket id w;
  Ok (with_sockets (delete id (w_sockets w)) w).

(** On Linux: the error codes 100 to 104. The object forgets that it was connected. *)
Definition Socket_isConnectionLost (errorCode : Z) (sock : Socket) : Socket * bool :=
  if (100 <=? errorCode) && (errorCode <=? 104) then (mkSocket (sk_descriptor sock) SOCKET_DISCONNECTED, true)
  else (sock, false).

Definition isConnectionLost (errorCode : Z) (id : Z) (w : World) : outcome (World * bool) :=
  sock ← socket_at id w;
  let '(sock, ret) := Socket_isConnectionLost errorCode sock in
  Ok (with_sockets (<[id := sock]> (w_sockets w)) w, ret).

(** [accept]: the acceptor, what [select] says and what [::accept] returns; the new
    object, if any. *)
Definition Socket_accept (selected : bool) (peerSocketDesc : Z) (acceptor : Socket) : Socket * option Socket :=
  if bool_decide (sk_state acceptor ≠ SOCKET_LISTENING ∧ sk_state acceptor ≠ SOCKET_ACCEPTED) then (acceptor, None)
  else if selected && negb (peerSocketDesc <? 0) then
    (mkSocket (sk_descriptor acceptor) SOCKET_ACCEPTED, Some (mkSocket peerSocketDesc SOCKET_CONNECTED))
  else (acceptor, None).

(** ** What closing does *)

Lemma Socket_close_state sock : sk_state (Socket_close sock).1 = SOCKET_DISCONNECTED.
Proof. unfold Socket_close. by case_bool_decide. Qed.

Lemma Socket_close_again sock : Socket_close (Socket_close sock).1 = ((Socket_close sock).1, []).
Proof. unfold Socket_close at 1. by rewrite bool_decide_true by apply Socket_close_state. Qed.

Lemma close_socket_spec id w sock : w_sockets w !! id = Some sock →
  close_socket id w =
    Ok (mkWorld (w_files w) (w_sent w) (w_closed w ++ (Socket_close sock).2)
          (<[id := (Socket_close sock).1]> (w_sockets w))).
Proof. intros E. unfold close_socket, socket_at. rewrite E. cbn [mbind outcome_bind]. by destruct (Socket_close sock). Qed.
