(* ===== verification/Sockets.v ===== *)
(** * [core/network/socket.cpp], [address.h], [tcp_connection.cpp], [io_listener_epoll.cpp] (Linux)

    Creating, naming and configuring sockets, and the polling of descriptors. The state
    and the descriptor of a socket object are those of [Network.v]; here are its other
    fields. What the program asks of the operating system is logged in a [Kernel], which
    also has the status flags of the open descriptors; the results of the calls are
    arguments. The numbers of [Module Linux] are those of the system's headers. *)
From Stdlib Require Import ZArith Lia Ascii String.
From stdpp Require Import base decidable sets list gmap strings.
From S2P Require Import Prelude.
From S2P Require Import MachineInt.
From S2P Require Import StringUtility.
From S2P Require Import FixSequenceStore.
From S2P Require Import Network.
Local Open Scope Z_scope.

Module Linux.
Definition SOL_SOCKET : Z := 1.
Definition SO_DEBUG : Z := 1.
Definition SO_REUSEADDR : Z := 2.
Definition SO_ERROR : Z := 4.
Definition SO_SNDBUF : Z := 7.
Definition SO_RCVBUF : Z := 8.
Definition SO_PRIORITY : Z := 12.
Definition SO_REUSEPORT : Z := 15.
Definition SO_RCVTIMEO : Z := 20.
Definition SO_SNDTIMEO : Z := 21.
Definition SO_BUSY_POLL : Z := 46.
Definition TCP_NODELAY : Z := 1.
Definition TCP_CORK : Z := 3.
Definition TCP_QUICKACK : Z := 12.
Definition O_RDWR : Z := 2.
Definition O_NONBLOCK : Z := 2048.
Definition EPOLLIN : Z := 1.
Definition EPOLLERR : Z := 8.
Definition EPOLLHUP : Z := 16.
Definition EPOLLET : Z := 2147483648.
Definition INADDR_ANY : Z := 0.
End Linux.

Inductive SysCall : Type :=
  | sys_setsockopt (fd level option value : Z)
  | sys_bind (fd address port : Z)
  | sys_listen (fd backlog : Z)
  | sys_connect (fd address port : Z)
  | sys_setflags (fd flags : Z)
  | sys_epoll_create (epfd : Z)
  | sys_epoll_add (epfd fd events : Z)
  | sys_epoll_del (epfd fd : Z).

Record Kernel : Type := mkKernel { k_flags : gmap Z Z; k_calls : list SysCall }.

Definition sys (c : SysCall) (k : Kernel) : Kernel := mkKernel (k_flags k) (k_calls k ++ [c]).

(** ** Addresses *)

(** [sin_port] is in network byte order. *)
Record Address : Type := mkAddress { ad_port : Z; ad_address : str; ad_sin_port : Z; ad_sin_addr : Z }.
Definition Address_new (sin_port sin_addr : Z) : Address := mkAddress 0 [] sin_port sin_addr.

(** [htons] on a little-endian machine, for an argument that is converted to [uint16_t]. *)
Definition htons (port : Z) : Z :=
  let p := port mod 65536 in Z.lor (Z.shiftl (Z.land p 255) 8) (Z.shiftr p 8).

(** [initialise] for a name: what [getaddrinfo] finds, and what [inet_pton] reads. *)
Definition Address_initialise (getaddrinfo inet_pton : str → option Z) (address : str) (port : Z) : Address :=
  mkAddress port address (htons port)
    (if (0 <? length address)%nat then
       match getaddrinfo (c_str address) with
       | Some a => a
       | None => match inet_pton (c_str address) with Some a => a | None => 0 end
       end
     else Linux.INADDR_ANY).

(** ** Options *)

Inductive SOCKET_TYPE : Type := SOCKET_TYPE_TCP | SOCKET_TYPE_UDP.

Inductive SOCKET_OPTION : Type :=
  | GET_ERROR_AND_CLEAR | REUSE_ADDRESS | REUSE_PORT | EXCLUSIVE_ADDRESS
  | RECEIVE_BUFFER_SIZE | RECEIVE_BUFFER_TIMEOUT | SEND_BUFFER_SIZE | SEND_BUFFER_TIMEOUT
  | TCP_ENABLE_CORK | TCP_ENABLE_QUICKACK | TCP_DISABLE_NAGLE | POLLING_INTERVAL | SOCKET_PRIORITY.

Definition getSocketOptionValue (option : SOCKET_OPTION) : Z :=
  match option with
  | GET_ERROR_AND_CLEAR => Linux.SO_ERROR
  | REUSE_ADDRESS => Linux.SO_REUSEADDR
  | EXCLUSIVE_ADDRESS => Linux.SO_REUSEADDR
  | REUSE_PORT => Linux.SO_REUSEPORT
  | RECEIVE_BUFFER_SIZE => Linux.SO_RCVBUF
  | RECEIVE_BUFFER_TIMEOUT => Linux.SO_RCVTIMEO
  | SEND_BUFFER_SIZE => Linux.SO_SNDBUF
  | SEND_BUFFER_TIMEOUT => Linux.SO_SNDTIMEO
  | TCP_DISABLE_NAGLE => Linux.TCP_NODELAY
  | TCP_ENABLE_QUICKACK => Linux.TCP_QUICKACK
  | TCP_ENABLE_CORK => Linux.TCP_CORK
  | SOCKET_PRIORITY => Linux.SO_PRIORITY
  | POLLING_INTERVAL => Linux.SO_BUSY_POLL
  end.

(** ** Socket objects *)

Record SocketObject : Type := mkSocketObject {
  so_socket : Socket;
  m_pendingConnectionsQueueSize : Z;
  m_socketType : option SOCKET_TYPE;
  m_address : Address
}.

Definition so_descriptor (s : SocketObject) : Z := sk_descriptor (so_socket s).
Definition with_state (st : SOCKET_STATE) (s : SocketObject) : SocketObject :=
  mkSocketObject (mkSocket (so_descriptor s) st) (m_pendingConnectionsQueueSize s) (m_socketType s) (m_address s).
Definition with_address (a : Address) (s : SocketObject) : SocketObject :=
  mkSocketObject (so_socket s) (m_pendingConnectionsQueueSize s) (m_socketType s) a.

Definition Socket_new (junk : Address) : SocketObject := mkSocketObject (mkSocket 0 SOCKET_DISCONNECTED) 0 None junk.

Definition setPendingConnectionsQueueSize (value : Z) (s : SocketObject) : SocketObject :=
  mkSocketObject (so_socket s) value (m_socketType s) (m_address s).

(** The level is always that of sockets, for the options of TCP too. *)
Definition setSocketOption (option : SOCKET_OPTION) (value : Z) (s : SocketObject) (k : Kernel) : Kernel :=
  let actualOption := getSocketOptionValue option in
  if actualOption =? 0 then k else sys (sys_setsockopt (so_descriptor s) Linux.SOL_SOCKET actualOption value) k.

(** The address of an accepted peer; the structure of the object itself is not set. *)
Definition Address_initialise_peer (inet_ntop : Z → str) (sin_port sin_addr : Z) (a : Address) : Address :=
  mkAddress (htons sin_port) (c_str (inet_ntop sin_addr)) (ad_sin_port a) (ad_sin_addr a).
Definition Socket_initialise (inet_ntop : Z → str) (socketDescriptor sin_port sin_addr : Z) (s : SocketObject) : SocketObject :=
  mkSocketObject (mkSocket socketDescriptor (sk_state (so_socket s))) (m_pendingConnectionsQueueSize s) (m_socketType s)
    (Address_initialise_peer inet_ntop sin_port sin_addr (m_address s)).

(** [getSocketOption]: what [getsockopt], of the descriptor, the level, the option and the
    size of the result, leaves in the [int] that starts as 0. The size is not set: it is
    whatever [len] was. *)
Definition getSocketOption (getsockopt : Z → Z → Z → Z → option Z) (len : Z) (option : SOCKET_OPTION) (s : SocketObject) : Z :=
  default 0 (getsockopt (so_descriptor s) Linux.SOL_SOCKET (getSocketOptionValue option) len).
Definition getLastSocketError (getsockopt : Z → Z → Z → Z → option Z) (len : Z) (s : SocketObject) : Z :=
  getSocketOption getsockopt len GET_ERROR_AND_CLEAR s.
Definition getCurrentThreadLastSocketError (errno : Z) : Z := errno.
Definition getSocketErrorAsString (strerror : Z → str) (errorCode : Z) : str := c_str (strerror errorCode).

(** [create] with the descriptor that [socket] returns. *)
Definition Socket_create (type : SOCKET_TYPE) (fd : Z) (s : SocketObject) (k : Kernel) : SocketObject * Kernel * bool :=
  let s := mkSocketObject (mkSocket fd (sk_state (so_socket s))) (m_pendingConnectionsQueueSize s) (m_socketType s) (m_address s) in
  if fd <? 0 then (s, k, false)
  else
    let s := mkSocketObject (so_socket s) (m_pendingConnectionsQueueSize s) (Some type) (m_address s) in
    (s, setSocketOption TCP_DISABLE_NAGLE 1 s (mkKernel (<[fd := Linux.O_RDWR]> (k_flags k)) (k_calls k)), true).

Definition Socket_bind (getaddrinfo inet_pton : str → option Z) (result : Z) (address : str) (port : Z)
    (s : SocketObject) (k : Kernel) : SocketObject * Kernel * bool :=
  let s := with_address (Address_initialise getaddrinfo inet_pton address port) s in
  let k := sys (sys_bind (so_descriptor s) (ad_sin_addr (m_address s)) (ad_sin_port (m_address s))) k in
  if negb (result =? 0) then (s, k, false) else (with_state SOCKET_BOUND s, k, true).

Definition Socket_listen (result : Z) (s : SocketObject) (k : Kernel) : SocketObject * Kernel * bool :=
  let k := sys (sys_listen (so_descriptor s) (m_pendingConnectionsQueueSize s)) k in
  if negb (result =? 0) then (s, k, false) else (with_state SOCKET_LISTENING s, k, true).

(** Without a known descriptor [fcntl] returns -1 and sets nothing. *)
Definition setBlockingMode (blockingMode : bool) (s : SocketObject) (k : Kernel) : Kernel :=
  let fd := so_descriptor s in
  match k_flags k !! fd with
  | None => k
  | Some arg =>
      let arg := if blockingMode then Z.land arg (Z.lnot Linux.O_NONBLOCK) else Z.lor arg Linux.O_NONBLOCK in
      sys (sys_setflags fd arg) (mkKernel (<[fd := arg]> (k_flags k)) (k_calls k))
  end.

(** [select] with the number of ready descriptors that [::select] returns. *)
Definition Socket_select (ready : Z) : bool := if ready <=? 0 then false else true.

Definition Socket_connect (getaddrinfo inet_pton : str → option Z) (result : Z) (address : str) (port : Z)
    (s : SocketObject) (k : Kernel) : SocketObject * Kernel * bool :=
  let s := with_address (Address_initialise getaddrinfo inet_pton address port) s in
  let k := sys (sys_connect (so_descriptor s) (ad_sin_addr (m_address s)) (ad_sin_port (m_address s))) k in
  if negb (result =? 0) then (s, k, false) else (with_state SOCKET_CONNECTED s, k, true).

(** [connect] with a time limit waits until the descriptor is ready. *)
Definition Socket_connect_timeout (getaddrinfo inet_pton : str → option Z) (result ready : Z) (address : str) (port : Z)
    (s : SocketObject) (k : Kernel) : SocketObject * Kernel * bool :=
  let k := setBlockingMode false s k in
  let '(s, k, success) := Socket_connect getaddrinfo inet_pton result address port s k in
  let success := if success then success else Socket_select ready in
  let k := setBlockingMode true s k in
  (s, k, success).

(** [accept] on the whole object; the peer is made by [Network.Socket_accept]. *)
Definition accept_connection (ready peerSocketDesc : Z) (s : SocketObject) (k : Kernel) : SocketObject * Kernel * option Socket :=
  if bool_decide (sk_state (so_socket s) ≠ SOCKET_LISTENING ∧ sk_state (so_socket s) ≠ SOCKET_ACCEPTED) then (s, k, None)
  else
    let k := setBlockingMode false s k in
    let success := Socket_select ready in
    let k := if success && negb (peerSocketDesc <? 0)
             then mkKernel (<[peerSocketDesc := Linux.O_RDWR]> (k_flags k)) (k_calls k) else k in
    let '(sock, peer) := Socket_accept success peerSocketDesc (so_socket s) in
    (mkSocketObject sock (m_pendingConnectionsQueueSize s) (m_socketType s) (m_address s), setBlockingMode true s k, peer).

(** [TCPConnection::send] and [receive] with the results of the calls. *)
Definition TCPConnection_send (timeout ready result : Z) : Z :=
  if (0 <? timeout) && negb (Socket_select ready) then 0 else result.
Definition TCPConnection_receive (timeout ready result : Z) : Z :=
  if (0 <? timeout) && negb (Socket_select ready) then 0 else result.

(** ** Polling *)

Inductive EPOLL_MODE : Type := LEVEL_TRIGGERED | EDGE_TRIGGERED.

(** The array of events is on the heap: events with their descriptors. *)
Record IOListenerEpoll : Type := mkIOListenerEpoll {
  m_epollMode : EPOLL_MODE;
  m_epollDescriptor : Z;
  m_epollEvents : option (list (Z * Z));
  m_epollTimeout : Z;
  m_maxPollEvents : Z
}.

Definition IOListenerEpoll_new : IOListenerEpoll := mkIOListenerEpoll LEVEL_TRIGGERED (-1) None 0 64.

(** [start]; an event has 12 bytes, and the array is not initialised. *)
Definition IOListenerEpoll_start (epfd : Z) (junk : Z * Z) (l : IOListenerEpoll) (k : Kernel) : outcome (IOListenerEpoll * Kernel) :=
  let k := sys (sys_epoll_create epfd) k in
  if LONG_MAX <? 12 * m_maxPollEvents l then Throw BadAlloc
  else
    Ok (mkIOListenerEpoll (m_epollMode l) epfd (Some (replicate (Z.to_nat (m_maxPollEvents l)) junk)) (m_epollTimeout l)
          (m_maxPollEvents l), k).

Definition IOListenerEpoll_stop (l : IOListenerEpoll) : IOListenerEpoll :=
  mkIOListenerEpoll (m_epollMode l) (m_epollDescriptor l) None (m_epollTimeout l) (m_maxPollEvents l).

(** The time limit of epoll is in milliseconds, an [int]. *)
Definition IOListenerEpoll_setTimeout (microSeconds : Z) (l : IOListenerEpoll) : IOListenerEpoll :=
  mkIOListenerEpoll (m_epollMode l) (m_epollDescriptor l) (m_epollEvents l) (to_int (Z.quot microSeconds 1000)) (m_maxPollEvents l).

Definition setEpollMode (mode : EPOLL_MODE) (l : IOListenerEpoll) : IOListenerEpoll :=
  mkIOListenerEpoll mode (m_epollDescriptor l) (m_epollEvents l) (m_epollTimeout l) (m_maxPollEvents l).
Definition IOListenerEpoll_setMaxPollEvents (maxPollEvents : Z) (l : IOListenerEpoll) : IOListenerEpoll :=
  mkIOListenerEpoll (m_epollMode l) (m_epollDescriptor l) (m_epollEvents l) (m_epollTimeout l) maxPollEvents.

Definition epoll_events (l : IOListenerEpoll) : Z :=
  match m_epollMode l with EDGE_TRIGGERED => Z.lor Linux.EPOLLIN Linux.EPOLLET | LEVEL_TRIGGERED => Linux.EPOLLIN end.
Definition addFileDescriptor (fd : Z) (l : IOListenerEpoll) (k : Kernel) : Kernel :=
  sys (sys_epoll_add (m_epollDescriptor l) fd (epoll_events l)) k.
Definition removeFileDescriptor (fd : Z) (l : IOListenerEpoll) (k : Kernel) : Kernel :=
  sys (sys_epoll_del (m_epollDescriptor l) fd) k.

(** [epoll_wait] writes the ready descriptors to the front of the array, at most as many
    as the program asks for, and returns their number, or -1. *)
Definition getNumberOfReadyFileDescriptors (ready : option (list (Z * Z))) (l : IOListenerEpoll) : IOListenerEpoll * Z :=
  let maxevents := to_int (m_maxPollEvents l) in
  match m_epollEvents l, ready with
  | Some buffer, Some es =>
      if maxevents <=? 0 then (l, -1) else
      let es := take (Z.to_nat maxevents) es in
      (mkIOListenerEpoll (m_epollMode l) (m_epollDescriptor l) (Some (es ++ drop (length es) buffer)) (m_epollTimeout l)
         (m_maxPollEvents l), Z.of_nat (length es))
  | _, _ => (l, -1)
  end.

Definition event_at (index : Z) (l : IOListenerEpoll) : outcome (Z * Z) :=
  match m_epollEvents l with None => Undef NullDeref | Some buffer => vec_at index buffer end.

Definition has_event (mask events : Z) : bool := negb (Z.land events mask =? 0).

Definition isValidEvent (index : Z) (l : IOListenerEpoll) : outcome bool :=
  e ← event_at index l;
  Ok (negb (has_event Linux.EPOLLERR e.1 || has_event Linux.EPOLLHUP e.1 || negb (has_event Linux.EPOLLIN e.1))).

Definition getReadyFileDescriptor (index : Z) (l : IOListenerEpoll) : outcome Z :=
  e ← event_at index l; Ok e.2.

(** ** Bits *)

Lemma flag_bit i : 0 <= i → Z.testbit Linux.O_NONBLOCK i = (i =? 11).
Proof. intros Hi. unfold Linux.O_NONBLOCK. change 2048 with (2 ^ 11). rewrite Z.pow2_bits_eqb by lia. apply Z.eqb_sym. Qed.

(** [setBlockingMode] changes one bit of the flags of its descriptor. *)
Lemma setBlockingMode_flags b s k arg : k_flags k !! so_descriptor s = Some arg →
  ∃ arg', k_flags (setBlockingMode b s k) = <[so_descriptor s := arg']> (k_flags k) ∧
    ∀ i, 0 <= i → Z.testbit arg' i = if i =? 11 then negb b else Z.testbit arg i.
Proof.
  intros E. unfold setBlockingMode. rewrite E. eexists. split; [reflexivity|].
  intros i Hi. destruct b; [rewrite Z.land_spec, Z.lnot_spec by done|rewrite Z.lor_spec]; rewrite flag_bit by done;
    destruct (i =? 11); simpl; by destruct (Z.testbit arg i).
Qed.

Lemma has_event_bit n events : 0 <= n → has_event (2 ^ n) events = Z.testbit events n.
Proof.
  intros Hn. unfold has_event. assert (Z.land events (2 ^ n) = if Z.testbit events n then 2 ^ n else 0) as ->.
  { apply Z.bits_inj_iff'. intros i Hi. rewrite Z.land_spec, Z.pow2_bits_eqb by done.
    destruct (Z.eqb_spec n i) as [->|Hne].
    - destruct (Z.testbit events i); simpl; [by rewrite Z.pow2_bits_true|by rewrite Z.bits_0].
    - rewrite andb_false_r. destruct (Z.testbit events n); [|by rewrite Z.bits_0]. symmetry. by apply Z.pow2_bits_false. }
  destruct (Z.testbit events n); [|done]. pose proof (Z.pow_pos_nonneg 2 n). by destruct (Z.eqb_spec (2 ^ n) 0); [lia|].
Qed.

(** An event is taken for input when it has the bit of input, and neither that of an
    error nor that of a hang-up. *)
Definition input_event (events : Z) : bool := Z.testbit events 0 && negb (Z.testbit events 3) && negb (Z.testbit events 4).

Lemma isValidEvent_bits index l e : event_at index l = Ok e → isValidEvent index l = Ok (input_event e.1).
Proof.
  intros E. unfold isValidEvent, input_event. rewrite E. cbn [mbind outcome_bind]. f_equal.
  change Linux.EPOLLERR with (2 ^ 3). change Linux.EPOLLHUP with (2 ^ 4). change Linux.EPOLLIN with (2 ^ 0).
  rewrite !has_event_bit by lia. by destruct (Z.testbit e.1 0), (Z.testbit e.1 3), (Z.testbit e.1 4).
Qed.

(** The two bytes of the port change places. *)
Lemma htons_spec port : htons port = 256 * (port mod 256) + port mod 65536 / 256.
Proof.
  unfold htons. set (p := port mod 65536). assert (0 <= p < 65536) as Hp by (apply Z.mod_pos_bound; lia).
  assert (Z.shiftl (Z.land p 255) 8 = 256 * (port mod 256)) as ->.
  { change 255 with (Z.ones 8). rewrite Z.land_ones, Z.shiftl_mul_pow2 by lia. change (2 ^ 8) with 256.
    unfold p. clear. Z.to_euclidean_division_equations. lia. }
  rewrite Z.shiftr_div_pow2 by lia. change (2 ^ 8) with 256. rewrite <- Z.add_lor_land.
  assert (Z.land (256 * (port mod 256)) (p / 256) = 0) as ->; [|lia].
  apply Z.bits_inj_0. intros i. rewrite Z.land_spec. change 256 with (2 ^ 8) at 1. rewrite (Z.mul_comm (2 ^ 8)).
  destruct (Z.ltb_spec i 8); [by rewrite Z.mul_pow2_bits_low by lia|].
  rewrite andb_comm. rewrite (Z.bits_above_log2 (p / 256)); [done|apply Z.div_pos; lia|].
  destruct (Z.eq_dec (p / 256) 0) as [->|H0]; [simpl; lia|]. apply Z.log2_lt_pow2; [|].
  - assert (0 <= p / 256) by (apply Z.div_pos; lia). lia.
  - assert (p / 256 < 2 ^ 8) by (apply Z.div_lt_upper_bound; lia).
    assert (2 ^ 8 <= 2 ^ i) by (apply Z.pow_le_mono_r; lia). lia.
Qed.

Lemma htons_involutive port : htons (htons port) = port mod 65536.
Proof. rewrite !htons_spec. Z.to_euclidean_division_equations. lia. Qed.

(** A peer's port is the one it was bound to: the conversions undo each other. *)
Lemma peer_port getaddrinfo inet_pton inet_ntop address port fd s :
  0 <= port < 65536 →
  ad_port (m_address (Socket_initialise inet_ntop fd (ad_sin_port (Address_initialise getaddrinfo inet_pton address port))
    (ad_sin_addr (Address_initialise getaddrinfo inet_pton address port)) s)) = port.
Proof.
  intros Hp. change (htons (htons port) = port). rewrite htons_involutive. apply Z.mod_small. lia.
Qed.
