(* ===== verification/FixSession.v ===== *)
(** * [fix/fix_session.cpp]

    A session: sequence numbers, the messages it builds and answers, sending,
    receiving with and without a cache, and the validations. The clock, the memory an
    uninitialised variable holds, the heap and the socket are the parameter
    [Platform]; what is sent and written is recorded in the [World] of Network. The two spin locks
    are taken and released around the operations and are not part of the state. *)
From Stdlib Require Import ZArith Lia Ascii String SpecFloat.
From stdpp Require Import base decidable sets list gmap strings.
From S2P Require Import Prelude.
From S2P Require Import MachineInt.
From S2P Require Import StringUtility.
From S2P Require Import Double.
From S2P Require Import FixConstants.
From S2P Require Import DateTime.
From S2P Require Import FixMessage.
From S2P Require Import FixParser.
From S2P Require Import FixReceiveCache.
From S2P Require Import FixSequenceStore.
From S2P Require Import Network.
Local Open Scope Z_scope.

Class Platform : Type := {
  junk_type : Z;                        (** an uninitialised message type *)
  utc_datetime : Subseconds → str;      (** [getUtcDatetime] *)
  unix_time : Z;                        (** [time(0)] *)
  heap_limit : Z;                       (** the largest allocation that succeeds *)
  socket_send : Z → str → Z             (** what [::send] returns *)
}.

(** The platform whose texts of the time are those of two readings of its clock. *)
Definition clock_platform (localtime : Z → TM) (other_conversion : ascii → TM → str) (now1 now2 : Z)
    (P : Platform) : Platform := {|
  junk_type := @junk_type P;
  utc_datetime subseconds := getUtcDatetime localtime other_conversion subseconds now1 now2;
  unix_time := to_time_t now1;
  heap_limit := @heap_limit P;
  socket_send := @socket_send P
|}.

Lemma clock_text_clean localtime other_conversion now1 now2 P subseconds :
  clean (@utc_datetime (clock_platform localtime other_conversion now1 now2 P) subseconds).
Proof.
  assert (∀ s : str, bool_decide (clean s) = true → clean s) as Hc by (intros s; apply bool_decide_eq_true_1).
  assert (∀ k n, clean (set_width k n)) as Hw by (intros; apply clean_padLeft, clean_to_string).
  cbn [utc_datetime clock_platform]. rewrite getUtcDatetime_fields. repeat apply clean_app; try apply clean_to_string; try apply Hw; try (by apply Hc).
  destruct subseconds; unfold point; try (by apply Hc); (apply clean_app; [by apply Hc|apply Hw]).
Qed.

Definition DEFAULT_HEARTBEAT_INTERVAL : Z := 30.

(** [m_tcpConnection] points to the peer's socket object, if it is set. *)
Record FixSession : Type := mkFixSession {
  ss_fixVersion : Z;
  ss_outgoingSequenceNumber : Z;
  ss_incomingSequenceNumber : Z;
  ss_heartBeatInterval : Z;
  ss_encryptionMethod : Z;
  ss_tcpConnection : option Z;
  ss_receiveCache : FixReceiveCache;
  ss_targetCompId : str;
  ss_timePrecision : Subseconds;
  ss_lastReceivedTime : Z;
  ss_lastSentTime : Z;
  ss_isUsingExternalTCPConnectionManager : bool
}.

Definition FixSession_new : FixSession :=
  mkFixSession FIX_VERSION_NONE 1 1 DEFAULT_HEARTBEAT_INTERVAL FIX_ENCRYPTION_NONE None FixReceiveCache_new []
    MICROSECONDS 0 0 false.

Definition with_numbers (out inc : Z) (s : FixSession) : FixSession :=
  mkFixSession (ss_fixVersion s) out inc (ss_heartBeatInterval s) (ss_encryptionMethod s) (ss_tcpConnection s)
    (ss_receiveCache s) (ss_targetCompId s) (ss_timePrecision s) (ss_lastReceivedTime s) (ss_lastSentTime s)
    (ss_isUsingExternalTCPConnectionManager s).
Definition with_settings (version heartBeat encryption : Z) (target : str) (s : FixSession) : FixSession :=
  mkFixSession version (ss_outgoingSequenceNumber s) (ss_incomingSequenceNumber s) heartBeat encryption
    (ss_tcpConnection s) (ss_receiveCache s) target (ss_timePrecision s) (ss_lastReceivedTime s)
    (ss_lastSentTime s) (ss_isUsingExternalTCPConnectionManager s).
Definition with_connection (connection : option Z) (cache : FixReceiveCache) (precision : Subseconds)
    (external : bool) (s : FixSession) : FixSession :=
  mkFixSession (ss_fixVersion s) (ss_outgoingSequenceNumber s) (ss_incomingSequenceNumber s)
    (ss_heartBeatInterval s) (ss_encryptionMethod s) connection cache (ss_targetCompId s) precision
    (ss_lastReceivedTime s) (ss_lastSentTime s) external.
Definition with_times (received sent : Z) (s : FixSession) : FixSession :=
  mkFixSession (ss_fixVersion s) (ss_outgoingSequenceNumber s) (ss_incomingSequenceNumber s)
    (ss_heartBeatInterval s) (ss_encryptionMethod s) (ss_tcpConnection s) (ss_receiveCache s) (ss_targetCompId s)
    (ss_timePrecision s) received sent (ss_isUsingExternalTCPConnectionManager s).

Definition setIncomingSequenceNumber (n : Z) (s : FixSession) : FixSession :=
  with_numbers (ss_outgoingSequenceNumber s) n s.
Definition setTargetCompIdOf (target : str) (s : FixSession) : FixSession :=
  with_settings (ss_fixVersion s) (ss_heartBeatInterval s) (ss_encryptionMethod s) target s.
Definition setUsesExternalTcpConnectionManager (v : bool) (s : FixSession) : FixSession :=
  with_connection (ss_tcpConnection s) (ss_receiveCache s) (ss_timePrecision s) v s.

(** [initialise]: [memory] is the new buffer's contents, of [receiveCacheSize] bytes. *)
Definition FixSession_initialise (connection : Z) (timePrecision : Subseconds) (memory : str) (s : FixSession) : FixSession :=
  with_connection (Some connection)
    (if bool_decide (memory = []) then FixReceiveCache_new else FixReceiveCache_initialise memory FixReceiveCache_new)
    timePrecision (ss_isUsingExternalTCPConnectionManager s) s.

Definition FixSession_close (s : FixSession) (w : World) : outcome World :=
  match ss_tcpConnection s with
  | Some sock => close_socket sock w
  | None => Ok w
  end.

Definition FixSession_connected (s : FixSession) : bool :=
  match ss_tcpConnection s with Some _ => true | None => false end.

(** The copy constructor copies every member but [m_isUsingExternalTCPConnectionManager],
    which keeps the value its memory has; the locks and the cache are shared. *)
Definition FixSession_copy (memory : bool) (other : FixSession) : FixSession :=
  with_connection (ss_tcpConnection other) (ss_receiveCache other) (ss_timePrecision other) memory other.

(** The destructor. *)
Definition FixSession_destroy (s : FixSession) (w : World) : outcome World :=
  if ss_isUsingExternalTCPConnectionManager s then Ok w else FixSession_close s w.

(** ** Validation *)

(** [getIncomingSequenceNumber() + 1] is an [int] addition. *)
Definition validateSequenceNumber (incomingSequenceNumber : Z) (s : FixSession) : outcome bool :=
  expected ← int_add (ss_incomingSequenceNumber s) 1;
  Ok (bool_decide (expected = incomingSequenceNumber)).

(** Each test either fails, with the missing tag if it is one of [verifyTag]'s, or lets
    the next one run. *)
Inductive tag_check : Type :=
  | CheckTag (tag : Z)
  | CheckThat (passed : bool).

Fixpoint run_checks (message : FixMessage) (checks : list tag_check) (missingTag : Z) : bool * Z :=
  match checks with
  | [] => (true, missingTag)
  | CheckTag tag :: rest => if hasTag tag message then run_checks message rest missingTag else (false, tag)
  | CheckThat passed :: rest => if passed then run_checks message rest missingTag else (false, missingTag)
  end.

Definition nonempty (s : str) : bool := bool_decide (length s ≠ 0%nat).

Definition validateRequiredTags (message : FixMessage) (missingTag : Z) : bool * Z :=
  let common :=
    [CheckThat (negb (m_fixVersion message =? FIX_VERSION_NONE));
     CheckTag FIX_TAG_BODY_LENGTH;
     CheckThat (negb (m_messageType message =? MESSAGE_TYPE_NONE));
     CheckTag FIX_TAG_BODY_CHECKSUM;
     CheckThat (negb (m_sequenceNumber message =? 0));
     CheckThat (nonempty (m_senderCompId message));
     CheckThat (nonempty (m_targetCompId message))] in
  let specific :=
    if m_messageType message =? LOGON then
      [CheckTag FIX_TAG_HEARBEAT_INTERVAL; CheckTag FIX_TAG_ENCRYPT_METHOD]
    else if m_messageType message =? NEW_ORDER then
      [CheckThat (nonempty (m_sendingTime message)); CheckTag FIX_TAG_SYMBOL; CheckTag FIX_TAG_CLIENT_ORDER_ID;
       CheckTag FIX_TAG_ORDER_QUANTITY; CheckTag FIX_TAG_ORDER_PRICE; CheckTag FIX_TAG_ORDER_SIDE;
       CheckTag FIX_TAG_ORDER_TYPE; CheckTag FIX_TAG_TRANSACTION_TIME]
    else if m_messageType message =? CANCEL then
      [CheckThat (nonempty (m_sendingTime message)); CheckTag FIX_TAG_CLIENT_ORDER_ID;
       CheckTag FIX_TAG_ORIG_CLIENT_ORDER_ID]
    else [] in
  run_checks message (common ++ specific) missingTag.

(** ** Receiving *)

(** The result of [recv]: its return value and the bytes it wrote. *)
Abbreviation recv_result := (Z * str)%type.

(** The characters of the body length, up to the delimiter. *)
Fixpoint scan_body_length (fuel : nat) (j receivedSize : Z) (stackBuffer bodyLength : str)
    : outcome (option (Z * str)) :=
  match fuel with
  | O => NoFuel
  | S fuel' =>
      if j <? receivedSize then
        currentChar ← vec_at j stackBuffer;
        if bool_decide (currentChar = FIX_DELIMITER) then Ok (Some (j, bodyLength))
        else scan_body_length fuel' (j + 1) receivedSize stackBuffer (bodyLength ++ [currentChar])
      else Ok None
  end.

Definition two_chars (c d : ascii) (i : Z) (buffer : str) : outcome bool :=
  c' ← vec_at i buffer;
  if bool_decide (c' = c) then d' ← vec_at (i + 1) buffer; Ok (bool_decide (d' = d)) else Ok false.

(** The first loop of [receive]: the body length and the index of the message type. *)
Fixpoint scan_header (fuel : nat) (i receivedSize : Z) (stackBuffer : str) (fixBodyLength : Z) : outcome (Z * Z) :=
  match fuel with
  | O => NoFuel
  | S fuel' =>
      if i <? receivedSize then
        is9 ← two_chars "9"%char FIX_EQUALS i stackBuffer;
        '(i, fixBodyLength) ←
          (if is9 : bool then
             found ← scan_body_length (S (Z.to_nat receivedSize)) (i + 2) receivedSize stackBuffer [];
             match found with
             | Some (j, bodyLength) => n ← stoi bodyLength; Ok (j, to_size n)
             | None => Ok (i, fixBodyLength)
             end
           else Ok (i, fixBodyLength));
        is35 ← two_chars "3"%char "5"%char i stackBuffer;
        if is35 : bool then Ok (fixBodyLength, i)
        else scan_header fuel' (i + 1) receivedSize stackBuffer fixBodyLength
      else Ok (fixBodyLength, 0)
  end.

Definition initialBufferSize : Z := 20.
Definition trailerSize : Z := 7.
Definition stackBufferSize : Z := 1024.

Section session.
Context `{!Platform} `{!BodyOrder}.

Definition updateLastReceivedTime (s : FixSession) : FixSession := with_times unix_time (ss_lastSentTime s) s.

(** [receive]: [recv n len] is the result of the [n]-th call of [recv] for [len] bytes,
    [stackBuffer] what the local array of [stackBufferSize] characters contains. *)
Definition FixSession_receive (recv : nat → Z → recv_result) (stackBuffer : str)
    (message : FixMessage) (s : FixSession) : outcome (FixMessage * FixSession * Z) :=
  let '(receivedSize, data) := recv 0%nat initialBufferSize in
  if receivedSize <=? 0 then Ok (message, s, receivedSize)
  else
    stackBuffer ← write_at 0 data stackBuffer;
    '(fixBodyLength, receivedBodyStartIndex) ←
      scan_header (S (Z.to_nat receivedSize)) 0 receivedSize stackBuffer 0;
    let receivedBodyLength := size_sub receivedSize receivedBodyStartIndex in
    let remainingBytes := size_add (size_sub fixBodyLength receivedBodyLength) trailerSize in
    let stackBufferActualLength := receivedSize in
    if stackBufferSize <? size_add remainingBytes initialBufferSize then
      if heap_limit <? remainingBytes then Throw BadAlloc
      else
        let '(receivedSize, heapBuffer) := recv 1%nat remainingBytes in
        if receivedSize <=? 0 then Ok (message, s, receivedSize)
        else
          message ← FixParser_parseFromMultipleBuffers message
            stackBuffer (Z.to_nat stackBufferActualLength) heapBuffer (Z.to_nat receivedSize);
          Ok (message, updateLastReceivedTime s, stackBufferActualLength + receivedSize)
    else
      let '(receivedSize, data) := recv 1%nat remainingBytes in
      if receivedSize <=? 0 then Ok (message, s, receivedSize)
      else
        stackBuffer ← write_at stackBufferActualLength data stackBuffer;
        let totalLength := stackBufferActualLength + receivedSize in
        message ← FixParser_parseFromBuffer message stackBuffer (Z.to_nat totalLength);
        Ok (message, updateLastReceivedTime s, totalLength).

(** [receiveWithCaching]: the result of the one call of [recv] is given. *)
Definition FixSession_receiveWithCaching (recv : Z → recv_result) (messages : list FixMessage) (s : FixSession)
    : outcome (FixSession * list FixMessage) :=
  let '(receivedSize, data) := recv (FixReceiveCache_getRemainingBufferSize (ss_receiveCache s)) in
  if 0 <? receivedSize then
    cache ← FixReceiveCache_append data (ss_receiveCache s);
    '(cache, messages, _) ← FixReceiveCache_parse junk_type messages cache;
    let s := updateLastReceivedTime s in
    Ok (with_connection (ss_tcpConnection s) cache (ss_timePrecision s) (ss_isUsingExternalTCPConnectionManager s) s,
        messages)
  else Ok (s, messages).

(** ** Sending *)

(** [send]: the message is numbered and stamped, its text is handed to the socket. The
    session counts the message as sent whatever [::send] returns; what it returns is the
    result, and its callers only log it. *)
Definition FixSession_send (message : FixMessage) (s : FixSession) (w : World)
    : outcome (FixMessage * FixSession * World * Z) :=
  let admin := isAdminMessage message in
  let currentUTCDateTime := utc_datetime (ss_timePrecision s) in
  let message := setSequenceNumber (to_size (ss_outgoingSequenceNumber s)) message in
  let message := setSendingTime currentUTCDateTime message in
  let message := if admin then message else setTag FIX_TAG_TRANSACTION_TIME currentUTCDateTime message in
  '(message, messageAsString) ← FixMessage_toString message [];
  match ss_tcpConnection s with
  | None => Undef NullDeref
  | Some id =>
      connection ← socket_at id w;
      let sock := sk_descriptor connection in
      next ← int_add (ss_outgoingSequenceNumber s) 1;
      Ok (message, with_times (ss_lastReceivedTime s) unix_time (with_numbers next (ss_incomingSequenceNumber s) s),
          mkWorld (w_files w) (w_sent w ++ [(sock, messageAsString)]) (w_closed w) (w_sockets w),
          socket_send sock messageAsString)
  end.

(** ** The messages a session builds; [COMPID] is the static [FixSession::COMPID] *)

Section compid.
Context (COMPID : str).

Definition getBaseMessage (messageType : Z) (message : FixMessage) (s : FixSession) : FixMessage :=
  setTargetCompId (ss_targetCompId s) (setSenderCompId COMPID
    (setMessageType messageType (setFixVersion (ss_fixVersion s) message))).

Definition getLogonMessage (message : FixMessage) (s : FixSession) : FixMessage :=
  setTag_int FIX_TAG_ENCRYPT_METHOD (ss_encryptionMethod s)
    (setTag_int FIX_TAG_HEARBEAT_INTERVAL (ss_heartBeatInterval s) (getBaseMessage LOGON message s)).

(** The sequence number of the message that is rejected is looked up in the new
    message. *)
Definition getAdminRejectionMessage (message : FixMessage) (s : FixSession) : FixMessage :=
  let message := getBaseMessage ADMIN_REJECT message s in
  let '(message, refSeqNum) := getTagValue FIX_TAG_SEQUENCE_NUMBER message in
  setTag FIX_TAG_REF_SEQ_NUM refSeqNum message.

Definition getLogoffMessage (message : FixMessage) (s : FixSession) : FixMessage :=
  getBaseMessage LOGOFF message s.
Definition getHeartBeatMessage (message : FixMessage) (s : FixSession) : FixMessage :=
  getBaseMessage HEARTBEAT message s.
Definition getExecutionReportMessage (message : FixMessage) (s : FixSession) : FixMessage :=
  getBaseMessage EXECUTION_REPORT message s.
Definition getUserLogonResponseMessage (message : FixMessage) (s : FixSession) : FixMessage :=
  getBaseMessage USER_RESPONSE message s.

Definition validateTargetCompid (message : FixMessage) : bool := compare (m_targetCompId message) COMPID.

Definition restoreSequenceNumbersFromStore (s : FixSession) (w : World) : outcome FixSession :=
  '(out, inc) ← loadFromSequenceStore COMPID (ss_targetCompId s) (w_files w);
  Ok (with_numbers out inc s).

Definition saveSequenceNumbersToStore (s : FixSession) (w : World) : World :=
  with_files (updateSequenceStore COMPID (ss_targetCompId s) (ss_outgoingSequenceNumber s)
                (ss_incomingSequenceNumber s) (w_files w)) w.

(** ** Answers; the [mutable] table of the message may grow, so it is returned *)

Definition handleLogonMessage (message : FixMessage) (s : FixSession) (w : World)
    : outcome (FixMessage * FixSession * World) :=
  let s := setTargetCompIdOf (m_senderCompId message) s in
  s ← restoreSequenceNumbersFromStore s w;
  '(message, heartbeatInverval) ← getTagValueAsInt FIX_TAG_HEARBEAT_INTERVAL message;
  let s := with_settings (m_fixVersion message) heartbeatInverval (ss_encryptionMethod s) (ss_targetCompId s) s in
  '(message, encryptionMethod) ← getTagValueAsInt FIX_TAG_ENCRYPT_METHOD message;
  let s := with_settings (ss_fixVersion s) (ss_heartBeatInterval s) encryptionMethod (ss_targetCompId s) s in
  let logonResponse := getLogonMessage (FixMessage_new junk_type) s in
  '(_, s, w, _) ← FixSession_send logonResponse s w;
  Ok (message, s, w).

Definition handleAdminMessage (message : FixMessage) (s : FixSession) (w : World)
    : outcome (FixMessage * FixSession * World) :=
  let messageType := m_messageType message in
  let fresh := FixMessage_new junk_type in
  if messageType =? LOGOFF then
    '(_, s, w, _) ← FixSession_send (getLogoffMessage fresh s) s w; Ok (message, s, w)
  else if messageType =? HEARTBEAT then
    '(_, s, w, _) ← FixSession_send (getHeartBeatMessage fresh s) s w; Ok (message, s, w)
  else if messageType =? TEST_REQUEST then
    let '(message, testRequestId) := getTagValue FIX_TAG_TEST_REQUEST_ID message in
    let response := setTag FIX_TAG_TEST_REQUEST_ID testRequestId (getHeartBeatMessage fresh s) in
    '(_, s, w, _) ← FixSession_send response s w; Ok (message, s, w)
  else if messageType =? USER_LOGON then
    let '(message, userRequestId) := getTagValue FIX_TAG_USER_REQUEST_ID message in
    let '(message, userName) := getTagValue FIX_TAG_USERNAME message in
    let response := setTag FIX_TAG_USERNAME userName
      (setTag FIX_TAG_USER_REQUEST_ID userRequestId (getUserLogonResponseMessage fresh s)) in
    '(_, s, w, _) ← FixSession_send response s w; Ok (message, s, w)
  else Ok (message, s, w).
End compid.
End session.

(** * The properties of sessions *)

Section properties.
Context `{!Platform} `{!BodyOrder}.

(** A message as [send] completes it. *)
Definition stamped (message : FixMessage) (s : FixSession) : FixMessage :=
  let m := setSendingTime (utc_datetime (ss_timePrecision s))
             (setSequenceNumber (to_size (ss_outgoingSequenceNumber s)) message) in
  if isAdminMessage message then m else setTag FIX_TAG_TRANSACTION_TIME (utc_datetime (ss_timePrecision s)) m.

Lemma send_spec message s w id sock st : sendable (stamped message s) → wire_size_ok (stamped message s) →
  ss_tcpConnection s = Some id → w_sockets w !! id = Some (mkSocket sock st) →
  ss_outgoingSequenceNumber s < INT_MAX → 0 <= ss_outgoingSequenceNumber s →
  let text := fields_text (wire_fields (stamped message s)) in
  FixSession_send message s w =
    Ok (stamped message s,
        with_times (ss_lastReceivedTime s) unix_time
          (with_numbers (ss_outgoingSequenceNumber s + 1) (ss_incomingSequenceNumber s) s),
        mkWorld (w_files w) (w_sent w ++ [(sock, text)]) (w_closed w) (w_sockets w), socket_send sock text) ∧
  m_sequenceNumber (stamped message s) = ss_outgoingSequenceNumber s.
Proof.
  intros Hs Hsize Hc Hk Hn Hpos. unfold FixSession_send. fold (stamped message s).
  rewrite (toString_fields _ Hs Hsize). cbn [mbind outcome_bind]. rewrite Hc.
  unfold socket_at. rewrite Hk. cbn [mbind outcome_bind]. rewrite int_add_Ok by mlia. cbn [mbind outcome_bind]. split; [done|].
  unfold stamped. destruct (isAdminMessage message); simpl; apply to_size_small; mlia.
Qed.

(** Admin messages a session builds are sendable when its own data are. *)
Record session_ok (COMPID : str) (s : FixSession) : Prop := {
  so_compid : clean COMPID;
  so_version : 1 <= ss_fixVersion s <= 8;
  so_target : clean (ss_targetCompId s);
  so_time : clean (utc_datetime (ss_timePrecision s));
  so_number : 0 <= ss_outgoingSequenceNumber s < INT_MAX
}.

(** The body of a message that adds [tags] to a new base message. *)
Lemma stamped_sendable COMPID type body s : session_ok COMPID s → 1 <= type <= 13 →
  (∀ k v, body !! k = Some v → field_ok (k, v) ∧ k ∉ header_tags) →
  sendable (stamped (setBody body (getBaseMessage COMPID type (FixMessage_new junk_type) s)) s).
Proof.
  intros [C1 C2 C3 C4 C5] Ht Hb. unfold stamped.
  assert (to_size (ss_outgoingSequenceNumber s) = ss_outgoingSequenceNumber s) as En by (apply to_size_small; mlia).
  assert (∀ k v, <[FIX_TAG_TRANSACTION_TIME := utc_datetime (ss_timePrecision s)]> body !! k = Some v →
    field_ok (k, v) ∧ k ∉ header_tags) as Hb'.
  { intros k v Hk. rewrite lookup_insert in Hk. case_decide as Hd; [|by apply Hb]. simplify_eq.
    split; [split; [reflexivity|done]|]. apply (bool_decide_unpack _). vm_compute. exact I. }
  case_match; split; simpl; rewrite ?En; try done; lia.
Qed.
End properties.

(** Sending numbers the messages: the text handed to the socket reads back as the
    message with the session's outgoing number and the current time, and the next
    message gets the next number. *)
Theorem send_numbers `{!Platform} `{!BodyOrder} (junk : Z) (message : FixMessage) (s : FixSession) (w : World) (id sock : Z)
    (st : SOCKET_STATE) (Hsendable : sendable (stamped message s)) (Hsize : wire_size_ok (stamped message s))
    (Hconnection : ss_tcpConnection s = Some id) (Hsock : w_sockets w !! id = Some (mkSocket sock st)) (Hnumber : 0 <= ss_outgoingSequenceNumber s < INT_MAX) :
  ∃ text message' s' w' ret received,
    FixSession_send message s w = Ok (message', s', w', ret) ∧
    w_sent w' = w_sent w ++ [(sock, text)] ∧ w_files w' = w_files w ∧
    ss_outgoingSequenceNumber s' = ss_outgoingSequenceNumber s + 1 ∧
    ss_incomingSequenceNumber s' = ss_incomingSequenceNumber s ∧
    FixParser_parseFromBuffer (FixMessage_new junk) text (length text) = Ok received ∧
    m_sequenceNumber received = ss_outgoingSequenceNumber s ∧
    m_messageType received = m_messageType message ∧
    m_sendingTime received = utc_datetime (ss_timePrecision s) ∧
    m_targetCompId received = m_targetCompId message.
Proof.
  destruct (send_spec message s w id sock st Hsendable Hsize Hconnection Hsock) as [E Hn]; [lia|lia|].
  pose proof (parseFromBuffer_fields (wire_fields (stamped message s)) (FixMessage_new junk) [] (wire_fields_ok _ Hsendable)) as Hp.
  rewrite app_nil_r, (wire_roundtrip junk _ Hsendable) in Hp.
  eexists _, _, _, _, _, _. split; [exact E|]. simpl. split; [done|]. split; [done|]. split; [done|]. split; [done|].
  split; [exact Hp|]. simpl. split; [done|]. unfold stamped. by destruct (isAdminMessage message).
Qed.

(** The session after a logon that restores the numbers [out] and [inc]. *)
Definition logged_on (message : FixMessage) (heartBeat encryption out inc : Z) (s : FixSession) : FixSession :=
  with_settings (m_fixVersion message) heartBeat encryption (m_senderCompId message) (with_numbers out inc s).

(** The same when they are those of [previous]. *)
Definition resumed (message : FixMessage) (heartBeat encryption : Z) (previous s : FixSession) : FixSession :=
  logged_on message heartBeat encryption (ss_outgoingSequenceNumber previous) (ss_incomingSequenceNumber previous) s.

(** A logon message that session [s] can answer on its connection, with the numbers that
    the store has for the client. *)
Record logon_ok `{!Platform} `{!BodyOrder} (COMPID : str) (message : FixMessage) (s : FixSession) (w : World)
    (id sock heartBeat encryption out inc : Z) : Prop := {
  lg_connection : ss_tcpConnection s = Some id;
  lg_sock : ∃ st, w_sockets w !! id = Some (mkSocket sock st);
  lg_store : loadFromSequenceStore COMPID (m_senderCompId message) (w_files w) = Ok (out, inc);
  lg_out : 0 <= out < INT_MAX;
  lg_in : 0 <= inc < INT_MAX;
  lg_heart : m_bodyTagValuePairs message !! FIX_TAG_HEARBEAT_INTERVAL = Some (to_string heartBeat);
  lg_encrypt : m_bodyTagValuePairs message !! FIX_TAG_ENCRYPT_METHOD = Some (to_string encryption);
  lg_ints : in_int heartBeat = true ∧ in_int encryption = true;
  lg_version : 1 <= m_fixVersion message <= 8;
  lg_clean : clean COMPID ∧ clean (m_senderCompId message) ∧ clean (utc_datetime (ss_timePrecision s));
  lg_size : let s1 := logged_on message heartBeat encryption out inc s in
            wire_size_ok (stamped (getLogonMessage COMPID (FixMessage_new junk_type) s1) s1)
}.

(** The answer, and the session and the world after it. *)
Lemma handleLogon_spec `{!Platform} `{!BodyOrder} COMPID message s w id sock heartBeat encryption out inc :
  logon_ok COMPID message s w id sock heartBeat encryption out inc →
  let s1 := logged_on message heartBeat encryption out inc s in
  let response := stamped (getLogonMessage COMPID (FixMessage_new junk_type) s1) s1 in
  handleLogonMessage COMPID message s w =
    Ok (message, with_times (ss_lastReceivedTime s) unix_time (with_numbers (out + 1) inc s1),
        mkWorld (w_files w) (w_sent w ++ [(sock, fields_text (wire_fields response))]) (w_closed w) (w_sockets w)) ∧
  m_sequenceNumber response = out.
Proof.
  intros [Hc [st Hsock] Hstore Hout Hin Hheart Hencrypt [Hi1 Hi2] Hversion (Hc1 & Hc2 & Hc3) Hsize] s1 response.
  assert (sendable response) as Hsend.
  { unfold response. change (getLogonMessage COMPID (FixMessage_new junk_type) s1) with
      (setBody (<[FIX_TAG_ENCRYPT_METHOD := to_string encryption]> (<[FIX_TAG_HEARBEAT_INTERVAL := to_string heartBeat]> ∅))
        (getBaseMessage COMPID LOGON (FixMessage_new junk_type) s1)).
    apply stamped_sendable; [by split|unfold LOGON; lia|]. intros k v Hk.
    rewrite lookup_insert in Hk. case_decide; simplify_eq.
    { split; [split; [reflexivity|apply clean_to_string]|]. apply (bool_decide_unpack _). vm_compute. exact I. }
    rewrite lookup_insert in Hk. case_decide; simplify_eq.
    { split; [split; [reflexivity|apply clean_to_string]|]. apply (bool_decide_unpack _). vm_compute. exact I. } }
  destruct (send_spec _ s1 w id sock st Hsend Hsize) as [E Hn]; [done|done|simpl; lia|simpl; lia|].
  split; [|exact Hn].
  unfold handleLogonMessage, restoreSequenceNumbersFromStore. simpl ss_targetCompId. rewrite Hstore. cbn [mbind outcome_bind].
  rewrite (getTagValueAsInt_present _ heartBeat) by done. cbn [mbind outcome_bind].
  rewrite (getTagValueAsInt_present _ encryption) by done. cbn [mbind outcome_bind].
  change (with_settings _ _ encryption _ _) with s1. rewrite E. reflexivity.
Qed.

(** C32: A session that logs on resumes where the last one of the same client ended: it
    answers with a logon message numbered with the saved outgoing number, which asks for
    the heartbeat of the request, and accepts the number after the saved incoming one. *)
Theorem logon_resumes `{!Platform} `{!BodyOrder} (COMPID : str) (previous s : FixSession) (message : FixMessage)
    (w : World) (id sock heartBeat encryption : Z) (st : SOCKET_STATE)
    (Hconnection : ss_tcpConnection s = Some id) (Hsock : w_sockets w !! id = Some (mkSocket sock st))
    (Hsame : ss_targetCompId previous = m_senderCompId message)
    (Hout : 0 <= ss_outgoingSequenceNumber previous < INT_MAX)
    (Hin : 0 <= ss_incomingSequenceNumber previous < INT_MAX)
    (Hheart : m_bodyTagValuePairs message !! FIX_TAG_HEARBEAT_INTERVAL = Some (to_string heartBeat))
    (Hencrypt : m_bodyTagValuePairs message !! FIX_TAG_ENCRYPT_METHOD = Some (to_string encryption))
    (Hints : in_int heartBeat = true ∧ in_int encryption = true)
    (Hversion : 1 <= m_fixVersion message <= 8)
    (Hclean : clean COMPID ∧ clean (m_senderCompId message) ∧ clean (utc_datetime (ss_timePrecision s)))
    (Hsize : let s1 := resumed message heartBeat encryption previous s in
             wire_size_ok (stamped (getLogonMessage COMPID (FixMessage_new junk_type) s1) s1)) :
  ∃ s' w' response,
    handleLogonMessage COMPID message s (saveSequenceNumbersToStore COMPID previous w) = Ok (message, s', w') ∧
    w_sent w' = w_sent w ++ [(sock, fields_text (wire_fields response))] ∧
    m_messageType response = LOGON ∧ m_targetCompId response = m_senderCompId message ∧
    m_sequenceNumber response = ss_outgoingSequenceNumber previous ∧
    m_bodyTagValuePairs response !! FIX_TAG_HEARBEAT_INTERVAL = Some (to_string heartBeat) ∧
    ss_outgoingSequenceNumber s' = ss_outgoingSequenceNumber previous + 1 ∧
    validateSequenceNumber (ss_incomingSequenceNumber previous + 1) s' = Ok true.
Proof.
  assert (ss_targetCompId (resumed message heartBeat encryption previous s) = m_senderCompId message) as Ht by done.
  destruct (handleLogon_spec COMPID message s (saveSequenceNumbersToStore COMPID previous w) id sock heartBeat encryption
    (ss_outgoingSequenceNumber previous) (ss_incomingSequenceNumber previous)) as [E Hn].
  { split; try done; [by exists st|]. simpl w_files. rewrite <- Hsame. apply store_roundtrip; mlia. }
  eexists _, _, _. split; [exact E|]. simpl. do 3 (split; [done|]). split; [exact Hn|]. do 2 (split; [done|]).
  unfold validateSequenceNumber. simpl. rewrite int_add_Ok by mlia. simpl. by rewrite bool_decide_true.
Qed.

(** The rejection of a message with a missing tag does not refer to it: its
    reference number is empty, whatever the message was. *)
Theorem admin_rejection_has_no_reference (COMPID : str) (junk : Z) (s : FixSession) :
  let m := getAdminRejectionMessage COMPID (FixMessage_new junk) s in
  m_messageType m = ADMIN_REJECT ∧
  m_bodyTagValuePairs m !! FIX_TAG_REF_SEQ_NUM = Some [] ∧ m_bodyTagValuePairs m !! FIX_TAG_SEQUENCE_NUMBER = Some [].
Proof. by split_and!. Qed.

(** ** Required tags *)

Lemma run_checks_spec message checks missing :
  (run_checks message checks missing).1 = true ↔
  Forall (λ c, match c with CheckTag tag => hasTag tag message = true | CheckThat b => b = true end) checks.
Proof.
  induction checks as [|[tag|b] checks IH]; simpl; [done| |]; rewrite Forall_cons.
  - destruct (hasTag tag message); [rewrite IH; tauto|]. split; [done|by intros [? _]].
  - destruct b; [rewrite IH; tauto|]. split; [done|by intros [? _]].
Qed.

Lemma run_checks_missing message checks missing b tag :
  run_checks message checks missing = (b, tag) → tag ≠ missing → b = false ∧ hasTag tag message = false.
Proof.
  induction checks as [|[t|c] checks IH]; simpl; intros H Hne; [by simplify_eq| |].
  - destruct (hasTag t message) eqn:E; [by apply IH|]. by simplify_eq.
  - destruct c; [by apply IH|by simplify_eq].
Qed.

Definition required_tags (type : Z) : list Z :=
  [FIX_TAG_BODY_LENGTH; FIX_TAG_BODY_CHECKSUM] ++
  (if type =? LOGON then [FIX_TAG_HEARBEAT_INTERVAL; FIX_TAG_ENCRYPT_METHOD]
   else if type =? NEW_ORDER then
     [FIX_TAG_SYMBOL; FIX_TAG_CLIENT_ORDER_ID; FIX_TAG_ORDER_QUANTITY; FIX_TAG_ORDER_PRICE; FIX_TAG_ORDER_SIDE;
      FIX_TAG_ORDER_TYPE; FIX_TAG_TRANSACTION_TIME]
   else if type =? CANCEL then [FIX_TAG_CLIENT_ORDER_ID; FIX_TAG_ORIG_CLIENT_ORDER_ID]
   else []).

Definition header_complete (m : FixMessage) : Prop :=
  m_fixVersion m ≠ FIX_VERSION_NONE ∧ m_messageType m ≠ MESSAGE_TYPE_NONE ∧ m_sequenceNumber m ≠ 0 ∧
  m_senderCompId m ≠ [] ∧ m_targetCompId m ≠ [] ∧
  ((m_messageType m = NEW_ORDER ∨ m_messageType m = CANCEL) → m_sendingTime m ≠ []).

Lemma nonempty_spec s : nonempty s = true ↔ s ≠ [].
Proof. unfold nonempty. rewrite bool_decide_eq_true. destruct s; simpl; split; done. Qed.

(** A message passes the validation exactly when its header is complete and it has
    every tag its type requires; a tag reported as missing is missing. *)
Theorem validateRequiredTags_complete (message : FixMessage) (missingTag : Z) :
  ((validateRequiredTags message missingTag).1 = true ↔
   header_complete message ∧ Forall (λ tag, hasTag tag message = true) (required_tags (m_messageType message))) ∧
  ∀ b tag, validateRequiredTags message missingTag = (b, tag) → tag ≠ missingTag →
    b = false ∧ hasTag tag message = false.
Proof.
  split; [|intros b tag; apply run_checks_missing].
  unfold validateRequiredTags. rewrite run_checks_spec. unfold required_tags, header_complete.
  destruct (Z.eqb_spec (m_messageType message) LOGON) as [->|H1];
  [|destruct (Z.eqb_spec (m_messageType message) NEW_ORDER) as [->|H2];
    [|destruct (Z.eqb_spec (m_messageType message) CANCEL) as [->|H3]]];
    cbn [app]; rewrite !Forall_cons, Forall_nil, ?nonempty_spec, ?negb_true_iff, ?Z.eqb_neq;
    unfold LOGON, NEW_ORDER, CANCEL, FIX_VERSION_NONE, MESSAGE_TYPE_NONE in *; intuition (congruence || lia || auto).
Qed.

(** ** Witnesses *)

Definition demo_Platform : Platform := {|
  junk_type := 77;
  utc_datetime _ := $"20160101-10:20:30.123456";
  unix_time := 1451643630;
  heap_limit := 2 ^ 30;
  socket_send _ text := Z.of_nat (length text)
|}.
#[local] Existing Instance demo_Platform.
#[local] Existing Instance demo_BodyOrder.

Definition demo_session : FixSession :=
  with_settings FIX_4_2 30 0 ($"CLIENT1")
    (with_numbers 17 5 (FixSession_initialise 9 MICROSECONDS [] FixSession_new)).

Definition demo_world : World := mkWorld ∅ [] [] {[ 9 := mkSocket 31 SOCKET_CONNECTED ]}.

Lemma demo_session_ok : session_ok ($"EXECUTOR") demo_session.
Proof. split; simpl; try (apply (bool_decide_unpack _); vm_compute; exact I); unfold FIX_4_2; mlia. Qed.

Definition demo_heartbeat : FixMessage := getHeartBeatMessage ($"EXECUTOR") (FixMessage_new 77) demo_session.

Lemma send_numbers_witness :
  ∃ text message' s' w' ret received,
    FixSession_send demo_heartbeat demo_session demo_world = Ok (message', s', w', ret) ∧
    w_sent w' = w_sent demo_world ++ [(31, text)] ∧ w_files w' = w_files demo_world ∧
    ss_outgoingSequenceNumber s' = ss_outgoingSequenceNumber demo_session + 1 ∧
    ss_incomingSequenceNumber s' = ss_incomingSequenceNumber demo_session ∧
    FixParser_parseFromBuffer (FixMessage_new 0) text (length text) = Ok received ∧
    m_sequenceNumber received = ss_outgoingSequenceNumber demo_session ∧
    m_messageType received = m_messageType demo_heartbeat ∧
    m_sendingTime received = utc_datetime (ss_timePrecision demo_session) ∧
    m_targetCompId received = m_targetCompId demo_heartbeat.
Proof.
  refine (send_numbers 0 demo_heartbeat demo_session demo_world 9 31 SOCKET_CONNECTED _ _ eq_refl eq_refl _); [| |simpl; mlia].
  - change demo_heartbeat with (setBody ∅ (getBaseMessage ($"EXECUTOR") HEARTBEAT (FixMessage_new junk_type) demo_session)).
    apply stamped_sendable; [apply demo_session_ok|unfold HEARTBEAT; lia|]. intros k v Hk. by rewrite lookup_empty in Hk.
  - vm_compute. discriminate.
Defined.

Definition demo_logon : FixMessage :=
  setTag FIX_TAG_HEARBEAT_INTERVAL (to_string 30) (setTag FIX_TAG_ENCRYPT_METHOD (to_string 0)
    (mkFixMessage FIX_4_2 6 LOGON ($"CLIENT1") ($"EXECUTOR") ($"20160101-10:20:29") ∅)).

Lemma logon_resumes_witness : ∃ s' w' response,
  handleLogonMessage ($"EXECUTOR") demo_logon (FixSession_initialise 9 MICROSECONDS [] FixSession_new)
    (saveSequenceNumbersToStore ($"EXECUTOR") demo_session demo_world) = Ok (demo_logon, s', w') ∧
  w_sent w' = [] ++ [(31, fields_text (wire_fields response))] ∧
  m_messageType response = LOGON ∧ m_targetCompId response = $"CLIENT1" ∧ m_sequenceNumber response = 17 ∧
  m_bodyTagValuePairs response !! FIX_TAG_HEARBEAT_INTERVAL = Some (to_string 30) ∧
  ss_outgoingSequenceNumber s' = 17 + 1 ∧ validateSequenceNumber (5 + 1) s' = Ok true.
Proof.
  apply (logon_resumes ($"EXECUTOR") demo_session (FixSession_initialise 9 MICROSECONDS [] FixSession_new) demo_logon
    demo_world 9 31 30 0 SOCKET_CONNECTED); try reflexivity; try (simpl; mlia).
  - by split.
  - split_and!; apply (bool_decide_unpack _); vm_compute; exact I.
  - vm_compute. discriminate.
Defined.
