(* ===== verification/FixSessionReceive.v ===== *)
(** * Receiving a message without a cache

    [FixSession::receive] reads 20 bytes, finds the body length and the start of the
    body in them and computes from these how many more bytes to read. The file proves
    that this reads exactly one message, on the versions whose header fits, and shows
    what happens when the 20 bytes do not contain the message type. *)
From Stdlib Require Import ZArith Lia Ascii String SpecFloat.
From stdpp Require Import base decidable sets list gmap strings.
From S2P Require Import Prelude.
From S2P Require Import MachineInt.
From S2P Require Import StringUtility.
From S2P Require Import Double.
From S2P Require Import FixConstants.
From S2P Require Import FixMessage.
From S2P Require Import FixParser.
From S2P Require Import FixReceiveCache.
From S2P Require Import FixSequenceStore.
From S2P Require Import Network.
From S2P Require Import FixSession.
Local Open Scope Z_scope.

(** A socket that has [data] to read and delivers all that is asked for. *)
Definition stream_recv (data : str) (n : nat) (len : Z) : recv_result :=
  let available := match n with O => data | S _ => drop 20 data end in
  let chunk := take (Z.to_nat len) available in
  (Z.of_nat (length chunk), chunk).

(** ** The scan of the header *)

Lemma two_chars_no c d i buffer c' : vec_at i buffer = Ok c' → c' ≠ c → two_chars c d i buffer = Ok false.
Proof. intros E H. unfold two_chars. rewrite E. simpl. by rewrite bool_decide_false. Qed.

Lemma two_chars_not_next c d i buffer d' : vec_at i buffer = Ok c → vec_at (i + 1) buffer = Ok d' → d' ≠ d →
  two_chars c d i buffer = Ok false.
Proof. intros E E' H. unfold two_chars. rewrite E. simpl. rewrite bool_decide_true, E' by done. simpl. by rewrite bool_decide_false. Qed.

Lemma two_chars_yes c d i buffer : vec_at i buffer = Ok c → vec_at (i + 1) buffer = Ok d → two_chars c d i buffer = Ok true.
Proof. intros E E'. unfold two_chars. rewrite E. simpl. rewrite bool_decide_true, E' by done. simpl. by rewrite bool_decide_true. Qed.

Lemma scan_skip f i size buffer n : i < size →
  two_chars "9"%char FIX_EQUALS i buffer = Ok false → two_chars "3"%char "5"%char i buffer = Ok false →
  scan_header (S f) i size buffer n = scan_header f (i + 1) size buffer n.
Proof. intros Hi H9 H35. simpl. destruct (Z.ltb_spec i size); [|lia]. rewrite H9. simpl. by rewrite H35. Qed.

Lemma scan_found f i size buffer n : i < size →
  two_chars "9"%char FIX_EQUALS i buffer = Ok false → two_chars "3"%char "5"%char i buffer = Ok true →
  scan_header (S f) i size buffer n = Ok (n, i).
Proof. intros Hi H9 H35. simpl. destruct (Z.ltb_spec i size); [|lia]. rewrite H9. simpl. by rewrite H35. Qed.

Lemma scan_nine f i size buffer n j text N : i < size →
  two_chars "9"%char FIX_EQUALS i buffer = Ok true →
  scan_body_length (S (Z.to_nat size)) (i + 2) size buffer [] = Ok (Some (j, text)) → stoi text = Ok N →
  two_chars "3"%char "5"%char j buffer = Ok false →
  scan_header (S f) i size buffer n = scan_header f (j + 1) size buffer (to_size N).
Proof.
  intros Hi H9 Hs HN H35. cbn [scan_header]. destruct (Z.ltb_spec i size); [|lia].
  rewrite H9. cbn [mbind outcome_bind]. rewrite Hs. cbn [mbind outcome_bind]. rewrite HN. cbn [mbind outcome_bind].
  rewrite H35. done.
Qed.

Lemma at_pos (pre post buffer : str) c i : buffer = pre ++ c :: post → i = Z.of_nat (length pre) → vec_at i buffer = Ok c.
Proof. apply vec_at_middle. Qed.

Lemma scan_length t : ∀ f j size pre post buffer acc, buffer = pre ++ t ++ FIX_DELIMITER :: post →
  j = Z.of_nat (length pre) → FIX_DELIMITER ∉ t → j + Z.of_nat (length t) < size → (length t < f)%nat →
  scan_body_length f j size buffer acc = Ok (Some (j + Z.of_nat (length t), acc ++ t)).
Proof.
  induction t as [|c t IH]; intros f j size pre post buffer acc E Hj Hd Hs Hf;
    (destruct f as [|f]; [simpl in Hf; lia|]); simpl scan_body_length.
  - simpl in *. destruct (Z.ltb_spec j size); [|lia]. rewrite (at_pos pre post _ _ _ E Hj). simpl.
    by rewrite Z.add_0_r, app_nil_r.
  - apply not_elem_of_cons in Hd as [Hc Hd]. simpl length in *.
    destruct (Z.ltb_spec j size); [|lia]. rewrite (at_pos pre _ _ _ _ E Hj). simpl.
    rewrite bool_decide_false by congruence.
    rewrite (IH f (j + 1) size (pre ++ [c]) post); [|by rewrite E, <- app_assoc|rewrite length_app; simpl; lia|done|lia|lia].
    rewrite <- app_assoc. simpl. do 3 f_equal. lia.
Qed.

Lemma numeral_short N : 0 <= N <= 9999 → (length (to_string N) <= 4)%nat.
Proof. intros HN. unfold to_string. destruct (Z.ltb_spec N 0); [lia|]. apply dec_length_le; simpl; lia. Qed.

(** The text of a message of a seven-character version up to its message type. *)
Lemma scan_wire version N rest f size :
  length version = 7%nat → version ∈ FIX_VERSION_STRINGS → 0 <= N <= 9999 → (20 <= f)%nat → 20 <= size →
  let buffer := field 8 version ++ field 9 (to_string N) ++ ($"35=") ++ rest in
  scan_header f 0 size buffer 0 = Ok (N, 13 + Z.of_nat (length (to_string N))).
Proof.
  intros Hlen Hin HN Hf Hsize buffer.
  pose proof (numeral_short N HN) as HlN.
  assert (∃ c, version = ($"FIX.") ++ [c; "."%char] ++ [default "0"%char (last version)] ∧ c ≠ "9"%char ∧ c ≠ "3"%char ∧
    default "0"%char (last version) ≠ "9"%char) as (c & Ev & Hc9 & Hc3 & Hd9).
  { repeat (apply elem_of_cons in Hin as [->|Hin]; [first [discriminate Hlen|eexists; split; [reflexivity|split_and!; discriminate]]|]).
    by apply elem_of_nil in Hin. }
  set (d := default "0"%char (last version)) in *.
  assert (Eb : buffer = ["8"%char; "="%char; "F"%char; "I"%char; "X"%char; "."%char; c; "."%char; d; FIX_DELIMITER;
                         "9"%char; "="%char] ++ to_string N ++ FIX_DELIMITER :: "3"%char :: "5"%char :: "="%char :: rest).
  { unfold buffer, field. rewrite Ev. change (to_string 8) with ["8"%char]. change (to_string 9) with ["9"%char].
    simpl. rewrite <- app_assoc. reflexivity. }
  clearbody buffer. subst buffer.
  do 20 (destruct f as [|f]; [lia|]). 
  do 2 (rewrite scan_skip; [simpl Z.add|lia|by eapply two_chars_no|by eapply two_chars_no]).
  do 6 (rewrite scan_skip; [simpl Z.add|lia|by eapply two_chars_no|by eapply two_chars_no]).
  rewrite scan_skip; [simpl Z.add|lia|by eapply two_chars_no|].
  2:{ destruct (decide (d = "3"%char)) as [E3|E3]; [rewrite E3; by eapply two_chars_not_next|by eapply two_chars_no]. }
  rewrite scan_skip; [simpl Z.add|lia|by eapply two_chars_no|by eapply two_chars_no].
  set (pre := ["8"%char; "="%char; "F"%char; "I"%char; "X"%char; "."%char; c; "."%char; d; FIX_DELIMITER; "9"%char; "="%char]).
  set (buffer := pre ++ to_string N ++ _).
  assert (Hlast : ∀ k x tail, buffer = (pre ++ to_string N ++ k) ++ x :: tail →
    vec_at (12 + Z.of_nat (length (to_string N)) + Z.of_nat (length k)) buffer = Ok x).
  { intros k x tl E. eapply at_pos; [exact E|]. rewrite !length_app. simpl. lia. }
  pose proof (Hlast [] FIX_DELIMITER ("3"%char :: "5"%char :: "="%char :: rest) ltac:(by rewrite app_nil_r, <- app_assoc)) as L0.
  pose proof (Hlast [FIX_DELIMITER] "3"%char ("5"%char :: "="%char :: rest) ltac:(by rewrite <- !app_assoc)) as L1.
  pose proof (Hlast [FIX_DELIMITER; "3"%char] "5"%char ("="%char :: rest) ltac:(by rewrite <- !app_assoc)) as L2.
  simpl length in L0, L1, L2. rewrite Z.add_0_r in L0.
  rewrite (scan_nine _ 10 size buffer 0 (12 + Z.of_nat (length (to_string N))) (to_string N) N);
    [|lia|by eapply two_chars_yes| | |by eapply two_chars_no].
  - rewrite to_size_small by mlia.
    rewrite scan_found; [f_equal; f_equal; lia|lia|eapply two_chars_no; [exact L1|discriminate]|eapply two_chars_yes].
    + exact L1.
    + rewrite <- L2. f_equal. lia.
  - eapply (scan_length (to_string N) _ 12 size pre); [reflexivity|done|apply clean_to_string|lia|lia].
  - apply stoi_to_string_nil. mlia.
Qed.

(** The same in a buffer that holds the first 20 characters only. *)
Lemma scan_first version N rest stack f :
  length version = 7%nat → version ∈ FIX_VERSION_STRINGS → 0 <= N <= 9999 → (20 <= f)%nat →
  let text := field 8 version ++ field 9 (to_string N) ++ ($"35=") ++ rest in
  scan_header f 0 (Z.of_nat 20) (take 20 text ++ drop 20 stack) 0 = Ok (N, 13 + Z.of_nat (length (to_string N))).
Proof.
  intros Hlen Hin HN Hf text. pose proof (numeral_short N HN) as HlN.
  set (head := field 8 version ++ field 9 (to_string N) ++ ($"35=")).
  assert (length head <= 20)%nat as Hhead.
  { unfold head. rewrite !length_app. pose proof (field_length 8 version) as F1.
    pose proof (field_length 9 (to_string N)) as F2. change (length (to_string 8)) with 1%nat in F1.
    change (length (to_string 9)) with 1%nat in F2. simpl length in *. lia. }
  assert (take 20 text ++ drop 20 stack = field 8 version ++ field 9 (to_string N) ++ ($"35=") ++
            (take (20 - length head) rest ++ drop 20 stack)) as ->.
  { replace text with (head ++ rest) by (unfold text, head; by rewrite <- !app_assoc).
    rewrite take_app_ge by done. unfold head. by rewrite <- !app_assoc. }
  by apply scan_wire.
Qed.

(** The rest of the message that [receive] asks for. *)
Lemma remaining_bytes N k : 0 <= N <= 9999 → 0 <= k <= 4 →
  size_add (size_sub N (size_sub (Z.of_nat 20) (13 + k))) trailerSize = N + k.
Proof.
  intros HN Hk. unfold size_add, size_sub, trailerSize. rewrite (to_size_small (Z.of_nat 20 - _)) by mlia.
  unfold to_size. rewrite Zplus_mod_idemp_l. rewrite Z.mod_small by (unfold SIZE_MOD; lia). lia.
Qed.

(** ** Only the received part of the first buffer is read *)

Lemma multiple_loop_prefix fuel : ∀ i iterations sw b1 b1' b2 len2 s,
  (sw = false → ∀ j, i <= j < iterations → vec_at j b1 = vec_at j b1') →
  multiple_loop fuel i iterations sw b1 b2 len2 s = multiple_loop fuel i iterations sw b1' b2 len2 s.
Proof.
  induction fuel as [|fuel IH]; intros i iterations sw b1 b1' b2 len2 s H; [done|]. simpl.
  destruct (Z.ltb_spec i iterations); [|done].
  assert (vec_at i (if sw then b2 else b1) = vec_at i (if sw then b2 else b1')) as ->
    by (destruct sw; [done|apply H; [done|lia]]).
  destruct (vec_at i _) as [c| | |]; simpl; [|done..].
  destruct (parse_char c s) as [s'| | |]; simpl; [|done..].
  destruct (i =? iterations - 1).
  - destruct sw; [done|]. by apply IH.
  - apply IH. intros Hsw j Hj. apply H; [done|lia].
Qed.

Lemma parse_received m b1 junk b2 n : b1 ≠ [] → length b1 = n →
  FixParser_parseFromMultipleBuffers m (b1 ++ junk) n b2 (length b2) =
  FixParser_parseFromBuffer m (b1 ++ b2) (length (b1 ++ b2)).
Proof.
  intros Hne <-. rewrite <- parseFromMultipleBuffers_app by done. unfold FixParser_parseFromMultipleBuffers. f_equal.
  apply multiple_loop_prefix. intros _ j Hj. unfold vec_at. destruct (Z.ltb_spec j 0); [done|].
  by rewrite lookup_app_l by lia.
Qed.

(** ** A whole message *)

Section exact.
Context `{!Platform} `{!BodyOrder}.

Lemma wire_text_shape m : sendable m → ascii7 (text_before_checksum (version_string m) (type_string m) m) →
  let N := Z.of_nat (length (body_text (type_string m) m)) in
  ∃ rest, fields_text (wire_fields m) =
    field 8 (version_string m) ++ field 9 (to_string N) ++ ($"35=") ++ rest ∧
    (20 <= N) ∧
    Z.of_nat (length (fields_text (wire_fields m))) =
      Z.of_nat (length (field 8 (version_string m))) + Z.of_nat (length (field 9 (to_string N))) + N + 7.
Proof.
  intros Hs Hascii N. pose proof (text_before_checksum_body (version_string m) (type_string m) m) as Et.
  assert (fields_text (wire_fields m) = text_before_checksum (version_string m) (type_string m) m ++ field 10 (checksum_value m)) as E.
  { unfold text_before_checksum, wire_fields, body_length_value.
    rewrite !fields_text_cons, !fields_text_app, fields_text_cons. change (fields_text []) with (@nil ascii).
    by rewrite app_nil_r, <- !app_assoc. }
  assert (length (checksum_value m) = 3%nat) as Hc.
  { unfold checksum_value. rewrite total_chars_ascii by done.
    pose proof (byte_sum_nonneg (text_before_checksum (version_string m) (type_string m) m)).
    rewrite Z.rem_mod_nonneg by lia. apply (checksum_digits (_ mod 256)). by apply Z.mod_pos_bound. }
  assert (∃ tail, body_text (type_string m) m = ($"35=") ++ tail ∧ 20 <= N) as (tail & Eb & HN).
  { unfold N, body_text, header_fields. cbn [app]. rewrite !fields_text_cons. eexists. split.
    - unfold field at 1. rewrite <- !app_assoc. reflexivity.
    - rewrite !length_app, !Nat2Z.inj_add, !field_length.
      change (length (to_string FIX_TAG_MESSAGE_TYPE)) with 2%nat.
      change (length (to_string FIX_TAG_SEQUENCE_NUMBER)) with 2%nat.
      change (length (to_string FIX_TAG_SENDER_COMPID)) with 2%nat.
      change (length (to_string FIX_TAG_SENDING_TIME)) with 2%nat.
      change (length (to_string FIX_TAG_TARGET_COMPID)) with 2%nat. lia. }
  exists (tail ++ field 10 (checksum_value m)). rewrite E, Et. fold N. split; [by rewrite Eb, <- !app_assoc|].
  split; [done|]. rewrite !length_app, !Nat2Z.inj_add, (field_length 10), Hc.
  change (length (to_string 10)) with 2%nat. fold N. change FIX_TAG_VERSION with 8. change FIX_TAG_BODY_LENGTH with 9. lia.
Qed.
End exact.

(** C30: With a version of seven characters and a body of up to 9999, [receive] reads
    exactly one message from the socket and parses it, whether it fits the stack buffer
    or continues on the heap; what follows in the socket is not touched. *)
Theorem receive_exactly_one_message `{!Platform} `{!BodyOrder} (m message : FixMessage) (s : FixSession)
    (stackBuffer next : str)
    (Hsendable : sendable m) (Hascii : ascii7 (text_before_checksum (version_string m) (type_string m) m))
    (Hversion : length (version_string m) = 7%nat)
    (Hbody : Z.of_nat (length (body_text (type_string m) m)) <= 9999)
    (Hstack : Z.of_nat (length stackBuffer) = stackBufferSize) (Hheap : 20000 <= heap_limit) :
  let text := fields_text (wire_fields m) in
  FixSession_receive (stream_recv (text ++ next)) stackBuffer message s =
    (message' ← message_of_fields message (wire_fields m);
     Ok (message', updateLastReceivedTime s, Z.of_nat (length text))).
Proof.
  intros text. destruct (wire_text_shape m Hsendable Hascii) as (rest & Etext & HN & Hlen). fold text in Etext, Hlen.
  set (N := Z.of_nat (length (body_text (type_string m) m))) in *.
  pose proof (numeral_short N ltac:(lia)) as HlN.
  rewrite !field_length in Hlen. change (length (to_string 8)) with 1%nat in Hlen.
  change (length (to_string 9)) with 1%nat in Hlen. rewrite Hversion in Hlen.
  assert (length (take 20 text) = 20)%nat as H20 by (rewrite length_take; lia).
  assert (Hin : version_string m ∈ FIX_VERSION_STRINGS).
  { destruct (sendable_strings m Hsendable) as (Hv & _). apply vec_at_Ok in Hv as [_ Hv]. by eapply list_elem_of_lookup_2. }
  unfold stackBufferSize in Hstack. unfold FixSession_receive, stream_recv at 1.
  change (Z.to_nat initialBufferSize) with 20%nat.
  rewrite (take_app_le text) by lia. rewrite H20. change (Z.of_nat 20 <=? 0) with false. cbn iota.
  rewrite write_at_front by lia. cbn [mbind outcome_bind]. rewrite H20.
  rewrite Etext at 1. rewrite scan_first by (done || lia). cbn [mbind outcome_bind]. rewrite remaining_bytes by lia.
  set (R := N + Z.of_nat (length (to_string N))).
  assert (HR : R = Z.of_nat (length (drop 20 text))) by (unfold R; rewrite length_drop; lia).
  assert (stream_recv (text ++ next) 1 R = (R, drop 20 text)) as ->.
  { unfold stream_recv. rewrite drop_app_le by lia. rewrite HR, Nat2Z.id, take_app_length. done. }
  cbv beta iota. assert (0 < R <= 20000) as HR' by lia.
  rewrite length_drop in HR. destruct (Z.leb_spec R 0); [lia|].
  assert (size_add R initialBufferSize = R + 20) as -> by (unfold size_add, initialBufferSize; apply to_size_small; mlia).
  assert (Etd : take 20 text ++ drop 20 text = text) by apply take_drop.
  pose proof (parseFromBuffer_fields (wire_fields m) message [] (wire_fields_ok m Hsendable)) as Hparse.
  rewrite app_nil_r in Hparse. fold text in Hparse.
  destruct (Z.ltb_spec stackBufferSize (R + 20)) as [Hbig|Hsmall].
  - destruct (Z.ltb_spec heap_limit R); [lia|]. replace R with (Z.of_nat (length (drop 20 text))) by (rewrite length_drop; lia).
    rewrite !Nat2Z.id, parse_received by (done || (intros E; by rewrite E in H20)). rewrite Etd, Hparse.
    destruct (message_of_fields message (wire_fields m)); cbn [mbind outcome_bind]; [|done..].
    do 2 f_equal. rewrite length_drop. lia.
  - unfold stackBufferSize in Hsmall. pose proof (write_at_back (drop 20 text) (take 20 text) stackBuffer) as Hw.
    rewrite H20 in Hw. rewrite Hw by (rewrite length_drop; lia). cbn [mbind outcome_bind].
    replace (Z.to_nat (Z.of_nat 20 + R)) with (length text) by lia.
    rewrite app_assoc, Etd. unfold FixParser_parseFromBuffer in *. rewrite parse_chars_prefix, Hparse.
    destruct (message_of_fields message (wire_fields m)); cbn [mbind outcome_bind]; [|done..].
    do 2 f_equal. lia.
Qed.

(** ** The first bytes do not tell how long the message is *)

(** The characters [c] and [d] follow one another somewhere in the text. *)
Fixpoint has_pair (c d : ascii) (s : str) : bool :=
  match s with
  | x :: (y :: _) as s' => (bool_decide (x = c) && bool_decide (y = d)) || has_pair c d s'
  | _ => false
  end.

Lemma has_pair_two_chars c d s buffer k : has_pair c d (take (S (S k)) (drop s buffer)) = false →
  (s + S k < length buffer)%nat → two_chars c d (Z.of_nat s) buffer = Ok false.
Proof.
  intros H Hl. destruct (lookup_lt_is_Some_2 buffer s) as [x Ex]; [lia|].
  destruct (lookup_lt_is_Some_2 buffer (S s)) as [y Ey]; [lia|].
  rewrite (drop_S _ x), (drop_S _ y) in H by done. cbn [take has_pair] in H. apply orb_false_iff in H as [H _].
  unfold two_chars. rewrite (vec_at_nat _ _ _ Ex). cbn [mbind outcome_bind].
  case_bool_decide; [|done]. replace (Z.of_nat s + 1) with (Z.of_nat (S s)) by lia.
  rewrite (vec_at_nat _ _ _ Ey). cbn [mbind outcome_bind] in *. cbn [andb] in H. by rewrite H.
Qed.

Lemma has_pair_tail c d x s : has_pair c d (x :: s) = false → has_pair c d s = false.
Proof. destruct s; simpl; [done|]. by intros [_ ?]%orb_false_iff. Qed.

(** Neither pair is in the first [n] characters and the one behind them. *)
Lemma scan_nothing buffer n f s : (S n <= length buffer)%nat → (s <= n)%nat → (n - s < f)%nat →
  has_pair "9"%char FIX_EQUALS (take (S n - s) (drop s buffer)) = false →
  has_pair "3"%char "5"%char (take (S n - s) (drop s buffer)) = false →
  scan_header f (Z.of_nat s) (Z.of_nat n) buffer 0 = Ok (0, 0).
Proof.
  intros Hn. revert s. induction f as [|f IH]; intros s Hs Hf H9 H35; [lia|].
  destruct (decide (s = n)) as [->|Hne]; [simpl; by rewrite Z.ltb_irrefl|].
  destruct (lookup_lt_is_Some_2 buffer s) as [x Ex]; [lia|].
  assert (S n - s = S (S (n - S s)))%nat as E by lia. rewrite E in H9, H35.
  rewrite scan_skip; [|lia|by eapply has_pair_two_chars; [exact H9|lia]|by eapply has_pair_two_chars; [exact H35|lia]].
  replace (Z.of_nat s + 1) with (Z.of_nat (S s)) by lia. rewrite (drop_S _ x) in H9, H35 by done.
  apply IH; [lia|lia|..]; replace (S n - S s)%nat with (S (n - S s)) by lia.
  - by eapply has_pair_tail.
  - by eapply has_pair_tail.
Qed.

(** C38: When the first [recv] gives between 8 and 20 bytes in which neither [9=] nor [35]
    occurs (the scan also looks at the byte of the uninitialised stack behind them), the
    number of bytes still to read wraps around to almost 2^64, the size check on the
    stack buffer passes, and when more bytes arrive than it has room for they overrun it. *)
Theorem receive_overruns_stack `{!Platform} `{!BodyOrder} (recv : nat → Z → recv_result) (message : FixMessage)
    (s : FixSession) (stackBuffer head next : str)
    (Hstack : Z.of_nat (length stackBuffer) = stackBufferSize) (Hhead : 8 <= Z.of_nat (length head) <= initialBufferSize)
    (Hfirst : recv 0%nat initialBufferSize = (Z.of_nat (length head), head))
    (Hsecond : recv 1%nat (SIZE_MOD + trailerSize - Z.of_nat (length head)) = (Z.of_nat (length next), next))
    (Hnext : stackBufferSize < Z.of_nat (length head) + Z.of_nat (length next))
    (Hlength : has_pair "9"%char FIX_EQUALS (head ++ take 1 (drop (length head) stackBuffer)) = false)
    (Htype : has_pair "3"%char "5"%char (head ++ take 1 (drop (length head) stackBuffer)) = false) :
  FixSession_receive recv stackBuffer message s = Undef BufferOverflow.
Proof.
  unfold stackBufferSize, initialBufferSize, trailerSize in *. unfold FixSession_receive, initialBufferSize, trailerSize, stackBufferSize.
  rewrite Hfirst. destruct (Z.leb_spec (Z.of_nat (length head)) 0); [lia|].
  rewrite write_at_front by lia. cbn [mbind outcome_bind]. set (buf := head ++ drop (length head) stackBuffer).
  assert (length buf = 1024)%nat as Hbuf by (unfold buf; rewrite length_app, length_drop; lia).
  assert (take (S (length head)) buf = head ++ take 1 (drop (length head) stackBuffer)) as Etake.
  { unfold buf. rewrite take_app_ge by lia. by replace (S (length head) - length head)%nat with 1%nat by lia. }
  rewrite (scan_nothing buf (length head) _ 0) by (rewrite ?Nat.sub_0_r, ?drop_0, ?Etake; done || lia).
  cbn [mbind outcome_bind].
  assert (size_add (size_sub 0 (size_sub (Z.of_nat (length head)) 0)) 7 = SIZE_MOD + 7 - Z.of_nat (length head)) as ->.
  { unfold size_add, size_sub, to_size. rewrite (Z.mod_small (_ - 0)) by (unfold SIZE_MOD; lia).
    replace (0 - (Z.of_nat (length head) - 0)) with (- Z.of_nat (length head)) by lia.
    rewrite <- (Z.mod_unique (- Z.of_nat (length head)) SIZE_MOD (-1) (SIZE_MOD - Z.of_nat (length head)))
      by (unfold SIZE_MOD; lia). rewrite Z.mod_small by (unfold SIZE_MOD; lia). lia. }
  rewrite Hsecond. assert (size_add (SIZE_MOD + 7 - Z.of_nat (length head)) 20 = 27 - Z.of_nat (length head)) as ->.
  { unfold size_add, to_size. symmetry. apply (Z.mod_unique _ _ 1); unfold SIZE_MOD; lia. }
  destruct (Z.ltb_spec 1024 (27 - Z.of_nat (length head))); [lia|].
  destruct (Z.leb_spec (Z.of_nat (length next)) 0); [lia|].
  unfold write_at. rewrite Hbuf. by destruct (Z.leb_spec (Z.of_nat (length head) + Z.of_nat (length next)) (Z.of_nat 1024)); [lia|].
Qed.

(** ** Witnesses *)

#[local] Existing Instance demo_Platform.
#[local] Existing Instance demo_BodyOrder.

Definition demo_stack : str := replicate 1024 "?"%char.

Lemma receive_exactly_one_message_witness :
  let text := fields_text (wire_fields demo_message_new_order) in
  FixSession_receive (stream_recv (text ++ $"8=FIX")) demo_stack (FixMessage_new 0) demo_session =
    (message' ← message_of_fields (FixMessage_new 0) (wire_fields demo_message_new_order);
     Ok (message', updateLastReceivedTime demo_session, Z.of_nat (length text))).
Proof.
  apply (receive_exactly_one_message demo_message_new_order (FixMessage_new 0) demo_session demo_stack ($"8=FIX"));
    [apply demo_sendable| |reflexivity|vm_compute; discriminate|reflexivity|vm_compute; discriminate].
  apply Forall_forall. intros c Hc. vm_compute in Hc.
  repeat (apply elem_of_cons in Hc as [->|Hc]; [reflexivity|]). by apply elem_of_nil in Hc.
Defined.

(** Eleven bytes of a telnet client, then two thousand. *)
Definition demo_flood (n : nat) (len : Z) : recv_result :=
  let chunk := match n with O => $"hello world" | S _ => replicate 2000 "B"%char end in (Z.of_nat (length chunk), chunk).

Lemma receive_overruns_stack_witness :
  FixSession_receive demo_flood demo_stack (FixMessage_new 0) demo_session = Undef BufferOverflow.
Proof.
  apply (receive_overruns_stack demo_flood (FixMessage_new 0) demo_session demo_stack ($"hello world") (replicate 2000 "B"%char));
    [reflexivity|vm_compute; split; discriminate|reflexivity|reflexivity|vm_compute; reflexivity|vm_compute; reflexivity
    |vm_compute; reflexivity].
Defined.
