(* ===== verification/ServerConfiguration.v ===== *)
(** * [server/server_configuration.h]

    The settings of the server, out of the configuration file, with the enumerations
    and the argument records they fill: log levels ([core/logger/log_levels.h]), thread
    priorities ([core/concurrency/thread_priority.h]), and the arguments of the logger,
    of the thread pool and of the FIX server. *)
From Stdlib Require Import ZArith Lia Ascii String SpecFloat.
From stdpp Require Import base decidable sets list gmap strings.
From S2P Require Import Prelude.
From S2P Require Import MachineInt.
From S2P Require Import StringUtility.
From S2P Require Import DateTime.
From S2P Require Import Double.
From S2P Require Import FixConstants.
From S2P Require Import FixMessage.
From S2P Require Import FixParser.
From S2P Require Import FixReceiveCache.
From S2P Require Import FixSequenceStore.
From S2P Require Import Configuration.
From S2P Require Import Network.
From S2P Require Import FixSession.
Local Open Scope Z_scope.

(** ** [server/server_constants.h] *)

Definition CONFIGURATION_FILE : str := $"liteExchange.ini".
Definition CONFIGURATION_FILE_PROCESS_PRIORITY : str := $"PROCESS_PRIORITY".
Definition CONFIGURATION_FILE_ORDER_ENTRY_MODE : str := $"ORDER_ENTRY_MODE".
Definition CONFIGURATION_FILE_TCP_DISABLE_NAGLE : str := $"TCP_DISABLE_NAGLE".
Definition CONFIGURATION_FILE_TCP_QUICK_ACK : str := $"TCP_QUICK_ACK".
Definition CONFIGURATION_FILE_TCP_PENDING_CONNECTION_SIZE : str := $"TCP_PENDING_CONNECTION_SIZE".
Definition CONFIGURATION_FILE_TCP_SOCKET_OPTION_SEND_BUFFER_SIZE : str := $"TCP_SOCKET_OPTION_SEND_BUFFER_SIZE".
Definition CONFIGURATION_FILE_TCP_SOCKET_OPTION_RECEIVE_BUFFER_SIZE : str := $"TCP_SOCKET_OPTION_RECV_BUFFER_SIZE".
Definition CONFIGURATION_FILE_TCP_POLL_TIMEOUT_MICROSECONDS : str := $"TCP_POLL_TIMEOUT_MICROSECONDS".
Definition CONFIGURATION_FILE_TCP_POLL_MAX_EVENTS : str := $"TCP_POLL_MAX_EVENTS".
Definition CONFIGURATION_FILE_REACTOR_THREAD_CPU_ID : str := $"REACTOR_THREAD_CPU_ID".
Definition CONFIGURATION_FILE_REACTOR_THREAD_PRIORITY : str := $"REACTOR_THREAD_PRIORITY".
Definition CONFIGURATION_FILE_REACTOR_THREAD_STACK_SIZE : str := $"REACTOR_THREAD_STACK_SIZE".
Definition CONFIGURATION_FILE_FIX_SERVER_COMP_ID : str := $"FIX_SERVER_COMP_ID".
Definition CONFIGURATION_FILE_FIX_SERVER_PORT : str := $"FIX_SERVER_PORT".
Definition CONFIGURATION_FILE_FIX_SERVER_ADDRESS : str := $"FIX_SERVER_ADDRESS".
Definition CONFIGURATION_FILE_FIX_SERVER_TIME_PRECISION : str := $"FIX_SERVER_TIME_PRECISION".
Definition CONFIGURATION_FILE_FIX_SERVER_RECEIVE_CACHE_SIZE : str := $"FIX_RECEIVE_CACHE_SIZE".
Definition CONFIGURATION_FILE_FIX_SERVER_SEQUENCE_NUMBER_VALIDATION : str := $"FIX_SERVER_SEQUENCE_NUMBER_VALIDATION".
Definition CONFIGURATION_FILE_OFFLINE_ORDER_ENTRY_FILE : str := $"OFFLINE_ORDER_ENTRY_FILE".
Definition CONFIGURATION_FILE_OFFLINE_ORDER_ENTRY_OUTPUT_FILE : str := $"OFFLINE_ORDER_ENTRY_OUTPUT_FILE".
Definition CONFIGURATION_FILE_CENTRAL_ORDER_BOOK_MULTITHREADED_ORDER_MATCHING : str :=
  $"CENTRAL_ORDER_BOOK_MULTITHREADED_ORDER_MATCHING".
Definition CONFIGURATION_FILE_CENTRAL_ORDER_BOOK_PIN_THREADS_TO_CORES : str :=
  $"CENTRAL_ORDER_BOOK_PIN_THREADS_TO_CORES".
Definition CONFIGURATION_FILE_CENTRAL_ORDER_BOOK_WORK_QUEUE_SIZE_PER_THREAD : str :=
  $"CENTRAL_ORDER_BOOK_WORK_QUEUE_SIZE_PER_THREAD".
Definition CONFIGURATION_FILE_CENTRAL_ORDER_BOOK_THREAD_STACK_SIZE : str := $"CENTRAL_ORDER_BOOK_THREAD_STACK_SIZE".
Definition CONFIGURATION_FILE_CENTRAL_ORDER_BOOK_THREAD_PRIORITY : str := $"CENTRAL_ORDER_BOOK_THREAD_PRIORITY".
Definition CONFIGURATION_FILE_CENTRAL_ORDER_BOOK_HYPER_THREADING : str := $"CENTRAL_ORDER_BOOK_HYPER_THREADING".
Definition CONFIGURATION_FILE_SYMBOL_ARRAY : str := $"SYMBOL".
Definition CONFIGURATION_FILE_OUTGOING_MESSAGE_QUEUE_SIZE_PER_THREAD : str :=
  $"OUTGOING_MESSAGE_QUEUE_SIZE_PER_THREAD".
Definition CONFIGURATION_FILE_OUTGOING_MESSAGE_QUEUE_THREAD_STACK_SIZE : str :=
  $"OUTGOING_MESSAGE_PROCESSOR_THREAD_STACK_SIZE".
Definition CONFIGURATION_FILE_OUTGOING_MESSAGE_QUEUE_THREAD_PRIORITY : str :=
  $"OUTGOING_MESSAGE_PROCESSOR_THREAD_PRIORITY".
Definition CONFIGURATION_FILE_OUTGOING_MESSAGE_QUEUE_THREAD_CPU_ID : str := $"OUTGOING_MESSAGE_PROCESSOR_CPU_ID".
Definition CONFIGURATION_FILE_LOGGER_COPY_TO_STDOUT : str := $"LOGGER_COPY_TO_STDOUT".
Definition CONFIGURATION_FILE_LOGGER_BUFFER_SIZE : str := $"LOGGER_BUFFER_SIZE".
Definition CONFIGURATION_FILE_LOGGER_WRITE_PERIOD_MILLISECONDS : str := $"LOGGER_WRITE_PERIOD_MILLISECONDS".
Definition CONFIGURATION_FILE_LOGGER_ROTATION_SIZE_IN_BYTES : str := $"LOGGER_ROTATION_SIZE_IN_BYTES".
Definition CONFIGURATION_FILE_LOGGER_MEMORY_MAPPED_FILE : str := $"LOGGER_MEMORY_MAPPED_FILE".
Definition CONFIGURATION_FILE_LOGGER_LOG_LEVEL : str := $"LOGGER_LOG_LEVEL".
Definition CONFIGURATION_DEFAULT_PROCESS_PRIORITY : str := $"NORMAL".
Definition CONFIGURATION_DEFAULT_CENTRAL_ORDER_BOOK_MULTITHREADED_ORDER_MATCHING_ENGINE : bool := true.
Definition CONFIGURATION_DEFAULT_CENTRAL_ORDER_BOOK_PIN_THREADS_TO_CORES : bool := true.
Definition CONFIGURATION_DEFAULT_CENTRAL_ORDER_BOOK_HYPER_THREADING : bool := true.
Definition CONFIGURATION_DEFAULT_CENTRAL_ORDER_BOOK_WORK_QUEUE_SIZE_PER_THREAD : Z := 128.
Definition CONFIGURATION_DEFAULT_CENTRAL_ORDER_BOOK_THREAD_PRIORITY : str := $"NORMAL".
Definition CONFIGURATION_DEFAULT_CENTRAL_ORDER_BOOK_THREAD_STACK_SIZE : Z := 0.
Definition CONFIGURATION_DEFAULT_OUTGOING_MESSAGE_QUEUE_SIZE_PER_THREAD : Z := 128.
Definition SERVER_THREAD_SLEEP_DURATION_MICROSECONDS : Z := 1000.

(** ** Log levels *)

Inductive LogLevel : Type := LEVEL_FATAL | LEVEL_ERROR | LEVEL_WARNING | LEVEL_INFO | LEVEL_DEBUG.

#[export] Instance LogLevel_eq_dec : EqDecision LogLevel.
Proof. solve_decision. Defined.

Definition logLevelToString (level : LogLevel) : str :=
  match level with
  | LEVEL_FATAL => $"FATAL"
  | LEVEL_INFO => $"INFO"
  | LEVEL_WARNING => $"WARNING"
  | LEVEL_ERROR => $"ERROR"
  | LEVEL_DEBUG => $"DEBUG"
  end.

Definition logLevelFromString (logLevelString : str) : outcome LogLevel :=
  if compare logLevelString ($"INFO") then Ok LEVEL_INFO
  else if compare logLevelString ($"WARNING") then Ok LEVEL_WARNING
  else if compare logLevelString ($"ERROR") then Ok LEVEL_ERROR
  else if compare logLevelString ($"DEBUG") then Ok LEVEL_DEBUG
  else if compare logLevelString ($"FATAL") then Ok LEVEL_FATAL
  else Throw RuntimeError.

(** ** Thread priorities *)

Inductive ThreadPriority : Type := IDLE | BELOW_NORMAL | NORMAL | ABOVE_NORMAL | CRITICAL.

#[export] Instance ThreadPriority_eq_dec : EqDecision ThreadPriority.
Proof. solve_decision. Defined.

(** The nice values of Linux. *)
Definition NATIVE_THREAD_PRIORITIES : list (ThreadPriority * Z) :=
  [(IDLE, 19); (BELOW_NORMAL, 1); (NORMAL, 0); (ABOVE_NORMAL, -1); (CRITICAL, -20)].

(** [std::string::compare] is sensitive to case. *)
Definition getThreadPriorityFromString (input : str) : outcome ThreadPriority :=
  if bool_decide (input = $"IDLE") then Ok IDLE
  else if bool_decide (input = $"BELOW_NORMAL") then Ok BELOW_NORMAL
  else if bool_decide (input = $"NORMAL") then Ok NORMAL
  else if bool_decide (input = $"ABOVE_NORMAL") then Ok ABOVE_NORMAL
  else if bool_decide (input = $"CRITICAL") then Ok CRITICAL
  else Throw InvalidArgument.

(** ** The arguments of the parts of the server *)

Definition DEFAULT_LOGGER_RING_BUFFER_SIZE : Z := 819200.
Definition DEFAULT_LOGGER_ROTATION_SIZE_IN_BYTES : Z := 10240000.
Definition DEFAULT_LOGGER_WRITE_PERIOD_MILLISECONDS : Z := 1000.

Record LoggerArguments : Type := mkLoggerArguments {
  la_bufferSize : Z;
  la_rotationSizeInBytes : Z;
  la_writePeriodInMilliSeconds : Z;
  la_logLevel : LogLevel;
  la_copyToStdout : bool;
  la_memoryMappedFileName : str
}.

Definition DEFAULT_WORK_QUEUE_SIZE : Z := 128.

Record ThreadPoolArguments : Type := mkThreadPoolArguments {
  tp_pinThreadsToCores : bool;
  tp_hyperThreading : bool;
  tp_workQueueSizePerThread : Z;
  tp_threadStackSize : Z;
  tp_threadPriority : ThreadPriority;
  tp_threadNames : list str
}.
Definition ThreadPoolArguments_new : ThreadPoolArguments :=
  mkThreadPoolArguments true false DEFAULT_WORK_QUEUE_SIZE 0 NORMAL [].

Definition DEFAULT_TCP_PENDING_CONNECTION_SIZE : Z := 32.
Definition DEFAULT_SOCKET_OPTION_SEND_BUFFER_SIZE : Z := 102400.
Definition DEFAULT_SOCKET_OPTION_RECV_BUFFER_SIZE : Z := 102400.
Definition DEFAULT_POLL_TIMEOUT_MICROSECONDS : Z := 1000.
Definition DEFAULT_POLL_MAX_EVENTS : Z := 1024.

Record FixServerConfiguration : Type := mkFixServerConfiguration {
  fc_tcpDisableNagle : bool;
  fc_tcpQuickAck : bool;
  fc_tcpPendingConnectionSize : Z;
  fc_tcpSocketOptionSendBufferSize : Z;
  fc_tcpSocketOptionReceiveBufferSize : Z;
  fc_tcpPollTimeoutMicroseconds : Z;
  fc_tcpPollMaxEvents : Z;
  fc_reactorThreadCpuId : Z;
  fc_reactorThreadStackSize : Z;
  fc_reactorThreadPriority : ThreadPriority;
  fc_fixSequenceNumberValidation : bool;
  fc_fixCompId : str;
  fc_fixAddress : str;
  fc_fixReceiveCacheSize : Z;
  fc_fixPort : Z;
  fc_fixTimePrecision : Subseconds
}.

Record ServerConfiguration : Type := mkServerConfiguration {
  sc_outgoingMessageQueueSizePerThread : Z;
  sc_outgoingMessageThreadCpuId : Z;
  sc_outgoingMessageThreadStackSize : Z;
  sc_outgoingMessageThreadPriority : ThreadPriority;
  sc_orderEntryMode : str;
  sc_processPriority : str;
  sc_offlineOrderEntryFile : str;
  sc_offlineOrderEntryOutputFile : str;
  sc_isMatchingMultithreaded : bool;
  sc_threadPoolArguments : ThreadPoolArguments;
  sc_symbols : list str;
  sc_loggerConfiguration : LoggerArguments;
  sc_fixServerConfiguration : FixServerConfiguration
}.

Section load.
Context `{!EqualRange}.

(** The parts of [load], in its order. *)
Definition load_fix (c : Configuration) : outcome FixServerConfiguration :=
  let nagle := getBoolValue CONFIGURATION_FILE_TCP_DISABLE_NAGLE true c in
  let quickAck := getBoolValue CONFIGURATION_FILE_TCP_QUICK_ACK true c in
  pending ← getIntValue CONFIGURATION_FILE_TCP_PENDING_CONNECTION_SIZE DEFAULT_TCP_PENDING_CONNECTION_SIZE c;
  receive ← getIntValue CONFIGURATION_FILE_TCP_SOCKET_OPTION_RECEIVE_BUFFER_SIZE
              DEFAULT_SOCKET_OPTION_RECV_BUFFER_SIZE c;
  send ← getIntValue CONFIGURATION_FILE_TCP_SOCKET_OPTION_SEND_BUFFER_SIZE DEFAULT_SOCKET_OPTION_SEND_BUFFER_SIZE c;
  timeout ← getIntValue CONFIGURATION_FILE_TCP_POLL_TIMEOUT_MICROSECONDS DEFAULT_POLL_TIMEOUT_MICROSECONDS c;
  maxEvents ← getIntValue CONFIGURATION_FILE_TCP_POLL_MAX_EVENTS DEFAULT_POLL_MAX_EVENTS c;
  priority ← getThreadPriorityFromString (getStringValue CONFIGURATION_FILE_REACTOR_THREAD_PRIORITY [] c);
  cpu ← getIntValue CONFIGURATION_FILE_REACTOR_THREAD_CPU_ID (-1) c;
  stack ← getIntValue CONFIGURATION_FILE_REACTOR_THREAD_STACK_SIZE 0 c;
  let compId := getStringValue CONFIGURATION_FILE_FIX_SERVER_COMP_ID [] c in
  let address := getStringValue CONFIGURATION_FILE_FIX_SERVER_ADDRESS [] c in
  port ← getIntValue CONFIGURATION_FILE_FIX_SERVER_PORT 0 c;
  let precision := getSubsecondsFromString
    (getStringValue CONFIGURATION_FILE_FIX_SERVER_TIME_PRECISION ($"MICROSECONDS") c) in
  cache ← getIntValue CONFIGURATION_FILE_FIX_SERVER_RECEIVE_CACHE_SIZE 0 c;
  let validation := getBoolValue CONFIGURATION_FILE_FIX_SERVER_SEQUENCE_NUMBER_VALIDATION true c in
  Ok (mkFixServerConfiguration nagle quickAck pending send receive timeout maxEvents cpu stack priority validation
        compId address cache port precision).

Definition load_logger (c : Configuration) : outcome LoggerArguments :=
  let copy := getBoolValue CONFIGURATION_FILE_LOGGER_COPY_TO_STDOUT false c in
  buffer ← getIntValue CONFIGURATION_FILE_LOGGER_BUFFER_SIZE DEFAULT_LOGGER_RING_BUFFER_SIZE c;
  period ← getIntValue CONFIGURATION_FILE_LOGGER_WRITE_PERIOD_MILLISECONDS DEFAULT_LOGGER_WRITE_PERIOD_MILLISECONDS c;
  rotation ← getIntValue CONFIGURATION_FILE_LOGGER_ROTATION_SIZE_IN_BYTES DEFAULT_LOGGER_ROTATION_SIZE_IN_BYTES c;
  let file := getStringValue CONFIGURATION_FILE_LOGGER_MEMORY_MAPPED_FILE [] c in
  level ← logLevelFromString (getStringValue CONFIGURATION_FILE_LOGGER_LOG_LEVEL [] c);
  Ok (mkLoggerArguments (to_size buffer) (to_size rotation) (to_size period) level copy file).

Definition load_thread_pool (c : Configuration) : outcome ThreadPoolArguments :=
  let pin := getBoolValue CONFIGURATION_FILE_CENTRAL_ORDER_BOOK_PIN_THREADS_TO_CORES
               CONFIGURATION_DEFAULT_CENTRAL_ORDER_BOOK_PIN_THREADS_TO_CORES c in
  let hyper := getBoolValue CONFIGURATION_FILE_CENTRAL_ORDER_BOOK_HYPER_THREADING
                 CONFIGURATION_DEFAULT_CENTRAL_ORDER_BOOK_HYPER_THREADING c in
  queue ← getIntValue CONFIGURATION_FILE_CENTRAL_ORDER_BOOK_WORK_QUEUE_SIZE_PER_THREAD
            CONFIGURATION_DEFAULT_CENTRAL_ORDER_BOOK_WORK_QUEUE_SIZE_PER_THREAD c;
  stack ← getIntValue CONFIGURATION_FILE_CENTRAL_ORDER_BOOK_THREAD_STACK_SIZE
            CONFIGURATION_DEFAULT_CENTRAL_ORDER_BOOK_THREAD_STACK_SIZE c;
  priority ← getThreadPriorityFromString
               (getStringValue CONFIGURATION_FILE_CENTRAL_ORDER_BOOK_THREAD_PRIORITY
                  CONFIGURATION_DEFAULT_CENTRAL_ORDER_BOOK_THREAD_PRIORITY c);
  Ok (mkThreadPoolArguments pin hyper queue stack priority []).

Definition ServerConfiguration_load (configurationFile : str) (fs : files) : outcome ServerConfiguration :=
  c ← Configuration_loadFromFile configurationFile fs;
  let processPriority :=
    getStringValue CONFIGURATION_FILE_PROCESS_PRIORITY CONFIGURATION_DEFAULT_PROCESS_PRIORITY c in
  let mode := getStringValue CONFIGURATION_FILE_ORDER_ENTRY_MODE ($"FIX") c in
  let file := getStringValue CONFIGURATION_FILE_OFFLINE_ORDER_ENTRY_FILE [] c in
  let output := getStringValue CONFIGURATION_FILE_OFFLINE_ORDER_ENTRY_OUTPUT_FILE [] c in
  fix_configuration ← load_fix c;
  logger ← load_logger c;
  let symbols := getArray CONFIGURATION_FILE_SYMBOL_ARRAY c in
  if bool_decide (length symbols = 0%nat) then Throw RuntimeError
  else
    let multithreaded := getBoolValue CONFIGURATION_FILE_CENTRAL_ORDER_BOOK_MULTITHREADED_ORDER_MATCHING
                           CONFIGURATION_DEFAULT_CENTRAL_ORDER_BOOK_MULTITHREADED_ORDER_MATCHING_ENGINE c in
    pool ← (if multithreaded then load_thread_pool c else Ok ThreadPoolArguments_new);
    queue ← getIntValue CONFIGURATION_FILE_OUTGOING_MESSAGE_QUEUE_SIZE_PER_THREAD
              CONFIGURATION_DEFAULT_OUTGOING_MESSAGE_QUEUE_SIZE_PER_THREAD c;
    cpu ← getIntValue CONFIGURATION_FILE_OUTGOING_MESSAGE_QUEUE_THREAD_CPU_ID (-1) c;
    stack ← getIntValue CONFIGURATION_FILE_OUTGOING_MESSAGE_QUEUE_THREAD_STACK_SIZE 0 c;
    priority ← getThreadPriorityFromString
                 (getStringValue CONFIGURATION_FILE_OUTGOING_MESSAGE_QUEUE_THREAD_PRIORITY ($"NORMAL") c);
    Ok (mkServerConfiguration queue cpu stack priority mode processPriority file output multithreaded pool symbols
          logger fix_configuration).
End load.

(** * Which settings are required *)

(** Only three settings have no usable default: the priority of the reactor's thread, the
    log level and the symbols. *)
Lemma load_needs_priority `{!EqualRange} c : doesAttributeExist CONFIGURATION_FILE_REACTOR_THREAD_PRIORITY c = false →
  ∀ f, load_fix c ≠ Ok f.
Proof.
  unfold doesAttributeExist, load_fix. intros E f R. do 5 (apply bind_Ok_inv in R as (? & _ & R)).
  apply bind_Ok_inv in R as (? & R & _). unfold getStringValue in R. destruct (equal_range _ c); [|done]. discriminate R.
Qed.

Lemma load_needs_level `{!EqualRange} c : doesAttributeExist CONFIGURATION_FILE_LOGGER_LOG_LEVEL c = false →
  ∀ l, load_logger c ≠ Ok l.
Proof.
  unfold doesAttributeExist, load_logger. intros E f R. do 3 (apply bind_Ok_inv in R as (? & _ & R)).
  apply bind_Ok_inv in R as (? & R & _). unfold getStringValue in R. destruct (equal_range _ c); [|done]. discriminate R.
Qed.

Lemma load_has_symbols `{!EqualRange} file fs s : ServerConfiguration_load file fs = Ok s →
  sc_symbols s ≠ [] ∧ (sc_isMatchingMultithreaded s = false → sc_threadPoolArguments s = ThreadPoolArguments_new).
Proof.
  unfold ServerConfiguration_load. intros R. do 3 (apply bind_Ok_inv in R as (? & _ & R)).
  case_bool_decide as E; [done|]. apply bind_Ok_inv in R as (pool & Ep & R).
  do 4 (apply bind_Ok_inv in R as (? & _ & R)). simplify_eq. simpl. split; [by destruct (getArray _ _)|].
  intros Hf. rewrite Hf in Ep. by simplify_eq.
Qed.

(** The smallest file that loads: the settings of a server with one symbol. *)
#[local] Existing Instance demo_EqualRange.

Definition minimal_lines : list config_line :=
  [Setting ($"REACTOR_THREAD_PRIORITY") ($"NORMAL"); Setting ($"LOGGER_LOG_LEVEL") ($"info");
   Setting ($"SYMBOL[]") ($"AAA")].

Example minimal_configuration :
  (λ s, (sc_symbols s, sc_orderEntryMode s, sc_isMatchingMultithreaded s,
         tp_workQueueSizePerThread (sc_threadPoolArguments s), la_logLevel (sc_loggerConfiguration s),
         fc_fixReceiveCacheSize (sc_fixServerConfiguration s)))
    <$> ServerConfiguration_load CONFIGURATION_FILE {[ CONFIGURATION_FILE := file_text minimal_lines ]} =
  Ok ([$"AAA"], $"FIX", true, 128, LEVEL_INFO, 0).
Proof. vm_compute. reflexivity. Qed.
