(* ===== verification/Logger.v ===== *)
(** * [core/logger/]: the logger and its memory-mapped files

    Log entries, the level filter, one round of the logger's thread, and the backend that
    writes the entries into memory-mapped files ([core/shared_memory.cpp], on Linux) and
    starts a new file when one is full. [pageSize] is the system's; whether the mapping of
    a file succeeds is an argument. *)
From Stdlib Require Import ZArith Lia Ascii String SpecFloat.
From stdpp Require Import base decidable sets list gmap strings.
From S2P Require Import Prelude.
From S2P Require Import MachineInt.
From S2P Require Import StringUtility.
From S2P Require Import DateTime.
From S2P Require Import Double.
From S2P Require Import FixConstants.
From S2P Require Import FixMessage.
From S2P Require Import FixParser.
From S2P Require Import FixReceiveCache.
From S2P Require Import FixSequenceStore.
From S2P Require Import Configuration.
From S2P Require Import QueueMPSC.
From S2P Require Import Network.
From S2P Require Import FixSession.
From S2P Require Import ServerConfiguration.
Local Open Scope Z_scope.

(** ** [core/shared_memory.cpp] *)

Definition NUL : ascii := chr 0.

Record SharedMemory : Type := mkSharedMemory {
  sh_name : str;                (** the file behind the mapping *)
  sh_buffer : option str;
  sh_size : Z;
  sh_writtenSize : Z;
  sh_readSize : Z
}.

Definition SharedMemory_new : SharedMemory := mkSharedMemory [] None 0 0 0.

Definition SharedMemory_close (m : SharedMemory) : SharedMemory := mkSharedMemory (sh_name m) None 0 0 0.

Definition SharedMemory_isOpen (m : SharedMemory) : bool :=
  match sh_buffer m with Some _ => true | None => false end.

Section backend.
Context (pageSize : Z).

Definition adjustSizeToPageSize (size : Z) : outcome Z :=
  if size <=? pageSize then Ok pageSize
  else if pageSize =? 0 then Undef DivisionByZero
  else
    let pageCount := to_int (size / pageSize) in
    pageCount ← (if to_size (pageCount * pageSize) <? size then int_add pageCount 1 else Ok pageCount);
    Ok (to_size (pageCount * pageSize)).

(** [open]: the file gets one byte more than the mapping, which is zeroed. *)
Definition SharedMemory_open (mapped : bool) (name : str) (maxSize : Z) (m : SharedMemory) (fs : files)
    : outcome (SharedMemory * files * bool) :=
  size ← adjustSizeToPageSize maxSize;
  if mapped then
    let zeros := replicate (Z.to_nat size) NUL in
    Ok (mkSharedMemory name (Some zeros) size (sh_writtenSize m) (sh_readSize m),
        <[name := zeros ++ [NUL]]> fs, true)
  else Ok (mkSharedMemory name (sh_buffer m) size (sh_writtenSize m) (sh_readSize m), fs, false).

(** [write] copies into the mapping, which the file shares, without testing the bounds. *)
Definition SharedMemory_write (data : str) (writeOffset : Z) (m : SharedMemory) (fs : files)
    : outcome (SharedMemory * files) :=
  match sh_buffer m with
  | None => Undef NullDeref
  | Some buffer =>
      buffer ← write_at writeOffset data buffer;
      Ok (mkSharedMemory (sh_name m) (Some buffer) (sh_size m)
            (size_add (sh_writtenSize m) (Z.of_nat (length data))) (sh_readSize m),
          <[sh_name m := buffer ++ [NUL]]> fs)
  end.

Definition SharedMemory_append (data : str) (m : SharedMemory) (fs : files) : outcome (SharedMemory * files) :=
  offset ← size_rem (sh_writtenSize m) (sh_size m);
  SharedMemory_write data offset m fs.

(** [read] copies [size] bytes out of the mapping, again without testing the bounds. *)
Definition SharedMemory_read (size readOffset : Z) (m : SharedMemory) : outcome (SharedMemory * str) :=
  match sh_buffer m with
  | None => Undef NullDeref
  | Some buffer =>
      if (0 <=? readOffset) && (readOffset + size <=? Z.of_nat (length buffer)) then
        Ok (mkSharedMemory (sh_name m) (sh_buffer m) (sh_size m) (sh_writtenSize m) (size_add (sh_readSize m) size),
            take (Z.to_nat size) (drop (Z.to_nat readOffset) buffer))
      else Undef BufferOverflow
  end.

(** The range that [msync] is asked to write; a mapping is in the page cache already. *)
Definition SharedMemory_flushToDisc (m : SharedMemory) : option str * Z := (sh_buffer m, sh_writtenSize m).

(** What is written at an offset is read back from it. *)
Lemma shared_memory_read_back data offset m fs m' fs' : 0 <= offset →
  SharedMemory_write data offset m fs = Ok (m', fs') →
  ∃ m'', SharedMemory_read (Z.of_nat (length data)) offset m' = Ok (m'', data).
Proof.
  intros Hoff E. unfold SharedMemory_write in E. destruct (sh_buffer m) as [buffer|]; [|done].
  unfold write_at in E. destruct (Z.leb_spec (offset + Z.of_nat (length data)) (Z.of_nat (length buffer))); [|done].
  simpl in E. simplify_eq. unfold SharedMemory_read. cbn [sh_buffer].
  rewrite !length_app, length_take, length_drop.
  destruct (Z.leb_spec 0 offset); [|lia].
  destruct (Z.leb_spec (offset + Z.of_nat (length data))
    (Z.of_nat (Z.to_nat offset `min` length buffer + (length data + (length buffer - (Z.to_nat offset + length data)))))); [|lia].
  cbn [andb]. eexists. do 2 f_equal. rewrite Nat2Z.id.
  rewrite drop_app_length' by (rewrite length_take; lia). by rewrite take_app_length.
Qed.

(** ** [core/logger/memory_mapped_file_backend.hpp] *)

Record MemoryMappedFileBackend : Type := mkMemoryMappedFileBackend {
  mb_rotationId : Z;
  mb_rotationSize : Z;
  mb_resourceName : str;
  mb_originalResourceName : str;
  mb_resourceExtension : str;
  mb_logFile : SharedMemory
}.

Definition MemoryMappedFileBackend_new : MemoryMappedFileBackend :=
  mkMemoryMappedFileBackend 1 0 [] [] [] SharedMemory_new.

Definition with_log_file (m : SharedMemory) (b : MemoryMappedFileBackend) : MemoryMappedFileBackend :=
  mkMemoryMappedFileBackend (mb_rotationId b) (mb_rotationSize b) (mb_resourceName b) (mb_originalResourceName b)
    (mb_resourceExtension b) m.

Definition openMemoryMappedFile (mapped : bool) (b : MemoryMappedFileBackend) (fs : files)
    : outcome (MemoryMappedFileBackend * files) :=
  '(m, fs, _) ← SharedMemory_open mapped (mb_resourceName b) (mb_rotationSize b) (mb_logFile b) fs;
  if SharedMemory_isOpen m then Ok (with_log_file m b, fs) else Throw RuntimeError.

Definition Backend_open (mapped : bool) (b : MemoryMappedFileBackend) (fs : files)
    : outcome (MemoryMappedFileBackend * files) :=
  b ← (if contains (mb_resourceName b) ($".") then
         let resourceNameParts := split (mb_resourceName b) "."%char in
         original ← vec_at 0 resourceNameParts;
         extension ← vec_at 1 resourceNameParts;
         Ok (mkMemoryMappedFileBackend (mb_rotationId b) (mb_rotationSize b) (mb_resourceName b) original extension
               (mb_logFile b))
       else Ok (mkMemoryMappedFileBackend (mb_rotationId b) (mb_rotationSize b) (mb_resourceName b)
                  (mb_resourceName b) (mb_resourceExtension b) (mb_logFile b)));
  openMemoryMappedFile mapped b fs.

Definition Backend_close (b : MemoryMappedFileBackend) : MemoryMappedFileBackend :=
  with_log_file (SharedMemory_close (mb_logFile b)) b.

(** The name of the next file; [m_rotationId] is an [unsigned int]. *)
Definition rotated_name (b : MemoryMappedFileBackend) (rotationId : Z) : str :=
  mb_originalResourceName b ++ ($"_") ++ to_string rotationId ++
    (if bool_decide (length (mb_resourceExtension b) = 0%nat) then [] else ($".") ++ mb_resourceExtension b).

Definition Backend_rotate (mapped : bool) (b : MemoryMappedFileBackend) (fs : files)
    : outcome (MemoryMappedFileBackend * files) :=
  let rotationId := (mb_rotationId b + 1) mod 4294967296 in
  let b := mkMemoryMappedFileBackend rotationId (mb_rotationSize b) (rotated_name b rotationId)
             (mb_originalResourceName b) (mb_resourceExtension b) (mb_logFile b) in
  openMemoryMappedFile mapped (Backend_close b) fs.

(** [process], for the text of the entry. *)
Definition Backend_process (mapped : bool) (entry : str) (b : MemoryMappedFileBackend) (fs : files)
    : outcome (MemoryMappedFileBackend * files) :=
  let entryAsString := entry ++ [chr 10] in
  '(b, fs) ← (if sh_size (mb_logFile b) <=? size_add (sh_writtenSize (mb_logFile b)) (Z.of_nat (length entryAsString))
              then Backend_rotate mapped b fs else Ok (b, fs));
  '(m, fs) ← SharedMemory_append entryAsString (mb_logFile b) fs;
  Ok (with_log_file m b, fs).

Fixpoint process_entries (mapped : bool) (entries : list str) (b : MemoryMappedFileBackend) (fs : files)
    : outcome (MemoryMappedFileBackend * files) :=
  match entries with
  | [] => Ok (b, fs)
  | e :: rest => '(b, fs) ← Backend_process mapped e b fs; process_entries mapped rest b fs
  end.
End backend.

(** ** [core/logger/log_entry.hpp] and [core/logger/logger.cpp] *)

Record LogEntry : Type := mkLogEntry {
  le_logLevel : LogLevel;
  le_sender : str;
  le_message : str
}.

Definition LogLevel_number (level : LogLevel) : Z :=
  match level with
  | LEVEL_FATAL => 0 | LEVEL_ERROR => 1 | LEVEL_WARNING => 2 | LEVEL_INFO => 3 | LEVEL_DEBUG => 4
  end.

Section logger.
Context `{!Platform} (pageSize : Z).

(** The stream operator. *)
Definition LogEntry_text (e : LogEntry) : outcome str :=
  format ($"%s : %s , %s , %s")
    [FStr (utc_datetime MICROSECONDS); FStr (logLevelToString (le_logLevel e)); FStr (le_sender e); FStr (le_message e)].

Record Logger : Type := mkLogger {
  lg_backendEnabled : bool;
  lg_copyToStdout : bool;
  lg_buffer : QueueMPSC LogEntry;
  lg_backend : MemoryMappedFileBackend;
  lg_writePeriodInMicroseconds : Z;
  lg_logLevel : Z
}.

(** [initialise] makes a queue, whose dummy node is at [dummy]. *)
Definition Logger_initialise (configuration : LoggerArguments) (dummy : Z) (l : Logger) : Logger :=
  let named := negb (bool_decide (length (la_memoryMappedFileName configuration) = 0%nat)) in
  let backend := lg_backend l in
  mkLogger (if named then true else lg_backendEnabled l) (la_copyToStdout configuration) (QueueMPSC_new dummy)
    (if named then
       mkMemoryMappedFileBackend (mb_rotationId backend) (la_rotationSizeInBytes configuration)
         (la_memoryMappedFileName configuration) (mb_originalResourceName backend) (mb_resourceExtension backend)
         (mb_logFile backend)
     else backend)
    (to_size (la_writePeriodInMilliSeconds configuration * 1000)) (LogLevel_number (la_logLevel configuration)).

(** [log], with the address of the node a logged entry gets. *)
Definition Logger_log (newNode : Z) (level : LogLevel) (sender message : str) (l : Logger) : outcome Logger :=
  if LogLevel_number level <=? lg_logLevel l then
    buffer ← QueueMPSC_push newNode (mkLogEntry level sender message) (lg_buffer l);
    Ok (mkLogger (lg_backendEnabled l) (lg_copyToStdout l) buffer (lg_backend l) (lg_writePeriodInMicroseconds l)
          (lg_logLevel l))
  else Ok l.

(** The entries of a flushed list: to the backend, and the messages to the console. *)
Fixpoint log_nodes (mapped : bool) (fuel : nat) (p : option Z) (l : Logger) (fs : files) (console : list str)
    : outcome (Logger * files * list str) :=
  match p, fuel with
  | None, _ => Ok (l, fs, console)
  | Some _, O => NoFuel
  | Some currentLog, S fuel' =>
      node ← node_at currentLog (lg_buffer l);
      match nd_data node with
      | None => Undef NullDeref
      | Some entry =>
          '(backend, fs) ← (if lg_backendEnabled l then
                              text ← LogEntry_text entry;
                              Backend_process pageSize mapped text (lg_backend l) fs
                            else Ok (lg_backend l, fs));
          let l := mkLogger (lg_backendEnabled l) (lg_copyToStdout l) (lg_buffer l) backend
                     (lg_writePeriodInMicroseconds l) (lg_logLevel l) in
          let console := if lg_copyToStdout l then console ++ [le_message entry] else console in
          log_nodes mapped fuel' (nd_next node) l fs console
      end
  end.

(** One round of the loop of [run]. *)
Definition Logger_round (mapped : bool) (fuel : nat) (l : Logger) (fs : files) (console : list str)
    : outcome (Logger * files * list str) :=
  '(buffer, currentLog) ← QueueMPSC_flush (lg_buffer l);
  log_nodes mapped fuel currentLog
    (mkLogger (lg_backendEnabled l) (lg_copyToStdout l) buffer (lg_backend l) (lg_writePeriodInMicroseconds l)
       (lg_logLevel l)) fs console.
End logger.

(** * What the log files hold *)

(** An entry's text and its line end fit into 2048 bytes, so into the smallest file on pages of
    4096 bytes. *)
Lemma LogEntry_text_fits `{!Platform} e text : LogEntry_text e = Ok text → (length (text ++ [chr 10]) <= 2048)%nat.
Proof.
  unfold LogEntry_text, format. intros Ht. apply bind_Ok_inv in Ht as (buf & _ & [= <-]).
  rewrite length_app, length_take. simpl length. unfold MAX_BUFFER_SIZE. lia.
Qed.

(** The lines of a file, and its bytes: the lines, then zeros, then the byte [open] wrote. *)
Definition log_lines (texts : list str) : str := concat ((λ text, text ++ [chr 10]) <$> texts).
Definition log_bytes (n : nat) (texts : list str) : str :=
  log_lines texts ++ replicate (n - length (log_lines texts)) NUL ++ [NUL].

(** Reference packing: a file takes the next entry unless that would fill it. *)
Fixpoint pack (n : nat) (current entries : list str) : list (list str) :=
  match entries with
  | [] => [current]
  | e :: rest =>
      if bool_decide (n <= length (log_lines current) + length (e ++ [chr 10]))%nat
      then current :: pack n [e] rest else pack n (current ++ [e]) rest
  end.

(** The files of a log named [stem.ext], in the order they are opened. *)
Definition log_file_name (stem ext : str) (k : nat) : str :=
  match k with O => stem | S _ => stem ++ ($"_") ++ to_string (Z.of_nat k + 1) end ++ ($".") ++ ext.

Lemma log_lines_snoc texts e : log_lines (texts ++ [e]) = log_lines texts ++ e ++ [chr 10].
Proof. unfold log_lines. rewrite fmap_app, concat_app. simpl. by rewrite app_nil_r. Qed.

Lemma concat_pack n current entries : concat (pack n current entries) = current ++ entries.
Proof.
  revert current. induction entries as [|e entries IH]; intros current; simpl; [by rewrite !app_nil_r|].
  case_bool_decide; simpl; rewrite IH; [done|by rewrite <- app_assoc].
Qed.

Lemma log_file_name_inj stem ext k1 k2 : Z.of_nat k1 < 4294967296 → Z.of_nat k2 < 4294967296 →
  log_file_name stem ext k1 = log_file_name stem ext k2 → k1 = k2.
Proof.
  intros H1 H2 E. unfold log_file_name in E. apply app_inv_tail in E.
  assert (∀ k, stem ≠ stem ++ ($"_") ++ to_string (Z.of_nat k + 1)) as Hne.
  { intros k E'. apply (f_equal length) in E'. rewrite !length_app in E'. simpl in E'. lia. }
  destruct k1 as [|k1], k2 as [|k2]; [done|by destruct (Hne (S k2))|by destruct (Hne (S k1))|].
  apply app_inv_head, app_inv_head in E. apply (f_equal stol) in E.
  rewrite !stol_to_string_nil in E by (clear - H1 H2; mlia). injection E. lia.
Qed.

Section log_files.
Context (pageSize rotationSize : Z) (n : nat) (stem ext : str).
Context (Hsize : adjustSizeToPageSize pageSize rotationSize = Ok (Z.of_nat n)).
Context (Hn : (0 < n)%nat) (Hn2 : Z.of_nat n + Z.of_nat n < SIZE_MOD).
Context (Hext : ext ≠ []).

(** The backend while it writes the file after the full ones [full]. *)
Definition log_backend (k : nat) (texts : list str) : MemoryMappedFileBackend :=
  mkMemoryMappedFileBackend (Z.of_nat k + 1) rotationSize (log_file_name stem ext k) stem ext
    (mkSharedMemory (log_file_name stem ext k)
       (Some (log_lines texts ++ replicate (n - length (log_lines texts)) NUL)) (Z.of_nat n)
       (Z.of_nat (length (log_lines texts))) 0).

Definition log_on_disk (chunks : list (list str)) (fs : files) : Prop :=
  ∀ k texts, chunks !! k = Some texts → fs !! log_file_name stem ext k = Some (log_bytes n texts).

Lemma log_on_disk_snoc chunks old texts fs : Z.of_nat (length chunks) < 4294967296 → log_on_disk (chunks ++ old) fs →
  (length old ≤ 1)%nat → log_on_disk (chunks ++ [texts]) (<[log_file_name stem ext (length chunks) := log_bytes n texts]> fs).
Proof.
  intros Hl Hd Ho k c Ek. apply lookup_snoc_Some in Ek as [[Hk Ek]|[-> ->]].
  - rewrite lookup_insert_ne; [by apply Hd, lookup_app_l_Some|].
    intros E. apply log_file_name_inj in E; lia.
  - apply lookup_insert_eq.
Qed.

(** An entry that fits behind the text of a file. *)
Lemma append_fits k chunks texts e fs : length chunks = k → Z.of_nat k < 4294967296 →
  (length (log_lines texts) + length (e ++ [chr 10]) <= n)%nat → (length (log_lines texts) < n)%nat →
  log_on_disk (chunks ++ [texts]) fs →
  ∃ m fs', SharedMemory_append (e ++ [chr 10]) (mb_logFile (log_backend k texts)) fs = Ok (m, fs') ∧
    with_log_file m (log_backend k texts) = log_backend k (texts ++ [e]) ∧ log_on_disk (chunks ++ [texts ++ [e]]) fs'.
Proof.
  intros Hk Hb Hfit Hlt Hd. unfold SharedMemory_append, SharedMemory_write, log_backend.
  cbn [mb_logFile sh_writtenSize sh_size sh_buffer]. rewrite size_rem_Ok by lia. cbn [mbind outcome_bind].
  rewrite Z.mod_small by lia.
  pose proof (write_at_back (e ++ [chr 10]) (log_lines texts) (replicate n NUL)) as Hw.
  rewrite drop_replicate, length_replicate in Hw. rewrite Hw by lia.
  cbn [mbind outcome_bind]. eexists _, _. split; [reflexivity|]. split.
  - unfold with_log_file. cbn [mb_rotationId mb_rotationSize mb_resourceName mb_originalResourceName mb_resourceExtension sh_name sh_readSize].
    rewrite log_lines_snoc, drop_replicate, <- !app_assoc, !length_app.
    rewrite length_app in Hfit. simpl. simpl in Hfit. do 2 f_equal.
    unfold size_add, to_size. rewrite Z.mod_small by lia. lia.
  - cbn [sh_name]. rewrite <- Hk. replace (_ ++ [NUL]) with (log_bytes n (texts ++ [e])).
    { apply (log_on_disk_snoc chunks [texts]); [lia|done|done]. }
    unfold log_bytes. rewrite log_lines_snoc, drop_replicate, <- !app_assoc, !length_app. done.
Qed.

Lemma rotated_name_file b k : mb_originalResourceName b = stem → mb_resourceExtension b = ext →
  rotated_name b (Z.of_nat k + 1 + 1) = log_file_name stem ext (S k).
Proof.
  intros E1 E2. unfold rotated_name, log_file_name. rewrite E1, E2.
  rewrite bool_decide_eq_false_2 by (by destruct ext). rewrite <- !app_assoc. do 3 f_equal. f_equal. lia.
Qed.

Lemma rotate_opens k texts fs : Z.of_nat (S k) + 1 < 4294967296 →
  Backend_rotate pageSize true (log_backend k texts) fs =
    Ok (log_backend (S k) [], <[log_file_name stem ext (S k) := log_bytes n []]> fs).
Proof.
  intros Hb. unfold Backend_rotate, openMemoryMappedFile, SharedMemory_open, Backend_close, log_backend, with_log_file.
  cbn -[adjustSizeToPageSize rotated_name log_file_name Z.add Z.mul Z.modulo].
  rewrite Hsize. cbn -[rotated_name log_file_name Z.add Z.modulo Z.of_nat].
  rewrite Nat2Z.id, Nat.sub_0_r, Z.mod_small by lia.
  change zero with NUL. rewrite !rotated_name_file by done. unfold log_bytes. simpl log_lines.
  replace (Z.of_nat (S k) + 1) with (Z.of_nat k + 1 + 1) by lia. done.
Qed.

Lemma rotate_on_disk k chunks texts fs : length chunks = k → Z.of_nat (S k) + 1 < 4294967296 →
  log_on_disk (chunks ++ [texts]) fs →
  log_on_disk ((chunks ++ [texts]) ++ [[]]) (<[log_file_name stem ext (S k) := log_bytes n []]> fs).
Proof.
  intros Hk Hb Hd. replace (S k) with (length (chunks ++ [texts])) by (rewrite length_app, Hk; simpl; lia).
  apply (log_on_disk_snoc _ []); [rewrite length_app; simpl; lia|by rewrite app_nil_r|simpl; lia].
Qed.

Lemma process_entries_pack entries chunks texts fs : Forall (λ e, (length (e ++ [chr 10]) <= n)%nat) entries →
  Z.of_nat (length chunks + length entries) + 1 < 4294967296 → (length (log_lines texts) <= n)%nat →
  log_on_disk (chunks ++ [texts]) fs →
  ∃ b fs', process_entries pageSize true entries (log_backend (length chunks) texts) fs = Ok (b, fs') ∧
    log_on_disk (chunks ++ pack n texts entries) fs'.
Proof.
  intros Hfit. revert chunks texts fs. induction Hfit as [|e entries He Hes IH]; intros chunks texts fs Hb Ht Hd.
  { eexists _, _. split; [reflexivity|exact Hd]. }
  simpl in Hb. cbn [process_entries pack]. unfold Backend_process.
  assert (size_add (Z.of_nat (length (log_lines texts))) (Z.of_nat (length (e ++ [chr 10]))) =
          Z.of_nat (length (log_lines texts) + length (e ++ [chr 10]))) as Ha by (unfold size_add, to_size; rewrite Z.mod_small; lia).
  change (sh_size _) with (Z.of_nat n). change (sh_writtenSize _) with (Z.of_nat (length (log_lines texts))).
  rewrite Ha. case_bool_decide as Hfull.
  - rewrite (proj2 (Z.leb_le _ _)) by lia.
    rewrite rotate_opens by lia. cbn [mbind outcome_bind].
    pose proof (rotate_on_disk (length chunks) chunks texts fs eq_refl ltac:(lia) Hd) as Hd1.
    destruct (append_fits (S (length chunks)) (chunks ++ [texts]) [] e _ ltac:(rewrite length_app; simpl; lia)
      ltac:(lia) ltac:(simpl; lia) ltac:(simpl; lia) Hd1) as (m & fs2 & Ea & Em & Hd2).
    rewrite Ea. cbn [mbind outcome_bind]. rewrite Em.
    destruct (IH (chunks ++ [texts]) [e] fs2) as (b & fs' & Ep & Hd');
      [rewrite length_app; simpl; lia|unfold log_lines; simpl; rewrite app_nil_r; lia|done|].
    rewrite length_app, Nat.add_1_r in Ep. eexists _, _. split; [exact Ep|]. by rewrite <- app_assoc in Hd'.
  - rewrite (proj2 (Z.leb_gt _ _)) by lia. cbn [mbind outcome_bind].
    destruct (append_fits (length chunks) chunks texts e fs) as (m & fs2 & Ea & Em & Hd2); [done|lia|lia|lia|done|].
    rewrite Ea. cbn [mbind outcome_bind]. rewrite Em.
    apply IH; [lia|rewrite log_lines_snoc, length_app; lia|done].
Qed.
End log_files.

(** C36: The log files hold every entry once, in order, and whole. A backend opened on the name
    [stem.ext] with files of [n] bytes, given entries that each fit into one file with their line
    end, writes without error; the k-th file it opened holds, line after line, exactly the entries the
    reference packing puts into it (zeros fill it up), under the name [stem.ext] for the first and
    [stem_k.ext] for the k-th; and the packing splits the sequence of entries without losing,
    repeating or reordering one. *)
Theorem log_files_hold_entries pageSize rotationSize n stem ext entries fs :
  adjustSizeToPageSize pageSize rotationSize = Ok (Z.of_nat n) → (0 < n)%nat → Z.of_nat n + Z.of_nat n < SIZE_MOD →
  "."%char ∉ stem → "."%char ∉ ext → ext ≠ [] →
  Forall (λ e, (length (e ++ [chr 10]) <= n)%nat) entries → Z.of_nat (length entries) + 1 < 4294967296 →
  ∃ b fs1 b' fs',
    Backend_open pageSize true
      (mkMemoryMappedFileBackend 1 rotationSize (log_file_name stem ext 0) [] [] SharedMemory_new) fs = Ok (b, fs1) ∧
    process_entries pageSize true entries b fs1 = Ok (b', fs') ∧
    (∀ k texts, pack n [] entries !! k = Some texts → fs' !! log_file_name stem ext k = Some (log_bytes n texts)) ∧
    concat (pack n [] entries) = entries.
Proof.
  intros Hsize Hn Hn2 Hstem Hext Hne Hfit Hb.
  set (fs1 := <[log_file_name stem ext 0 := log_bytes n []]> fs).
  assert (log_on_disk n stem ext ([] ++ [[]]) fs1) as Hd.
  { intros [|k] texts Ek; [injection Ek as <-; apply lookup_insert_eq|done]. }
  destruct (process_entries_pack pageSize rotationSize n stem ext Hsize Hn Hn2 Hne entries [] [] fs1)
    as (b' & fs' & Ep & Hd'); [done|simpl; lia|simpl; lia|done|].
  eexists _, fs1, b', fs'. split; [|split; [exact Ep|split; [exact Hd'|apply concat_pack]]].
  unfold Backend_open. cbn [mb_resourceName log_file_name].
  assert (contains (log_file_name stem ext 0) ($".") = true) as ->.
  { apply (contains_char "."%char), elem_of_app. right. left. }
  assert (split (log_file_name stem ext 0) "."%char = [stem; ext]) as ->.
  { etransitivity; [by apply (split_app "."%char)|]. by rewrite split_no_sep. }
  change (vec_at 0 [stem; ext]) with (Ok stem). change (vec_at 1 [stem; ext]) with (Ok ext).
  unfold openMemoryMappedFile, SharedMemory_open.
  cbn -[adjustSizeToPageSize NUL replicate Z.of_nat log_file_name]. rewrite Hsize.
  cbn -[replicate Z.of_nat log_file_name]. change zero with NUL.
  unfold fs1, log_bytes, log_backend, with_log_file. simpl log_lines. simpl length.
  by rewrite Nat2Z.id, !Nat.sub_0_r.
Qed.

(** Two files for three entries on pages of eight bytes. *)
Lemma log_files_hold_entries_witness :
  adjustSizeToPageSize 8 5 = Ok 8 ∧
  ∃ b fs1 b' fs',
    Backend_open 8 true (mkMemoryMappedFileBackend 1 5 ($"a.log") [] [] SharedMemory_new) ∅ = Ok (b, fs1) ∧
    process_entries 8 true [$"one"; $"two"; $"three"] b fs1 = Ok (b', fs') ∧
    fs' !! ($"a_3.log") = Some (($"three") ++ [chr 10; NUL; NUL; NUL]).
Proof.
  split; [reflexivity|].
  destruct (log_files_hold_entries 8 5 8 ($"a") ($"log") [$"one"; $"two"; $"three"] ∅)
    as (b & fs1 & b' & fs' & E1 & E2 & Hf & _).
  - reflexivity.
  - lia.
  - reflexivity.
  - apply (bool_decide_unpack _); vm_compute; exact I.
  - apply (bool_decide_unpack _); vm_compute; exact I.
  - discriminate.
  - apply (bool_decide_unpack _); vm_compute; exact I.
  - reflexivity.
  - exists b, fs1, b', fs'. split; [exact E1|]. split; [exact E2|].
    apply (Hf 2%nat [$"three"]). reflexivity.
Defined.

(** [process] itself does not test the length: an entry longer than the file would be written past
    the end of the mapping, also by a fresh file. *)
Theorem long_entry_overflows pageSize rotationSize n stem ext entry fs :
  adjustSizeToPageSize pageSize rotationSize = Ok (Z.of_nat n) → (0 < n)%nat → Z.of_nat n + Z.of_nat n < SIZE_MOD → ext ≠ [] →
  (n < length (entry ++ [chr 10]))%nat → Z.of_nat n + Z.of_nat (length (entry ++ [chr 10])) < SIZE_MOD →
  Backend_process pageSize true entry (log_backend rotationSize n stem ext 0 []) fs = Undef BufferOverflow.
Proof.
  intros Hsize Hn Hn2 Hne Hlong Hmod. unfold Backend_process.
  change (sh_size _) with (Z.of_nat n). change (sh_writtenSize _) with 0.
  assert (size_add 0 (Z.of_nat (length (entry ++ [chr 10]))) = Z.of_nat (length (entry ++ [chr 10]))) as ->.
  { unfold size_add, to_size. rewrite Z.mod_small; lia. }
  rewrite (proj2 (Z.leb_le _ _)) by lia.
  rewrite rotate_opens by (done || lia). cbn [mbind outcome_bind].
  unfold SharedMemory_append, SharedMemory_write, log_backend. cbn [mb_logFile sh_writtenSize sh_size sh_buffer].
  rewrite size_rem_Ok by lia. cbn [mbind outcome_bind]. rewrite Z.mod_0_l by lia.
  unfold write_at. rewrite (proj2 (Z.leb_gt _ _)); [done|].
  simpl log_lines. rewrite length_app, length_replicate. simpl length. lia.
Qed.
