(* ===== verification/Threads.v ===== *)
(** * [core/concurrency/thread.cpp], [thread.h], [task.h], [actor.h]

    Thread objects, the registry [Thread::THREADS] of pointers to them, and what they ask
    of pthreads. The objects that are alive are in [Threads], by the identity of the
    object; every pthread call that has an effect is recorded. The results of the calls
    are arguments: the identifier of the new pthread, or none when it cannot be created.
    What a callback did is its effect elsewhere; [Task_execute] gets how it ended. *)
From Stdlib Require Import ZArith Lia Ascii String.
From stdpp Require Import base decidable sets list gmap strings.
From S2P Require Import Prelude.
From S2P Require Import MachineInt.
From S2P Require Import StringUtility.
From S2P Require Import Configuration.
From S2P Require Import ServerConfiguration.
Local Open Scope Z_scope.

(** ** Tasks *)

Record Task : Type := mkTask {
  m_taskExceptionPtr : option exn;
  m_returnValue : Z
}.

Definition Task_new (junk : Z) : Task := mkTask None junk.

(** The callback returned a value or left by an exception, which does not get further. *)
Definition Task_execute (callback : Z + exn) (task : Task) : Task :=
  match callback with
  | inl value => mkTask (m_taskExceptionPtr task) value
  | inr e => mkTask (Some e) (m_returnValue task)
  end.

Definition Task_getException (task : Task) : option exn := m_taskExceptionPtr task.
Definition Task_getReturnValue (task : Task) : Z := m_returnValue task.

(** ** Threads *)

Definition MAX_THREAD_NAME_LENGTH : nat := 16.

Record Thread : Type := mkThread {
  m_task : option Task;
  m_name : str;
  m_started : bool;
  m_joined : bool;
  m_threadID : Z;
  m_priority : ThreadPriority
}.

(** Calls of the pthread library, with the thread object that made them. *)
Inductive PthreadCall : Type :=
  | pthread_create (tid : Z)
  | pthread_setname_np (tid : Z) (name : str)
  | pthread_setschedparam (tid : Z) (priority : Z)
  | pthread_setaffinity_np (tid : Z) (core : Z)
  | pthread_join (tid : Z)
  | pthread_detach (tid : Z).

Record Threads : Type := mkThreads {
  ts_objects : gmap Z Thread;
  ts_THREADS : list Z;
  ts_calls : list (Z * PthreadCall)
}.

Definition Threads_empty : Threads := mkThreads ∅ [] [].

Definition thread_at (id : Z) (T : Threads) : outcome Thread :=
  match ts_objects T !! id with Some th => Ok th | None => Undef UseAfterFree end.

Definition set_thread (id : Z) (th : Thread) (T : Threads) : Threads :=
  mkThreads (<[id := th]> (ts_objects T)) (ts_THREADS T) (ts_calls T).

Definition add_call (id : Z) (c : PthreadCall) (T : Threads) : Threads :=
  mkThreads (ts_objects T) (ts_THREADS T) (ts_calls T ++ [(id, c)]).

(** The constructor, for an object at the address [id]. *)
Definition Thread_new (id : Z) (name : str) (T : Threads) : Threads :=
  mkThreads (<[id := mkThread None name false false 0 NORMAL]> (ts_objects T)) (ts_THREADS T ++ [id]) (ts_calls T).

(** The destructor leaves the registry alone. *)
Definition Thread_delete (id : Z) (T : Threads) : Threads :=
  mkThreads (delete id (ts_objects T)) (ts_THREADS T) (ts_calls T).

Definition Thread_setTask (pTask : option Task) (id : Z) (T : Threads) : outcome Threads :=
  th ← thread_at id T;
  match pTask with
  | None => Undef AssertionFailed
  | Some task => Ok (set_thread id (mkThread (Some task) (m_name th) (m_started th) (m_joined th) (m_threadID th) (m_priority th)) T)
  end.

Definition Thread_setThreadName (id : Z) (T : Threads) : outcome Threads :=
  th ← thread_at id T;
  if (0 <? length (m_name th))%nat then
    if (length (m_name th) <? MAX_THREAD_NAME_LENGTH)%nat then
      Ok (add_call id (pthread_setname_np (m_threadID th) (m_name th)) T)
    else Undef AssertionFailed
  else Ok T.

(** [start]: the attributes with the stack size are made, and not given to
    [pthread_create]. The new thread runs the task and asserts that there is one. *)
Definition Thread_start (stackSize : Z) (created : option Z) (id : Z) (T : Threads) : outcome Threads :=
  th ← thread_at id T;
  match created with
  | None => Throw RuntimeError
  | Some tid =>
      match m_task th with
      | None => Undef AssertionFailed
      | Some _ =>
          let th := mkThread (m_task th) (m_name th) true (m_joined th) tid (m_priority th) in
          Thread_setThreadName id (add_call id (pthread_create tid) (set_thread id th T))
      end
  end.

(** [internalThreadFunction]: the task runs, with the outcome [callback]. *)
Definition Thread_internalThreadFunction (callback : Z + exn) (id : Z) (T : Threads) : outcome Threads :=
  th ← thread_at id T;
  match m_task th with
  | None => Undef AssertionFailed
  | Some task =>
      Ok (set_thread id (mkThread (Some (Task_execute callback task)) (m_name th) (m_started th) (m_joined th)
            (m_threadID th) (m_priority th)) T)
  end.

(** [setPriority], called by the pthread [self]: that one's parameters are set. *)
Definition Thread_setPriority (self : Z) (priority : ThreadPriority) (id : Z) (T : Threads) : outcome (Threads * bool) :=
  th ← thread_at id T;
  if negb (m_started th) then Undef AssertionFailed
  else
    let index := match priority with IDLE => 0 | BELOW_NORMAL => 1 | NORMAL => 2 | ABOVE_NORMAL => 3 | CRITICAL => 4 end in
    node ← vec_at index NATIVE_THREAD_PRIORITIES;
    let T := add_call id (pthread_setschedparam self node.2) T in
    Ok (set_thread id (mkThread (m_task th) (m_name th) (m_started th) (m_joined th) (m_threadID th) priority) T, false).

(** [pinToCPUCore] with what the call returns. *)
Definition Thread_pinToCPUCore (coreID ret : Z) (id : Z) (T : Threads) : outcome (Threads * Z) :=
  th ← thread_at id T;
  if negb (m_started th) then Undef AssertionFailed
  else if coreID <? 0 then Undef AssertionFailed
  else Ok (add_call id (pthread_setaffinity_np (m_threadID th) coreID) T, ret).

(** [isAlive] of a release build, with the result of [pthread_kill(m_threadID, 0)]. *)
Definition Thread_isAlive (killed : Z) (th : Thread) : bool :=
  if negb (m_started th) then false else killed =? 0.

Definition Thread_isJoiningOk (th : Thread) : bool := negb (negb (m_started th) || m_joined th).

Definition Thread_join (id : Z) (T : Threads) : outcome Threads :=
  th ← thread_at id T;
  if negb (Thread_isJoiningOk th) then Ok T
  else
    let T := add_call id (pthread_join (m_threadID th)) T in
    Ok (set_thread id (mkThread (m_task th) (m_name th) (m_started th) true (m_threadID th) (m_priority th)) T).

Definition Thread_detach (id : Z) (T : Threads) : outcome Threads :=
  th ← thread_at id T;
  Ok (add_call id (pthread_detach (m_threadID th)) T).

(** [getException] follows the task pointer without a test. *)
Definition Thread_getException (id : Z) (T : Threads) : outcome (option exn) :=
  th ← thread_at id T;
  match m_task th with None => Undef NullDeref | Some task => Ok (Task_getException task) end.

(** ** Actors *)

Record Actor : Type := mkActor { ac_thread : Z; m_isFinishing : bool }.

Definition Actor_new (id : Z) (junk : Z) (name : str) (T : Threads) : outcome (Threads * Actor) :=
  T ← Thread_setTask (Some (Task_new junk)) id (Thread_new id name T);
  Ok (T, mkActor id false).

Definition Actor_sendFinishSignal (a : Actor) : Actor := mkActor (ac_thread a) true.
Definition Actor_isFinishing (a : Actor) : bool := m_isFinishing a.

Definition Actor_shutdown (a : Actor) (T : Threads) : outcome (Threads * Actor) :=
  let a := Actor_sendFinishSignal a in
  T ← Thread_join (ac_thread a) T; Ok (T, a).

(** The destructor, down to that of [Thread]. *)
Definition Actor_delete (a : Actor) (T : Threads) : outcome Threads :=
  '(T, a) ← (if negb (Actor_isFinishing a) then Actor_shutdown a T else Ok (T, a));
  Ok (Thread_delete (ac_thread a) T).

(** ** What the operations do to a live object *)

Lemma setTask_spec task id th T : ts_objects T !! id = Some th →
  Thread_setTask (Some task) id T =
    Ok (set_thread id (mkThread (Some task) (m_name th) (m_started th) (m_joined th) (m_threadID th) (m_priority th)) T).
Proof. intros E. unfold Thread_setTask, thread_at. by rewrite E. Qed.

Definition name_calls (tid : Z) (name : str) : list PthreadCall :=
  if (0 <? length name)%nat then [pthread_setname_np tid name] else [].

Lemma start_spec stackSize created id th task T : ts_objects T !! id = Some th → m_task th = Some task →
  Thread_start stackSize created id T =
    match created with
    | None => Throw RuntimeError
    | Some tid =>
        if (MAX_THREAD_NAME_LENGTH <=? length (m_name th))%nat then Undef AssertionFailed
        else Ok (mkThreads (<[id := mkThread (Some task) (m_name th) true (m_joined th) tid (m_priority th)]> (ts_objects T))
               (ts_THREADS T) (ts_calls T ++ ((id,.) <$> pthread_create tid :: name_calls tid (m_name th))))
    end.
Proof.
  intros E Et. unfold Thread_start, thread_at. rewrite E. cbn [mbind outcome_bind]. destruct created as [tid|]; [|done].
  rewrite Et. unfold Thread_setThreadName, thread_at, add_call, set_thread, name_calls.
  cbn [ts_objects ts_THREADS ts_calls]. rewrite lookup_insert_eq. cbn [mbind outcome_bind m_name m_threadID].
  destruct (Nat.leb_spec MAX_THREAD_NAME_LENGTH (length (m_name th))) as [Hl|Hl]; unfold MAX_THREAD_NAME_LENGTH in *.
  - destruct (Nat.ltb_spec 0 (length (m_name th))); [|lia]. by destruct (Nat.ltb_spec (length (m_name th)) 16); [lia|].
  - destruct (Nat.ltb_spec (length (m_name th)) 16); [|lia].
    destruct (0 <? length (m_name th))%nat; [|done]. cbn [ts_objects ts_THREADS ts_calls]. by rewrite <- app_assoc.
Qed.

Definition native_priority (priority : ThreadPriority) : Z :=
  match priority with IDLE => 19 | BELOW_NORMAL => 1 | NORMAL => 0 | ABOVE_NORMAL => -1 | CRITICAL => -20 end.

Lemma setPriority_spec self priority id th T : ts_objects T !! id = Some th → m_started th = true →
  Thread_setPriority self priority id T =
    Ok (mkThreads (<[id := mkThread (m_task th) (m_name th) true (m_joined th) (m_threadID th) priority]> (ts_objects T))
      (ts_THREADS T) (ts_calls T ++ [(id, pthread_setschedparam self (native_priority priority))]), false).
Proof.
  intros E Es. unfold Thread_setPriority, thread_at. rewrite E. cbn [mbind outcome_bind]. rewrite Es. by destruct priority.
Qed.

Lemma pin_spec core ret id th T : ts_objects T !! id = Some th → m_started th = true → 0 <= core →
  Thread_pinToCPUCore core ret id T = Ok (add_call id (pthread_setaffinity_np (m_threadID th) core) T, ret).
Proof.
  intros E Es Hc. unfold Thread_pinToCPUCore, thread_at. rewrite E. cbn [mbind outcome_bind]. rewrite Es.
  by destruct (Z.ltb_spec core 0); [lia|].
Qed.

Lemma join_spec id th T : ts_objects T !! id = Some th → m_started th = true → m_joined th = false →
  Thread_join id T =
    Ok (mkThreads (<[id := mkThread (m_task th) (m_name th) true true (m_threadID th) (m_priority th)]> (ts_objects T))
      (ts_THREADS T) (ts_calls T ++ [(id, pthread_join (m_threadID th))])).
Proof.
  intros E Es Ej. unfold Thread_join, thread_at. rewrite E. cbn [mbind outcome_bind].
  unfold Thread_isJoiningOk. by rewrite Es, Ej.
Qed.

(** ** Joining *)

Definition is_join (c : PthreadCall) : bool := match c with pthread_join _ => true | _ => false end.

(** The joins that the object [id] has asked for. *)
Definition joins (id : Z) (T : Threads) : list (Z * PthreadCall) :=
  filter (λ c, c.1 = id ∧ is_join c.2 = true) (ts_calls T).

(** What the program does with its thread objects. New objects get addresses that none
    had before. *)
Inductive thread_step : Threads → Threads → Prop :=
  | td_new id name T : id ∉ ts_THREADS T → thread_step T (Thread_new id name T)
  | td_delete id T : thread_step T (Thread_delete id T)
  | td_setTask task id T T' : Thread_setTask task id T = Ok T' → thread_step T T'
  | td_start stackSize created id T T' : Thread_start stackSize created id T = Ok T' → thread_step T T'
  | td_run callback id T T' : Thread_internalThreadFunction callback id T = Ok T' → thread_step T T'
  | td_setPriority self priority id T T' b : Thread_setPriority self priority id T = Ok (T', b) → thread_step T T'
  | td_pin core ret id T T' r : Thread_pinToCPUCore core ret id T = Ok (T', r) → thread_step T T'
  | td_join id T T' : Thread_join id T = Ok T' → thread_step T T'
  | td_detach id T T' : Thread_detach id T = Ok T' → thread_step T T'.

Record threads_inv (T : Threads) : Prop := {
  th_registered id : is_Some (ts_objects T !! id) → id ∈ ts_THREADS T;
  th_callers c : c ∈ ts_calls T → c.1 ∈ ts_THREADS T;
  th_created id th : ts_objects T !! id = Some th → m_started th = true →
    (id, pthread_create (m_threadID th)) ∈ ts_calls T;
  th_joins id : (length (joins id T) <= 1)%nat;
  th_joined id th : ts_objects T !! id = Some th → m_joined th = false → joins id T = []
}.

Lemma joins_add id id' c T : joins id (add_call id' c T) = joins id T ++ (if decide (id' = id ∧ is_join c = true) then [(id', c)] else []).
Proof. unfold joins, add_call. simpl. rewrite filter_app. by rewrite filter_cons, filter_nil. Qed.

Lemma threads_inv_empty : threads_inv Threads_empty.
Proof.
  split; simpl; [by intros id [? ?]|by intros c Hc%elem_of_nil|done| |done].
  intros id. unfold joins. simpl. lia.
Qed.

(** A step that changes one live object and keeps what it has joined and created. *)
Lemma set_thread_inv id th th' T :
  threads_inv T → ts_objects T !! id = Some th → m_joined th' = m_joined th →
  (m_started th' = true → m_started th = true ∧ m_threadID th' = m_threadID th) →
  threads_inv (set_thread id th' T).
Proof.
  intros [H1 H2 H3 H4 H5] E Ej Es. split; simpl; try done.
  - intros i [x Hx]. destruct (decide (i = id)) as [->|]; [apply H1; eauto|]. rewrite lookup_insert_ne in Hx by done. apply H1; eauto.
  - intros i x Hx Hs. destruct (decide (i = id)) as [->|].
    + rewrite lookup_insert_eq in Hx. simplify_eq. destruct (Es Hs) as [Hs' ->]. by apply H3.
    + rewrite lookup_insert_ne in Hx by done. by apply H3.
  - intros i x Hx Hj. change (joins i (set_thread id th' T)) with (joins i T). destruct (decide (i = id)) as [->|].
    + rewrite lookup_insert_eq in Hx. simplify_eq. apply (H5 id th); [done|congruence].
    + rewrite lookup_insert_ne in Hx by done. by apply (H5 i x).
Qed.

Lemma add_call_inv id c T : threads_inv T → id ∈ ts_THREADS T → is_join c = false → threads_inv (add_call id c T).
Proof.
  intros [H1 H2 H3 H4 H5] Hid Hc. assert (∀ i, joins i (add_call id c T) = joins i T) as Ej.
  { intros i. rewrite joins_add, decide_False; [by rewrite app_nil_r|]. rewrite Hc. by intros [_ ?]. }
  split; simpl; try done.
  - intros x [Hx|Hx%list_elem_of_singleton]%elem_of_app; [by apply H2|by subst].
  - intros i th E Hs. apply elem_of_app. left. by apply H3.
  - intros i. by rewrite Ej.
  - intros i th E Hj. rewrite Ej. by eapply H5.
Qed.

Lemma thread_at_inv id T th : thread_at id T = Ok th → ts_objects T !! id = Some th.
Proof. unfold thread_at. destruct (ts_objects T !! id); intros; by simplify_eq. Qed.

Lemma start_inv stackSize created id T T' : threads_inv T → Thread_start stackSize created id T = Ok T' → threads_inv T'.
Proof.
  intros Hi R. unfold Thread_start in R. apply bind_Ok_inv in R as (th & E%thread_at_inv & R).
  destruct created as [tid|]; [|done]. destruct (m_task th) as [task|]; [|done].
  set (th' := mkThread (Some task) (m_name th) true (m_joined th) tid (m_priority th)) in *.
  assert (id ∈ ts_THREADS T) as Hid by (apply (th_registered _ Hi); eauto).
  assert (threads_inv (add_call id (pthread_create tid) (set_thread id th' T))) as Hi'.
  { destruct (add_call_inv id (pthread_create tid) T Hi Hid eq_refl) as [H1 H2 H3 H4 H5]. split; simpl; try done.
    - intros i [x Hx]. destruct (decide (i = id)) as [->|]; [done|]. rewrite lookup_insert_ne in Hx by done. apply H1; eauto.
    - intros i x Hx Hs. destruct (decide (i = id)) as [->|].
      + rewrite lookup_insert_eq in Hx. simplify_eq. apply elem_of_app. right. by apply list_elem_of_singleton.
      + rewrite lookup_insert_ne in Hx by done. by apply H3.
    - intros i x Hx Hj. change (joins i (add_call id (pthread_create tid) T) = []). destruct (decide (i = id)) as [->|].
      + rewrite lookup_insert_eq in Hx. simplify_eq. by apply (H5 id th).
      + rewrite lookup_insert_ne in Hx by done. by apply (H5 i x). }
  unfold Thread_setThreadName in R. apply bind_Ok_inv in R as (th2 & _ & R).
  destruct (0 <? _)%nat; [|by simplify_eq]. destruct (_ <? MAX_THREAD_NAME_LENGTH)%nat; simplify_eq. by apply add_call_inv.
Qed.

Lemma join_inv id T T' : threads_inv T → Thread_join id T = Ok T' → threads_inv T'.
Proof.
  intros Hi R. unfold Thread_join in R. apply bind_Ok_inv in R as (th & E%thread_at_inv & R).
  destruct (Thread_isJoiningOk th) eqn:Ej; simpl in R; [|by simplify_eq]. simplify_eq.
  unfold Thread_isJoiningOk in Ej. apply negb_true_iff, orb_false_iff in Ej as [Es Ej]. apply negb_false_iff in Es.
  assert (id ∈ ts_THREADS T) as Hid by (apply (th_registered _ Hi); eauto). destruct Hi as [H1 H2 H3 H4 H5].
  set (th' := mkThread _ _ _ true _ _). set (T1 := add_call id (pthread_join (m_threadID th)) T).
  assert (∀ i, joins i (set_thread id th' T1) = joins i T ++ (if decide (id = i) then [(id, pthread_join (m_threadID th))] else [])) as Hj.
  { intros i. change (joins i (set_thread id th' T1)) with (joins i T1). unfold T1. rewrite joins_add.
    f_equal. simpl. destruct (decide (id = i)) as [->|Hne]; [by rewrite decide_True|].
    rewrite decide_False; [done|]. by intros [? _]. }
  split; simpl.
  - intros i [x Hx]. destruct (decide (i = id)) as [->|]; [exact Hid|]. rewrite lookup_insert_ne in Hx by done. apply H1; eauto.
  - intros c [Hc|Hc%list_elem_of_singleton]%elem_of_app; [by apply H2|by subst].
  - intros i x Hx Hs. apply elem_of_app. left. destruct (decide (i = id)) as [->|].
    + rewrite lookup_insert_eq in Hx. simplify_eq. exact (H3 id th E Es).
    + rewrite lookup_insert_ne in Hx by done. by apply H3.
  - intros i. rewrite Hj. case_decide as Hd; [|rewrite app_nil_r; apply H4].
    subst i. rewrite (H5 id th) by done. simpl. lia.
  - intros i x Hx Hjx. rewrite Hj. destruct (decide (i = id)) as [->|].
    + rewrite lookup_insert_eq in Hx. by simplify_eq.
    + rewrite lookup_insert_ne in Hx by done. rewrite decide_False by done. rewrite app_nil_r. by apply (H5 i x).
Qed.

Lemma new_inv id name T : threads_inv T → id ∉ ts_THREADS T → threads_inv (Thread_new id name T).
Proof.
  intros [H1 H2 H3 H4 H5] Hid. split; simpl.
  - intros i [x Hx]. apply elem_of_app. destruct (decide (i = id)) as [->|]; [right; by apply list_elem_of_singleton|].
    rewrite lookup_insert_ne in Hx by done. left. apply H1; eauto.
  - intros c Hc. apply elem_of_app. left. by apply H2.
  - intros i x Hx Hs. destruct (decide (i = id)) as [->|]; [rewrite lookup_insert_eq in Hx; by simplify_eq|].
    rewrite lookup_insert_ne in Hx by done. by apply H3.
  - exact H4.
  - intros i x Hx Hj. change (joins i T = []). destruct (decide (i = id)) as [->|].
    + apply elem_of_nil_inv. intros c [[Ec _] Hc]%list_elem_of_filter. apply Hid. rewrite <- Ec. by apply H2.
    + rewrite lookup_insert_ne in Hx by done. by apply (H5 i x).
Qed.

Lemma thread_step_inv T T' : threads_inv T → thread_step T T' → threads_inv T'.
Proof.
  intros Hi Hs. destruct Hs as [id name T Hn|id T|task id T T' R|st cr id T T' R|cb id T T' R|self pr id T T' b R
    |core ret id T T' r R|id T T' R|id T T' R].
  - by apply new_inv.
  - destruct Hi as [H1 H2 H3 H4 H5]. split; simpl; try done.
    + intros i [x [_ Hx]%lookup_delete_Some]. apply H1; eauto.
    + intros i x [_ Hx]%lookup_delete_Some. by apply H3.
    + intros i x [_ Hx]%lookup_delete_Some. by apply H5.
  - unfold Thread_setTask in R. apply bind_Ok_inv in R as (th & E%thread_at_inv & R). destruct task; simplify_eq.
    by eapply set_thread_inv.
  - by eapply start_inv.
  - unfold Thread_internalThreadFunction in R. apply bind_Ok_inv in R as (th & E%thread_at_inv & R).
    destruct (m_task th); simplify_eq. by eapply set_thread_inv.
  - unfold Thread_setPriority in R. apply bind_Ok_inv in R as (th & E%thread_at_inv & R).
    destruct (m_started th) eqn:Es; [|done]. simpl in R. apply bind_Ok_inv in R as (nd & _ & R). simplify_eq.
    eapply set_thread_inv; [|exact E|done|simpl; by rewrite Es].
    apply add_call_inv; [done|apply (th_registered _ Hi); eauto|done].
  - unfold Thread_pinToCPUCore in R. apply bind_Ok_inv in R as (th & E%thread_at_inv & R).
    destruct (negb _); [done|]. case_match; simplify_eq. apply add_call_inv; [done|apply (th_registered _ Hi); eauto|done].
  - by eapply join_inv.
  - unfold Thread_detach in R. apply bind_Ok_inv in R as (th & E%thread_at_inv & R). simplify_eq.
    apply add_call_inv; [done|apply (th_registered _ Hi); eauto|done].
Qed.

Lemma threads_inv_reachable T T' : rtc thread_step T T' → threads_inv T → threads_inv T'.
Proof. induction 1; eauto using thread_step_inv. Qed.

(** However the program uses its thread objects, in any order: no object joins twice
    (a second [pthread_join] crashes), and whatever is started and alive was created. *)
Theorem threads_join_once (T : Threads) (Hreach : rtc thread_step Threads_empty T) :
  (∀ id, (length (joins id T) <= 1)%nat) ∧
  (∀ id th, ts_objects T !! id = Some th → m_started th = true →
    (id, pthread_create (m_threadID th)) ∈ ts_calls T).
Proof.
  pose proof (threads_inv_reachable _ _ Hreach threads_inv_empty) as [_ _ H3 H4 _]. by split.
Qed.

(** ** A run: an actor is started, runs into an exception, and is shut down twice *)

Definition demo_actor_run : outcome Threads :=
  '(T, a) ← Actor_new 64 0 ($"LoggerThread") Threads_empty;
  T ← Thread_start 0 (Some 7001) 64 T;
  T ← Thread_internalThreadFunction (inr OutOfRange) 64 T;
  '(T, a) ← Actor_shutdown a T;
  '(T, _) ← Actor_shutdown a T;
  Ok T.

Definition demo_threads : Threads := match demo_actor_run with Ok T => T | _ => Threads_empty end.

Lemma demo_threads_reach : rtc thread_step Threads_empty demo_threads.
Proof.
  eapply rtc_l; [apply (td_new 64 ($"LoggerThread")); apply not_elem_of_nil|].
  eapply rtc_l; [by eapply (td_setTask (Some (Task_new 0)) 64)|].
  eapply rtc_l; [by eapply (td_start 0 (Some 7001) 64)|].
  eapply rtc_l; [by eapply (td_run (inr OutOfRange) 64)|].
  eapply rtc_l; [by eapply (td_join 64)|]. apply rtc_once. by eapply (td_join 64).
Qed.

Lemma threads_join_once_witness :
  (∀ id, (length (joins id demo_threads) <= 1)%nat) ∧
  (∀ id th, ts_objects demo_threads !! id = Some th → m_started th = true →
    (id, pthread_create (m_threadID th)) ∈ ts_calls demo_threads).
Proof. apply (threads_join_once demo_threads demo_threads_reach). Defined.
