(* ===== verification/ThreadPool.v ===== *)
(** * [core/concurrency/thread_pool.cpp]

    Starting and stopping the pool of worker threads: queues, names, pinning. The tasks
    and their queues are in [CentralOrderBook.v] and [ThreadedMatching.v]; that the workers
    get through them is shown in [ThreadPoolLiveness.v]. *)
From Stdlib Require Import ZArith Lia Ascii String.
From stdpp Require Import base decidable sets list gmap strings relations.
From S2P Require Import Prelude.
From S2P Require Import MachineInt.
From S2P Require Import StringUtility.
From S2P Require Import Configuration.
From S2P Require Import ServerConfiguration.
From S2P Require Import Threads.
Local Open Scope Z_scope.

Record ThreadPool (TQ : Type) : Type := mkThreadPool {
  m_threads : list Z;          (** the thread objects *)
  m_threadArguments : list Z;  (** the queue index of each *)
  m_threadQueues : list TQ;
  m_numOfThreads : Z;
  m_isShuttingDown : bool
}.
Arguments mkThreadPool {TQ}. Arguments m_threads {TQ}. Arguments m_threadArguments {TQ}.
Arguments m_threadQueues {TQ}. Arguments m_numOfThreads {TQ}. Arguments m_isShuttingDown {TQ}.

Definition ThreadPool_new {TQ} : ThreadPool TQ := mkThreadPool [] [] [] 0 false.

(** What the system answers while the pool starts: the addresses of the new thread
    objects, the pthreads created for them, and the processor. *)
Record PoolPlatform : Type := mkPoolPlatform {
  pp_self : Z;                  (** the pthread that runs [initialise] *)
  pp_address : nat → Z;
  pp_created : nat → option Z;
  pp_pinned : nat → Z;
  pp_numberOfCores : Z;
  pp_isHyperThreading : bool
}.

Section pool.
Context {TQ : Type} (newQueue : Z → TQ) (pp : PoolPlatform) (args : ThreadPoolArguments).

(** The cores to use, and whether these are those with an even index. *)
Definition useProcessorsWithEvenIndex : bool := pp_isHyperThreading pp && negb (tp_hyperThreading args).
Definition numCores : Z :=
  if useProcessorsWithEvenIndex then pp_numberOfCores pp / 2 else pp_numberOfCores pp.

Definition core_of (i : nat) : outcome Z :=
  if numCores =? 0 then Undef DivisionByZero
  else
    let coreID := to_int (Z.of_nat i mod numCores) in
    if useProcessorsWithEvenIndex then int_mul coreID 2 else Ok coreID.

(** One round of the loop of [initialise]. *)
Definition ThreadPool_addWorker (i : nat) (pool : ThreadPool TQ) (T : Threads) : outcome (ThreadPool TQ * Threads) :=
  let queues := m_threadQueues pool ++ [newQueue (tp_workQueueSizePerThread args)] in
  let arguments := m_threadArguments pool ++ [Z.of_nat i] in
  threadName ← vec_at (Z.of_nat (length (m_threads pool))) (tp_threadNames args);
  let id := pp_address pp i in
  let T := Thread_new id threadName T in
  let threads := m_threads pool ++ [id] in
  T ← Thread_setTask (Some (Task_new 0)) id T;
  T ← Thread_start (tp_threadStackSize args) (pp_created pp i) id T;
  '(T, _) ← Thread_setPriority (pp_self pp) (tp_threadPriority args) id T;
  T ← (if tp_pinThreadsToCores args then
         coreID ← core_of i;
         '(T, _) ← Thread_pinToCPUCore coreID (pp_pinned pp i) id T;
         Ok T
       else Ok T);
  Ok (mkThreadPool threads arguments queues (m_numOfThreads pool) (m_isShuttingDown pool), T).

Fixpoint ThreadPool_addWorkers (i : nat) (n : nat) (pool : ThreadPool TQ) (T : Threads) : outcome (ThreadPool TQ * Threads) :=
  match n with
  | O => Ok (pool, T)
  | S n' => '(pool, T) ← ThreadPool_addWorker i pool T; ThreadPool_addWorkers (S i) n' pool T
  end.

Definition ThreadPool_initialise (pool : ThreadPool TQ) (T : Threads) : outcome (ThreadPool TQ * Threads) :=
  if (length (tp_threadNames args) =? 0)%nat then Undef AssertionFailed
  else ThreadPool_addWorkers 0 (length (tp_threadNames args)) pool T.

Fixpoint join_all (ids : list Z) (T : Threads) : outcome Threads :=
  match ids with [] => Ok T | id :: ids' => T ← Thread_join id T; join_all ids' T end.

Definition ThreadPool_shutdown (pool : ThreadPool TQ) (T : Threads) : outcome (ThreadPool TQ * Threads) :=
  let pool := mkThreadPool (m_threads pool) (m_threadArguments pool) (m_threadQueues pool) (m_numOfThreads pool) true in
  T ← join_all (m_threads pool) T; Ok (pool, T).
End pool.

(** ** Starting the workers *)

Section start.
Context {TQ : Type} (newQueue : Z → TQ) (pp : PoolPlatform) (args : ThreadPoolArguments).
Context (Hcores : 0 <= pp_numberOfCores pp <= INT_MAX).

(** The core that worker [i] is pinned to. *)
Definition worker_core (i : nat) : Z :=
  if useProcessorsWithEvenIndex pp args then 2 * (Z.of_nat i mod numCores pp args) else Z.of_nat i mod numCores pp args.

Lemma core_of_spec i : numCores pp args ≠ 0 →
  core_of pp args i = Ok (worker_core i) ∧ 0 <= worker_core i < pp_numberOfCores pp ∧
  (useProcessorsWithEvenIndex pp args = true → Z.Even (worker_core i)).
Proof.
  intros Hn. unfold core_of. destruct (Z.eqb_spec (numCores pp args) 0); [done|].
  assert (0 < numCores pp args ∧ (if useProcessorsWithEvenIndex pp args then 2 * numCores pp args <= pp_numberOfCores pp
    else numCores pp args = pp_numberOfCores pp)) as [H0 H1].
  { unfold numCores in *. case_match; [|split; [lia|done]]. dlia. }
  pose proof (Z.mod_pos_bound (Z.of_nat i) _ H0) as Hm. unfold worker_core.
  destruct (useProcessorsWithEvenIndex pp args).
  - rewrite to_int_small by mlia. rewrite int_mul_Ok by mlia. split; [f_equal; lia|]. split; [lia|].
    intros _. by eexists.
  - rewrite to_int_small by mlia. split; [done|]. split; [lia|done].
Qed.

(** How the start of worker [i] can fail. *)
Definition worker_failure (i : nat) (name : str) : option (exn + ub) :=
  match pp_created pp i with
  | None => Some (inl RuntimeError)
  | Some _ =>
      if (MAX_THREAD_NAME_LENGTH <=? length name)%nat then Some (inr AssertionFailed)
      else if tp_pinThreadsToCores args && (numCores pp args =? 0) then Some (inr DivisionByZero)
      else None
  end.

Fixpoint first_failure (i : nat) (names : list str) : option (exn + ub) :=
  match names with
  | [] => None
  | name :: names' =>
      match worker_failure i name with Some f => Some f | None => first_failure (S i) names' end
  end.

(** The pthread calls that starting worker [i] makes. Its priority is not among what they
    set: [setPriority] passes [pthread_self], which is the thread that runs [initialise]. *)
Definition worker_calls (i : nat) (name : str) : list (Z * PthreadCall) :=
  let tid := default 0 (pp_created pp i) in
  (pp_address pp i,.) <$>
    (pthread_create tid :: name_calls tid name) ++
    [pthread_setschedparam (pp_self pp) (native_priority (tp_threadPriority args))] ++
    (if tp_pinThreadsToCores args then [pthread_setaffinity_np tid (worker_core i)] else []).

Definition started_thread (i : nat) (name : str) : Thread :=
  mkThread (Some (Task_new 0)) name true false (default 0 (pp_created pp i)) (tp_threadPriority args).

Definition worker_pool (i : nat) : ThreadPool TQ :=
  mkThreadPool (pp_address pp <$> seq 0 i) (Z.of_nat <$> seq 0 i)
    (replicate i (newQueue (tp_workQueueSizePerThread args))) 0 false.

Definition worker_started (i : nat) (name : str) (T : Threads) : Threads :=
  mkThreads (<[pp_address pp i := started_thread i name]> (ts_objects T)) (ts_THREADS T ++ [pp_address pp i])
    (ts_calls T ++ worker_calls i name).

Lemma worker_pool_S i : worker_pool (S i) =
  mkThreadPool (m_threads (worker_pool i) ++ [pp_address pp i]) (m_threadArguments (worker_pool i) ++ [Z.of_nat i])
    (m_threadQueues (worker_pool i) ++ [newQueue (tp_workQueueSizePerThread args)]) 0 false.
Proof. unfold worker_pool. by rewrite seq_S, !fmap_app, replicate_S_end. Qed.

Lemma addWorker_spec i name T : tp_threadNames args !! i = Some name →
  ThreadPool_addWorker newQueue pp args i (worker_pool i) T =
    match worker_failure i name with
    | Some (inl e) => Throw e
    | Some (inr u) => Undef u
    | None => Ok (worker_pool (S i), worker_started i name T)
    end.
Proof.
  intros En. unfold ThreadPool_addWorker, worker_failure.
  assert (length (m_threads (worker_pool i)) = i) as -> by (simpl; by rewrite length_fmap, length_seq).
  rewrite (vec_at_nat _ _ _ En). cbn [mbind outcome_bind].
  set (id := pp_address pp i). set (T1 := Thread_new id name T).
  rewrite (setTask_spec _ id (mkThread None name false false 0 NORMAL)) by apply lookup_insert_eq. cbn [mbind outcome_bind].
  rewrite (start_spec _ _ id (mkThread (Some (Task_new 0)) name false false 0 NORMAL) (Task_new 0)) by (apply lookup_insert_eq || done).
  destruct (pp_created pp i) as [tid|] eqn:Ec; [|done]. cbn [m_name m_joined m_priority].
  destruct (MAX_THREAD_NAME_LENGTH <=? length name)%nat; [done|]. cbn [mbind outcome_bind].
  rewrite (setPriority_spec _ _ id (mkThread (Some (Task_new 0)) name true false tid NORMAL)) by (apply lookup_insert_eq || done).
  cbn [mbind outcome_bind m_task m_name m_joined m_threadID ts_objects ts_THREADS ts_calls set_thread].
  unfold worker_started, started_thread, worker_calls. rewrite Ec, !insert_insert_eq. fold id. rewrite worker_pool_S. fold id.
  destruct (tp_pinThreadsToCores args); cbn [andb].
  - destruct (Z.eqb_spec (numCores pp args) 0) as [E0|E0]; [unfold core_of; by rewrite E0|].
    destruct (core_of_spec i E0) as (-> & Hc & _). cbn [mbind outcome_bind].
    rewrite (pin_spec _ _ id (mkThread (Some (Task_new 0)) name true false tid (tp_threadPriority args)))
      by (apply lookup_insert_eq || done || apply Hc).
    unfold add_call, T1, Thread_new. cbn [ts_objects ts_THREADS ts_calls m_threadID]. rewrite !insert_insert_eq.
    by rewrite <- !app_assoc, !fmap_app.
  - unfold T1, Thread_new. cbn [ts_objects ts_THREADS ts_calls]. rewrite !insert_insert_eq.
    by rewrite <- !app_assoc, !fmap_app.
Qed.

Fixpoint workers_started (i : nat) (names : list str) (T : Threads) : Threads :=
  match names with [] => T | name :: names' => workers_started (S i) names' (worker_started i name T) end.

Lemma addWorkers_spec i names T : drop i (tp_threadNames args) = names →
  ThreadPool_addWorkers newQueue pp args i (length names) (worker_pool i) T =
    match first_failure i names with
    | Some (inl e) => Throw e
    | Some (inr u) => Undef u
    | None => Ok (worker_pool (i + length names), workers_started i names T)
    end.
Proof.
  revert i T. induction names as [|name names IH]; intros i T Hd; cbn [length ThreadPool_addWorkers first_failure workers_started].
  { by rewrite Nat.add_0_r. }
  assert (tp_threadNames args !! i = Some name) as En.
  { pose proof (lookup_drop (tp_threadNames args) i 0) as E. rewrite Hd, Nat.add_0_r in E. by rewrite <- E. }
  rewrite (addWorker_spec i name T En). destruct (worker_failure i name) as [[e|u]|]; [done|done|]. cbn [mbind outcome_bind].
  rewrite IH; [by rewrite <- Nat.add_succ_comm|].
  rewrite (drop_S _ name) in Hd by done. by simplify_eq.
Qed.

(** The calls for all workers, in order. *)
Fixpoint all_calls (i : nat) (names : list str) : list (Z * PthreadCall) :=
  match names with [] => [] | name :: names' => worker_calls i name ++ all_calls (S i) names' end.

Lemma workers_started_calls i names T : ts_calls (workers_started i names T) = ts_calls T ++ all_calls i names.
Proof.
  revert i T. induction names as [|name names IH]; intros i T; simpl; [by rewrite app_nil_r|].
  rewrite IH. simpl. by rewrite <- app_assoc.
Qed.

Context (Haddress : ∀ i j, pp_address pp i = pp_address pp j → i = j).

Lemma workers_started_other i names T id : (∀ j, (i <= j)%nat → id ≠ pp_address pp j) →
  ts_objects (workers_started i names T) !! id = ts_objects T !! id.
Proof.
  revert i T. induction names as [|name names IH]; intros i T Hid; simpl; [done|].
  rewrite IH by (intros j Hj; apply Hid; lia). simpl. apply lookup_insert_ne. intros E. by apply (Hid i).
Qed.

Lemma workers_started_objects i names T k name : names !! k = Some name →
  ts_objects (workers_started i names T) !! pp_address pp (i + k) = Some (started_thread (i + k) name).
Proof.
  revert i k T. induction names as [|x names IH]; intros i [|k] T E; simpl in *; simplify_eq.
  - rewrite Nat.add_0_r, workers_started_other; [apply lookup_insert_eq|]. intros j Hj Ej%Haddress. lia.
  - rewrite <- Nat.add_succ_comm. by apply IH.
Qed.

(** Joining workers that are started and not yet joined. *)
Lemma join_all_spec i n T :
  (∀ k, (k < n)%nat → ∃ name, ts_objects T !! pp_address pp (i + k) = Some (started_thread (i + k) name)) →
  ∃ T', join_all (pp_address pp <$> seq i n) T = Ok T' ∧
    ts_calls T' = ts_calls T ++ ((λ k, (pp_address pp k, pthread_join (default 0 (pp_created pp k)))) <$> seq i n).
Proof.
  revert i T. induction n as [|n IH]; intros i T Ht; simpl; [exists T; by rewrite app_nil_r|].
  destruct (Ht 0%nat) as [name E]; [lia|]. rewrite Nat.add_0_r in E.
  rewrite (join_spec _ _ _ E) by done. cbn [mbind outcome_bind].
  set (T1 := mkThreads _ _ _). destruct (IH (S i) T1) as (T' & E' & Ec).
  - intros k Hk. destruct (Ht (S k)) as [nk Ek]; [lia|]. rewrite <- Nat.add_succ_comm in Ek. exists nk.
    unfold T1. simpl. rewrite lookup_insert_ne; [done|]. intros Eq%Haddress. lia.
  - exists T'. split; [done|]. rewrite Ec. unfold T1. simpl. by rewrite <- app_assoc.
Qed.
End start.

(** C34: Starting the pool. The first worker that cannot be started decides: no thread gives
    [runtime_error], a name of sixteen characters or more aborts the process, and pinning
    on one core that reports hyper-threading divides by zero. Otherwise worker [i] has
    queue [i] and is created, named and pinned, in this order, to a core that exists and,
    when hyper-threads are to be avoided, has an even number; the priority goes, once per
    worker, to the thread that runs [initialise] and never to a worker ([setPriority] uses
    [pthread_self]); and [shutdown] joins every worker once. *)
Theorem pool_initialise_outcome {TQ} (newQueue : Z → TQ) (pp : PoolPlatform) (args : ThreadPoolArguments) (T : Threads)
    (Hnames : tp_threadNames args ≠ []) (Hcores : 0 <= pp_numberOfCores pp <= INT_MAX)
    (Haddress : ∀ i j, pp_address pp i = pp_address pp j → i = j) :
  let names := tp_threadNames args in
  let n := length names in
  match first_failure pp args 0 names with
  | Some (inl e) => ThreadPool_initialise newQueue pp args ThreadPool_new T = Throw e
  | Some (inr u) => ThreadPool_initialise newQueue pp args ThreadPool_new T = Undef u
  | None =>
      ∃ pool T' T'', ThreadPool_initialise newQueue pp args ThreadPool_new T = Ok (pool, T') ∧
        m_threads pool = pp_address pp <$> seq 0 n ∧ m_threadArguments pool = Z.of_nat <$> seq 0 n ∧
        m_threadQueues pool = replicate n (newQueue (tp_workQueueSizePerThread args)) ∧
        ts_calls T' = ts_calls T ++ all_calls pp args 0 names ∧
        (tp_pinThreadsToCores args = true → ∀ i, 0 <= worker_core pp args i < pp_numberOfCores pp ∧
          (pp_isHyperThreading pp = true → tp_hyperThreading args = false → Z.Even (worker_core pp args i))) ∧
        ThreadPool_shutdown pool T' =
          Ok (mkThreadPool (m_threads pool) (m_threadArguments pool) (m_threadQueues pool) (m_numOfThreads pool) true, T'') ∧
        ts_calls T'' = ts_calls T' ++
          ((λ k, (pp_address pp k, pthread_join (default 0 (pp_created pp k)))) <$> seq 0 n)
  end.
Proof.
  intros names n. unfold ThreadPool_initialise. fold names. fold n.
  assert ((n =? 0)%nat = false) as -> by (destruct names eqn:E; unfold n; by simpl).
  change ThreadPool_new with (worker_pool newQueue pp args 0).
  pose proof (addWorkers_spec newQueue pp args Hcores 0 names T eq_refl) as Hrun. fold n in Hrun. rewrite Hrun.
  destruct (first_failure pp args 0 names) as [[e|u]|] eqn:Ef; [done|done|].
  set (T1 := workers_started pp args 0 names T).
  destruct (join_all_spec pp args Haddress 0 n T1) as (T'' & Ej & Ec).
  { intros k Hk. destruct (lookup_lt_is_Some_2 names k Hk) as [name E]. exists name.
    by apply (workers_started_objects pp args Haddress 0). }
  exists (worker_pool newQueue pp args n), T1, T''. split; [done|]. split_and!; try done.
  - apply workers_started_calls.
  - intros Hp i. assert (numCores pp args ≠ 0) as H0.
    { intros H0. destruct names as [|name names'] eqn:En; [done|]. simpl in Ef. unfold worker_failure in Ef.
      rewrite Hp, H0 in Ef. simpl in Ef. by repeat case_match. }
    destruct (core_of_spec newQueue pp args Hcores i H0) as (_ & H1 & H2). split; [done|].
    intros E1 E2. apply H2. unfold useProcessorsWithEvenIndex. by rewrite E1, E2.
  - unfold ThreadPool_shutdown. simpl. by rewrite Ej.
Qed.

(** Two workers on four cores, without hyper-threads. *)
Definition demo_pool : PoolPlatform := mkPoolPlatform 1 (λ i, 100 + Z.of_nat i) (λ i, Some (7000 + Z.of_nat i)) (λ _, 0) 4 true.
Definition demo_pool_args : ThreadPoolArguments := mkThreadPoolArguments true false 16 0 NORMAL [$"AAA"; $"BBB"].

Lemma pool_initialise_outcome_witness :
  ∃ pool T' T'', ThreadPool_initialise (λ n, n) demo_pool demo_pool_args ThreadPool_new Threads_empty = Ok (pool, T') ∧
    m_threads pool = [100; 101] ∧ m_threadArguments pool = [0; 1] ∧ m_threadQueues pool = [16; 16] ∧
    ts_calls T' =
      [(100, pthread_create 7000); (100, pthread_setname_np 7000 ($"AAA")); (100, pthread_setschedparam 1 0);
       (100, pthread_setaffinity_np 7000 0);
       (101, pthread_create 7001); (101, pthread_setname_np 7001 ($"BBB")); (101, pthread_setschedparam 1 0);
       (101, pthread_setaffinity_np 7001 2)] ∧
    (true = true → ∀ i, 0 <= worker_core demo_pool demo_pool_args i < 4 ∧
      (true = true → false = false → Z.Even (worker_core demo_pool demo_pool_args i))) ∧
    ThreadPool_shutdown pool T' =
      Ok (mkThreadPool (m_threads pool) (m_threadArguments pool) (m_threadQueues pool) (m_numOfThreads pool) true, T'') ∧
    ts_calls T'' = ts_calls T' ++ [(100, pthread_join 7000); (101, pthread_join 7001)].
Proof.
  apply (pool_initialise_outcome (λ n, n) demo_pool demo_pool_args Threads_empty);
    [discriminate|vm_compute; split; discriminate|simpl; lia].
Defined.
