(* ===== verification/CommandLine.v ===== *)
(** * [server/command_line_interface.h]

    The thread that reads commands from the console. [input] are the words that
    [std::cin] still delivers, [console] the lines that were printed. Reading at the end
    of the input leaves the empty word. [books] is the order book behind the pointer
    [m_parentCentralOrderBook] when it is followed; in offline mode the pointer is null. *)
From Stdlib Require Import ZArith Lia Ascii String.
From stdpp Require Import base decidable sets list gmap strings.
From S2P Require Import Prelude.
From S2P Require Import MachineInt.
From S2P Require Import StringUtility.
From S2P Require Import SecurityManager.
From S2P Require Import Order.
From S2P Require Import OrderBook.
From S2P Require Import Fifo.
From S2P Require Import RingBuffer.
From S2P Require Import CentralOrderBook.
From S2P Require Import Threads.
Local Open Scope Z_scope.

Definition displayUsage : list str :=
  [[]; $"Available commands :"; [];
   chr 9 :: ($"display : Shows all order books in the central order book");
   chr 9 :: ($"quit : Shutdowns the server"); []].

Section interface.
Context {MQ TQ : Type} `{!Fifo OutgoingMessage MQ} `{!Fifo MatchTask TQ}.
Context (sm : SecurityManager) (iter : gmap Z OrderBook → list (Z * OrderBook)).

Definition getAllOrderBookAsString (parent : option (CentralOrderBook MQ TQ)) : outcome str :=
  match parent with
  | None => Undef NullDeref
  | Some cob => CentralOrderBook_accept iter (CentralOrderBookVisitor_visit sm) cob []
  end.

(** [std::cin >> value] *)
Definition read_word (input : list str) : str * list str :=
  match input with [] => ([], []) | value :: rest => (value, rest) end.

(** One pass of the loop of [run]; [true] when it is left. *)
Definition CommandLineInterface_round (parent : option (CentralOrderBook MQ TQ)) (input : list str) (cli : Actor)
    (console : list str) : outcome (list str * Actor * list str * bool) :=
  let '(value, input) := read_word input in
  let value := toLower value in
  if bool_decide (value = ($"display")) then
    text ← getAllOrderBookAsString parent;
    Ok (input, cli, console ++ [$"All orders in the central order book :"; []; text; []], false)
  else if bool_decide (value = ($"quit")) then
    Ok (input, Actor_sendFinishSignal cli, console ++ [$"Quit message received"], true)
  else Ok (input, cli, console ++ ($"Invalid user command") :: displayUsage ++ [[]], false).

Fixpoint CommandLineInterface_loop (fuel n : nat) (books : nat → option (CentralOrderBook MQ TQ)) (input : list str)
    (cli : Actor) (console : list str) : outcome (list str * Actor * list str) :=
  match fuel with
  | O => NoFuel
  | S fuel' =>
      '(input, cli, console, isOver) ← CommandLineInterface_round (books n) input cli console;
      if isOver : bool then Ok (input, cli, console)
      else CommandLineInterface_loop fuel' (S n) books input cli console
  end.

Definition CommandLineInterface_run (fuel : nat) (books : nat → option (CentralOrderBook MQ TQ)) (input : list str)
    (cli : Actor) (console : list str) : outcome (list str * Actor * list str) :=
  CommandLineInterface_loop fuel 0 books input cli (console ++ displayUsage).

(** ** What the commands do *)

Definition is_quit (w : str) : Prop := toLower w = ($"quit").
#[global] Instance is_quit_dec w : Decision (is_quit w).
Proof. unfold is_quit. apply _. Defined.

Definition quits (cli : Actor) : Prop := Actor_isFinishing cli = true.

(** The answer to the word [w] of pass [n], when the books read as [texts]. *)
Definition answer (texts : nat → str) (n : nat) (w : str) : list str :=
  if bool_decide (toLower w = ($"display")) then [$"All orders in the central order book :"; []; texts n; []]
  else ($"Invalid user command") :: displayUsage ++ [[]].

Fixpoint answers (texts : nat → str) (n : nat) (words : list str) : list str :=
  match words with [] => [] | w :: words => answer texts n w ++ answers texts (S n) words end.

Lemma round_quit parent w rest cli console : is_quit w →
  CommandLineInterface_round parent (w :: rest) cli console =
    Ok (rest, Actor_sendFinishSignal cli, console ++ [$"Quit message received"], true).
Proof. unfold is_quit, CommandLineInterface_round. intros E. simpl. by rewrite E. Qed.

Lemma round_other texts n books w rest cli console :
  (∀ n, getAllOrderBookAsString (books n) = Ok (texts n)) → ¬ is_quit w →
  CommandLineInterface_round (books n) (w :: rest) cli console = Ok (rest, cli, console ++ answer texts n w, false).
Proof.
  intros Hs Hw. unfold CommandLineInterface_round, answer. simpl. case_bool_decide; [by rewrite Hs|].
  by rewrite bool_decide_false.
Qed.

Lemma round_eof parent cli console :
  CommandLineInterface_round parent [] cli console =
    Ok ([], cli, console ++ ($"Invalid user command") :: displayUsage ++ [[]], false).
Proof. reflexivity. Qed.

(** A pass that leaves the loop has read the word [quit]. *)
Lemma round_left parent input cli console input' cli' console' b :
  CommandLineInterface_round parent input cli console = Ok (input', cli', console', b) →
  ∃ used, input = used ++ input' ∧
    if b : bool then cli' = Actor_sendFinishSignal cli ∧ Exists is_quit used else cli' = cli.
Proof.
  unfold CommandLineInterface_round. destruct input as [|w rest]; simpl; intros R.
  - simplify_eq. by exists [].
  - exists [w]. case_bool_decide as E1.
    + destruct (getAllOrderBookAsString parent); simpl in R; by simplify_eq.
    + case_bool_decide as E2; simplify_eq; split; try done. split; [done|]. by constructor.
Qed.

Lemma loop_eof fuel n books cli console : CommandLineInterface_loop fuel n books [] cli console = NoFuel.
Proof. revert n console. induction fuel as [|fuel IH]; intros n console; [done|]. simpl. apply IH. Qed.

Lemma loop_spec texts books input cli : (∀ n, getAllOrderBookAsString (books n) = Ok (texts n)) →
  ∀ n console,
  match list_find is_quit input with
  | Some (i, _) => ∀ fuel, (i < fuel)%nat → CommandLineInterface_loop fuel n books input cli console =
      Ok (drop (S i) input, Actor_sendFinishSignal cli, console ++ answers texts n (take i input) ++ [$"Quit message received"])
  | None => ∀ fuel, CommandLineInterface_loop fuel n books input cli console = NoFuel
  end.
Proof.
  intros Hs. induction input as [|w rest IH]; intros n console; simpl; [intros; apply loop_eof|].
  case_decide as Hw; [intros [|fuel] Hf; [lia|]; simpl; by rewrite round_quit|].
  specialize (IH (S n) (console ++ answer texts n w)). destruct (list_find is_quit rest) as [[i x]|]; simpl.
  - intros [|fuel] Hf; [lia|]. simpl. rewrite (round_other texts) by done. cbn [mbind outcome_bind].
    rewrite IH by lia. by rewrite <- !app_assoc.
  - intros [|fuel]; [done|]. simpl. rewrite (round_other texts) by done. cbn [mbind outcome_bind]. apply IH.
Qed.

(** Without an order book the command [display] follows the null pointer. *)
Lemma display_without_parent fuel books w rest cli console : (0 < fuel)%nat → books 0%nat = None → toLower w = ($"display") →
  CommandLineInterface_run fuel books (w :: rest) cli console = Undef NullDeref.
Proof.
  intros Hf Hb Hw. unfold CommandLineInterface_run. destruct fuel as [|fuel]; [lia|]. simpl. rewrite Hb.
  unfold CommandLineInterface_round. simpl. by rewrite Hw.
Qed.
End interface.

(** The command line reads words until one of them is [quit], in any case, answers each
    earlier one, with the books for [display], and then asks the server to finish; the
    rest of the input is not read. Without a [quit] it never ends: at the end of the
    input it answers the empty word for ever. *)
Theorem command_line_outcome {MQ TQ} `{!Fifo OutgoingMessage MQ} (sm : SecurityManager)
    (iter : gmap Z OrderBook → list (Z * OrderBook)) (books : nat → option (CentralOrderBook MQ TQ)) (texts : nat → str)
    (input : list str) (cli : Actor) (console : list str)
    (Hbooks : ∀ n, getAllOrderBookAsString sm iter (books n) = Ok (texts n)) :
  match list_find is_quit input with
  | Some (i, _) => ∀ fuel, (i < fuel)%nat → CommandLineInterface_run sm iter fuel books input cli console =
      Ok (drop (S i) input, Actor_sendFinishSignal cli,
          console ++ displayUsage ++ answers texts 0 (take i input) ++ [$"Quit message received"])
  | None => ∀ fuel, CommandLineInterface_run sm iter fuel books input cli console = NoFuel
  end.
Proof.
  unfold CommandLineInterface_run. pose proof (loop_spec sm iter texts books input cli Hbooks 0 (console ++ displayUsage)) as H.
  destruct (list_find is_quit input) as [[i x]|]; [|done]. intros fuel Hf. rewrite H by done. by rewrite <- app_assoc.
Qed.

Lemma command_line_outcome_witness :
  ∃ text, CommandLineInterface_run (SecurityManager_addSecurity SecurityManager_empty ($"AAA")).1 map_to_list 3
      (λ _, Some (demo_add (demo_order 7 BUY 100 5) (demo_setup false))) [$"help"; $"Display"; $"QUIT"; $"more"] (mkActor 1 false) [] =
    Ok ([$"more"], mkActor 1 true,
        displayUsage ++ (($"Invalid user command") :: displayUsage ++ [[]]) ++
        [$"All orders in the central order book :"; []; text; []] ++ [$"Quit message received"]).
Proof.
  eexists.
  apply (command_line_outcome (SecurityManager_addSecurity SecurityManager_empty ($"AAA")).1 map_to_list
    (λ _, Some (demo_add (demo_order 7 BUY 100 5) (demo_setup false))) (λ _, _)
    [$"help"; $"Display"; $"QUIT"; $"more"] (mkActor 1 false) []); [intros n; vm_compute; reflexivity|vm_compute; lia].
Defined.
