(* ===== verification/FixServerReactor.v ===== *)
(** * [fix/fix_server_reactor.cpp], [core/network/tcp_server.cpp] and
    [core/network/tcp_server_reactor.cpp] (Linux)

    The tables of peers and of sessions, connections and disconnections, the handling of
    a received message and one round of the reactor's loop. The handler of application
    messages, [onFixMessage], is virtual: it is a parameter here. The other handlers only
    log. What the system calls return comes as arguments. *)
From Stdlib Require Import ZArith Lia Ascii String SpecFloat.
From stdpp Require Import base decidable sets list gmap strings.
From S2P Require Import Prelude.
From S2P Require Import MachineInt.
From S2P Require Import StringUtility.
From S2P Require Import DateTime.
From S2P Require Import Double.
From S2P Require Import FixConstants.
From S2P Require Import FixMessage.
From S2P Require Import FixParser.
From S2P Require Import FixReceiveCache.
From S2P Require Import FixSequenceStore.
From S2P Require Import Network.
From S2P Require Import FixSession.
Local Open Scope Z_scope.

(** [m_peerSockets] owns the socket objects (their identities); [Sessions] the sessions,
    which point to the objects. A slot is free when its flag is off. *)
Record Reactor : Type := mkReactor {
  r_receiveCacheSize : Z;
  r_sequenceNumberValidation : bool;
  r_timePrecision : Subseconds;
  r_peerSockets : list Z;
  r_peerSocketsConnectionFlags : list bool;
  r_Sessions : list FixSession;
  r_SessionFlags : list bool;
  r_peerSocketIndexTable : gmap Z nat;
  r_fileDescriptors : gset Z;          (** registered with epoll *)
  r_isStopping : bool
}.

Definition with_peers (sockets : list Z) (flags : list bool) (r : Reactor) : Reactor :=
  mkReactor (r_receiveCacheSize r) (r_sequenceNumberValidation r) (r_timePrecision r) sockets flags
    (r_Sessions r) (r_SessionFlags r) (r_peerSocketIndexTable r) (r_fileDescriptors r) (r_isStopping r).
Definition with_sessions (sessions : list FixSession) (flags : list bool) (r : Reactor) : Reactor :=
  mkReactor (r_receiveCacheSize r) (r_sequenceNumberValidation r) (r_timePrecision r) (r_peerSockets r)
    (r_peerSocketsConnectionFlags r) sessions flags (r_peerSocketIndexTable r) (r_fileDescriptors r) (r_isStopping r).
Definition with_listener (table : gmap Z nat) (descriptors : gset Z) (r : Reactor) : Reactor :=
  mkReactor (r_receiveCacheSize r) (r_sequenceNumberValidation r) (r_timePrecision r) (r_peerSockets r)
    (r_peerSocketsConnectionFlags r) (r_Sessions r) (r_SessionFlags r) table descriptors (r_isStopping r).
Definition with_stopping (b : bool) (r : Reactor) : Reactor :=
  mkReactor (r_receiveCacheSize r) (r_sequenceNumberValidation r) (r_timePrecision r) (r_peerSockets r)
    (r_peerSocketsConnectionFlags r) (r_Sessions r) (r_SessionFlags r) (r_peerSocketIndexTable r)
    (r_fileDescriptors r) b.

Definition FixServerReactor_initialise (receiveCacheSize : Z) (sequenceNumberValidation : bool)
    (timePrecision : Subseconds) : Reactor :=
  mkReactor receiveCacheSize sequenceNumberValidation timePrecision [] [] [] [] ∅ ∅ false.

(** The first slot whose flag is off. *)
Fixpoint first_free (flags : list bool) : option nat :=
  match flags with
  | [] => None
  | true :: flags => S <$> first_free flags
  | false :: _ => Some 0%nat
  end.

(** ** [TCPServer] *)

(** The tables of peers. [reset] on the slot's [unique_ptr] deletes the socket object it owned. *)
Definition add_peer (peer : Z) (sockets : list Z) (flags : list bool) (w : World)
    : outcome (list Z * list bool * World * nat) :=
  match first_free flags with
  | None => Ok (sockets ++ [peer], flags ++ [true], w, length sockets)
  | Some i =>
      old ← vec_at (Z.of_nat i) sockets;
      w ← delete_socket old w;
      Ok (<[i := peer]> sockets, <[i := true]> flags, w, i)
  end.

Definition remove_peer (peerIndex : nat) (sockets : list Z) (flags : list bool) (w : World) : outcome (list bool * World) :=
  peerSocket ← vec_at (Z.of_nat peerIndex) sockets;
  _ ← vec_at (Z.of_nat peerIndex) flags;
  w ← close_socket peerSocket w;
  Ok (<[peerIndex := false]> flags, w).

Definition addPeer (peer : Z) (r : Reactor) (w : World) : outcome (Reactor * World * nat) :=
  '(sockets, flags, w, i) ← add_peer peer (r_peerSockets r) (r_peerSocketsConnectionFlags r) w;
  Ok (with_peers sockets flags r, w, i).

Definition removePeer (peerIndex : nat) (r : Reactor) (w : World) : outcome (Reactor * World) :=
  '(flags, w) ← remove_peer peerIndex (r_peerSockets r) (r_peerSocketsConnectionFlags r) w;
  Ok (with_peers (r_peerSockets r) flags r, w).

Definition TCPServer_stop (r : Reactor) : Reactor := with_stopping true r.

(** ** [TCPServerReactor] *)

Definition TCPServerReactor_onClientConnected (peerIndex : nat) (r : Reactor) (w : World) : outcome Reactor :=
  peer ← vec_at (Z.of_nat peerIndex) (r_peerSockets r);
  sock ← socket_at peer w;
  let sd := sk_descriptor sock in
  Ok (with_listener (<[sd := peerIndex]> (r_peerSocketIndexTable r)) ({[sd]} ∪ r_fileDescriptors r) r).

Definition TCPServerReactor_onClientDisconnected (peerIndex : nat) (r : Reactor) (w : World)
    : outcome (Reactor * World) :=
  peer ← vec_at (Z.of_nat peerIndex) (r_peerSockets r);
  sock ← socket_at peer w;
  let r := with_listener (r_peerSocketIndexTable r) (r_fileDescriptors r ∖ {[sk_descriptor sock]}) r in
  removePeer peerIndex r w.

(** ** The sessions *)

(** [reset] on the slot's [unique_ptr] deletes the session it owned. *)
Definition addSession (newSession : FixSession) (r : Reactor) (w : World) : outcome (Reactor * World) :=
  match first_free (r_SessionFlags r) with
  | None => Ok (with_sessions (r_Sessions r ++ [newSession]) (r_SessionFlags r ++ [true]) r, w)
  | Some i =>
      old ← vec_at (Z.of_nat i) (r_Sessions r);
      w ← FixSession_destroy old w;
      Ok (with_sessions (<[i := newSession]> (r_Sessions r)) (<[i := true]> (r_SessionFlags r)) r, w)
  end.

Definition removeSession (sessionIndex : nat) (r : Reactor) (w : World) : outcome (Reactor * World) :=
  session ← vec_at (Z.of_nat sessionIndex) (r_Sessions r);
  w ← FixSession_close session w;
  Ok (with_sessions (r_Sessions r) (<[sessionIndex := false]> (r_SessionFlags r)) r, w).

(** A pointer to a session is its index in [Sessions], or null. *)
Definition getSession (index : nat) (r : Reactor) : outcome (option nat) :=
  flag ← vec_at (Z.of_nat index) (r_SessionFlags r);
  Ok (if flag : bool then Some index else None).

Definition session_of (session : option nat) (r : Reactor) : outcome FixSession :=
  match session with
  | None => Undef NullDeref
  | Some i => vec_at (Z.of_nat i) (r_Sessions r)
  end.

Definition set_session (session : option nat) (s : FixSession) (r : Reactor) : Reactor :=
  match session with
  | None => r
  | Some i => with_sessions (<[i := s]> (r_Sessions r)) (r_SessionFlags r) r
  end.

Section reactor.
Context `{!Platform} `{!BodyOrder} (COMPID : str).
(** The state of the application behind [onFixMessage]. *)
Context {A : Type} (onFixMessage : FixMessage → nat → Reactor → World → A → outcome (Reactor * World * A)).

(** [memory] is the new receive cache's contents. *)
Definition onClientConnected (memory : str) (peerIndex : nat) (r : Reactor) (w : World) : outcome (Reactor * World) :=
  r ← TCPServerReactor_onClientConnected peerIndex r w;
  '(r, w) ← addSession FixSession_new r w;
  session ← getSession peerIndex r;
  s ← session_of session r;
  peer ← vec_at (Z.of_nat peerIndex) (r_peerSockets r);
  let s := FixSession_initialise peer (r_timePrecision r) memory (setUsesExternalTcpConnectionManager true s) in
  Ok (set_session session s r, w).

(** [onFixLogoff] reads the session's comp id. *)
Definition onClientDisconnected (peerIndex : nat) (r : Reactor) (w : World) : outcome (Reactor * World) :=
  session ← getSession peerIndex r;
  s ← session_of session r;
  let w := saveSequenceNumbersToStore COMPID s w in
  '(r, w) ← removeSession peerIndex r w;
  TCPServerReactor_onClientDisconnected peerIndex r w.

(** [accept] made the socket object [peer], if any. *)
Definition acceptNewConnection (memory : str) (peer : option (Z * Socket)) (r : Reactor) (w : World)
    : outcome (Reactor * World) :=
  match peer with
  | None => Ok (r, w)
  | Some (id, sock) =>
      '(r, w, peerIndex) ← addPeer id r (with_sockets (<[id := sock]> (w_sockets w)) w);
      onClientConnected memory peerIndex r w
  end.

Definition missing_tag_rejection (incomingMessage : FixMessage) (missingTag : Z) (s : FixSession) : outcome FixMessage :=
  let m := getAdminRejectionMessage COMPID (FixMessage_new junk_type) s in
  let m := setTag FIX_TAG_FREE_TEXT ($"Required tag missing") m in
  let m := setTag_int FIX_TAG_REF_TAG missingTag m in
  refType ← vec_at (m_messageType incomingMessage) FIX_MESSAGE_TYPE_STRINGS;
  Ok (setTag_int FIX_TAG_REJECT_REASON 1 (setTag FIX_TAG_REF_MSG_TYPE refType m)).

(** A logon with the right comp id is answered; [None] when the session is closed. *)
Definition process_logon (message : FixMessage) (i peerIndex : nat) (s : FixSession) (r : Reactor) (w : World)
    : outcome (option FixMessage * Reactor * World) :=
  if m_messageType message =? LOGON then
    if negb (validateTargetCompid COMPID message) then
      w ← FixSession_close s w;
      '(r, w) ← onClientDisconnected peerIndex r w;
      Ok (None, r, w)
    else
      '(message, s, w) ← handleLogonMessage COMPID message s w;
      Ok (Some message, set_session (Some i) s r, w)
  else Ok (Some message, r, w).

Definition processMessage (incomingMessage : FixMessage) (i peerIndex : nat) (r : Reactor) (w : World) (a : A)
    : outcome (Reactor * World * A) :=
  s ← session_of (Some i) r;
  let '(valid, missingTag) := validateRequiredTags incomingMessage 0 in
  if negb valid then
    rejection ← missing_tag_rejection incomingMessage missingTag s;
    '(_, s, w, _) ← FixSession_send rejection s w;
    Ok (set_session (Some i) s r, w, a)
  else
    '(logged, r, w) ← process_logon incomingMessage i peerIndex s r w;
    match logged with
    | None => Ok (r, w, a)
    | Some message =>
        s ← session_of (Some i) r;
        let actualIncomingSequenceNumber := m_sequenceNumber message in
        inSequence ← (if r_sequenceNumberValidation r
                      then validateSequenceNumber (to_int actualIncomingSequenceNumber) s else Ok true);
        if negb inSequence then
          w ← FixSession_close s w;
          '(r, w) ← onClientDisconnected peerIndex r w;
          Ok (r, w, a)
        else
          let s := setIncomingSequenceNumber (to_int actualIncomingSequenceNumber) s in
          if isAdminMessage message then
            '(message, s, w) ← handleAdminMessage COMPID message s w;
            let r := set_session (Some i) s r in
            if m_messageType message =? LOGOFF then
              '(r, w) ← onClientDisconnected peerIndex r w;
              Ok (r, w, a)
            else Ok (r, w, a)
          else onFixMessage message peerIndex (set_session (Some i) s r) w a
    end.

Fixpoint processMessages (messages : list FixMessage) (i peerIndex : nat) (r : Reactor) (w : World) (a : A)
    : outcome (Reactor * World * A) :=
  match messages with
  | [] => Ok (r, w, a)
  | message :: rest =>
      '(r, w, a) ← processMessage message i peerIndex r w a;
      processMessages rest i peerIndex r w a
  end.

(** [errno] is what the last failed system call of the thread left. *)
Definition checkErrors (errno : Z) (i peerIndex : nat) (r : Reactor) (w : World) : outcome (Reactor * World) :=
  s ← session_of (Some i) r;
  match ss_tcpConnection s with
  | None => Undef NullDeref
  | Some id =>
      '(w, lost) ← isConnectionLost errno id w;
      if lost : bool then onClientDisconnected peerIndex r w else Ok (r, w)
  end.

(** What the system calls of one event return. *)
Record Received : Type := mkReceived {
  rc_recv : nat → Z → recv_result;
  rc_stack : str;                    (** the local buffer of [receive] *)
  rc_errno : Z
}.

Definition handleClient (rc : Received) (peerIndex : nat) (r : Reactor) (w : World) (a : A)
    : outcome (Reactor * World * A) :=
  session ← getSession peerIndex r;
  match session with
  | None => Ok (r, w, a)
  | Some i =>
      s ← session_of (Some i) r;
      if negb (FixSession_connected s) then Ok (r, w, a)
      else if r_receiveCacheSize r =? 0 then
        '(message, s, receivedSize) ← FixSession_receive (rc_recv rc) (rc_stack rc) (FixMessage_new junk_type) s;
        let r := set_session (Some i) s r in
        if receivedSize <=? 0 then
          '(r, w) ← checkErrors (rc_errno rc) i peerIndex r w; Ok (r, w, a)
        else processMessage message i peerIndex r w a
      else
        '(s, messages) ← FixSession_receiveWithCaching (rc_recv rc 0%nat) [] s;
        let r := set_session (Some i) s r in
        if bool_decide (messages = []) then
          '(r, w) ← checkErrors (rc_errno rc) i peerIndex r w; Ok (r, w, a)
        else processMessages messages i peerIndex r w a
  end.

(** ** One round of the loop of [reactorThread] *)

Record Event : Type := mkEvent {
  ev_fd : Z;
  ev_valid : bool;                   (** [isValidEvent] *)
  ev_peer : option (Z * Socket);     (** what [accept] makes, on the acceptor *)
  ev_received : Received
}.

Definition handle_event (acceptor : Z) (memory : str) (e : Event) (r : Reactor) (w : World) (a : A)
    : outcome (Reactor * World * A) :=
  let '(table, peerIndex) := map_index (ev_fd e) 0%nat (r_peerSocketIndexTable r) in
  let r := with_listener table (r_fileDescriptors r) r in
  if ev_valid e then
    if ev_fd e =? acceptor then
      '(r, w) ← acceptNewConnection memory (ev_peer e) r w; Ok (r, w, a)
    else handleClient (ev_received e) peerIndex r w a
  else '(r, w) ← onClientDisconnected peerIndex r w; Ok (r, w, a).

Fixpoint reactorRound (acceptor : Z) (memory : str) (events : list Event) (r : Reactor) (w : World) (a : A)
    : outcome (Reactor * World * A) :=
  match events with
  | [] => Ok (r, w, a)
  | e :: rest =>
      '(r, w, a) ← handle_event acceptor memory e r w a;
      reactorRound acceptor memory rest r w a
  end.

(** [stop]: the sessions that have a connection pointer are saved, in their order. *)
Definition FixServerReactor_stop (r : Reactor) (w : World) : Reactor * World :=
  (TCPServer_stop r,
   foldl (λ w s, if FixSession_connected s then saveSequenceNumbersToStore COMPID s w else w) w (r_Sessions r)).
End reactor.

(** * The slots stay aligned *)

Lemma first_free_spec flags :
  match first_free flags with
  | None => Forall (λ b, b = true) flags
  | Some i => flags !! i = Some false ∧ (i < length flags)%nat
  end.
Proof.
  induction flags as [|[] flags IH]; simpl; [done| |split; [done|lia]].
  destruct (first_free flags); simpl in *; [|by constructor]. destruct IH. split; [done|lia].
Qed.

(** The slot the next connection gets. *)
Definition next_slot (r : Reactor) : nat :=
  default (length (r_peerSockets r)) (first_free (r_peerSocketsConnectionFlags r)).

(** The tables of peers and sessions agree slot by slot, and a session points to the
    socket object of its own slot, which is alive. *)
Record reactor_inv (r : Reactor) (w : World) : Prop := {
  ri_flags : r_SessionFlags r = r_peerSocketsConnectionFlags r;
  ri_sessions : length (r_Sessions r) = length (r_peerSockets r);
  ri_peers : length (r_peerSocketsConnectionFlags r) = length (r_peerSockets r);
  ri_nodup : NoDup (r_peerSockets r);
  ri_alive : ∀ i id, r_peerSockets r !! i = Some id → is_Some (w_sockets w !! id);
  ri_linked : ∀ i s id, r_Sessions r !! i = Some s → r_peerSockets r !! i = Some id →
    ss_tcpConnection s = Some id ∧ ss_isUsingExternalTCPConnectionManager s = true
}.

(** [run_inv H] takes one step of a computation that succeeded apart. *)
Ltac run_inv H :=
  let a := fresh "o" in let E := fresh "Eo" in apply bind_Ok_inv in H; destruct H as (a & E & H).

Ltac run_all H :=
  repeat first
    [ run_inv H
    | match type of H with
      | context [match ?p with (_, _) => _ end] => destruct p
      | context [if ?b then _ else _] => destruct b
      end ].

(** What an operation of a session leaves as it was. *)
Definition same_links (s s' : FixSession) : Prop :=
  ss_tcpConnection s' = ss_tcpConnection s ∧
  ss_isUsingExternalTCPConnectionManager s' = ss_isUsingExternalTCPConnectionManager s.

#[export] Instance same_links_refl : Reflexive same_links.
Proof. by split. Qed.
#[export] Instance same_links_trans : Transitive same_links.
Proof. intros ??? [] []. split; congruence. Qed.

Section links.
Context `{!Platform} `{!BodyOrder} (COMPID : str).

Lemma send_links m s w m' s' w' ret : FixSession_send m s w = Ok (m', s', w', ret) →
  same_links s s' ∧ w_sockets w' = w_sockets w.
Proof.
  unfold FixSession_send. intros R. run_inv R. destruct o as [m1 text]. destruct (ss_tcpConnection s) eqn:E; [|done].
  run_inv R. run_inv R. simplify_eq. split; [split; simpl; congruence|done].
Qed.

Lemma handleLogon_links m s w m' s' w' : handleLogonMessage COMPID m s w = Ok (m', s', w') →
  same_links s s' ∧ w_sockets w' = w_sockets w.
Proof.
  unfold handleLogonMessage. intros R. run_inv R. run_inv R. destruct o0 as [m1 hb]. run_inv R. destruct o0 as [m2 en].
  run_inv R. destruct o0 as [[[m3 s3] w3] ret]. simplify_eq. apply send_links in Eo2 as [L W]. split; [|done].
  etrans; [|exact L]. unfold restoreSequenceNumbersFromStore in Eo. run_inv Eo. destruct o0. simplify_eq. by split.
Qed.

Lemma handleAdmin_links m s w m' s' w' : handleAdminMessage COMPID m s w = Ok (m', s', w') →
  same_links s s' ∧ w_sockets w' = w_sockets w ∧ m_messageType m' = m_messageType m.
Proof.
  assert (∀ tag m, m_messageType (getTagValue tag m).1 = m_messageType m) as Hget.
  { intros tag m0. unfold getTagValue. by destruct (map_index _ _ _). }
  unfold handleAdminMessage. intros R. repeat case_match; [..|by simplify_eq];
    run_inv R; destruct o as [[[m3 s3] w3] ret]; simplify_eq; apply send_links in Eo as [L W]; split_and!; try done;
    repeat match goal with E : getTagValue ?t ?m = (?m1, _) |- _ =>
      let G := fresh in pose proof (Hget t m) as G; rewrite E in G; simpl in G; clear E end; congruence.
Qed.

Lemma receive_links recv stack m s m' s' n : FixSession_receive recv stack m s = Ok (m', s', n) → same_links s s'.
Proof.
  unfold FixSession_receive. intros R. run_all R; simplify_eq; by split.
Qed.

Lemma receiveWithCaching_links recv ms s s' ms' : FixSession_receiveWithCaching recv ms s = Ok (s', ms') →
  same_links s s'.
Proof.
  unfold FixSession_receiveWithCaching. destruct (recv _) as [n data]. intros R. case_match; [|by simplify_eq].
  run_inv R. run_inv R. destruct o0 as [[c ms1] k]. simplify_eq. by split.
Qed.
End links.

Section inv.
Context `{!Platform} `{!BodyOrder} (COMPID : str).

(** Sockets only disappear with their slot. *)
Definition keeps_alive (w w' : World) : Prop := ∀ id, is_Some (w_sockets w !! id) → is_Some (w_sockets w' !! id).

Lemma keeps_alive_same w w' : w_sockets w' = w_sockets w → keeps_alive w w'.
Proof. by intros E id; rewrite E. Qed.

Lemma keeps_alive_trans w1 w2 w3 : keeps_alive w1 w2 → keeps_alive w2 w3 → keeps_alive w1 w3.
Proof. intros K1 K2 id Hid. by apply K2, K1. Qed.

Lemma insert_alive (m : gmap Z Socket) id sock k : is_Some (m !! k) → is_Some (<[id := sock]> m !! k).
Proof. destruct (decide (k = id)) as [->|]; [by rewrite lookup_insert_eq|by rewrite lookup_insert_ne]. Qed.

Lemma close_socket_alive id w w' : close_socket id w = Ok w' → keeps_alive w w'.
Proof.
  unfold close_socket. intros R. run_inv R. destruct (Socket_close o). simplify_eq. intros k. apply insert_alive.
Qed.

Lemma FixSession_close_alive s w w' : FixSession_close s w = Ok w' → keeps_alive w w'.
Proof.
  unfold FixSession_close. case_match; [apply close_socket_alive|]. intros ?; simplify_eq. by apply keeps_alive_same.
Qed.

Lemma reactor_inv_world r w w' : reactor_inv r w → keeps_alive w w' → reactor_inv r w'.
Proof. intros [] K. split; [done..| |done]. intros i id Hi. eapply K, ri_alive0, Hi. Qed.

Lemma reactor_inv_session r w i s s' : reactor_inv r w → r_Sessions r !! i = Some s → same_links s s' →
  reactor_inv (set_session (Some i) s' r) w.
Proof.
  intros [] Hs [L1 L2]. split; simpl; [done|by rewrite length_insert|done|done|done|].
  intros j s0 id Hj Hid. destruct (decide (j = i)) as [->|].
  - rewrite list_lookup_insert_eq in Hj by (by eapply lookup_lt_Some). simplify_eq.
    destruct (ri_linked0 _ _ _ Hs Hid). split; congruence.
  - rewrite list_lookup_insert_ne in Hj by done. by eapply ri_linked0.
Qed.

Lemma reactor_inv_listener r w table fds : reactor_inv r w → reactor_inv (with_listener table fds r) w.
Proof. intros []. by split. Qed.

(** A session of a used slot: what the invariant says of it. *)
Lemma reactor_inv_slot r w i : reactor_inv r w → r_SessionFlags r !! i = Some true →
  ∃ s id sock, r_Sessions r !! i = Some s ∧ r_peerSockets r !! i = Some id ∧ w_sockets w !! id = Some sock ∧
    ss_tcpConnection s = Some id ∧ ss_isUsingExternalTCPConnectionManager s = true ∧
    r_peerSocketsConnectionFlags r !! i = Some true.
Proof.
  intros [] Hf. assert (i < length (r_peerSockets r))%nat as Hi
    by (rewrite <- ri_peers0, <- ri_flags0; by eapply lookup_lt_Some).
  destruct (lookup_lt_is_Some_2 (r_peerSockets r) i Hi) as [id Hid].
  destruct (lookup_lt_is_Some_2 (r_Sessions r) i) as [s Hs]; [lia|].
  destruct (ri_alive0 _ _ Hid) as [sock Hsock]. destruct (ri_linked0 _ _ _ Hs Hid).
  exists s, id, sock. split_and!; try done. congruence.
Qed.

(** The socket a disconnection leaves: closed, and closed once more by [removePeer]. *)
Definition disconnected_world (s : FixSession) (id : Z) (sock : Socket) (w : World) : World :=
  mkWorld (updateSequenceStore COMPID (ss_targetCompId s) (ss_outgoingSequenceNumber s) (ss_incomingSequenceNumber s)
             (w_files w)) (w_sent w) (w_closed w ++ (Socket_close sock).2) (<[id := (Socket_close sock).1]> (w_sockets w)).

Definition disconnected_reactor (i : nat) (sock : Socket) (r : Reactor) : Reactor :=
  with_sessions (r_Sessions r) (<[i := false]> (r_SessionFlags r))
    (with_peers (r_peerSockets r) (<[i := false]> (r_peerSocketsConnectionFlags r))
      (with_listener (r_peerSocketIndexTable r) (r_fileDescriptors r ∖ {[sk_descriptor sock]}) r)).

Lemma onClientDisconnected_spec r w i s id sock : reactor_inv r w → r_SessionFlags r !! i = Some true →
  r_Sessions r !! i = Some s → r_peerSockets r !! i = Some id → w_sockets w !! id = Some sock →
  onClientDisconnected COMPID i r w = Ok (disconnected_reactor i sock r, disconnected_world s id sock w).
Proof.
  intros Hinv Hf Hs Hid Hsock. destruct (reactor_inv_slot r w i Hinv Hf) as (s' & id' & sock' & ?&?&?& Hc &?& Hpf).
  simplify_eq. unfold onClientDisconnected, getSession. rewrite (vec_at_nat _ _ _ Hf). cbn [mbind outcome_bind session_of].
  rewrite (vec_at_nat _ _ _ Hs). cbn [mbind outcome_bind]. unfold removeSession. rewrite (vec_at_nat _ _ _ Hs).
  cbn [mbind outcome_bind]. unfold FixSession_close at 1. rewrite Hc.
  rewrite (close_socket_spec _ _ sock) by done. cbn [mbind outcome_bind].
  unfold TCPServerReactor_onClientDisconnected. simpl r_peerSockets. rewrite (vec_at_nat _ _ _ Hid).
  cbn [mbind outcome_bind]. unfold socket_at. simpl w_sockets. rewrite lookup_insert_eq. cbn [mbind outcome_bind].
  unfold removePeer, remove_peer. simpl r_peerSockets. simpl r_peerSocketsConnectionFlags.
  rewrite (vec_at_nat _ _ _ Hid), (vec_at_nat _ _ _ Hpf). cbn [mbind outcome_bind].
  rewrite (close_socket_spec _ _ (Socket_close sock).1) by (simpl; apply lookup_insert_eq).
  cbn [mbind outcome_bind]. rewrite Socket_close_again. simpl.
  rewrite app_nil_r, insert_insert_eq. unfold disconnected_reactor, disconnected_world. do 2 f_equal.
  unfold with_sessions, with_peers, with_listener. simpl. f_equal. f_equal.
  unfold Socket_close. by case_bool_decide.
Qed.

Lemma disconnected_inv r w i s id sock : reactor_inv r w → w_sockets w !! id = Some sock →
  reactor_inv (disconnected_reactor i sock r) (disconnected_world s id sock w).
Proof.
  intros [] Hsock. split; simpl; [congruence|done|by rewrite length_insert|done| |done].
  intros j id' Hj. apply insert_alive. by eapply ri_alive0.
Qed.

Lemma onClientDisconnected_flag r w i r' w' : onClientDisconnected COMPID i r w = Ok (r', w') →
  r_SessionFlags r !! i = Some true.
Proof.
  unfold onClientDisconnected, getSession. intros R. run_inv R. run_inv Eo. apply vec_at_nat_inv in Eo0.
  simplify_eq. destruct o0; [done|]. by run_inv R.
Qed.

Lemma onClientDisconnected_inv r w i r' w' : reactor_inv r w → onClientDisconnected COMPID i r w = Ok (r', w') →
  reactor_inv r' w'.
Proof.
  intros Hinv R. pose proof (onClientDisconnected_flag _ _ _ _ _ R) as Hf.
  destruct (reactor_inv_slot r w i Hinv Hf) as (s & id & sock & Hs & Hid & Hsock & _).
  rewrite (onClientDisconnected_spec r w i s id sock) in R by done. simplify_eq. by apply disconnected_inv.
Qed.
End inv.

Section accepting.
Context `{!Platform} `{!BodyOrder} (COMPID : str).

Lemma next_slot_le r w : reactor_inv r w → (next_slot r <= length (r_peerSockets r))%nat.
Proof.
  intros []. unfold next_slot. pose proof (first_free_spec (r_peerSocketsConnectionFlags r)) as F.
  destruct (first_free _); simpl; [lia|done].
Qed.

(** A free slot, or the one after the last. *)
Lemma addPeer_spec r w id sock : reactor_inv r w → w_sockets w !! id = None →
  ∃ w', addPeer id r (with_sockets (<[id := sock]> (w_sockets w)) w) =
    Ok (with_peers (list_put (next_slot r) id (r_peerSockets r))
          (list_put (next_slot r) true (r_peerSocketsConnectionFlags r)) r, w', next_slot r) ∧
    w_sockets w' !! id = Some sock ∧
    (∀ j k, j ≠ next_slot r → r_peerSockets r !! j = Some k → is_Some (w_sockets w' !! k)).
Proof.
  intros Hinv Hfresh. pose proof Hinv as []. unfold addPeer, add_peer, next_slot, list_put.
  pose proof (first_free_spec (r_peerSocketsConnectionFlags r)) as F.
  destruct (first_free (r_peerSocketsConnectionFlags r)) as [i|] eqn:Ei; simpl.
  - destruct F as [Fi Li]. destruct (lookup_lt_is_Some_2 (r_peerSockets r) i) as [old Hold]; [lia|].
    destruct (ri_alive0 _ _ Hold) as [osock Hosock].
    assert (old ≠ id) as Hne by congruence.
    rewrite (vec_at_nat _ _ _ Hold). cbn [mbind outcome_bind]. unfold delete_socket.
    rewrite (close_socket_spec _ _ osock) by (simpl; by rewrite lookup_insert_ne). cbn [mbind outcome_bind].
    rewrite !decide_True by lia. eexists. split; [done|]. simpl. split.
    + rewrite lookup_delete_ne, lookup_insert_ne by done. apply lookup_insert_eq.
    + intros j k Hj Hk. assert (k ≠ old).
      { intros ->. apply Hj. by eapply NoDup_lookup. }
      rewrite lookup_delete_ne, lookup_insert_ne by done. apply insert_alive. by eapply ri_alive0.
  - rewrite !decide_False by lia. eexists. split; [done|]. simpl. split; [apply lookup_insert_eq|].
    intros j k _ Hk. apply insert_alive. by eapply ri_alive0.
Qed.

Lemma addSession_spec r w s : length (r_Sessions r) = length (r_SessionFlags r) → (∀ i s, r_Sessions r !! i = Some s → ss_isUsingExternalTCPConnectionManager s = true) →
  let i := default (length (r_Sessions r)) (first_free (r_SessionFlags r)) in
  addSession s r w = Ok (with_sessions (list_put i s (r_Sessions r)) (list_put i true (r_SessionFlags r)) r, w).
Proof.
  intros Hl Hext. unfold addSession, list_put. pose proof (first_free_spec (r_SessionFlags r)) as F.
  destruct (first_free (r_SessionFlags r)) as [i|]; simpl.
  - destruct F as [Fi Li]. destruct (lookup_lt_is_Some_2 (r_Sessions r) i) as [old Hold]; [lia|].
    rewrite (vec_at_nat _ _ _ Hold). cbn [mbind outcome_bind]. unfold FixSession_destroy. rewrite (Hext _ _ Hold).
    cbn [mbind outcome_bind]. by rewrite !decide_True by lia.
  - by rewrite !decide_False by lia.
Qed.

(** The session of a new connection. *)
Definition new_session (memory : str) (id : Z) (r : Reactor) : FixSession :=
  FixSession_initialise id (r_timePrecision r) memory (setUsesExternalTcpConnectionManager true FixSession_new).

Definition accepted_reactor (memory : str) (id : Z) (sock : Socket) (r : Reactor) : Reactor :=
  let i := next_slot r in
  with_sessions (list_put i (new_session memory id r) (r_Sessions r)) (list_put i true (r_SessionFlags r))
    (with_listener (<[sk_descriptor sock := i]> (r_peerSocketIndexTable r))
       ({[sk_descriptor sock]} ∪ r_fileDescriptors r)
       (with_peers (list_put i id (r_peerSockets r)) (list_put i true (r_peerSocketsConnectionFlags r)) r)).

Lemma acceptNewConnection_spec memory r w id sock : reactor_inv r w → w_sockets w !! id = None →
  ∃ w', acceptNewConnection memory (Some (id, sock)) r w = Ok (accepted_reactor memory id sock r, w') ∧
    w_sockets w' !! id = Some sock ∧
    (∀ j k, j ≠ next_slot r → r_peerSockets r !! j = Some k → is_Some (w_sockets w' !! k)).
Proof.
  intros Hinv Hfresh. destruct (addPeer_spec r w id sock Hinv Hfresh) as (w' & Ea & Hid & Hold).
  pose proof (next_slot_le r w Hinv) as Hle. pose proof Hinv as [].
  exists w'. split; [|done]. unfold acceptNewConnection. rewrite Ea. cbn [mbind outcome_bind].
  unfold onClientConnected, TCPServerReactor_onClientConnected. simpl r_peerSockets.
  rewrite (vec_at_nat (next_slot r) _ id) by (by rewrite list_put_lookup, decide_True).
  cbn [mbind outcome_bind]. unfold socket_at. rewrite Hid. cbn [mbind outcome_bind].
  rewrite addSession_spec; simpl; [|rewrite ri_flags0; lia|]; cycle 1.
  { intros i s Hs. destruct (lookup_lt_is_Some_2 (r_peerSockets r) i) as [k Hk];
      [apply lookup_lt_Some in Hs; lia|]. by destruct (ri_linked0 _ _ _ Hs Hk). }
  assert (default (length (r_Sessions r)) (first_free (r_SessionFlags r)) = next_slot r) as En.
  { unfold next_slot. by rewrite ri_flags0, ri_sessions0. }
  rewrite En. cbn [mbind outcome_bind]. unfold getSession. simpl r_SessionFlags.
  rewrite (vec_at_nat (next_slot r) _ true) by (rewrite list_put_lookup, decide_True by (rewrite ?ri_flags0; lia); done).
  cbn [mbind outcome_bind session_of]. simpl r_Sessions.
  rewrite (vec_at_nat (next_slot r) _ FixSession_new) by (rewrite list_put_lookup, decide_True by (rewrite ?ri_flags0; lia); done).
  cbn [mbind outcome_bind]. simpl r_peerSockets.
  rewrite (vec_at_nat (next_slot r) _ id) by (by rewrite list_put_lookup, decide_True).
  cbn [mbind outcome_bind]. unfold set_session, accepted_reactor, with_sessions. simpl. do 2 f_equal.
  f_equal. apply list_put_insert. lia.
Qed.

Lemma accepted_inv memory r w id sock w' : reactor_inv r w → w_sockets w !! id = None →
  w_sockets w' !! id = Some sock →
  (∀ j k, j ≠ next_slot r → r_peerSockets r !! j = Some k → is_Some (w_sockets w' !! k)) →
  reactor_inv (accepted_reactor memory id sock r) w'.
Proof.
  intros Hinv Hfresh Hid Hold. pose proof (next_slot_le r w Hinv) as Hle. pose proof Hinv as [].
  split; simpl.
  - by rewrite ri_flags0.
  - rewrite !list_put_length. repeat case_decide; lia.
  - rewrite !list_put_length. repeat case_decide; lia.
  - assert (id ∉ r_peerSockets r) as Hn.
    { intros [j Hj]%list_elem_of_lookup. destruct (ri_alive0 _ _ Hj). congruence. }
    apply NoDup_alt. intros i j k. rewrite !list_put_lookup by done. repeat case_decide; intros; simplify_eq; try done.
    + destruct Hn. by eapply list_elem_of_lookup_2.
    + destruct Hn. by eapply list_elem_of_lookup_2.
    + by eapply NoDup_lookup.
  - intros i k. rewrite list_put_lookup by done. case_decide; intros; simplify_eq; [by eexists|by eapply Hold].
  - intros i s k. rewrite !list_put_lookup by (rewrite ?ri_flags0; lia). case_decide; intros; simplify_eq; [done|].
    by eapply ri_linked0.
Qed.
End accepting.

Section preserving.
Context `{!Platform} `{!BodyOrder} (COMPID : str).
Context {A : Type} (onFixMessage : FixMessage → nat → Reactor → World → A → outcome (Reactor * World * A)).

(** What the reactor needs from the application. *)
Definition handler_keeps : Prop := ∀ m i r w a r' w' a',
  reactor_inv r w → onFixMessage m i r w a = Ok (r', w', a') → reactor_inv r' w'.

Context (Hhandler : handler_keeps).

Lemma session_of_inv i r s : session_of (Some i) r = Ok s → r_Sessions r !! i = Some s.
Proof. apply vec_at_nat_inv. Qed.

(** After an operation of the session itself. *)
Lemma session_step r w w' i s s' : reactor_inv r w → r_Sessions r !! i = Some s → same_links s s' →
  w_sockets w' = w_sockets w → reactor_inv (set_session (Some i) s' r) w'.
Proof.
  intros Hinv Hs L Ew. eapply reactor_inv_world; [by eapply reactor_inv_session|by apply keeps_alive_same].
Qed.

Lemma close_disconnect_inv r w w1 s i r' w' : reactor_inv r w → FixSession_close s w = Ok w1 →
  onClientDisconnected COMPID i r w1 = Ok (r', w') → reactor_inv r' w'.
Proof.
  intros Hinv Ec. apply onClientDisconnected_inv. eapply reactor_inv_world; [done|by eapply FixSession_close_alive].
Qed.

Lemma process_logon_inv m i p s r w logged r' w' : reactor_inv r w → r_Sessions r !! i = Some s →
  process_logon COMPID m i p s r w = Ok (logged, r', w') → reactor_inv r' w'.
Proof.
  intros Hinv Hs. unfold process_logon. intros R. destruct (_ =? _); [|by simplify_eq].
  destruct (negb _).
  - run_inv R. run_inv R. destruct o0 as [r1 w1]. simplify_eq. by eapply close_disconnect_inv.
  - run_inv R. destruct o as [[m1 s1] w1]. simplify_eq. apply handleLogon_links in Eo as [L W].
    by eapply session_step.
Qed.

Lemma processMessage_inv m i p r w a r' w' a' : reactor_inv r w →
  processMessage COMPID onFixMessage m i p r w a = Ok (r', w', a') → reactor_inv r' w'.
Proof.
  intros Hinv R. unfold processMessage in R. run_inv R. apply session_of_inv in Eo.
  destruct (validateRequiredTags m 0) as [valid tag]. destruct (negb valid).
  { run_inv R. run_inv R. destruct o1 as [[[m1 s1] w1] n]. simplify_eq. apply send_links in Eo1 as [L W].
    by eapply session_step. }
  run_inv R. destruct o0 as [[logged r1] w1]. pose proof (process_logon_inv _ _ _ _ _ _ _ _ _ Hinv Eo Eo0) as Hinv1.
  destruct logged as [m1|]; [|by simplify_eq]. run_inv R. apply session_of_inv in Eo1. run_inv R.
  destruct (negb o1).
  { run_inv R. run_inv R. destruct o3 as [r2 w2]. simplify_eq. by eapply close_disconnect_inv. }
  destruct (isAdminMessage m1).
  - run_inv R. destruct o2 as [[m2 s2] w2]. apply handleAdmin_links in Eo3 as (L & W & _).
    assert (reactor_inv (set_session (Some i) s2 r1) w2) as Hinv2.
    { eapply session_step; [exact Hinv1|exact Eo1| |exact W]. etrans; [|exact L]. by split. }
    destruct (_ =? _); [|by simplify_eq]. run_inv R. destruct o2 as [r3 w3]. simplify_eq.
    by eapply onClientDisconnected_inv.
  - eapply Hhandler; [|exact R]. eapply session_step; [exact Hinv1|exact Eo1|by split|done].
Qed.

Lemma processMessages_inv ms i p r w a r' w' a' : reactor_inv r w →
  processMessages COMPID onFixMessage ms i p r w a = Ok (r', w', a') → reactor_inv r' w'.
Proof.
  revert r w a. induction ms as [|m ms IH]; simpl; intros r w a Hinv R; [by simplify_eq|].
  run_inv R. destruct o as [[r1 w1] a1]. eapply IH; [|exact R]. by eapply processMessage_inv.
Qed.

Lemma checkErrors_inv errno i p r w r' w' : reactor_inv r w → checkErrors COMPID errno i p r w = Ok (r', w') →
  reactor_inv r' w'.
Proof.
  intros Hinv R. unfold checkErrors in R. run_inv R. case_match; [|done]. run_inv R. destruct o0 as [w1 lost].
  assert (reactor_inv r w1) as Hinv1.
  { unfold isConnectionLost in Eo0. run_inv Eo0. destruct (Socket_isConnectionLost _ _). simplify_eq.
    eapply reactor_inv_world; [exact Hinv|]. intros k. apply insert_alive. }
  destruct lost; [by eapply onClientDisconnected_inv|by simplify_eq].
Qed.

Lemma handleClient_inv rc p r w a r' w' a' : reactor_inv r w →
  handleClient COMPID onFixMessage rc p r w a = Ok (r', w', a') → reactor_inv r' w'.
Proof.
  intros Hinv R. unfold handleClient in R. run_inv R. destruct o as [i|]; [|by simplify_eq].
  run_inv R. apply session_of_inv in Eo0. destruct (negb _); [by simplify_eq|]. destruct (_ =? _).
  - run_inv R. destruct o0 as [[m s1] n]. apply receive_links in Eo1.
    assert (reactor_inv (set_session (Some i) s1 r) w) by (by eapply session_step).
    destruct (_ <=? _); [|by eapply processMessage_inv].
    run_inv R. destruct o0 as [r1 w1]. simplify_eq. by eapply checkErrors_inv.
  - run_inv R. destruct o0 as [s1 ms]. apply receiveWithCaching_links in Eo1.
    assert (reactor_inv (set_session (Some i) s1 r) w) by (by eapply session_step).
    destruct (bool_decide _); [|by eapply processMessages_inv].
    run_inv R. destruct o0 as [r1 w1]. simplify_eq. by eapply checkErrors_inv.
Qed.

(** The object [accept] makes is new. *)
Definition event_fresh (w : World) (e : Event) : Prop :=
  match ev_peer e with Some (id, _) => w_sockets w !! id = None | None => True end.

Lemma handle_event_inv acceptor memory e r w a r' w' a' : reactor_inv r w → event_fresh w e →
  handle_event COMPID onFixMessage acceptor memory e r w a = Ok (r', w', a') → reactor_inv r' w'.
Proof.
  intros Hinv Hfresh R. unfold handle_event in R. destruct (map_index _ _ _) as [table p].
  pose proof (reactor_inv_listener _ _ table (r_fileDescriptors r) Hinv) as Hinv1.
  destruct (ev_valid e); [destruct (_ =? _)|]; [|by eapply handleClient_inv|]; run_inv R; destruct o as [r1 w1]; simplify_eq.
  - unfold event_fresh in Hfresh. destruct (ev_peer e) as [[id sock]|]; [|by simpl in Eo; simplify_eq].
    destruct (acceptNewConnection_spec memory _ w id sock Hinv1 Hfresh) as (w2 & E2 & Hid & Hold).
    rewrite E2 in Eo. simplify_eq. by eapply accepted_inv.
  - by eapply onClientDisconnected_inv.
Qed.
End preserving.

(** * The properties of the reactor *)

Section steps.
Context `{!Platform} `{!BodyOrder} (COMPID : str).
Context {A : Type} (onFixMessage : FixMessage → nat → Reactor → World → A → outcome (Reactor * World * A)).
Context (acceptor : Z) (memory : str).

(** The reactor handles one event. *)
Inductive reactor_step : Reactor * World * A → Reactor * World * A → Prop :=
  | reactor_step_event e r w a r' w' a' :
      event_fresh w e → handle_event COMPID onFixMessage acceptor memory e r w a = Ok (r', w', a') →
      reactor_step (r, w, a) (r', w', a').

Lemma reactor_step_inv x y : handler_keeps onFixMessage → rtc reactor_step x y →
  reactor_inv x.1.1 x.1.2 → reactor_inv y.1.1 y.1.2.
Proof.
  intros Hk. induction 1 as [|x y z Hxy _ IH]; [done|]. intros Hx. apply IH. destruct Hxy. simpl in *.
  by eapply handle_event_inv.
Qed.

Lemma reactor_initial_inv size validation precision w :
  reactor_inv (FixServerReactor_initialise size validation precision) w.
Proof. split; simpl; try done. apply NoDup_nil_2. Qed.

(** A message that passes the validation of its tags, is not a logon and has a sequence
    number that is not the expected one. *)
Record out_of_sequence (s : FixSession) (m : FixMessage) : Prop := {
  os_valid : (validateRequiredTags m 0).1 = true;
  os_type : m_messageType m ≠ LOGON;
  os_number : to_int (m_sequenceNumber m) ≠ ss_incomingSequenceNumber s + 1
}.

(** What [processMessage] does up to the validation of the number. *)
Lemma processMessage_number m i p r w (a : A) s : r_Sessions r !! i = Some s →
  (validateRequiredTags m 0).1 = true → m_messageType m ≠ LOGON → r_sequenceNumberValidation r = true →
  INT_MIN <= ss_incomingSequenceNumber s < INT_MAX →
  processMessage COMPID onFixMessage m i p r w a =
    if bool_decide (ss_incomingSequenceNumber s + 1 = to_int (m_sequenceNumber m)) then
      let s := setIncomingSequenceNumber (to_int (m_sequenceNumber m)) s in
      if isAdminMessage m then
        '(message, s, w) ← handleAdminMessage COMPID m s w;
        let r := set_session (Some i) s r in
        if m_messageType message =? LOGOFF then
          '(r, w) ← onClientDisconnected COMPID p r w; Ok (r, w, a)
        else Ok (r, w, a)
      else onFixMessage m p (set_session (Some i) s r) w a
    else
      w ← FixSession_close s w;
      '(r, w) ← onClientDisconnected COMPID p r w;
      Ok (r, w, a).
Proof.
  intros Hs Hv Ht Hon Hinc. unfold processMessage, session_of. rewrite (vec_at_nat _ _ _ Hs).
  cbn [mbind outcome_bind]. destruct (validateRequiredTags m 0) as [valid tag]. simpl in Hv. subst valid. cbn [negb].
  unfold process_logon. rewrite (proj2 (Z.eqb_neq _ _) Ht). cbn [mbind outcome_bind].
  unfold session_of. rewrite (vec_at_nat _ _ _ Hs). cbn [mbind outcome_bind]. rewrite Hon.
  unfold validateSequenceNumber. rewrite int_add_Ok by mlia. cbn [mbind outcome_bind].
  by destruct (bool_decide _).
Qed.

(** The close that precedes the disconnection. *)
Lemma close_then_disconnect r w i s id sock : reactor_inv r w → r_SessionFlags r !! i = Some true →
  r_Sessions r !! i = Some s → r_peerSockets r !! i = Some id → w_sockets w !! id = Some sock →
  ∃ w1, FixSession_close s w = Ok w1 ∧
    onClientDisconnected COMPID i r w1 = Ok (disconnected_reactor i sock r, disconnected_world COMPID s id sock w).
Proof.
  intros Hinv Hf Hs Hid Hsock. destruct (ri_linked _ _ Hinv _ _ _ Hs Hid) as [Hc _].
  eexists. split; [unfold FixSession_close; rewrite Hc; by apply close_socket_spec|].
  set (w1 := mkWorld _ _ _ _).
  assert (reactor_inv r w1) as Hinv1.
  { eapply reactor_inv_world; [exact Hinv|]. intros k. apply insert_alive. }
  rewrite (onClientDisconnected_spec COMPID r w1 i s id (Socket_close sock).1) by (done || apply lookup_insert_eq).
  unfold disconnected_reactor, disconnected_world. rewrite Socket_close_again. simpl. rewrite app_nil_r, insert_insert_eq.
  do 3 f_equal. unfold Socket_close. by case_bool_decide.
Qed.
End steps.

(** C19: Whatever events the reactor has handled, its two tables agree slot by slot, and the
    next connection finds a free slot, whose session becomes a new one on its own socket. *)
Theorem reactor_slots_aligned `{!Platform} `{!BodyOrder} {A : Type} (COMPID : str)
    (onFixMessage : FixMessage → nat → Reactor → World → A → outcome (Reactor * World * A))
    (acceptor : Z) (memory : str) (size : Z) (validation : bool) (precision : Subseconds)
    (r : Reactor) (w0 w : World) (a0 a : A)
    (Hhandler : handler_keeps onFixMessage)
    (Hreach : rtc (reactor_step COMPID onFixMessage acceptor memory)
                (FixServerReactor_initialise size validation precision, w0, a0) (r, w, a)) :
  reactor_inv r w ∧
  ∀ id sock, w_sockets w !! id = None → ∃ r' w',
    acceptNewConnection memory (Some (id, sock)) r w = Ok (r', w') ∧ reactor_inv r' w' ∧
    r_SessionFlags r !! next_slot r ≠ Some true ∧
    r_Sessions r' !! next_slot r = Some (new_session memory id r) ∧
    r_peerSocketIndexTable r' !! sk_descriptor sock = Some (next_slot r) ∧
    ∀ j, j ≠ next_slot r → r_Sessions r' !! j = r_Sessions r !! j ∧ r_SessionFlags r' !! j = r_SessionFlags r !! j.
Proof.
  assert (reactor_inv r w) as Hinv by (eapply (reactor_step_inv _ _ _ _ _ _ Hhandler Hreach); apply reactor_initial_inv).
  split; [done|]. intros id sock Hfresh.
  destruct (acceptNewConnection_spec memory r w id sock Hinv Hfresh) as (w' & E & Hid & Hold).
  pose proof (next_slot_le r w Hinv) as Hle. pose proof Hinv as [].
  exists (accepted_reactor memory id sock r), w'. split; [done|]. split; [by eapply accepted_inv|].
  split; [|split; [|split]]; simpl.
  - rewrite ri_flags0. unfold next_slot. pose proof (first_free_spec (r_peerSocketsConnectionFlags r)) as F.
    destruct (first_free _) as [i|]; simpl; [by destruct F as [-> _]|].
    by rewrite lookup_ge_None_2 by lia.
  - by rewrite list_put_lookup, decide_True by lia.
  - apply lookup_insert_eq.
  - intros j Hj. by rewrite !list_put_lookup, !decide_False by (rewrite ?ri_flags0; done || lia).
Qed.

(** A connection that is lost frees its slot and saves the session's numbers, but its
    descriptor is never closed: the socket object already forgot that it was connected. *)
Theorem lost_connection_leaks_descriptor `{!Platform} `{!BodyOrder} (COMPID : str) (errno : Z) (i : nat)
    (r : Reactor) (w : World) (s : FixSession)
    (Hinv : reactor_inv r w) (Hused : r_SessionFlags r !! i = Some true) (Hs : r_Sessions r !! i = Some s)
    (Herrno : 100 <= errno <= 104)
    (Hnumbers : in_int (ss_outgoingSequenceNumber s) = true ∧ in_int (ss_incomingSequenceNumber s) = true) :
  ∃ r' w', checkErrors COMPID errno i i r w = Ok (r', w') ∧
    getSession i r' = Ok None ∧ w_closed w' = w_closed w ∧
    loadFromSequenceStore COMPID (ss_targetCompId s) (w_files w') =
      Ok (ss_outgoingSequenceNumber s, ss_incomingSequenceNumber s) ∧
    ∀ j, j ≠ i → r_SessionFlags r' !! j = r_SessionFlags r !! j.
Proof.
  destruct (reactor_inv_slot r w i Hinv Hused) as (s' & id & sock & ? & Hid & Hsock & Hc & _). simplify_eq.
  set (lost := mkSocket (sk_descriptor sock) SOCKET_DISCONNECTED).
  set (w1 := with_sockets (<[id := lost]> (w_sockets w)) w).
  assert (reactor_inv r w1) as Hinv1.
  { eapply reactor_inv_world; [exact Hinv|]. intros k. apply insert_alive. }
  eexists _, _. split.
  { unfold checkErrors, session_of. rewrite (vec_at_nat _ _ _ Hs). cbn [mbind outcome_bind]. rewrite Hc.
    unfold isConnectionLost, socket_at. rewrite Hsock. cbn [mbind outcome_bind]. unfold Socket_isConnectionLost.
    rewrite (proj2 (Z.leb_le 100 errno)), (proj2 (Z.leb_le errno 104)) by lia. cbn [andb mbind outcome_bind].
    apply (onClientDisconnected_spec COMPID r w1 i s id lost Hinv1 Hused Hs Hid). apply lookup_insert_eq. }
  assert (i < length (r_SessionFlags r))%nat as Hi by (by eapply lookup_lt_Some).
  split; [unfold getSession; simpl r_SessionFlags; by rewrite (vec_at_nat i _ false) by (by apply list_lookup_insert_eq)|].
  split; [simpl; apply app_nil_r|]. split; [simpl; apply store_roundtrip; tauto|].
  intros j Hj. simpl. by apply list_lookup_insert_ne.
Qed.

(** C33: A message out of sequence disconnects its client and saves the numbers the session
    had. When another one follows in the same batch, the reactor, which goes on with the
    batch, uses the session that is gone: a null pointer. *)
Theorem out_of_sequence_disconnects `{!Platform} `{!BodyOrder} {A : Type} (COMPID : str)
    (onFixMessage : FixMessage → nat → Reactor → World → A → outcome (Reactor * World * A))
    (m1 m2 : FixMessage) (rest : list FixMessage) (i : nat) (r : Reactor) (w : World) (a : A) (s : FixSession)
    (Hinv : reactor_inv r w) (Hused : r_SessionFlags r !! i = Some true) (Hs : r_Sessions r !! i = Some s)
    (Hon : r_sequenceNumberValidation r = true)
    (Hnumbers : in_int (ss_outgoingSequenceNumber s) = true ∧ INT_MIN <= ss_incomingSequenceNumber s < INT_MAX)
    (H1 : out_of_sequence s m1) (H2 : out_of_sequence s m2) :
  (∃ r' w', processMessage COMPID onFixMessage m1 i i r w a = Ok (r', w', a) ∧ getSession i r' = Ok None ∧
    loadFromSequenceStore COMPID (ss_targetCompId s) (w_files w') =
      Ok (ss_outgoingSequenceNumber s, ss_incomingSequenceNumber s)) ∧
  processMessages COMPID onFixMessage (m1 :: m2 :: rest) i i r w a = Undef NullDeref.
Proof.
  destruct (reactor_inv_slot r w i Hinv Hused) as (s' & id & sock & ? & Hid & Hsock & Hc & _). simplify_eq.
  destruct (close_then_disconnect COMPID r w i s id sock Hinv Hused Hs Hid Hsock) as (w1 & Ec & Ed).
  assert (i < length (r_SessionFlags r))%nat as Hi by (by eapply lookup_lt_Some).
  set (r' := disconnected_reactor i sock r) in *. set (w' := disconnected_world COMPID s id sock w) in *.
  assert (getSession i r' = Ok None) as Hgone.
  { unfold getSession. simpl r_SessionFlags. by rewrite (vec_at_nat i _ false) by (by apply list_lookup_insert_eq). }
  assert (processMessage COMPID onFixMessage m1 i i r w a = Ok (r', w', a)) as E1.
  { destruct H1. rewrite (processMessage_number _ _ _ _ _ _ _ _ s), bool_decide_false by (done || lia || tauto).
    rewrite Ec. cbn [mbind outcome_bind]. by rewrite Ed. }
  split.
  - exists r', w'. split_and!; [done|done|]. simpl. apply store_roundtrip; [tauto|]. apply in_int_spec. lia.
  - simpl. rewrite E1. cbn [mbind outcome_bind]. destruct H2.
    rewrite (processMessage_number _ _ _ _ _ _ _ _ s), bool_decide_false by (done || lia || tauto).
    unfold FixSession_close. rewrite Hc.
    rewrite (close_socket_spec _ _ (Socket_close sock).1) by (simpl; apply lookup_insert_eq). cbn [mbind outcome_bind].
    unfold onClientDisconnected. by rewrite Hgone.
Qed.

(** A message in sequence that is not an administrative one reaches the application, with
    its number as the session's new incoming number. *)
Theorem in_sequence_reaches_application `{!Platform} `{!BodyOrder} {A : Type} (COMPID : str)
    (onFixMessage : FixMessage → nat → Reactor → World → A → outcome (Reactor * World * A))
    (m : FixMessage) (i : nat) (r : Reactor) (w : World) (a : A) (s : FixSession)
    (Hs : r_Sessions r !! i = Some s) (Hon : r_sequenceNumberValidation r = true)
    (Hvalid : (validateRequiredTags m 0).1 = true) (Hadmin : isAdminMessage m = false)
    (Hnumber : m_sequenceNumber m = ss_incomingSequenceNumber s + 1)
    (Hrange : 0 <= ss_incomingSequenceNumber s < INT_MAX) :
  ∃ r1, processMessage COMPID onFixMessage m i i r w a = onFixMessage m i r1 w a ∧
    r_Sessions r1 !! i = Some (setIncomingSequenceNumber (m_sequenceNumber m) s) ∧
    r_SessionFlags r1 = r_SessionFlags r ∧ r_peerSockets r1 = r_peerSockets r.
Proof.
  assert (m_messageType m ≠ LOGON) as Hl.
  { intros E. unfold isAdminMessage in Hadmin. rewrite E in Hadmin. done. }
  assert (to_int (m_sequenceNumber m) = m_sequenceNumber m) as Ei.
  { apply to_int_small, in_int_spec. clear - Hnumber Hrange. mlia. }
  exists (set_session (Some i) (setIncomingSequenceNumber (to_int (m_sequenceNumber m)) s) r). split.
  - assert (ss_incomingSequenceNumber s + 1 = to_int (m_sequenceNumber m)) as En by congruence.
    assert (INT_MIN <= ss_incomingSequenceNumber s < INT_MAX) as Er by (clear - Hrange; mlia).
    rewrite (processMessage_number _ _ _ _ _ _ _ _ s) by assumption.
    rewrite bool_decide_true by exact En. rewrite Hadmin. reflexivity.
  - simpl. rewrite Ei. split; [|done]. apply list_lookup_insert_eq. by eapply lookup_lt_Some.
Qed.

(** Stopping saves the sessions slot by slot, those of free slots too: for a comp id
    the numbers of its last slot remain, even when the client is connected in an earlier
    slot with newer numbers. *)
Theorem stop_saves_last_slot (COMPID : str) (r : Reactor) (w : World) (l1 l2 : list FixSession) (s : FixSession)
    (Hsessions : r_Sessions r = l1 ++ s :: l2) (Hconnection : FixSession_connected s = true)
    (Hlast : Forall (λ s', ss_targetCompId s' ≠ ss_targetCompId s) l2)
    (Hnumbers : in_int (ss_outgoingSequenceNumber s) = true ∧ in_int (ss_incomingSequenceNumber s) = true) :
  let '(r', w') := FixServerReactor_stop COMPID r w in
  r_isStopping r' = true ∧ r_Sessions r' = r_Sessions r ∧
  loadFromSequenceStore COMPID (ss_targetCompId s) (w_files w') =
    Ok (ss_outgoingSequenceNumber s, ss_incomingSequenceNumber s).
Proof.
  simpl. split; [done|]. split; [done|]. rewrite Hsessions, foldl_app. simpl. rewrite Hconnection.
  match goal with |- context [foldl _ (saveSequenceNumbersToStore _ _ ?x) _] => generalize x end. intros w1.
  assert (loadFromSequenceStore COMPID (ss_targetCompId s) (w_files (saveSequenceNumbersToStore COMPID s w1)) =
    Ok (ss_outgoingSequenceNumber s, ss_incomingSequenceNumber s)) as E0 by (simpl; apply store_roundtrip; tauto).
  revert E0. generalize (saveSequenceNumbersToStore COMPID s w1). clear - Hlast.
  induction Hlast as [|s' l2 Hne _ IH]; intros w0 E0; simpl; [done|]. apply IH.
  case_match; [|done]. simpl. by rewrite load_other by done.
Qed.

(** ** Witnesses *)

#[local] Existing Instance demo_Platform.
#[local] Existing Instance demo_BodyOrder.

Definition demo_handler : FixMessage → nat → Reactor → World → unit → outcome (Reactor * World * unit) :=
  λ m i r w a, Ok (r, w, a).

Lemma demo_handler_keeps : handler_keeps demo_handler.
Proof. intros m i r w a r' w' a' Hinv E. unfold demo_handler in E. by simplify_eq. Qed.

Definition demo_reactor : Reactor := FixServerReactor_initialise 0 true MICROSECONDS.

(** The acceptor's descriptor is 3; a client connects on descriptor 7. *)
Definition demo_connect : Event :=
  mkEvent 3 true (Some (5, mkSocket 7 SOCKET_CONNECTED)) (mkReceived (λ _ _, (-1, [])) [] 11).

Definition demo_connected : Reactor * World * unit :=
  match handle_event ($"EXECUTOR") demo_handler 3 [] demo_connect demo_reactor demo_world tt with
  | Ok x => x
  | _ => (demo_reactor, demo_world, tt)
  end.

Lemma demo_reactor_reach : rtc (reactor_step ($"EXECUTOR") demo_handler 3 []) (demo_reactor, demo_world, tt)
  (demo_connected.1.1, demo_connected.1.2, demo_connected.2).
Proof. apply rtc_once. apply (reactor_step_event _ _ _ _ demo_connect); [done|]. vm_compute. reflexivity. Qed.

Lemma demo_connected_inv : reactor_inv demo_connected.1.1 demo_connected.1.2.
Proof. apply (reactor_step_inv _ _ _ _ _ _ demo_handler_keeps demo_reactor_reach). apply reactor_initial_inv. Qed.

Definition demo_new : FixSession := new_session [] 5 demo_reactor.

Lemma reactor_slots_aligned_witness :
  reactor_inv demo_connected.1.1 demo_connected.1.2 ∧
  ∀ id sock, w_sockets demo_connected.1.2 !! id = None → ∃ r' w',
    acceptNewConnection [] (Some (id, sock)) demo_connected.1.1 demo_connected.1.2 = Ok (r', w') ∧ reactor_inv r' w' ∧
    r_SessionFlags demo_connected.1.1 !! next_slot demo_connected.1.1 ≠ Some true ∧
    r_Sessions r' !! next_slot demo_connected.1.1 = Some (new_session [] id demo_connected.1.1) ∧
    r_peerSocketIndexTable r' !! sk_descriptor sock = Some (next_slot demo_connected.1.1) ∧
    ∀ j, j ≠ next_slot demo_connected.1.1 → r_Sessions r' !! j = r_Sessions demo_connected.1.1 !! j ∧
      r_SessionFlags r' !! j = r_SessionFlags demo_connected.1.1 !! j.
Proof. exact (reactor_slots_aligned _ _ _ _ _ _ _ _ _ _ _ _ demo_handler_keeps demo_reactor_reach). Defined.

Lemma lost_connection_leaks_descriptor_witness : ∃ r' w',
  checkErrors ($"EXECUTOR") 104 0 0 demo_connected.1.1 demo_connected.1.2 = Ok (r', w') ∧
  getSession 0 r' = Ok None ∧ w_closed w' = w_closed demo_connected.1.2 ∧
  loadFromSequenceStore ($"EXECUTOR") (ss_targetCompId demo_new) (w_files w') =
    Ok (ss_outgoingSequenceNumber demo_new, ss_incomingSequenceNumber demo_new) ∧
  ∀ j, j ≠ 0%nat → r_SessionFlags r' !! j = r_SessionFlags demo_connected.1.1 !! j.
Proof.
  apply (lost_connection_leaks_descriptor ($"EXECUTOR") 104 0 _ _ demo_new demo_connected_inv);
    [vm_compute; reflexivity|vm_compute; reflexivity|lia|by split].
Defined.

(** A message of a client, with the tags every message needs. *)
Definition demo_incoming (type number : Z) : FixMessage :=
  setTag FIX_TAG_CLIENT_ORDER_ID ($"7") (setTag FIX_TAG_ORIG_CLIENT_ORDER_ID ($"6")
    (setTag FIX_TAG_BODY_LENGTH ($"60") (setTag FIX_TAG_BODY_CHECKSUM ($"123")
      (mkFixMessage FIX_4_2 number type ($"CLIENT1") ($"EXECUTOR") ($"20160101-10:20:29") ∅)))).

Lemma demo_out_of_sequence number : number = 9 ∨ number = 10 →
  out_of_sequence demo_new (demo_incoming HEARTBEAT number).
Proof. intros [-> | ->]; split; vm_compute; try reflexivity; discriminate. Qed.

Lemma out_of_sequence_disconnects_witness :
  (∃ r' w', processMessage ($"EXECUTOR") demo_handler (demo_incoming HEARTBEAT 9) 0 0 demo_connected.1.1
      demo_connected.1.2 tt = Ok (r', w', tt) ∧ getSession 0 r' = Ok None ∧
    loadFromSequenceStore ($"EXECUTOR") (ss_targetCompId demo_new) (w_files w') =
      Ok (ss_outgoingSequenceNumber demo_new, ss_incomingSequenceNumber demo_new)) ∧
  processMessages ($"EXECUTOR") demo_handler [demo_incoming HEARTBEAT 9; demo_incoming HEARTBEAT 10] 0 0
    demo_connected.1.1 demo_connected.1.2 tt = Undef NullDeref.
Proof.
  apply (out_of_sequence_disconnects ($"EXECUTOR") demo_handler _ _ [] 0 _ _ tt demo_new demo_connected_inv);
    [vm_compute; reflexivity|vm_compute; reflexivity|reflexivity|split; [reflexivity|vm_compute; split; [discriminate|reflexivity]]
    |apply demo_out_of_sequence; by left|apply demo_out_of_sequence; by right].
Defined.

Lemma in_sequence_reaches_application_witness : ∃ r1,
  processMessage ($"EXECUTOR") demo_handler (demo_incoming CANCEL 2) 0 0 demo_connected.1.1 demo_connected.1.2 tt =
    demo_handler (demo_incoming CANCEL 2) 0 r1 demo_connected.1.2 tt ∧
  r_Sessions r1 !! 0%nat = Some (setIncomingSequenceNumber (m_sequenceNumber (demo_incoming CANCEL 2)) demo_new) ∧
  r_SessionFlags r1 = r_SessionFlags demo_connected.1.1 ∧ r_peerSockets r1 = r_peerSockets demo_connected.1.1.
Proof.
  apply (in_sequence_reaches_application ($"EXECUTOR") demo_handler _ 0 _ _ tt demo_new);
    try (vm_compute; reflexivity). vm_compute. split; [discriminate|reflexivity].
Defined.

(** CLIENT1 is connected in the first slot with the numbers 40 and 30; the free second slot
    still has its session of before, with the numbers 12 and 9. *)
Definition demo_numbers (out inc : Z) : FixSession := setTargetCompIdOf ($"CLIENT1") (with_numbers out inc demo_new).
Definition demo_reconnected : Reactor :=
  with_sessions [demo_numbers 40 30; demo_numbers 12 9] [true; false] demo_reactor.

Lemma stop_saves_last_slot_witness :
  let '(r', w') := FixServerReactor_stop ($"EXECUTOR") demo_reconnected demo_world in
  r_isStopping r' = true ∧ r_Sessions r' = r_Sessions demo_reconnected ∧
  loadFromSequenceStore ($"EXECUTOR") (ss_targetCompId (demo_numbers 12 9)) (w_files w') =
    Ok (ss_outgoingSequenceNumber (demo_numbers 12 9), ss_incomingSequenceNumber (demo_numbers 12 9)).
Proof.
  exact (stop_saves_last_slot ($"EXECUTOR") demo_reconnected demo_world [demo_numbers 40 30] [] (demo_numbers 12 9)
    eq_refl eq_refl (Forall_nil_2 _) (conj eq_refl eq_refl)).
Defined.
