(* ===== verification/ServerStart.v ===== *)
(** * [core/network/tcp_server.cpp], [tcp_server_reactor.cpp], [fix/fix_server_reactor.cpp]:
    starting, running and stopping the reactor (Linux)

    The acceptor, the listener and the thread of the reactor; the tables of peers and
    sessions are in the [Reactor] of [FixServerReactor.v]. The thread's loop is made of
    polls; what each of them finds, and what the system calls return, are arguments. *)
From Stdlib Require Import ZArith Lia Ascii String.
From stdpp Require Import base decidable sets list gmap strings.
From S2P Require Import Prelude.
From S2P Require Import MachineInt.
From S2P Require Import StringUtility.
From S2P Require Import DateTime.
From S2P Require Import FixMessage.
From S2P Require Import FixSequenceStore.
From S2P Require Import Network.
From S2P Require Import Sockets.
From S2P Require Import FixSession.
From S2P Require Import ServerConfiguration.
From S2P Require Import Threads.
From S2P Require Import FixServerReactor.
Local Open Scope Z_scope.

Definition DEFAULT_PENDING_CONNECTION_QUEUE_SIZE : Z := 32.
Definition DEFAULT_ACCEPT_TIMEOUT : Z := 5.

Record TCPServerReactor : Type := mkTCPServerReactor {
  tr_acceptTimeout : Z;
  tr_socket : SocketObject;
  tr_reactorThread : option Z;         (** the thread object *)
  tr_ioListener : IOListenerEpoll;
  tr_reactorThreadCpuId : Z;
  tr_reactorThreadStackSize : Z;
  tr_reactorThreadPriority : ThreadPriority
}.

Definition with_socket (s : SocketObject) (t : TCPServerReactor) : TCPServerReactor :=
  mkTCPServerReactor (tr_acceptTimeout t) s (tr_reactorThread t) (tr_ioListener t) (tr_reactorThreadCpuId t)
    (tr_reactorThreadStackSize t) (tr_reactorThreadPriority t).
Definition with_ioListener (l : IOListenerEpoll) (t : TCPServerReactor) : TCPServerReactor :=
  mkTCPServerReactor (tr_acceptTimeout t) (tr_socket t) (tr_reactorThread t) l (tr_reactorThreadCpuId t)
    (tr_reactorThreadStackSize t) (tr_reactorThreadPriority t).
Definition with_reactorThread (p : option Z) (t : TCPServerReactor) : TCPServerReactor :=
  mkTCPServerReactor (tr_acceptTimeout t) (tr_socket t) p (tr_ioListener t) (tr_reactorThreadCpuId t)
    (tr_reactorThreadStackSize t) (tr_reactorThreadPriority t).

(** The constructor of [TCPServer]: the result of [create] is not looked at. *)
Definition TCPServer_new (pendingConnectionsQueueSize fd : Z) (junk : Address) (k : Kernel) : SocketObject * Kernel :=
  let '(s, k, _) := Socket_create SOCKET_TYPE_TCP fd (Socket_new junk) k in
  (setPendingConnectionsQueueSize pendingConnectionsQueueSize s, k).

Definition TCPServerReactor_new (pendingConnectionsQueueSize acceptTimeout fd : Z) (junk : Address) (k : Kernel)
    : TCPServerReactor * Kernel :=
  let '(s, k) := TCPServer_new pendingConnectionsQueueSize fd junk k in
  (mkTCPServerReactor acceptTimeout s None IOListenerEpoll_new (-1) 0 NORMAL, k).

(** What the system calls of a start return: for the acceptor, the listener, and the new
    thread object at the address [sr_thread], which the pthread [sr_self] starts. *)
Record StartResults : Type := mkStartResults {
  sr_getaddrinfo : str → option Z;
  sr_inet_pton : str → option Z;
  sr_bind : Z;
  sr_listen : Z;
  sr_epoll : Z;
  sr_junk : Z * Z;
  sr_thread : Z;
  sr_created : option Z;
  sr_self : Z;
  sr_pinned : Z
}.

Definition TCPServer_start (sr : StartResults) (address : str) (port : Z) (s : SocketObject) (k : Kernel)
    : SocketObject * Kernel * bool :=
  let k := setSocketOption REUSE_ADDRESS 1 s k in
  let '(s, k, bound) := Socket_bind (sr_getaddrinfo sr) (sr_inet_pton sr) (sr_bind sr) address port s k in
  if negb bound then (s, k, false)
  else
    let '(s, k, listening) := Socket_listen (sr_listen sr) s k in
    if negb listening then (s, k, false) else (s, k, true).

(** The thread of the reactor; a thread object that was there before is deleted. *)
Definition start_reactor_thread (sr : StartResults) (t : TCPServerReactor) (T : Threads) : outcome (TCPServerReactor * Threads) :=
  let id := sr_thread sr in
  let T := Thread_new id ($"TCP_REACTOR") T in
  let T := match tr_reactorThread t with Some old => Thread_delete old T | None => T end in
  let t := with_reactorThread (Some id) t in
  T ← Thread_setTask (Some (Task_new 0)) id T;
  T ← Thread_start (to_size (tr_reactorThreadStackSize t)) (sr_created sr) id T;
  '(T, _) ← Thread_setPriority (sr_self sr) (tr_reactorThreadPriority t) id T;
  T ← (if 0 <=? tr_reactorThreadCpuId t then
         '(T, _) ← Thread_pinToCPUCore (tr_reactorThreadCpuId t) (sr_pinned sr) id T; Ok T
       else Ok T);
  Ok (t, T).

Definition TCPServerReactor_start (sr : StartResults) (address : str) (port : Z) (t : TCPServerReactor) (k : Kernel) (T : Threads)
    : outcome (TCPServerReactor * Kernel * Threads * bool) :=
  let '(s, k, started) := TCPServer_start sr address port (tr_socket t) k in
  let t := with_socket s t in
  if negb started then Ok (t, k, T, false)
  else
    let k := setBlockingMode false s k in
    '(l, k) ← IOListenerEpoll_start (sr_epoll sr) (sr_junk sr) (tr_ioListener t) k;
    let k := addFileDescriptor (so_descriptor s) l k in
    let t := with_ioListener l t in
    '(t, T) ← start_reactor_thread sr t T;
    Ok (t, k, T, true).

(** [stop], after the flag is set: the thread is joined through its pointer. *)
Definition TCPServerReactor_stop (t : TCPServerReactor) (T : Threads) : outcome (TCPServerReactor * Threads) :=
  match tr_reactorThread t with
  | None => Undef NullDeref
  | Some id =>
      T ← Thread_join id T;
      Ok (with_ioListener (IOListenerEpoll_stop (tr_ioListener t)) t, T)
  end.

(** ** [FixServerReactor] *)

Record FixServer : Type := mkFixServer {
  fx_tcp : TCPServerReactor;
  fx_reactor : Reactor;
  fx_address : str;
  fx_port : Z;
  fx_compId : str                      (** static in [FixSession] *)
}.

Definition FixServer_initialise (c : FixServerConfiguration) (t : TCPServerReactor) (k : Kernel) : FixServer * Kernel :=
  let s := tr_socket t in
  let k := setSocketOption TCP_DISABLE_NAGLE (if fc_tcpDisableNagle c then 1 else 0) s k in
  let k := setSocketOption TCP_ENABLE_QUICKACK (if fc_tcpQuickAck c then 1 else 0) s k in
  let k := setSocketOption RECEIVE_BUFFER_SIZE (fc_tcpSocketOptionReceiveBufferSize c) s k in
  let k := setSocketOption SEND_BUFFER_SIZE (fc_tcpSocketOptionSendBufferSize c) s k in
  let s := setPendingConnectionsQueueSize (fc_tcpPendingConnectionSize c) s in
  let l := IOListenerEpoll_setTimeout (fc_tcpPollTimeoutMicroseconds c) (tr_ioListener t) in
  let l := IOListenerEpoll_setMaxPollEvents (to_size (fc_tcpPollMaxEvents c)) l in
  (mkFixServer
     (mkTCPServerReactor (tr_acceptTimeout t) s (tr_reactorThread t) l (fc_reactorThreadCpuId c)
        (fc_reactorThreadStackSize c) (fc_reactorThreadPriority c))
     (FixServerReactor_initialise (to_size (fc_fixReceiveCacheSize c)) (fc_fixSequenceNumberValidation c) (fc_fixTimePrecision c))
     (fc_fixAddress c) (fc_fixPort c) (fc_fixCompId c), k).

(** [start] does not look at whether the server could be started. *)
Definition FixServer_start (sr : StartResults) (f : FixServer) (k : Kernel) (T : Threads) : outcome (FixServer * Kernel * Threads) :=
  '(t, k, T, _) ← TCPServerReactor_start sr (fx_address f) (fx_port f) (fx_tcp f) k T;
  Ok (mkFixServer t (fx_reactor f) (fx_address f) (fx_port f) (fx_compId f), k, T).

(** [stop]: the thread is joined, then the sessions are saved. *)
Definition FixServer_stop (f : FixServer) (w : World) (T : Threads) : outcome (FixServer * World * Threads) :=
  '(t, T) ← TCPServerReactor_stop (fx_tcp f) T;
  let '(r, w) := FixServerReactor_stop (fx_compId f) (fx_reactor f) w in
  Ok (mkFixServer t r (fx_address f) (fx_port f) (fx_compId f), w, T).

(** ** The loop of the thread *)

(** What handling one event gets from the system: the results of [::select] and
    [::accept], the address of a new socket object, and what is received. *)
Record EventResults : Type := mkEventResults {
  er_ready : Z;
  er_peerDescriptor : Z;
  er_object : Z;
  er_received : Received
}.

(** A pass of the loop: what the flag says, what [epoll_wait] finds, and the results for
    each of its events. *)
Record Poll : Type := mkPoll {
  pl_isStopping : bool;
  pl_ready : option (list (Z * Z));
  pl_results : nat → EventResults
}.

Section thread.
Context `{!Platform} `{!BodyOrder} (COMPID : str).
Context {A : Type} (onFixMessage : FixMessage → nat → Reactor → World → A → outcome (Reactor * World * A)).
Context (memory : str).

(** The event of the listener at [counter], as [FixServerReactor.handle_event] gets it;
    on the acceptor a connection is accepted. *)
Definition ready_event (x : EventResults) (counter : nat) (t : TCPServerReactor) (k : Kernel)
    : outcome (Event * TCPServerReactor * Kernel) :=
  fd ← getReadyFileDescriptor (Z.of_nat counter) (tr_ioListener t);
  valid ← isValidEvent (Z.of_nat counter) (tr_ioListener t);
  if valid && (fd =? so_descriptor (tr_socket t)) then
    let '(s, k, peer) := accept_connection (er_ready x) (er_peerDescriptor x) (tr_socket t) k in
    Ok (mkEvent fd valid ((er_object x,.) <$> peer) (er_received x), with_socket s t, k)
  else Ok (mkEvent fd valid None (er_received x), t, k).

Definition handle_ready (x : EventResults) (counter : nat) (t : TCPServerReactor) (k : Kernel) (r : Reactor) (w : World) (a : A)
    : outcome (TCPServerReactor * Kernel * Reactor * World * A) :=
  '(e, t, k) ← ready_event x counter t k;
  '(r, w, a) ← handle_event COMPID onFixMessage (so_descriptor (tr_socket t)) memory e r w a;
  Ok (t, k, r, w, a).

Fixpoint handle_all_ready (results : nat → EventResults) (counter n : nat) (t : TCPServerReactor) (k : Kernel)
    (r : Reactor) (w : World) (a : A) : outcome (TCPServerReactor * Kernel * Reactor * World * A) :=
  match n with
  | O => Ok (t, k, r, w, a)
  | S n' =>
      '(t, k, r, w, a) ← handle_ready (results counter) counter t k r w a;
      handle_all_ready results (S counter) n' t k r w a
  end.

(** One pass; a timeout and an error of the poll do nothing but log. *)
Definition reactorPoll (p : Poll) (t : TCPServerReactor) (k : Kernel) (r : Reactor) (w : World) (a : A)
    : outcome (TCPServerReactor * Kernel * Reactor * World * A) :=
  let '(l, result) := getNumberOfReadyFileDescriptors (pl_ready p) (tr_ioListener t) in
  let t := with_ioListener l t in
  if 0 <? result then handle_all_ready (pl_results p) 0 (Z.to_nat result) t k r w a else Ok (t, k, r, w, a).

(** The loop over the passes given: [true] when it has ended. *)
Fixpoint reactorThread (polls : list Poll) (t : TCPServerReactor) (k : Kernel) (r : Reactor) (w : World) (a : A)
    : outcome (TCPServerReactor * Kernel * Reactor * World * A * bool) :=
  match polls with
  | [] => Ok (t, k, r, w, a, false)
  | p :: polls' =>
      if pl_isStopping p then Ok (t, k, r, w, a, true)
      else '(t, k, r, w, a) ← reactorPoll p t k r w a; reactorThread polls' t k r w a
  end.
End thread.

(** ** Starting *)

Lemma set_thread_twice id th th' T : set_thread id th (set_thread id th' T) = set_thread id th T.
Proof. unfold set_thread. simpl. by rewrite insert_insert_eq. Qed.

(** The pthread calls for the thread of the reactor. *)
Definition reactor_thread_calls (sr : StartResults) (tid : Z) (t : TCPServerReactor) : list (Z * PthreadCall) :=
  (sr_thread sr,.) <$>
    pthread_create tid :: pthread_setname_np tid ($"TCP_REACTOR") ::
    pthread_setschedparam (sr_self sr) (native_priority (tr_reactorThreadPriority t)) ::
    (if 0 <=? tr_reactorThreadCpuId t then [pthread_setaffinity_np tid (tr_reactorThreadCpuId t)] else []).

Definition reactor_thread_object (tid : Z) (t : TCPServerReactor) : Thread :=
  mkThread (Some (Task_new 0)) ($"TCP_REACTOR") true false tid (tr_reactorThreadPriority t).

Lemma start_reactor_thread_spec sr t T : tr_reactorThread t = None →
  start_reactor_thread sr t T =
    match sr_created sr with
    | None => Throw RuntimeError
    | Some tid =>
        Ok (with_reactorThread (Some (sr_thread sr)) t,
            mkThreads (<[sr_thread sr := reactor_thread_object tid t]> (ts_objects T)) (ts_THREADS T ++ [sr_thread sr])
              (ts_calls T ++ reactor_thread_calls sr tid t))
    end.
Proof.
  intros Hn. unfold start_reactor_thread. rewrite Hn. set (id := sr_thread sr). set (name := ($"TCP_REACTOR")).
  rewrite (setTask_spec _ id (mkThread None name false false 0 NORMAL)) by apply lookup_insert_eq. cbn [mbind outcome_bind].
  rewrite (start_spec _ _ id (mkThread (Some (Task_new 0)) name false false 0 NORMAL) (Task_new 0)) by (apply lookup_insert_eq || done).
  destruct (sr_created sr) as [tid|]; [|done]. cbn [m_name m_joined m_priority].
  assert ((MAX_THREAD_NAME_LENGTH <=? length name)%nat = false) as -> by done. cbn [mbind outcome_bind].
  rewrite (setPriority_spec _ _ id (mkThread (Some (Task_new 0)) name true false tid NORMAL)) by (apply lookup_insert_eq || done).
  cbn [mbind outcome_bind m_task m_name m_joined m_threadID ts_objects ts_THREADS ts_calls set_thread].
  rewrite !insert_insert_eq. unfold reactor_thread_calls, reactor_thread_object. fold id. fold name.
  change (tr_reactorThreadCpuId (with_reactorThread (Some id) t)) with (tr_reactorThreadCpuId t).
  destruct (Z.leb_spec 0 (tr_reactorThreadCpuId t)) as [Hc|Hc].
  - rewrite (pin_spec _ _ id (mkThread (Some (Task_new 0)) name true false tid (tr_reactorThreadPriority t)))
      by (apply lookup_insert_eq || done).
    unfold add_call, Thread_new. cbn [ts_objects ts_THREADS ts_calls m_threadID mbind outcome_bind].
    by rewrite !insert_insert_eq, <- !app_assoc.
  - unfold Thread_new. cbn [ts_objects ts_THREADS ts_calls mbind outcome_bind].
    by rewrite !insert_insert_eq, <- !app_assoc.
Qed.

(** The acceptor after it was bound. *)
Definition named_socket (sr : StartResults) (f : FixServer) : SocketObject :=
  with_address (Address_initialise (sr_getaddrinfo sr) (sr_inet_pton sr) (fx_address f) (fx_port f)) (tr_socket (fx_tcp f)).

(** What a start asks of the system, as far as it gets. *)
Definition naming_calls (sr : StartResults) (f : FixServer) : list SysCall :=
  let s := named_socket sr f in
  [sys_setsockopt (so_descriptor s) Linux.SOL_SOCKET Linux.SO_REUSEADDR 1;
   sys_bind (so_descriptor s) (ad_sin_addr (m_address s)) (htons (fx_port f))].
Definition listen_call (f : FixServer) : SysCall :=
  sys_listen (so_descriptor (tr_socket (fx_tcp f))) (m_pendingConnectionsQueueSize (tr_socket (fx_tcp f))).

Lemma TCPServer_start_spec sr f k :
  TCPServer_start sr (fx_address f) (fx_port f) (tr_socket (fx_tcp f)) k =
    if negb (sr_bind sr =? 0) then
      (named_socket sr f, mkKernel (k_flags k) (k_calls k ++ naming_calls sr f), false)
    else if negb (sr_listen sr =? 0) then
      (with_state SOCKET_BOUND (named_socket sr f), mkKernel (k_flags k) (k_calls k ++ naming_calls sr f ++ [listen_call f]), false)
    else
      (with_state SOCKET_LISTENING (named_socket sr f),
       mkKernel (k_flags k) (k_calls k ++ naming_calls sr f ++ [listen_call f]), true).
Proof.
  unfold TCPServer_start, Socket_bind. change (setSocketOption REUSE_ADDRESS 1 (tr_socket (fx_tcp f)) k) with
    (sys (sys_setsockopt (so_descriptor (tr_socket (fx_tcp f))) Linux.SOL_SOCKET Linux.SO_REUSEADDR 1) k).
  fold (named_socket sr f). unfold sys at 1 2. cbn [k_flags k_calls].
  assert (ad_sin_port (m_address (named_socket sr f)) = htons (fx_port f)) as -> by done. rewrite <- !app_assoc.
  destruct (sr_bind sr =? 0); [|done]. cbn [negb]. unfold Socket_listen, sys. cbn [k_flags k_calls]. rewrite <- !app_assoc.
  by destruct (sr_listen sr =? 0).
Qed.

(** ** Events of clients *)

Section events.
Context `{!Platform} `{!BodyOrder} (COMPID : str).
Context {A : Type} (onFixMessage : FixMessage → nat → Reactor → World → A → outcome (Reactor * World * A)).
Context (memory : str).

Lemma ready_event_client x counter t k ev fd : event_at (Z.of_nat counter) (tr_ioListener t) = Ok (ev, fd) →
  fd ≠ so_descriptor (tr_socket t) →
  ready_event x counter t k = Ok (mkEvent fd (input_event ev) None (er_received x), t, k).
Proof.
  intros E Hfd. unfold ready_event, getReadyFileDescriptor. rewrite E. cbn [mbind outcome_bind].
  rewrite (isValidEvent_bits _ _ _ E). cbn [mbind outcome_bind fst snd].
  by rewrite (proj2 (Z.eqb_neq _ _) Hfd), andb_false_r.
Qed.

(** A poll whose first event belongs to a client. *)
Lemma reactorPoll_first pl t k r w (a : A) ev fd more buffer :
  pl_ready pl = Some ((ev, fd) :: more) → m_epollEvents (tr_ioListener t) = Some buffer →
  0 < to_int (m_maxPollEvents (tr_ioListener t)) → fd ≠ so_descriptor (tr_socket t) →
  ∃ t' n, so_descriptor (tr_socket t') = so_descriptor (tr_socket t) ∧ tr_reactorThread t' = tr_reactorThread t ∧
    reactorPoll COMPID onFixMessage memory pl t k r w a =
    ('(r, w, a) ← handle_event COMPID onFixMessage (so_descriptor (tr_socket t)) memory
        (mkEvent fd (input_event ev) None (er_received (pl_results pl 0))) r w a;
     handle_all_ready COMPID onFixMessage memory (pl_results pl) 1 n t' k r w a).
Proof.
  intros Hr Hb Hm Hfd. unfold reactorPoll, getNumberOfReadyFileDescriptors. rewrite Hr, Hb.
  destruct (Z.leb_spec (to_int (m_maxPollEvents (tr_ioListener t))) 0); [lia|].
  destruct (Z.to_nat (to_int (m_maxPollEvents (tr_ioListener t)))) as [|n] eqn:En; [lia|]. simpl take.
  set (l := mkIOListenerEpoll _ _ _ _ _). exists (with_ioListener l t), (length (take n more)). split_and!; [done..|].
  destruct (Z.ltb_spec 0 (Z.of_nat (length ((ev, fd) :: take n more)))) as [_|Hl]; [|simpl in Hl; lia].
  rewrite Nat2Z.id. cbn [length handle_all_ready]. unfold handle_ready at 1.
  rewrite (ready_event_client _ 0 (with_ioListener l t) k ev fd) by done. cbn [mbind outcome_bind].
  change (so_descriptor (tr_socket (with_ioListener l t))) with (so_descriptor (tr_socket t)).
  by destruct (handle_event _ _ _ _ _ _ _ _) as [[[r1 w1] a1]|e|u|].
Qed.
End events.

(** C35: Starting the FIX server. When the address cannot be bound or listened on, nothing
    tells the caller: no thread is there, and a later stop follows a null pointer. When no
    thread can be created, the start throws. Otherwise the acceptor listens, does not
    block and is polled, the thread of the reactor runs with its name, priority and core,
    and a stop joins it once, frees the listener's array and saves the sessions. *)
Theorem server_start_outcome (sr : StartResults) (f : FixServer) (k : Kernel) (T : Threads) (arg : Z)
    (Hopen : k_flags k !! so_descriptor (tr_socket (fx_tcp f)) = Some arg)
    (Hnew : tr_reactorThread (fx_tcp f) = None) (Hmax : 12 * m_maxPollEvents (tr_ioListener (fx_tcp f)) <= LONG_MAX) :
  let fd := so_descriptor (tr_socket (fx_tcp f)) in
  if negb (sr_bind sr =? 0) || negb (sr_listen sr =? 0) then
    ∃ f' k', FixServer_start sr f k T = Ok (f', k', T) ∧
      (sk_state (so_socket (tr_socket (fx_tcp f'))) = SOCKET_LISTENING → sk_state (so_socket (tr_socket (fx_tcp f))) = SOCKET_LISTENING) ∧
      ∀ w T', FixServer_stop f' w T' = Undef NullDeref
  else
    match sr_created sr with
    | None => FixServer_start sr f k T = Throw RuntimeError
    | Some tid =>
        ∃ f' k' T' arg', FixServer_start sr f k T = Ok (f', k', T') ∧
          sk_state (so_socket (tr_socket (fx_tcp f'))) = SOCKET_LISTENING ∧
          k_calls k' = k_calls k ++ naming_calls sr f ++
            [listen_call f; sys_setflags fd arg'; sys_epoll_create (sr_epoll sr);
             sys_epoll_add (sr_epoll sr) fd (epoll_events (tr_ioListener (fx_tcp f)))] ∧
          k_flags k' = <[fd := arg']> (k_flags k) ∧ Z.testbit arg' 11 = true ∧
          ts_calls T' = ts_calls T ++ reactor_thread_calls sr tid (fx_tcp f) ∧
          ∀ w, ∃ f'' T'', FixServer_stop f' w T' =
              Ok (f'', (FixServerReactor_stop (fx_compId f) (fx_reactor f) w).2, T'') ∧
            ts_calls T'' = ts_calls T' ++ [(sr_thread sr, pthread_join tid)] ∧
            m_epollEvents (tr_ioListener (fx_tcp f'')) = None ∧ r_isStopping (fx_reactor f'') = true
    end.
Proof.
  intros fd. unfold FixServer_start, TCPServerReactor_start. rewrite TCPServer_start_spec.
  destruct (sr_bind sr =? 0); cbn [negb orb].
  2: { eexists _, _. split; [reflexivity|]. split; [done|]. intros w T'. unfold FixServer_stop, TCPServerReactor_stop. simpl.
    by rewrite Hnew. }
  destruct (sr_listen sr =? 0); cbn [negb].
  2: { eexists _, _. split; [reflexivity|]. split; [done|]. intros w T'. unfold FixServer_stop, TCPServerReactor_stop. simpl.
    by rewrite Hnew. }
  set (s1 := with_state SOCKET_LISTENING (named_socket sr f)).
  set (k1 := mkKernel _ _). unfold setBlockingMode. change (so_descriptor s1) with fd. change (k_flags k1) with (k_flags k).
  fold fd in Hopen. rewrite Hopen. unfold IOListenerEpoll_start. change (m_maxPollEvents (tr_ioListener (with_socket s1 (fx_tcp f)))) with
    (m_maxPollEvents (tr_ioListener (fx_tcp f))). destruct (Z.ltb_spec LONG_MAX (12 * m_maxPollEvents (tr_ioListener (fx_tcp f)))); [lia|].
  cbn [mbind outcome_bind]. rewrite start_reactor_thread_spec by done.
  destruct (sr_created sr) as [tid|]; [|done]. cbn [mbind outcome_bind].
  eexists _, _, _, (Z.lor arg Linux.O_NONBLOCK). split; [reflexivity|]. split; [done|].
  split; [simpl; by rewrite <- !app_assoc|]. split; [done|].
  split; [rewrite Z.lor_spec, flag_bit by lia; apply orb_true_r|]. split; [done|].
  intros w. unfold FixServer_stop, TCPServerReactor_stop. cbn [fx_tcp fx_reactor fx_compId tr_reactorThread with_reactorThread].
  rewrite (join_spec (sr_thread sr) (reactor_thread_object tid (fx_tcp f))) by (apply lookup_insert_eq || done).
  cbn [mbind outcome_bind m_threadID reactor_thread_object].
  eexists _, _. split; [reflexivity|]. split; [done|]. done.
Qed.

(** A client that sends and then closes its connection: when the poll reports input and
    hang-up together, the client is disconnected and what it sent is never read, whatever
    it is; the application does not hear of it. *)
Theorem hangup_drops_input `{!Platform} `{!BodyOrder} {A : Type} (COMPID : str)
    (onFixMessage : FixMessage → nat → Reactor → World → A → outcome (Reactor * World * A)) (memory : str)
    (t : TCPServerReactor) (k : Kernel) (r : Reactor) (w : World) (a : A) (i : nat) (counter : nat) (events fd : Z)
    (Hinv : reactor_inv r w) (Hused : r_SessionFlags r !! i = Some true)
    (Hevent : event_at (Z.of_nat counter) (tr_ioListener t) = Ok (events, fd))
    (Hclient : fd ≠ so_descriptor (tr_socket t) ∧ r_peerSocketIndexTable r !! fd = Some i)
    (Hbits : Z.testbit events 0 = true ∧ Z.testbit events 4 = true) :
  ∃ r' w', r_SessionFlags r' !! i = Some false ∧ reactor_inv r' w' ∧ w_sent w' = w_sent w ∧
    ∀ x, handle_ready COMPID onFixMessage memory x counter t k r w a = Ok (t, k, r', w', a).
Proof.
  destruct Hclient as [Hfd Htab]. destruct Hbits as [_ Hhup].
  destruct (reactor_inv_slot r w i Hinv Hused) as (s & id & sock & Hs & Hid & Hsock & Hc & _ & _).
  pose proof (onClientDisconnected_spec COMPID r w i s id sock Hinv Hused Hs Hid Hsock) as Hd.
  eexists _, _. split; [|split; [|split; [|intros x; unfold handle_ready; rewrite (ready_event_client x counter t k events fd) by done]]].
  4: { cbn [mbind outcome_bind]. unfold handle_event, map_index. cbn [ev_fd ev_valid]. rewrite Htab.
    replace (with_listener (r_peerSocketIndexTable r) (r_fileDescriptors r) r) with r by (by destruct r).
    unfold input_event. rewrite Hhup, andb_false_r, Hd. reflexivity. }
  - simpl. apply list_lookup_insert_eq. by eapply lookup_lt_Some.
  - by apply disconnected_inv.
  - unfold disconnected_world. simpl. done.
Qed.

(** ** What [initialise] configures

    The options of TCP are set at the level of sockets, where their numbers have another
    meaning: [TCP_NODELAY] is [SO_DEBUG], [TCP_QUICKACK] is [SO_PRIORITY]. *)
Lemma initialise_options c t k :
  k_calls (FixServer_initialise c t k).2 = k_calls k ++
    (sys_setsockopt (so_descriptor (tr_socket t)) Linux.SOL_SOCKET Linux.SO_DEBUG (if fc_tcpDisableNagle c then 1 else 0) ::
     sys_setsockopt (so_descriptor (tr_socket t)) Linux.SOL_SOCKET Linux.SO_PRIORITY (if fc_tcpQuickAck c then 1 else 0) ::
     sys_setsockopt (so_descriptor (tr_socket t)) Linux.SOL_SOCKET Linux.SO_RCVBUF (fc_tcpSocketOptionReceiveBufferSize c) ::
     [sys_setsockopt (so_descriptor (tr_socket t)) Linux.SOL_SOCKET Linux.SO_SNDBUF (fc_tcpSocketOptionSendBufferSize c)]).
Proof. simpl. by rewrite <- !app_assoc. Qed.

(** A name that cannot be resolved is taken for every address of the machine. *)
Lemma unresolved_is_any getaddrinfo inet_pton address port :
  getaddrinfo (c_str address) = None → inet_pton (c_str address) = None →
  ad_sin_addr (Address_initialise getaddrinfo inet_pton address port) = Linux.INADDR_ANY.
Proof. intros E1 E2. unfold Address_initialise. simpl. rewrite E1, E2. by case_match. Qed.

(** ** A server on port 4444 *)

#[local] Existing Instance demo_Platform.
#[local] Existing Instance demo_BodyOrder.

Definition demo_fix_configuration : FixServerConfiguration :=
  mkFixServerConfiguration true true 32 102400 102400 1000 1024 2 0 NORMAL true ($"EXECUTOR") ($"127.0.0.1") 0 4444 MICROSECONDS.
Definition demo_fix_server : FixServer * Kernel :=
  let '(t, k) := TCPServerReactor_new DEFAULT_PENDING_CONNECTION_QUEUE_SIZE DEFAULT_ACCEPT_TIMEOUT 3 (Address_new 0 0) (mkKernel ∅ []) in
  FixServer_initialise demo_fix_configuration t k.
Definition demo_start_results : StartResults :=
  mkStartResults (λ _, Some 16777343) (λ _, None) 0 0 4 (0, 0) 50 (Some 7000) 1 0.

Lemma server_start_outcome_witness :
  ∃ f' k' T' arg', FixServer_start demo_start_results demo_fix_server.1 demo_fix_server.2 Threads_empty = Ok (f', k', T') ∧
    sk_state (so_socket (tr_socket (fx_tcp f'))) = SOCKET_LISTENING ∧
    k_calls k' = k_calls demo_fix_server.2 ++
      [sys_setsockopt 3 1 2 1; sys_bind 3 16777343 23569] ++
      [sys_listen 3 32; sys_setflags 3 arg'; sys_epoll_create 4; sys_epoll_add 4 3 1] ∧
    k_flags k' = <[3 := arg']> (k_flags demo_fix_server.2) ∧ Z.testbit arg' 11 = true ∧
    ts_calls T' = [(50, pthread_create 7000); (50, pthread_setname_np 7000 ($"TCP_REACTOR"));
                   (50, pthread_setschedparam 1 0); (50, pthread_setaffinity_np 7000 2)] ∧
    ∀ w, ∃ f'' T'', FixServer_stop f' w T' =
        Ok (f'', (FixServerReactor_stop ($"EXECUTOR") (fx_reactor demo_fix_server.1) w).2, T'') ∧
      ts_calls T'' = ts_calls T' ++ [(50, pthread_join 7000)] ∧
      m_epollEvents (tr_ioListener (fx_tcp f'')) = None ∧ r_isStopping (fx_reactor f'') = true.
Proof.
  apply (server_start_outcome demo_start_results demo_fix_server.1 demo_fix_server.2 Threads_empty 2);
    [vm_compute; reflexivity|reflexivity|vm_compute; discriminate].
Defined.

(** The client on descriptor 7 sends and hangs up. *)
Definition demo_polled (events fd : Z) : TCPServerReactor :=
  with_ioListener (mkIOListenerEpoll LEVEL_TRIGGERED 4 (Some [(events, fd)]) 1 1024) (fx_tcp demo_fix_server.1).

Lemma hangup_drops_input_witness :
  ∃ r' w', r_SessionFlags r' !! 0%nat = Some false ∧ reactor_inv r' w' ∧ w_sent w' = w_sent demo_connected.1.2 ∧
    ∀ x, handle_ready ($"EXECUTOR") demo_handler [] x 0 (demo_polled 17 7) demo_fix_server.2 demo_connected.1.1 demo_connected.1.2 tt =
      Ok (demo_polled 17 7, demo_fix_server.2, r', w', tt).
Proof.
  apply (hangup_drops_input ($"EXECUTOR") demo_handler [] (demo_polled 17 7) demo_fix_server.2 demo_connected.1.1 demo_connected.1.2
    tt 0 0 17 7); [apply demo_connected_inv|vm_compute; reflexivity|reflexivity|split; [discriminate|vm_compute; reflexivity]|by split].
Defined.
