(* ===== verification/FixMessageConverter.v ===== *)
(** * [server/fix_message_converter.h]

    Orders out of FIX messages. The readers are [const] in C++, but reading a missing tag
    adds it to the message's [mutable] table, so the message is returned too. *)
From Stdlib Require Import ZArith Lia Ascii String SpecFloat.
From stdpp Require Import base decidable sets list gmap strings.
From S2P Require Import Prelude.
From S2P Require Import MachineInt.
From S2P Require Import StringUtility.
From S2P Require Import Double.
From S2P Require Import SecurityManager.
From S2P Require Import Order.
From S2P Require Import FixConstants.
From S2P Require Import FixMessage.
Local Open Scope Z_scope.

Definition convertCommonOrder (sm : SecurityManager) (message : FixMessage) (order : Order)
    : outcome (FixMessage * Order) :=
  let '(message, symbol) := getTagValue FIX_TAG_SYMBOL message in
  securityId ← SecurityManager_getSecurityId sm symbol;
  let order := Order_setSecurityId securityId order in
  let '(message, clientOrderId) := getTagValue FIX_TAG_CLIENT_ORDER_ID message in
  Ok (message, Order_setClientOrderId clientOrderId order).

Definition convertNewOrder (sm : SecurityManager) (message : FixMessage) (order : Order)
    : outcome (FixMessage * Order) :=
  '(message, order) ← convertCommonOrder sm message order;
  '(message, orderType) ← getTagValueAsInt FIX_TAG_ORDER_TYPE message;
  let order := if orderType =? FIX_ORDER_TYPE_LIMIT then Order_setOrderType LIMIT order else order in
  '(message, side) ← getTagValueAsInt FIX_TAG_ORDER_SIDE message;
  let order :=
    if side =? FIX_ORDER_SIDE_BUY then Order_setOrderSide BUY order
    else if side =? FIX_ORDER_SIDE_SELL then Order_setOrderSide SELL order
    else order in
  '(message, quantity) ← getTagValueAsLong FIX_TAG_ORDER_QUANTITY message;
  let order := Order_setQuantity quantity order in
  '(message, price) ← getTagValueAsLong FIX_TAG_ORDER_PRICE message;
  Ok (message, Order_setPrice (of_long price) order).

Definition convertCancelOrder (sm : SecurityManager) (message : FixMessage) (order : Order)
    : outcome (FixMessage * Order) :=
  convertCommonOrder sm message order.

(** The enumerators of [OrderStatus] have the numbers of FIX. *)
Definition convertOrderStatusToFixOrderStatus (status : OrderStatus) : Z :=
  match status with
  | ACCEPTED => 0
  | PARTIALLY_FILLED => 1
  | FILLED => 2
  | DONE_FOR_DAY => 3
  | CANCELED => 4
  | REPLACED => 5
  | PENDING_CANCEL => 6
  | STOPPED => 7
  | REJECTED => 8
  end.

(** ** What the conversion of a well-formed order gives *)

(** The tags of a limit order of a known symbol. *)
Record limit_order_tags (sm : SecurityManager) (m : FixMessage) (security : Z) (client : str) (side : OrderSide)
    (quantity price : Z) : Prop := {
  lo_symbol : ∃ symbol, m_bodyTagValuePairs m !! FIX_TAG_SYMBOL = Some symbol ∧
    m_securitiesBySymbol sm !! symbol = Some security;
  lo_client : m_bodyTagValuePairs m !! FIX_TAG_CLIENT_ORDER_ID = Some client;
  lo_type : m_bodyTagValuePairs m !! FIX_TAG_ORDER_TYPE = Some (to_string FIX_ORDER_TYPE_LIMIT);
  lo_side : ∃ z, m_bodyTagValuePairs m !! FIX_TAG_ORDER_SIDE = Some (to_string z) ∧
    (z = FIX_ORDER_SIDE_BUY ∧ side = BUY ∨ z = FIX_ORDER_SIDE_SELL ∧ side = SELL);
  lo_quantity : m_bodyTagValuePairs m !! FIX_TAG_ORDER_QUANTITY = Some (to_string quantity) ∧ in_long quantity = true;
  lo_price : m_bodyTagValuePairs m !! FIX_TAG_ORDER_PRICE = Some (to_string price) ∧ in_long price = true
}.

Lemma convertNewOrder_spec sm m security client side quantity price o :
  limit_order_tags sm m security client side quantity price →
  convertNewOrder sm m o =
    Ok (m, Order_setPrice (of_long price) (Order_setQuantity quantity (Order_setOrderSide side
             (Order_setOrderType LIMIT (Order_setClientOrderId client (Order_setSecurityId security o)))))).
Proof.
  intros [(symbol & Es & Eid) Ec Et (z & Ez & Hz) [Eq Hq] [Ep Hp]]. unfold convertNewOrder, convertCommonOrder.
  rewrite (getTagValue_present _ _ _ Es). unfold SecurityManager_getSecurityId, map_at. rewrite Eid.
  cbn [mbind outcome_bind]. rewrite (getTagValue_present _ _ _ Ec). cbn [mbind outcome_bind].
  rewrite (getTagValueAsInt_present _ _ _ Et) by done. cbn [mbind outcome_bind].
  rewrite (getTagValueAsInt_present _ _ _ Ez) by (destruct Hz as [[-> _]|[-> _]]; done). cbn [mbind outcome_bind].
  rewrite (getTagValueAsLong_present _ _ _ Eq) by done. cbn [mbind outcome_bind].
  rewrite (getTagValueAsLong_present _ _ _ Ep) by done. cbn [mbind outcome_bind].
  by destruct Hz as [[-> ->]|[-> ->]].
Qed.

Lemma convertCommonOrder_unknown sm m o symbol : m_bodyTagValuePairs m !! FIX_TAG_SYMBOL = Some symbol →
  m_securitiesBySymbol sm !! symbol = None → convertCommonOrder sm m o = Throw OutOfRange.
Proof.
  intros Es Eid. unfold convertCommonOrder. rewrite (getTagValue_present _ _ _ Es).
  unfold SecurityManager_getSecurityId, map_at. by rewrite Eid.
Qed.
