(* ===== verification/OutgoingMessageProcessor.v ===== *)
(** * [server/server_outgoing_message_processor.cpp]

    The thread that turns outgoing messages into execution reports, and the business
    rejects. In FIX mode both go to the session of the order, in offline mode to a file.
    The locks of the session and the log are left out. *)
From Stdlib Require Import ZArith Lia Ascii String SpecFloat.
From stdpp Require Import base decidable sets list list_numbers gmap strings.
From S2P Require Import Prelude.
From S2P Require Import MachineInt.
From S2P Require Import StringUtility.
From S2P Require Import DateTime.
From S2P Require Import Double.
From S2P Require Import Multimap.
From S2P Require Import SecurityManager.
From S2P Require Import Order.
From S2P Require Import OrderBook.
From S2P Require Import Fifo.
From S2P Require Import RingBuffer.
From S2P Require Import CentralOrderBook.
From S2P Require Import FixConstants.
From S2P Require Import FixMessage.
From S2P Require Import FixParser.
From S2P Require Import FixReceiveCache.
From S2P Require Import FixSequenceStore.
From S2P Require Import Network.
From S2P Require Import FixSession.
From S2P Require Import FixServerReactor.
From S2P Require Import FixMessageConverter.
Local Open Scope Z_scope.

Record OutgoingMessageProcessor : Type := mkOutgoingMessageProcessor {
  op_hasMessageQueue : bool;             (** [m_messageQueue] is set *)
  op_numberOfQueues : Z;
  op_execID : Z;
  op_offlineMode : bool;
  op_offlineModeOutputFile : str
}.

Definition OutgoingMessageProcessor_new : OutgoingMessageProcessor := mkOutgoingMessageProcessor false 0 0 false [].

Definition enableOfflineMode (file : str) (p : OutgoingMessageProcessor) : OutgoingMessageProcessor :=
  mkOutgoingMessageProcessor (op_hasMessageQueue p) (op_numberOfQueues p) (op_execID p) true file.

Definition setMessageQueue (numberOfQueues : Z) (p : OutgoingMessageProcessor) : OutgoingMessageProcessor :=
  mkOutgoingMessageProcessor true numberOfQueues (op_execID p) (op_offlineMode p) (op_offlineModeOutputFile p).

Definition generateExecID (p : OutgoingMessageProcessor) : outcome (OutgoingMessageProcessor * Z) :=
  n ← int_add (op_execID p) 1;
  Ok (mkOutgoingMessageProcessor (op_hasMessageQueue p) (op_numberOfQueues p) n (op_offlineMode p)
        (op_offlineModeOutputFile p), n).

Section processor.
Context `{!Platform} `{!BodyOrder} (COMPID : str) (nan_text : str) (sm : SecurityManager).

(** The message with the current time, as a line of the output file. *)
Definition write_offline (m : FixMessage) (p : OutgoingMessageProcessor) (w : World) : outcome World :=
  '(_, content) ← FixMessage_toString (setSendingAndTransactionTimeAsCurrent (utc_datetime MICROSECONDS) m) [];
  Ok (with_files (appendTextToFile (op_offlineModeOutputFile p) (content ++ [chr 10]) true (w_files w)) w).

Definition reject_tags (rejectionMessage : str) (m : FixMessage) : FixMessage :=
  setTag FIX_TAG_FREE_TEXT rejectionMessage
    (setTag_int FIX_TAG_EXEC_TYPE FIX_ORDER_STATUS_REJECTED
      (setTag_int FIX_TAG_ORDER_STATUS FIX_ORDER_STATUS_REJECTED m)).

(** [OutgoingMessageProcessor::rejectOrder]; the rejected message is not used. *)
Definition processor_rejectOrder (sessionId : nat) (rejectionMessage : str) (p : OutgoingMessageProcessor)
    (r : Reactor) (w : World) : outcome (Reactor * World) :=
  if op_offlineMode p then
    let m := setMessageType BUSINESS_REJECT (FixMessage_new junk_type) in
    w ← write_offline (reject_tags rejectionMessage m) p w;
    Ok (r, w)
  else
    session ← getSession sessionId r;
    match session with
    | None => Ok (r, w)
    | Some i =>
        s ← session_of (Some i) r;
        let m := getBaseMessage COMPID BUSINESS_REJECT (FixMessage_new junk_type) s in
        '(_, s, w, _) ← FixSession_send (reject_tags rejectionMessage m) s w;
        Ok (set_session (Some i) s r, w)
    end.

(** The tags of the execution report of an order. *)
Definition report_tags (order : Order) (symbol : str) (execID : Z) (m : FixMessage) : FixMessage :=
  let orderStatus := convertOrderStatusToFixOrderStatus (m_orderStatus order) in
  let executionType := convertOrderStatusToFixOrderStatus (m_lastExecution order) in
  let m := setTag_int FIX_TAG_ORDER_SIDE
             (if bool_decide (m_side order = BUY) then FIX_ORDER_SIDE_BUY else FIX_ORDER_SIDE_SELL) m in
  let m := setTag FIX_TAG_CLIENT_ORDER_ID (m_clientOrderID order) m in
  let m := setTag FIX_TAG_ORDER_ID (m_clientOrderID order) m in
  let m := setTag_int FIX_TAG_EXEC_ID execID m in
  let m := setTag_int FIX_TAG_ORDER_STATUS orderStatus m in
  let m := setTag_int FIX_TAG_EXEC_TYPE executionType m in
  let m := setTag_long FIX_TAG_ORDER_QUANTITY (m_quantity order) m in
  let m := setTag_long FIX_TAG_LEAVES_QTY (m_openQuantity order) m in
  let m := setTag_long FIX_TAG_CUMULATIVE_QUANTITY (m_executedQuantity order) m in
  let m := setTag_double nan_text FIX_TAG_AVERAGE_PRICE (m_averageExecutedPrice order) m in
  let m := setTag FIX_TAG_SYMBOL symbol m in
  let m :=
    if (orderStatus =? FIX_ORDER_STATUS_FILLED) || (orderStatus =? FIX_ORDER_STATUS_PARTIALLY_FILLED) then
      setTag_double nan_text FIX_TAG_LAST_PRICE (m_lastExecutedPrice order)
        (setTag_long FIX_TAG_LAST_QUANTITY (m_lastExecutedQuantity order) m)
    else m in
  if m_fixVersion m =? FIX_4_2 then setTag_int FIX_TAG_EXEC_TRANSTYPE 0 m else m.

(** The report of an order is made and sent through the session [s]. *)
Definition send_report (order : Order) (p : OutgoingMessageProcessor) (s : FixSession) (w : World)
    : outcome (OutgoingMessageProcessor * FixSession * World) :=
  let m := getExecutionReportMessage COMPID (FixMessage_new junk_type) s in
  '(p, execID) ← generateExecID p;
  symbol ← SecurityManager_getSecurityName sm (m_securityId order);
  '(_, s, w, _) ← FixSession_send (report_tags order symbol execID m) s w;
  Ok (p, s, w).

(** The body of the loop of [run] for a message that was popped. *)
Definition processOutgoingMessage (message : OutgoingMessage) (p : OutgoingMessageProcessor) (r : Reactor) (w : World)
    : outcome (OutgoingMessageProcessor * Reactor * World) :=
  let order := om_order message in
  if op_offlineMode p then
    let m := setMessageType EXECUTION_REPORT (FixMessage_new junk_type) in
    '(p, execID) ← generateExecID p;
    symbol ← SecurityManager_getSecurityName sm (m_securityId order);
    w ← write_offline (report_tags order symbol execID m) p w;
    Ok (p, r, w)
  else
    session ← getSession (Z.to_nat (m_sessionId order)) r;
    match session with
    | None => Ok (p, r, w)
    | Some i =>
        s ← session_of (Some i) r;
        '(p, s, w) ← send_report order p s w;
        Ok (p, set_session (Some i) s r, w)
    end.

(** One round over the queues: [n] queues from number [i] on. *)
Context {MQ TQ : Type} `{!Fifo OutgoingMessage MQ}.

Fixpoint processQueues (n : nat) (i : Z) (cob : CentralOrderBook MQ TQ) (p : OutgoingMessageProcessor) (r : Reactor)
    (w : World) : outcome (CentralOrderBook MQ TQ * OutgoingMessageProcessor * Reactor * World) :=
  match n with
  | O => Ok (cob, p, r, w)
  | S n' =>
      q ← vec_at i (m_outgoingMessages cob);
      '(q, popped) ← fifo_tryPop q;
      let cob := with_outgoing (<[Z.to_nat i := q]> (m_outgoingMessages cob)) cob in
      '(p, r, w) ← (match popped with
                    | None => Ok (p, r, w)
                    | Some message => processOutgoingMessage message p r w
                    end);
      processQueues n' (i + 1) cob p r w
  end.

(** One round of the thread: nothing happens before the queues are set. *)
Definition processorRound (cob : CentralOrderBook MQ TQ) (p : OutgoingMessageProcessor) (r : Reactor) (w : World)
    : outcome (CentralOrderBook MQ TQ * OutgoingMessageProcessor * Reactor * World) :=
  if op_hasMessageQueue p then processQueues (Z.to_nat (op_numberOfQueues p)) 0 cob p r w
  else Ok (cob, p, r, w).
End processor.

(** * The properties of the execution reports *)

(** The tag and the value of a body field that can be sent. *)
Definition body_field_ok (k : Z) (v : str) : Prop := field_ok (k, v) ∧ k ∉ header_tags.

Lemma body_field_intro k v : in_int k = true → bool_decide (k ∉ header_tags) = true → clean v → body_field_ok k v.
Proof. intros Hk Hh Hv. split; [by split|by rewrite bool_decide_eq_true in Hh]. Qed.

Lemma body_insert k v (body : gmap Z str) : body_field_ok k v → map_Forall body_field_ok body →
  map_Forall body_field_ok (<[k := v]> body).
Proof. intros Hk Hb. by apply map_Forall_insert_2. Qed.

Section reports.
Context `{!Platform} `{!BodyOrder} (COMPID nan_text : str).

Definition report_body (order : Order) (symbol : str) (execID : Z) (m : FixMessage) : gmap Z str :=
  m_bodyTagValuePairs (report_tags nan_text order symbol execID m).

Lemma report_tags_body order symbol execID m :
  report_tags nan_text order symbol execID m = setBody (report_body order symbol execID m) m.
Proof. unfold report_body, report_tags. repeat case_match; reflexivity. Qed.

Lemma report_body_ok order symbol execID m : clean nan_text → clean (m_clientOrderID order) → clean symbol →
  m_bodyTagValuePairs m = ∅ → map_Forall body_field_ok (report_body order symbol execID m).
Proof.
  intros Hn Hc Hs Hm. unfold report_body, report_tags.
  repeat case_match; simpl; rewrite Hm;
    repeat (apply body_insert;
      [apply body_field_intro; [reflexivity|reflexivity|first [done|apply clean_to_string|by apply clean_to_string_double]]|]);
    apply map_Forall_empty.
Qed.

(** What the client reads in the report. *)
Record report_fields (order : Order) (symbol : str) (execID : Z) (body : gmap Z str) : Prop := {
  rf_client : body !! FIX_TAG_CLIENT_ORDER_ID = Some (m_clientOrderID order);
  rf_order : body !! FIX_TAG_ORDER_ID = Some (m_clientOrderID order);
  rf_exec : body !! FIX_TAG_EXEC_ID = Some (to_string execID);
  rf_side : body !! FIX_TAG_ORDER_SIDE = Some (to_string (if bool_decide (m_side order = BUY) then 1 else 2));
  rf_status : body !! FIX_TAG_ORDER_STATUS = Some (to_string (convertOrderStatusToFixOrderStatus (m_orderStatus order)));
  rf_type : body !! FIX_TAG_EXEC_TYPE = Some (to_string (convertOrderStatusToFixOrderStatus (m_lastExecution order)));
  rf_quantity : body !! FIX_TAG_ORDER_QUANTITY = Some (to_string (m_quantity order));
  rf_leaves : body !! FIX_TAG_LEAVES_QTY = Some (to_string (m_openQuantity order));
  rf_cumulative : body !! FIX_TAG_CUMULATIVE_QUANTITY = Some (to_string (m_executedQuantity order));
  rf_symbol : body !! FIX_TAG_SYMBOL = Some symbol;
  rf_last : m_orderStatus order = FILLED ∨ m_orderStatus order = PARTIALLY_FILLED →
    body !! FIX_TAG_LAST_QUANTITY = Some (to_string (m_lastExecutedQuantity order)) ∧
    body !! FIX_TAG_LAST_PRICE = Some (to_string_double nan_text (m_lastExecutedPrice order))
}.

Ltac find_tag := repeat (rewrite lookup_insert_ne by done); apply lookup_insert_eq.

Lemma report_tags_fields order symbol execID m :
  report_fields order symbol execID (m_bodyTagValuePairs (report_tags nan_text order symbol execID m)).
Proof.
  unfold report_tags.
  destruct (_ || _) eqn:Ef; [|assert (¬ (m_orderStatus order = FILLED ∨ m_orderStatus order = PARTIALLY_FILLED))
    by (intros [E|E]; rewrite E in Ef; discriminate)];
  destruct (_ =? FIX_4_2); simpl; split; try find_tag; try done; intros _; split; find_tag.
Qed.

(** Other tags do not matter. *)
Lemma report_fields_insert k v order symbol execID body :
  k ∉ [FIX_TAG_CLIENT_ORDER_ID; FIX_TAG_ORDER_ID; FIX_TAG_EXEC_ID; FIX_TAG_ORDER_SIDE; FIX_TAG_ORDER_STATUS;
       FIX_TAG_EXEC_TYPE; FIX_TAG_ORDER_QUANTITY; FIX_TAG_LEAVES_QTY; FIX_TAG_CUMULATIVE_QUANTITY; FIX_TAG_SYMBOL;
       FIX_TAG_LAST_QUANTITY; FIX_TAG_LAST_PRICE] →
  report_fields order symbol execID body → report_fields order symbol execID (<[k := v]> body).
Proof.
  rewrite !not_elem_of_cons. intros Hk [H1 H2 H3 H4 H5 H6 H7 H8 H9 H10 H11].
  split; rewrite ?lookup_insert_ne by tauto; done.
Qed.

(** The report as the client receives it. *)
Lemma report_received order symbol execID m s length checksum : isAdminMessage m = false →
  report_fields order symbol execID
    (m_bodyTagValuePairs (setTag FIX_TAG_BODY_CHECKSUM checksum (setTag FIX_TAG_BODY_LENGTH length
      (stamped (report_tags nan_text order symbol execID m) s)))).
Proof.
  intros Ha. unfold stamped.
  assert (isAdminMessage (report_tags nan_text order symbol execID m) = false) as ->
    by (rewrite report_tags_body; exact Ha).
  do 3 (apply report_fields_insert; [apply (bool_decide_unpack _); vm_compute; exact I|]).
  apply report_tags_fields.
Qed.
End reports.

(** A message whose report can be sent to the client in slot [i], whose session is [s]. *)
Record reportable `{!Platform} `{!BodyOrder} (COMPID nan_text : str) (sm : SecurityManager) (message : OutgoingMessage)
    (p : OutgoingMessageProcessor) (r : Reactor) (w : World) (i : nat) (s : FixSession) (symbol : str) : Prop := {
  rp_online : op_offlineMode p = false;
  rp_execID : 0 <= op_execID p < INT_MAX;
  rp_reactor : reactor_inv r w;
  rp_slot : m_sessionId (om_order message) = Z.of_nat i;
  rp_used : r_SessionFlags r !! i = Some true;
  rp_session : r_Sessions r !! i = Some s;
  rp_symbol : m_securitiesById sm !! m_securityId (om_order message) = Some symbol;
  rp_ok : session_ok COMPID s;
  rp_clean : clean nan_text ∧ clean (m_clientOrderID (om_order message)) ∧ clean symbol;
  rp_size : wire_size_ok (stamped (report_tags nan_text (om_order message) symbol (op_execID p + 1)
              (getExecutionReportMessage COMPID (FixMessage_new junk_type) s)) s)
}.

(** One text more has been handed to [::send] on the connection of [s], whatever that call
    returned, and the report can be read from it. *)
Record report_handed_over (nan_text : str) (order : Order) (execID : Z) (symbol : str) (s : FixSession) (w w' : World) : Prop := {
  ra_handed_over : ∃ id sock st text received,
    ss_tcpConnection s = Some id ∧ w_sockets w !! id = Some (mkSocket sock st) ∧
    w_sent w' = w_sent w ++ [(sock, text)] ∧
    FixParser_parseFromBuffer (FixMessage_new 0) text (length text) = Ok received ∧
    m_messageType received = EXECUTION_REPORT ∧ m_targetCompId received = ss_targetCompId s ∧
    m_sequenceNumber received = ss_outgoingSequenceNumber s ∧
    report_fields nan_text order symbol execID (m_bodyTagValuePairs received)
}.

Lemma processOutgoingMessage_sends `{!Platform} `{!BodyOrder} COMPID nan_text sm message p r w i s symbol :
  reportable COMPID nan_text sm message p r w i s symbol →
  ∃ p' r' w', processOutgoingMessage COMPID nan_text sm message p r w = Ok (p', r', w') ∧ reactor_inv r' w' ∧
    op_execID p' = op_execID p + 1 ∧ report_handed_over nan_text (om_order message) (op_execID p + 1) symbol s w w'.
Proof.
  intros [Hmode Hexec Hinv Hsession Hused Hs Hsymbol Hok Hclean Hsize].
  destruct (reactor_inv_slot r w i Hinv Hused) as (s' & id & [sock st] & ? & Hid & Hsock & Hc & _). simplify_eq.
  set (order := om_order message) in *. set (m0 := getExecutionReportMessage COMPID (FixMessage_new junk_type) s) in *.
  set (m := report_tags nan_text order symbol (op_execID p + 1) m0) in *.
  assert (sendable (stamped m s)) as Hsend.
  { unfold m. rewrite report_tags_body. apply stamped_sendable; [done|unfold EXECUTION_REPORT; lia|].
    intros k v. apply report_body_ok; [tauto..|done]. }
  destruct (send_spec m s w id sock st Hsend Hsize Hc Hsock) as [E Hn]; [apply Hok|apply Hok|].
  pose proof (parseFromBuffer_fields (wire_fields (stamped m s)) (FixMessage_new 0) [] (wire_fields_ok _ Hsend)) as Hp.
  rewrite app_nil_r, (wire_roundtrip 0 _ Hsend) in Hp.
  assert (isAdminMessage m0 = false) as Ha by reflexivity.
  eexists _, _, _. split.
  { unfold processOutgoingMessage. fold order. cbn zeta. rewrite Hmode, Hsession, Nat2Z.id. unfold getSession. rewrite (vec_at_nat _ _ _ Hused).
    cbn [mbind outcome_bind]. unfold session_of. rewrite (vec_at_nat _ _ _ Hs). cbn [mbind outcome_bind].
    unfold send_report, generateExecID. rewrite int_add_Ok by (clear - Hexec; mlia). cbn [mbind outcome_bind].
    unfold SecurityManager_getSecurityName, map_at. rewrite Hsymbol. cbn [mbind outcome_bind].
    fold m0. fold m. rewrite E. reflexivity. }
  split; [eapply session_step; [exact Hinv|exact Hs|by split|done]|]. split; [done|].
  split. exists id, sock, st. eexists _, _. split; [done|]. split; [done|]. split; [done|]. split; [exact Hp|].
  split; [|split; [|split; [exact Hn|by apply report_received]]].
  - simpl. unfold stamped, m. rewrite report_tags_body. by case_match.
  - simpl. unfold stamped, m. rewrite report_tags_body. by case_match.
Qed.

(** C14: The execution report of a message that is taken from a queue is handed to [::send]
    on the connection of the session in the slot that the order names, once, whatever that
    call returns: nothing is sent again when it fails, so a report can be lost there. The
    text is numbered with the session's next number and reads back with the identifier,
    the side, the status, the quantities and the symbol of the order, and for a fill what
    was executed last. *)
Theorem execution_report_delivered `{!Platform} `{!BodyOrder} (COMPID nan_text : str) (sm : SecurityManager)
    (message : OutgoingMessage) (p : OutgoingMessageProcessor) (r : Reactor) (w : World) (s : FixSession)
    (i : nat) (symbol : str)
    (Hreportable : reportable COMPID nan_text sm message p r w i s symbol) :
  ∃ id sock st text p' r' w' received,
    processOutgoingMessage COMPID nan_text sm message p r w = Ok (p', r', w') ∧ reactor_inv r' w' ∧
    op_execID p' = op_execID p + 1 ∧
    ss_tcpConnection s = Some id ∧ w_sockets w !! id = Some (mkSocket sock st) ∧
    w_sent w' = w_sent w ++ [(sock, text)] ∧
    FixParser_parseFromBuffer (FixMessage_new 0) text (length text) = Ok received ∧
    m_messageType received = EXECUTION_REPORT ∧ m_targetCompId received = ss_targetCompId s ∧
    m_sequenceNumber received = ss_outgoingSequenceNumber s ∧
    report_fields nan_text (om_order message) symbol (op_execID p + 1) (m_bodyTagValuePairs received).
Proof.
  destruct (processOutgoingMessage_sends _ _ _ _ _ _ _ _ _ _ Hreportable)
    as (p' & r' & w' & E & Hinv & Hid & [(id & sock & st & text & received & Hra)]).
  exists id, sock, st, text, p', r', w', received. split_and!; tauto.
Qed.

(** *** A round over the queues *)

Section round.
Context `{!Platform} `{!BodyOrder} (COMPID nan_text : str) (sm : SecurityManager).
Context {MQ TQ : Type} `{!Fifo OutgoingMessage MQ} `{!FifoLaws OutgoingMessage MQ}.
Implicit Types cob : CentralOrderBook MQ TQ.

Definition empty_queue (q : MQ) : Prop := fifo_inv q ∧ fifo_list q = [].

Lemma processQueues_skip k i cob p r w q :
  m_outgoingMessages cob !! i = Some q → empty_queue q →
  processQueues COMPID nan_text sm (S k) (Z.of_nat i) cob p r w =
    processQueues COMPID nan_text sm k (Z.of_nat (S i)) cob p r w.
Proof.
  intros E [Hi Hl]. cbn [processQueues]. rewrite (vec_at_nat _ _ _ E). cbn [mbind outcome_bind].
  rewrite (fifo_pop_nil q Hi Hl). cbn [mbind outcome_bind]. rewrite Nat2Z.id, list_insert_id by done.
  replace (Z.of_nat i + 1) with (Z.of_nat (S i)) by lia. by destruct cob.
Qed.

Lemma processQueues_empty k i cob p r w : (i + k <= length (m_outgoingMessages cob))%nat →
  Forall empty_queue (drop i (m_outgoingMessages cob)) →
  processQueues COMPID nan_text sm k (Z.of_nat i) cob p r w = Ok (cob, p, r, w).
Proof.
  revert i. induction k as [|k IH]; intros i Hl Hf; [done|].
  destruct (lookup_lt_is_Some_2 (m_outgoingMessages cob) i) as [q E]; [lia|].
  rewrite (drop_S _ q) in Hf by done. apply Forall_cons in Hf as [Hq Hf].
  rewrite (processQueues_skip k i cob p r w q E Hq). apply IH; [lia|done].
Qed.

(** The only message that waits is sent. *)
Lemma processQueues_one k i j cob p r w q message l p' r' w' :
  (i <= j)%nat → (j < i + k)%nat → (i + k = length (m_outgoingMessages cob))%nat →
  m_outgoingMessages cob !! j = Some q → fifo_inv q → fifo_list q = message :: l →
  (∀ j' q', j' ≠ j → m_outgoingMessages cob !! j' = Some q' → empty_queue q') →
  processOutgoingMessage COMPID nan_text sm message p r w = Ok (p', r', w') →
  ∃ cob' q', processQueues COMPID nan_text sm k (Z.of_nat i) cob p r w = Ok (cob', p', r', w') ∧
    fifo_list q' = l ∧ cob' = with_outgoing (<[j := q']> (m_outgoingMessages cob)) cob.
Proof.
  revert i. induction k as [|k IH]; intros i Hij Hjk Hk Eq Hi Hl Hothers Hrun; [lia|].
  destruct (decide (i = j)) as [->|Hne].
  - destruct (fifo_pop_cons message l q Hi Hl) as (q' & Hpop & Hi' & Hl' & _). cbn [processQueues].
    rewrite (vec_at_nat _ _ _ Eq). cbn [mbind outcome_bind]. rewrite Hpop. cbn [mbind outcome_bind].
    rewrite Hrun. cbn [mbind outcome_bind]. rewrite Nat2Z.id.
    replace (Z.of_nat j + 1) with (Z.of_nat (S j)) by lia. eexists _, q'. split; [|done].
    apply processQueues_empty; simpl; [rewrite length_insert; lia|].
    apply Forall_lookup. intros x q2 E2. rewrite lookup_drop, list_lookup_insert_ne in E2 by lia.
    eapply (Hothers (S j + x)%nat); [lia|exact E2].
  - destruct (lookup_lt_is_Some_2 (m_outgoingMessages cob) i) as [q1 E1]; [lia|].
    rewrite (processQueues_skip k i cob p r w q1 E1) by (by eapply Hothers). apply IH; (done || lia).
Qed.
End round.

(** ** A witness *)

#[local] Existing Instance demo_Platform.
#[local] Existing Instance demo_BodyOrder.

(** The reactor with CLIENT1, logged on, in its first slot. *)
Definition demo_logged : FixSession :=
  with_settings FIX_4_2 30 0 ($"CLIENT1") (with_numbers 17 5 demo_new).
Definition demo_logged_reactor : Reactor := set_session (Some 0%nat) demo_logged demo_connected.1.1.

Lemma demo_logged_inv : reactor_inv demo_logged_reactor demo_connected.1.2.
Proof.
  apply (reactor_inv_session _ _ 0 demo_new); [apply demo_connected_inv|vm_compute; reflexivity|by split].
Qed.

Definition demo_sm : SecurityManager := (SecurityManager_addSecurity SecurityManager_empty ($"AAA")).1.
Definition demo_fill : OutgoingMessage :=
  OutgoingMessage_new (Order_setSessionId 0 (demo_order 7 SELL 100 5)) FILLED [].
Definition demo_processor : OutgoingMessageProcessor := setMessageQueue 1 OutgoingMessageProcessor_new.

Lemma demo_clean (v : str) : bool_decide (clean v) = true → clean v.
Proof. by rewrite bool_decide_eq_true. Qed.

Lemma demo_logged_ok : session_ok ($"EXECUTOR") demo_logged.
Proof.
  split; [by apply demo_clean|vm_compute; split; discriminate|by apply demo_clean|by apply demo_clean|].
  vm_compute. split; [discriminate|reflexivity].
Qed.

Lemma execution_report_delivered_witness : ∃ id sock st text p' r' w' received,
  processOutgoingMessage ($"EXECUTOR") ($"nan") demo_sm demo_fill demo_processor demo_logged_reactor demo_connected.1.2 =
    Ok (p', r', w') ∧ reactor_inv r' w' ∧
  op_execID p' = op_execID demo_processor + 1 ∧
  ss_tcpConnection demo_logged = Some id ∧ w_sockets demo_connected.1.2 !! id = Some (mkSocket sock st) ∧
  w_sent w' = w_sent demo_connected.1.2 ++ [(sock, text)] ∧
  FixParser_parseFromBuffer (FixMessage_new 0) text (length text) = Ok received ∧
  m_messageType received = EXECUTION_REPORT ∧ m_targetCompId received = ss_targetCompId demo_logged ∧
  m_sequenceNumber received = ss_outgoingSequenceNumber demo_logged ∧
  report_fields ($"nan") (om_order demo_fill) ($"AAA") (op_execID demo_processor + 1) (m_bodyTagValuePairs received).
Proof.
  apply (execution_report_delivered ($"EXECUTOR") ($"nan") demo_sm demo_fill demo_processor demo_logged_reactor
    demo_connected.1.2 demo_logged 0 ($"AAA")).
  split;
    [reflexivity|vm_compute; split; [discriminate|reflexivity]|apply demo_logged_inv|reflexivity
    |vm_compute; reflexivity|vm_compute; reflexivity|vm_compute; reflexivity|apply demo_logged_ok
    |split_and!; by apply demo_clean|vm_compute; discriminate].
Defined.
