(* ===== verification/Server.v ===== *)
(** * [server/server_base.h], [server/server_fix.cpp], [server/server_offline.cpp]

    The start of a server, the handling of application messages in FIX mode, which is
    the handler the reactor calls, and the orders of offline mode. [junk_order] is the
    memory of an [Order] before its constructor, [addr] the address of a string that is
    printed with [%d]; [fuel] bounds the pushes, as in [CentralOrderBook.v]. *)
From Stdlib Require Import ZArith Lia Ascii String SpecFloat.
From stdpp Require Import base decidable sets list list_numbers gmap strings.
From S2P Require Import Prelude.
From S2P Require Import MachineInt.
From S2P Require Import StringUtility.
From S2P Require Import Double.
From S2P Require Import Multimap.
From S2P Require Import SecurityManager.
From S2P Require Import Order.
From S2P Require Import OrderBook.
From S2P Require Import Fifo.
From S2P Require Import RingBuffer.
From S2P Require Import CentralOrderBook.
From S2P Require Import FixConstants.
From S2P Require Import FixMessage.
From S2P Require Import FixParser.
From S2P Require Import FixReceiveCache.
From S2P Require Import FixSequenceStore.
From S2P Require Import Network.
From S2P Require Import FixSession.
From S2P Require Import FixServerReactor.
From S2P Require Import FixMessageConverter.
From S2P Require Import OutgoingMessageProcessor.
Local Open Scope Z_scope.

Record Server (MQ TQ : Type) : Type := mkServer {
  sv_centralOrderBook : CentralOrderBook MQ TQ;
  sv_outgoingMessageProcessor : OutgoingMessageProcessor
}.
Arguments mkServer {MQ TQ}.
Arguments sv_centralOrderBook {MQ TQ}. Arguments sv_outgoingMessageProcessor {MQ TQ}.

Inductive IncomingMessageType : Type := IncomingNewOrder | IncomingCancelOrder.

(** [IncomingMessage] with the order of its base class. *)
Record IncomingMessage : Type := mkIncomingMessage {
  im_order : Order;
  im_originalOrderID : str;
  im_type : IncomingMessageType
}.

Section server.
Context {MQ TQ : Type} `{!Fifo OutgoingMessage MQ} `{!Fifo MatchTask TQ}.
Context `{!Platform} `{!BodyOrder} (COMPID : str) (sm : SecurityManager).
Context (fuel : nat) (addr : Z) (junk_order : Order).

(** The constructor of [ServerBase]. *)
Definition ServerBase_new (newMQ : Z → MQ) (newTQ : Z → TQ) (symbols : list str) (multithreaded : bool)
    (workQueueSizePerThread outgoingQueueSize : Z) (sm : SecurityManager)
    : outcome (SecurityManager * Server MQ TQ) :=
  '(sm, cob) ← CentralOrderBook_setSymbols symbols sm CentralOrderBook_empty;
  let cob := if multithreaded
             then CentralOrderBook_initialiseMultithreadedMatching newTQ workQueueSizePerThread symbols cob
             else cob in
  let symbolCount := Z.of_nat (length symbols) in
  let cob := CentralOrderBook_initialiseOutgoingMessageQueues newMQ symbolCount outgoingQueueSize cob in
  Ok (sm, mkServer cob (setMessageQueue symbolCount OutgoingMessageProcessor_new)).

(** ** FIX mode *)

Definition ServerFix_onNewOrder (message : FixMessage) (sessionId : nat) (r : Reactor) (w : World) (sv : Server MQ TQ)
    : outcome (Reactor * World * Server MQ TQ) :=
  let order := Order_setSessionId (Z.of_nat sessionId) (Order_default junk_order) in
  '(message, order) ← convertNewOrder sm message order;
  '(message, orderType) ← getTagValueAsInt FIX_TAG_ORDER_TYPE message;
  if negb (orderType =? FIX_ORDER_TYPE_LIMIT) then
    '(r, w) ← processor_rejectOrder COMPID sessionId ($"Non supported order type") (sv_outgoingMessageProcessor sv) r w;
    Ok (r, w, sv)
  else if negb (SecurityManager_isSecuritySupported sm (m_securityId order)) then
    '(r, w) ← processor_rejectOrder COMPID sessionId ($"Non supported symbol") (sv_outgoingMessageProcessor sv) r w;
    Ok (r, w, sv)
  else
    '(cob, _, _) ← CentralOrderBook_addOrder fuel order (sv_centralOrderBook sv);
    Ok (r, w, mkServer cob (sv_outgoingMessageProcessor sv)).

Definition ServerFix_onCancelOrder (message : FixMessage) (sessionId : nat) (r : Reactor) (w : World) (sv : Server MQ TQ)
    : outcome (Reactor * World * Server MQ TQ) :=
  let order := Order_setSessionId (Z.of_nat sessionId) (Order_default junk_order) in
  '(message, order) ← convertCancelOrder sm message order;
  let '(message, orig) := getTagValue FIX_TAG_ORIG_CLIENT_ORDER_ID message in
  cob ← CentralOrderBook_cancelOrder fuel addr order orig (sv_centralOrderBook sv);
  Ok (r, w, mkServer cob (sv_outgoingMessageProcessor sv)).

Definition ServerFix_onFixMessage (message : FixMessage) (sessionId : nat) (r : Reactor) (w : World) (sv : Server MQ TQ)
    : outcome (Reactor * World * Server MQ TQ) :=
  let messageType := m_messageType message in
  if messageType =? NEW_ORDER then ServerFix_onNewOrder message sessionId r w sv
  else if messageType =? CANCEL then ServerFix_onCancelOrder message sessionId r w sv
  else
    '(r, w) ← processor_rejectOrder COMPID sessionId ($"Only new and cancel orders accepted")
                (sv_outgoingMessageProcessor sv) r w;
    Ok (r, w, sv).

(** ** Offline mode *)

(** The loop of [loadOrders] over the messages of the file. *)
Fixpoint offline_orders (fixMessages : list FixMessage) (orders : list IncomingMessage) : outcome (list IncomingMessage) :=
  match fixMessages with
  | [] => Ok orders
  | fixMessage :: rest =>
      let messageType := m_messageType fixMessage in
      let order := Order_default junk_order in
      if messageType =? NEW_ORDER then
        '(_, order) ← convertNewOrder sm fixMessage order;
        offline_orders rest (orders ++ [mkIncomingMessage order [] IncomingNewOrder])
      else if messageType =? CANCEL then
        '(_, order) ← convertCancelOrder sm fixMessage order;
        offline_orders rest (orders ++ [mkIncomingMessage order [] IncomingCancelOrder])
      else offline_orders rest orders
  end.

Definition ServerOffline_loadOrders (m_file : str) (fs : files) : outcome (list IncomingMessage) :=
  if negb (doesFileExist m_file fs) then Ok []
  else
    fixMessages ← FixMessage_loadFromFile junk_type (fs !! m_file) [];
    offline_orders fixMessages [].

(** [run] adds the order of every message, whatever its type. *)
Fixpoint ServerOffline_submit (orders : list IncomingMessage) (cob : CentralOrderBook MQ TQ)
    : outcome (CentralOrderBook MQ TQ) :=
  match orders with
  | [] => Ok cob
  | m :: rest =>
      '(cob, _, _) ← CentralOrderBook_addOrder fuel (im_order m) cob;
      ServerOffline_submit rest cob
  end.

Definition ServerOffline_run (m_file : str) (fs : files) (cob : CentralOrderBook MQ TQ)
    : outcome (CentralOrderBook MQ TQ) :=
  orders ← ServerOffline_loadOrders m_file fs;
  ServerOffline_submit orders cob.
End server.

(** * The properties of the server *)

(** The handler of the server keeps the reactor's tables aligned, as the reactor asks. *)
Lemma processor_rejectOrder_inv `{!Platform} `{!BodyOrder} COMPID i text p r w r' w' : reactor_inv r w →
  processor_rejectOrder COMPID i text p r w = Ok (r', w') → reactor_inv r' w'.
Proof.
  intros Hinv R. unfold processor_rejectOrder in R. destruct (op_offlineMode p).
  - run_inv R. simplify_eq. unfold write_offline in Eo. run_inv Eo. destruct o. simplify_eq.
    eapply reactor_inv_world; [exact Hinv|by apply keeps_alive_same].
  - run_inv R. destruct o as [k|]; [|by simplify_eq]. run_inv R. apply session_of_inv in Eo0.
    run_inv R. destruct o0 as [[[m s] w1] n]. simplify_eq. apply send_links in Eo1 as [L W].
    by eapply session_step.
Qed.

Lemma ServerFix_handler_keeps {MQ TQ} `{!Fifo OutgoingMessage MQ} `{!Fifo MatchTask TQ} `{!Platform} `{!BodyOrder}
    COMPID sm fuel addr junk_order :
  handler_keeps (ServerFix_onFixMessage (MQ := MQ) (TQ := TQ) COMPID sm fuel addr junk_order).
Proof.
  intros m i r w a r' w' a' Hinv R. unfold ServerFix_onFixMessage in R. destruct (_ =? _); [|destruct (_ =? _)].
  - unfold ServerFix_onNewOrder in R. run_inv R. destruct o as [m1 o1]. run_inv R. destruct o as [m2 t].
    destruct (negb _); [|destruct (negb _)].
    + run_inv R. destruct o as [r1 w1]. simplify_eq. by eapply processor_rejectOrder_inv.
    + run_inv R. destruct o as [r1 w1]. simplify_eq. by eapply processor_rejectOrder_inv.
    + run_inv R. destruct o as [[c o2] b]. by simplify_eq.
  - unfold ServerFix_onCancelOrder in R. run_inv R. destruct o as [m1 o1]. destruct (getTagValue _ _). run_inv R.
    by simplify_eq.
  - run_inv R. destruct o as [r1 w1]. simplify_eq. by eapply processor_rejectOrder_inv.
Qed.

(** The order of a limit order message. *)
Definition received_order (junk_order : Order) (sessionId security : Z) (client : str) (side : OrderSide)
    (quantity price : Z) : Order :=
  mkOrder (m_orderID junk_order) client security sessionId side LIMIT (of_long price) quantity quantity 0
    (m_cancelled junk_order) dzero dzero 0 ACCEPTED ACCEPTED.

Lemma received_order_live junk_order i security client side quantity price : 0 < quantity → in_long quantity = true →
  live (received_order junk_order i security client side quantity price).
Proof.
  intros Hq Hl. split; [split|]; simpl; try lia; [|apply of_long_not_nan]. clear - Hl. mlia.
Qed.

Section new_order.
Context {MQ TQ : Type} `{!Fifo OutgoingMessage MQ} `{!FifoLaws OutgoingMessage MQ} `{!Fifo MatchTask TQ}
  `{!FifoLaws MatchTask TQ} `{!Platform} `{!BodyOrder}.

Lemma onNewOrder_adds COMPID sm fuel addr junk m i r w (sv : Server MQ TQ) security client side quantity price :
  m_messageType m = NEW_ORDER → limit_order_tags sm m security client side quantity price →
  SecurityManager_isSecuritySupported sm security = true →
  ServerFix_onFixMessage COMPID sm fuel addr junk m i r w sv =
    ('(cob, _, _) ← CentralOrderBook_addOrder fuel
        (received_order junk (Z.of_nat i) security client side quantity price) (sv_centralOrderBook sv);
     Ok (r, w, mkServer cob (sv_outgoingMessageProcessor sv))).
Proof.
  intros Ht Htags Hsup. unfold ServerFix_onFixMessage. rewrite Ht. cbn [Z.eqb NEW_ORDER Pos.eqb].
  unfold ServerFix_onNewOrder. rewrite (convertNewOrder_spec _ _ _ _ _ _ _ _ Htags). cbn [mbind outcome_bind].
  rewrite (getTagValueAsInt_present _ _ _ (lo_type _ _ _ _ _ _ _ Htags)) by done. cbn [mbind outcome_bind].
  cbn [Z.eqb FIX_ORDER_TYPE_LIMIT Pos.eqb negb].
  match goal with |- context [SecurityManager_isSecuritySupported sm ?x] => change x with security end.
  by rewrite Hsup.
Qed.
End new_order.

(** C11: A valid limit order of a client becomes an order of its session in the book of its
    symbol: it gets the next number and is acknowledged first in the symbol's queue, then
    come the reports of its executions, and the books stay in price-time order. *)
Theorem new_order_enters_book {MQ TQ} `{!Fifo OutgoingMessage MQ} `{!FifoLaws OutgoingMessage MQ} `{!Fifo MatchTask TQ}
    `{!FifoLaws MatchTask TQ} `{!Platform} `{!BodyOrder}
    (COMPID : str) (sm : SecurityManager) (fuel : nat) (addr : Z) (junk : Order) (m : FixMessage) (i : nat)
    (r : Reactor) (w : World) (sv : Server MQ TQ) (security queueID : Z) (client : str) (side : OrderSide)
    (quantity price : Z)
    (Htype : m_messageType m = NEW_ORDER) (Htags : limit_order_tags sm m security client side quantity price)
    (Hquantity : 0 < quantity) (Hsupported : SecurityManager_isSecuritySupported sm security = true)
    (Hfuel : (0 < fuel)%nat) (Hinv : cob_inv (sv_centralOrderBook sv))
    (Hsync : m_isMatchingMultithreaded (sv_centralOrderBook sv) = false)
    (Hnumber : m_orderNumber (sv_centralOrderBook sv) < INT_MAX)
    (Hqueue : m_queueIDDictionary (sv_centralOrderBook sv) !! security = Some queueID)
    (Hroom : queue_room queueID (1 + 2 * S (book_size (book_of (sv_centralOrderBook sv) security))) (sv_centralOrderBook sv)) :
  let cob := sv_centralOrderBook sv in
  let order := Order_setOrderId (m_orderNumber cob + 1)
                 (received_order junk (Z.of_nat i) security client side quantity price) in
  ∃ cob' book' pushed b,
    ServerFix_onFixMessage COMPID sm fuel addr junk m i r w sv =
      Ok (r, w, mkServer cob' (sv_outgoingMessageProcessor sv)) ∧
    OrderBook_processMatching (OrderBook_insert order (book_of cob security)) [] = Ok (book', pushed, b) ∧
    cob_inv cob' ∧ book_of cob' security = book' ∧
    ∃ q q', m_outgoingMessages cob !! Z.to_nat queueID = Some q ∧
      m_outgoingMessages cob' = <[Z.to_nat queueID := q']> (m_outgoingMessages cob) ∧
      fifo_list q' = fifo_list q ++ OutgoingMessage_new order ACCEPTED [] :: (message_of <$> pushed).
Proof.
  intros cob order. pose proof Htags as [_ _ _ (z & _ & Hz) [_ Hq] _].
  destruct (addOrder_spec fuel queueID (received_order junk (Z.of_nat i) security client side quantity price) cob)
    as (cob' & book' & pushed & b & Hm & Ha & (q & q' & Eq & Ec & Lq & _) & Hinv'); try done.
  { by apply received_order_live. }
  { by destruct Hz as [[_ ->]|[_ ->]]. }
  exists cob', book', pushed, b. split.
  { rewrite (onNewOrder_adds _ _ _ _ _ _ _ _ _ _ _ _ _ _ _ Htype Htags Hsupported). fold cob. rewrite Ha. reflexivity. }
  split; [done|]. split; [done|]. split; [rewrite Ec; unfold book_of; simpl; by rewrite lookup_insert_eq|].
  exists q, q'. split; [done|]. split; [by rewrite Ec|done].
Qed.

(** A message for an unknown symbol is not rejected: the lookup of the symbol throws
    before the handler tests whether it is supported. *)
Lemma unknown_symbol_throws {MQ TQ} `{!Fifo OutgoingMessage MQ} `{!Fifo MatchTask TQ} `{!Platform} `{!BodyOrder}
    (COMPID : str) (sm : SecurityManager) (fuel : nat) (addr : Z) (junk : Order) (m : FixMessage) (i : nat)
    (r : Reactor) (w : World) (sv : Server MQ TQ) (symbol : str)
    (Htype : m_messageType m = NEW_ORDER ∨ m_messageType m = CANCEL)
    (Hsymbol : m_bodyTagValuePairs m !! FIX_TAG_SYMBOL = Some symbol)
    (Hunknown : SecurityManager_isSymbolSupported sm symbol = false) :
  ServerFix_onFixMessage COMPID sm fuel addr junk m i r w sv = Throw OutOfRange.
Proof.
  assert (m_securitiesBySymbol sm !! symbol = None) as Hn.
  { unfold SecurityManager_isSymbolSupported in Hunknown. by case_match. }
  unfold ServerFix_onFixMessage, ServerFix_onNewOrder, ServerFix_onCancelOrder, convertCancelOrder, convertNewOrder.
  rewrite !(convertCommonOrder_unknown sm m _ symbol Hsymbol Hn).
  by destruct Htype as [-> | ->].
Qed.

(** ** Witnesses *)

#[local] Existing Instance demo_Platform.
#[local] Existing Instance demo_BodyOrder.

Definition demo_server : Server (RingBuffer OutgoingMessage) (RingBuffer MatchTask) :=
  mkServer (demo_setup false) demo_processor.

(** A limit order for 5 at 100, as the parser delivers it. *)
Definition demo_new_order (symbol : str) : FixMessage :=
  setTag FIX_TAG_SYMBOL symbol (setTag FIX_TAG_ORDER_TYPE (to_string 2) (setTag FIX_TAG_ORDER_SIDE (to_string 1)
    (setTag FIX_TAG_ORDER_QUANTITY (to_string 5) (setTag FIX_TAG_ORDER_PRICE (to_string 100)
      (demo_incoming NEW_ORDER 2))))).

Lemma demo_new_order_tags : limit_order_tags demo_sm (demo_new_order ($"AAA")) 0 ($"7") BUY 5 100.
Proof.
  split; try (vm_compute; reflexivity); try (split; vm_compute; reflexivity).
  - exists ($"AAA"). split; vm_compute; reflexivity.
  - exists 1. split; [vm_compute; reflexivity|by left].
Qed.

Lemma new_order_enters_book_witness :
  let cob := demo_setup false in
  let order := Order_setOrderId (m_orderNumber cob + 1) (received_order (demo_order 0 SELL 0 0) 0 0 ($"7") BUY 5 100) in
  ∃ (cob' : demo_cob) book' pushed b,
    ServerFix_onFixMessage ($"EXECUTOR") demo_sm 1 4096 (demo_order 0 SELL 0 0) (demo_new_order ($"AAA")) 0
      demo_logged_reactor demo_world demo_server = Ok (demo_logged_reactor, demo_world, mkServer cob' demo_processor) ∧
    OrderBook_processMatching (OrderBook_insert order (book_of cob 0)) [] = Ok (book', pushed, b) ∧
    cob_inv cob' ∧ book_of cob' 0 = book' ∧
    ∃ q q', m_outgoingMessages cob !! 0%nat = Some q ∧
      m_outgoingMessages cob' = <[0%nat := q']> (m_outgoingMessages cob) ∧
      fifo_list q' = fifo_list q ++ OutgoingMessage_new order ACCEPTED [] :: (message_of <$> pushed).
Proof.
  apply (new_order_enters_book ($"EXECUTOR") demo_sm 1 4096 (demo_order 0 SELL 0 0) _ 0 demo_logged_reactor demo_world
    demo_server 0 0 ($"7") BUY 5 100);
    [reflexivity|apply demo_new_order_tags|lia|vm_compute; reflexivity|lia|apply demo_setup_inv|reflexivity..|].
  apply demo_room. vm_compute. lia.
Defined.

(** ** The side of a cancel request

    An order rests on the bid side; the client asks for its cancellation. *)

Definition demo_cancel : FixMessage :=
  setTag FIX_TAG_SYMBOL ($"AAA") (setTag FIX_TAG_CLIENT_ORDER_ID ($"8") (setTag FIX_TAG_ORIG_CLIENT_ORDER_ID ($"7")
    (demo_incoming CANCEL 3))).

Definition demo_resting : Server (RingBuffer OutgoingMessage) (RingBuffer MatchTask) :=
  mkServer (demo_add (demo_order 7 BUY 100 5) (demo_setup false)) demo_processor.

(** The tags of a request to cancel an order for a known symbol. It may have a side, too:
    nothing reads it. *)
Record cancel_tags (sm : SecurityManager) (m : FixMessage) (security : Z) (client orig : str) : Prop := {
  ca_symbol : ∃ symbol, m_bodyTagValuePairs m !! FIX_TAG_SYMBOL = Some symbol ∧
    m_securitiesBySymbol sm !! symbol = Some security;
  ca_client : m_bodyTagValuePairs m !! FIX_TAG_CLIENT_ORDER_ID = Some client;
  ca_orig : m_bodyTagValuePairs m !! FIX_TAG_ORIG_CLIENT_ORDER_ID = Some orig
}.

(** The order made of the request: its side is what the memory held. *)
Definition cancel_order (junk_order : Order) (i : nat) (security : Z) (client : str) : Order :=
  Order_setClientOrderId client (Order_setSecurityId security (Order_setSessionId (Z.of_nat i) (Order_default junk_order))).

Lemma onCancelOrder_cancels {MQ TQ} `{!Fifo OutgoingMessage MQ} `{!Fifo MatchTask TQ} `{!Platform} `{!BodyOrder}
    COMPID sm fuel addr junk m i r w (sv : Server MQ TQ) security client orig :
  m_messageType m = CANCEL → cancel_tags sm m security client orig →
  ServerFix_onFixMessage COMPID sm fuel addr junk m i r w sv =
    (cob ← CentralOrderBook_cancelOrder fuel addr (cancel_order junk i security client) orig (sv_centralOrderBook sv);
     Ok (r, w, mkServer cob (sv_outgoingMessageProcessor sv))).
Proof.
  intros Ht [(symbol & Es & Eid) Ec Eo]. unfold ServerFix_onFixMessage. rewrite Ht. cbn [Z.eqb NEW_ORDER CANCEL Pos.eqb].
  unfold ServerFix_onCancelOrder, convertCancelOrder, convertCommonOrder. rewrite (getTagValue_present _ _ _ Es).
  unfold SecurityManager_getSecurityId, map_at. rewrite Eid. cbn [mbind outcome_bind].
  rewrite (getTagValue_present _ _ _ Ec). cbn [mbind outcome_bind]. by rewrite (getTagValue_present _ _ _ Eo).
Qed.

(** C40: What a cancel request does depends on uninitialised memory, for the conversion of the
    request never sets the side. Take any request for an order of the client that rests in
    the book, on one side only. If the memory of the request's order happens to hold that
    side, the resting order is taken out of the book and reported as cancelled; if it holds
    anything else, the same request in the same state leaves the book alone and is
    rejected. *)
Theorem cancel_depends_on_memory {MQ TQ} `{!Fifo OutgoingMessage MQ} `{!FifoLaws OutgoingMessage MQ} `{!Fifo MatchTask TQ}
    `{!FifoLaws MatchTask TQ} `{!Platform} `{!BodyOrder}
    (COMPID : str) (sm : SecurityManager) (fuel : nat) (addr : Z) (m : FixMessage) (i : nat)
    (r : Reactor) (w : World) (sv : Server MQ TQ) (security queueID : Z) (client orig : str) (side : OrderSide)
    (p : OrderPtr) (found : Order)
    (Htype : m_messageType m = CANCEL) (Htags : cancel_tags sm m security client orig) (Hfuel : (0 < fuel)%nat)
    (Hinv : cob_inv (sv_centralOrderBook sv)) (Hsync : m_isMatchingMultithreaded (sv_centralOrderBook sv) = false)
    (Hqueue : m_queueIDDictionary (sv_centralOrderBook sv) !! security = Some queueID)
    (Hroom : queue_room queueID 1 (sv_centralOrderBook sv))
    (Hrests : OrderBook_find orig (Z.of_nat i) side (book_of (sv_centralOrderBook sv) security) = Some (p, found))
    (Honly : ∀ other, other ≠ side → OrderBook_find orig (Z.of_nat i) other (book_of (sv_centralOrderBook sv) security) = None) :
  let cob := sv_centralOrderBook sv in
  let outcome_of junk := ServerFix_onFixMessage COMPID sm fuel addr junk m i r w sv in
  (∀ junk, m_side junk = side → ∃ cob' l1 k l2,
     outcome_of junk = Ok (r, w, mkServer cob' (sv_outgoingMessageProcessor sv)) ∧
     side_of (ptr_bid p) (book_of cob security) = l1 ++ (k, found) :: l2 ∧
     book_of cob' security = with_side (ptr_bid p) (l1 ++ l2) (book_of cob security) ∧
     ∃ q q', m_outgoingMessages cob !! Z.to_nat queueID = Some q ∧ m_outgoingMessages cob' !! Z.to_nat queueID = Some q' ∧
       fifo_list q' = fifo_list q ++ [OutgoingMessage_new (Order_cancel found) CANCELED ($"Order canceled")]) ∧
  (∀ junk, m_side junk ≠ side → ∃ cob' text,
     outcome_of junk = Ok (r, w, mkServer cob' (sv_outgoingMessageProcessor sv)) ∧
     (∀ sec, book_of cob' sec = book_of cob sec) ∧
     ∃ q q', m_outgoingMessages cob !! Z.to_nat queueID = Some q ∧ m_outgoingMessages cob' !! Z.to_nat queueID = Some q' ∧
       fifo_list q' = fifo_list q ++ [OutgoingMessage_new (cancel_order junk i security client) REJECTED text]).
Proof.
  intros cob outcome_of. split; intros junk Hside; unfold outcome_of;
    rewrite (onCancelOrder_cancels _ _ _ _ _ _ _ _ _ _ _ _ _ Htype Htags); unfold CentralOrderBook_cancelOrder; fold cob; fold cob in Hsync;
    rewrite Hsync.
  - destruct (taskCancelOrder_found fuel addr queueID (cancel_order junk i security client) orig p found cob)
      as (cob' & l1 & k & l2 & El & _ & _ & E & (q & q' & Eq & Ec & Lq & _) & _); try done.
    { cbn. by rewrite Hside. }
    exists cob', l1, k, l2. rewrite E. split; [done|]. split; [exact El|]. split.
    + rewrite Ec. unfold book_of. simpl. by rewrite lookup_insert_eq.
    + exists q, q'. split; [done|]. split; [|done]. rewrite Ec. simpl. apply list_lookup_insert_eq. by eapply lookup_lt_Some.
  - destruct (taskCancelOrder_missing fuel addr queueID (cancel_order junk i security client) orig cob)
      as (cob' & text & _ & E & (q & q' & Eq & Ec & Lq & _) & _); try done.
    { cbn. by apply Honly. }
    exists cob', text. rewrite E. split; [done|]. split.
    + intros sec. rewrite Ec. unfold book_of. simpl. rewrite lookup_insert. by case_decide as Hd; [subst|].
    + exists q, q'. split; [done|]. split; [|done]. rewrite Ec. simpl. apply list_lookup_insert_eq. by eapply lookup_lt_Some.
Qed.

(** An order rests on the bid side; the request of its client, in any memory. *)
Definition demo_found : OrderPtr * Order :=
  default (mkOrderPtr true 0, demo_order 0 BUY 0 0) (OrderBook_find ($"7") 1 BUY (book_of (sv_centralOrderBook demo_resting) 0)).

Lemma cancel_depends_on_memory_witness :
  let cob := sv_centralOrderBook demo_resting in
  let outcome_of junk := ServerFix_onFixMessage ($"EXECUTOR") demo_sm 1 4096 junk demo_cancel 1 demo_logged_reactor demo_world demo_resting in
  (∀ junk, m_side junk = BUY → ∃ cob' l1 k l2,
     outcome_of junk = Ok (demo_logged_reactor, demo_world, mkServer cob' demo_processor) ∧
     side_of (ptr_bid demo_found.1) (book_of cob 0) = l1 ++ (k, demo_found.2) :: l2 ∧
     book_of cob' 0 = with_side (ptr_bid demo_found.1) (l1 ++ l2) (book_of cob 0) ∧
     ∃ q q', m_outgoingMessages cob !! 0%nat = Some q ∧ m_outgoingMessages cob' !! 0%nat = Some q' ∧
       fifo_list q' = fifo_list q ++ [OutgoingMessage_new (Order_cancel demo_found.2) CANCELED ($"Order canceled")]) ∧
  (∀ junk, m_side junk ≠ BUY → ∃ cob' text,
     outcome_of junk = Ok (demo_logged_reactor, demo_world, mkServer cob' demo_processor) ∧
     (∀ sec, book_of cob' sec = book_of cob sec) ∧
     ∃ q q', m_outgoingMessages cob !! 0%nat = Some q ∧ m_outgoingMessages cob' !! 0%nat = Some q' ∧
       fifo_list q' = fifo_list q ++ [OutgoingMessage_new (cancel_order junk 1 0 ($"8")) REJECTED text]).
Proof.
  apply (cancel_depends_on_memory ($"EXECUTOR") demo_sm 1 4096 demo_cancel 1 demo_logged_reactor demo_world demo_resting 0 0
    ($"8") ($"7") BUY demo_found.1 demo_found.2);
    [reflexivity| |lia|exact demo_add_inv|reflexivity|vm_compute; reflexivity|exact demo_add_room|vm_compute; reflexivity|].
  - split; [exists ($"AAA"); split; vm_compute; reflexivity|vm_compute; reflexivity..].
  - intros [| |] Hne; [vm_compute; reflexivity|done|vm_compute; reflexivity].
Defined.
