(* ===== verification/OfflineMode.v ===== *)
(** * Offline mode, from the file of orders to the file of reports

    [server/server_offline.cpp] reads orders from a file, one FIX text per line, and gives
    them to the central order book; the outgoing message processor, which is told the name
    of an output file, writes the reports there. This file composes the components on that
    path: the start of the server, [FixMessage::loadFromFile] with the parser and the
    converter, the order book of each symbol, and the rounds of the processor. *)
From Stdlib Require Import ZArith Lia Ascii String SpecFloat.
From stdpp Require Import base decidable sets list list_numbers gmap strings.
From S2P Require Import Prelude.
From S2P Require Import MachineInt.
From S2P Require Import StringUtility.
From S2P Require Import DateTime.
From S2P Require Import Double.
From S2P Require Import Multimap.
From S2P Require Import SecurityManager.
From S2P Require Import Order.
From S2P Require Import OrderBook.
From S2P Require Import Fifo.
From S2P Require Import RingBuffer.
From S2P Require Import CentralOrderBook.
From S2P Require Import ThreadedMatching.
From S2P Require Import ExchangeSpec.
From S2P Require Import FixConstants.
From S2P Require Import FixMessage.
From S2P Require Import FixParser.
From S2P Require Import FixReceiveCache.
From S2P Require Import FixSequenceStore.
From S2P Require Import Network.
From S2P Require Import FixSession.
From S2P Require Import FixServerReactor.
From S2P Require Import FixMessageConverter.
From S2P Require Import OutgoingMessageProcessor.
From S2P Require Import Server.
Local Open Scope Z_scope.

(** ** The file of orders *)

(** A limit order of the file; the identifier of the client may be left out, as in the
    sample file of the repository. *)
Record FileOrder : Type := mkFileOrder {
  fo_symbol : str;
  fo_client : option str;
  fo_buy : bool;
  fo_quantity : Z;
  fo_price : Z
}.

Definition order_fields (o : FileOrder) : list (Z * str) :=
  (FIX_TAG_MESSAGE_TYPE, $"D") ::
  (match fo_client o with Some c => [(FIX_TAG_CLIENT_ORDER_ID, c)] | None => [] end) ++
  [(FIX_TAG_ORDER_QUANTITY, to_string (fo_quantity o)); (FIX_TAG_ORDER_TYPE, to_string FIX_ORDER_TYPE_LIMIT);
   (FIX_TAG_ORDER_PRICE, to_string (fo_price o));
   (FIX_TAG_ORDER_SIDE, to_string (if fo_buy o then FIX_ORDER_SIDE_BUY else FIX_ORDER_SIDE_SELL));
   (FIX_TAG_SYMBOL, fo_symbol o); (FIX_TAG_TIME_IN_FORCE, $"0")].

Inductive FileLine : Type :=
  | FileComment (text : str)
  | FileEntry (o : FileOrder).

Definition file_line (l : FileLine) : str :=
  match l with FileComment text => "#"%char :: text | FileEntry o => fields_text (order_fields o) end.

(** The last line may lack its line break. *)
Fixpoint file_content (final_break : bool) (lines : list FileLine) : str :=
  match lines with
  | [] => []
  | [l] => file_line l ++ (if final_break then [chr 10] else [])
  | l :: lines' => file_line l ++ chr 10 :: file_content final_break lines'
  end.

Definition file_orders (lines : list FileLine) : list FileOrder :=
  omap (λ l, match l with FileEntry o => Some o | FileComment _ => None end) lines.

Definition one_line (s : str) : Prop := chr 10 ∉ s.

Definition file_value (s : str) : Prop := clean s ∧ one_line s ∧ s ≠ [].

Record file_order_ok (symbols : list str) (o : FileOrder) : Prop := {
  fk_symbol : fo_symbol o ∈ symbols ∧ file_value (fo_symbol o);
  fk_client : from_option file_value True (fo_client o);
  fk_quantity : 0 < fo_quantity o <= LONG_MAX;
  fk_price : exact_long (fo_price o)
}.

Definition file_line_ok (symbols : list str) (l : FileLine) : Prop :=
  match l with FileComment text => one_line text | FileEntry o => file_order_ok symbols o end.

Lemma one_line_app s t : one_line s → one_line t → one_line (s ++ t).
Proof. unfold one_line. intros. by rewrite not_elem_of_app. Qed.

Lemma one_line_to_string z : one_line (to_string z).
Proof. apply to_string_not_elem. intros [H|H]; discriminate H. Qed.

Lemma one_line_field k v : one_line v → one_line (field k v).
Proof.
  intros Hv. apply one_line_app; [apply one_line_to_string|]. unfold one_line.
  rewrite not_elem_of_cons, not_elem_of_app, list_elem_of_singleton. done.
Qed.

Lemma one_line_fields l : Forall (λ kv, one_line kv.2) l → one_line (fields_text l).
Proof.
  induction 1 as [|[k v] l Hv _ IH]; [apply not_elem_of_nil|]. rewrite fields_text_cons.
  apply one_line_app; [by apply one_line_field|done].
Qed.

Section fields.
Context (symbols : list str) (o : FileOrder) (Ho : file_order_ok symbols o).

Lemma file_value_to_string z : file_value (to_string z).
Proof. split_and!; [apply clean_to_string|apply one_line_to_string|apply to_string_nonempty]. Qed.

Lemma order_fields_values : Forall (λ kv, in_int kv.1 = true ∧ file_value kv.2) (order_fields o).
Proof.
  destruct Ho as [[_ Hs] Hc _ _]. unfold order_fields.
  assert (∀ s, file_value (to_string s)) as Hz by apply file_value_to_string.
  assert (file_value ($"D") ∧ file_value ($"0")) as [Hd H0].
  { split; (split; [split|split]); try done; apply (bool_decide_unpack _); vm_compute; exact I. }
  destruct (fo_client o) as [c|]; simpl in Hc;
    repeat (apply Forall_cons; split; [split; [done|simpl; auto]|]); by apply Forall_nil.
Qed.

Lemma order_fields_nodup : NoDup (order_fields o).*1.
Proof. unfold order_fields. destruct (fo_client o); apply (bool_decide_unpack _); vm_compute; exact I. Qed.

Lemma order_line : one_line (fields_text (order_fields o)) ∧ fields_text (order_fields o) ≠ [].
Proof.
  split; [|done]. apply one_line_fields. eapply Forall_impl; [exact order_fields_values|]. by intros kv (_ & _ & H & _).
Qed.
End fields.

Lemma file_line_shape symbols l : file_line_ok symbols l → one_line (file_line l) ∧ file_line l ≠ [].
Proof.
  destruct l as [t|o]; simpl; intros H; [|by apply (order_line symbols)].
  split; [|done]. unfold one_line. by rewrite not_elem_of_cons.
Qed.

Lemma split_content symbols final lines : Forall (file_line_ok symbols) lines →
  split (file_content final lines) (chr 10) = file_line <$> lines.
Proof.
  induction 1 as [|l lines Hl _ IH]; [done|]. destruct (file_line_shape _ _ Hl) as [H1 H2].
  destruct lines as [|l' lines].
  - cbn [file_content fmap list_fmap]. destruct final; [by rewrite split_app by done|].
    rewrite app_nil_r. by apply split_no_sep.
  - change (file_content final (l :: l' :: lines)) with (file_line l ++ chr 10 :: file_content final (l' :: lines)).
    by rewrite split_app, IH by done.
Qed.

(** ** Reading an order *)

Lemma take_tag_absent tag set m : m_bodyTagValuePairs m !! tag = None → take_tag tag set m = m.
Proof. intros E. unfold take_tag, hasTag. by rewrite E. Qed.

(** A message of which only the type is in the header. *)
Lemma initialiseHeader_type m v : m_bodyTagValuePairs m !! FIX_TAG_MESSAGE_TYPE = Some v →
  Forall (λ k, m_bodyTagValuePairs m !! k = None)
    [FIX_TAG_VERSION; FIX_TAG_SEQUENCE_NUMBER; FIX_TAG_SENDING_TIME; FIX_TAG_SENDER_COMPID; FIX_TAG_TARGET_COMPID] →
  initialiseHeader m = Ok (removeTag FIX_TAG_MESSAGE_TYPE (setMessageType (getMessageTypeFromString v) m)).
Proof.
  rewrite !Forall_cons. intros Ev (H8 & H34 & H52 & H49 & H56 & _). unfold initialiseHeader.
  rewrite (take_tag_absent FIX_TAG_VERSION), (take_tag_present FIX_TAG_MESSAGE_TYPE _ _ v) by done.
  set (m1 := removeTag _ _). assert (∀ k, k ≠ FIX_TAG_MESSAGE_TYPE → m_bodyTagValuePairs m !! k = None →
    m_bodyTagValuePairs m1 !! k = None) as Hk by (intros k Hk; simpl; by rewrite lookup_delete_ne).
  unfold hasTag. rewrite (Hk FIX_TAG_SEQUENCE_NUMBER) by done. cbn [mbind outcome_bind].
  rewrite (take_tag_absent FIX_TAG_SENDING_TIME), (take_tag_absent FIX_TAG_SENDER_COMPID),
    (take_tag_absent FIX_TAG_TARGET_COMPID) by (by apply Hk). done.
Qed.

(** What the converter looks for in the message of an order of the file. *)
Record order_message (o : FileOrder) (m : FixMessage) : Prop := {
  om_type : m_messageType m = NEW_ORDER;
  om_symbol : m_bodyTagValuePairs m !! FIX_TAG_SYMBOL = Some (fo_symbol o);
  om_client : m_bodyTagValuePairs m !! FIX_TAG_CLIENT_ORDER_ID = fo_client o;
  om_limit : m_bodyTagValuePairs m !! FIX_TAG_ORDER_TYPE = Some (to_string FIX_ORDER_TYPE_LIMIT);
  om_side : m_bodyTagValuePairs m !! FIX_TAG_ORDER_SIDE =
    Some (to_string (if fo_buy o then FIX_ORDER_SIDE_BUY else FIX_ORDER_SIDE_SELL));
  om_quantity : m_bodyTagValuePairs m !! FIX_TAG_ORDER_QUANTITY = Some (to_string (fo_quantity o));
  om_price : m_bodyTagValuePairs m !! FIX_TAG_ORDER_PRICE = Some (to_string (fo_price o))
}.

Lemma parse_order symbols junk o : file_order_ok symbols o →
  ∃ m, FixParser_parseFromString (FixMessage_new junk) (fields_text (order_fields o)) = Ok m ∧ order_message o m.
Proof.
  intros Ho. pose proof (order_fields_values symbols o Ho) as Hf.
  assert (Forall field_ok (order_fields o) ∧ Forall (λ kv, kv.2 ≠ []) (order_fields o)) as [H1 H2].
  { split; (eapply Forall_impl; [exact Hf|]); [intros kv (H & [Hv _]); by split|by intros kv (_ & _ & _ & H)]. }
  unfold FixParser_parseFromString. rewrite split_fields, parse_pairs_fields by done.
  cbn [mbind outcome_bind]. rewrite set_fields_body. set (m := setBody _ _).
  assert (∀ k, m_bodyTagValuePairs m !! k = list_to_map (M := gmap Z str) (order_fields o) !! k) as Hk.
  { intros k. unfold m, setBody. cbn [m_bodyTagValuePairs]. rewrite fold_insert_lookup by apply order_fields_nodup.
    by destruct (_ !! k). }
  unfold order_fields in Hk. eexists. split.
  - apply (initialiseHeader_type m ($"D")); [rewrite Hk; by destruct (fo_client o)|].
    repeat constructor; rewrite Hk; by destruct (fo_client o).
  - split; [done|..]; simpl; rewrite lookup_delete_ne by done; fold m; rewrite Hk; by destruct (fo_client o).
Qed.

(** The order made from it, in memory that holds [junk]. *)
Definition order_of (sm : SecurityManager) (junk : Order) (o : FileOrder) : Order :=
  received_order junk (m_sessionId junk) (default 0 (m_securitiesBySymbol sm !! fo_symbol o)) (default [] (fo_client o))
    (if fo_buy o then BUY else SELL) (fo_quantity o) (fo_price o).

Lemma convert_order symbols sm junk o m : file_order_ok symbols o → order_message o m →
  is_Some (m_securitiesBySymbol sm !! fo_symbol o) →
  ∃ m', convertNewOrder sm m (Order_default junk) = Ok (m', order_of sm junk o).
Proof.
  intros [_ _ Hq Hp] [_ Hsym Hc Hl Hs Hqt Hpr] [security Esec].
  unfold convertNewOrder, convertCommonOrder. rewrite (getTagValue_present _ _ _ Hsym).
  unfold SecurityManager_getSecurityId, map_at. rewrite Esec. cbn [mbind outcome_bind].
  destruct (getTagValue FIX_TAG_CLIENT_ORDER_ID m) as [m1 c] eqn:E1.
  assert (c = default [] (fo_client o) ∧ ∀ k, k ≠ FIX_TAG_CLIENT_ORDER_ID →
    m_bodyTagValuePairs m1 !! k = m_bodyTagValuePairs m !! k) as [-> Hk].
  { unfold getTagValue, map_index in E1. rewrite Hc in E1. destruct (fo_client o); simplify_eq/=; [done|].
    split; [done|]. intros k Hk. by rewrite lookup_insert_ne. }
  rewrite <- Hk in Hl, Hs, Hqt, Hpr by done. cbn [mbind outcome_bind].
  rewrite (getTagValueAsInt_present _ _ _ Hl) by done. cbn [mbind outcome_bind].
  rewrite (getTagValueAsInt_present _ _ _ Hs) by (by destruct (fo_buy o)). cbn [mbind outcome_bind].
  rewrite (getTagValueAsLong_present _ _ _ Hqt) by mlia. cbn [mbind outcome_bind].
  rewrite (getTagValueAsLong_present _ _ _ Hpr) by (unfold exact_long in Hp; mlia). cbn [mbind outcome_bind].
  eexists. unfold order_of. rewrite Esec. by destruct (fo_buy o).
Qed.

(** ** Loading the file *)

Section load.
Context `{!Platform} (symbols : list str) (sm : SecurityManager) (junk : Order).
Context (Hsm : ∀ s, s ∈ symbols → is_Some (m_securitiesBySymbol sm !! s)).

Definition incoming (o : FileOrder) : IncomingMessage := mkIncomingMessage (order_of sm junk o) [] IncomingNewOrder.

Lemma offline_orders_spec os ms acc : Forall (file_order_ok symbols) os → Forall2 order_message os ms →
  offline_orders sm junk ms acc = Ok (acc ++ (incoming <$> os)).
Proof.
  intros Hos Hms. revert acc Hos. induction Hms as [|o m os ms Hm _ IH]; intros acc Hos.
  - cbn. by rewrite app_nil_r.
  - apply Forall_cons in Hos as [Ho Hos]. cbn [offline_orders]. rewrite (om_type _ _ Hm). cbn [Z.eqb NEW_ORDER Pos.eqb].
    destruct (convert_order symbols sm junk o m Ho Hm) as [m' ->]; [apply Hsm, Ho|]. cbn [mbind outcome_bind].
    rewrite IH by done. by rewrite <- app_assoc.
Qed.

Lemma load_lines_spec lines acc : Forall (file_line_ok symbols) lines →
  ∃ ms, load_lines junk_type (file_line <$> lines) acc = Ok (acc ++ ms) ∧ Forall2 order_message (file_orders lines) ms.
Proof.
  intros Hl. revert acc. induction Hl as [|l lines Hl _ IH]; intros acc.
  - exists []. cbn. rewrite app_nil_r. by split; [|constructor].
  - destruct l as [t|o]; cbn [fmap list_fmap file_line load_lines].
    + apply IH.
    + assert (startsWith (fields_text (order_fields o)) "#"%char = false) as -> by done.
      destruct (parse_order symbols junk_type o Hl) as (m & -> & Hm). cbn [mbind outcome_bind].
      destruct (IH (acc ++ [m])) as (ms & -> & Hms). exists (m :: ms). split; [by rewrite <- app_assoc|].
      by constructor.
Qed.

Lemma file_orders_ok lines : Forall (file_line_ok symbols) lines → Forall (file_order_ok symbols) (file_orders lines).
Proof. unfold file_orders. induction 1 as [|[t|o] lines Hl _ IH]; [done|done|]. by constructor. Qed.

Lemma loadOrders_spec file final lines fs : Forall (file_line_ok symbols) lines →
  fs !! file = Some (file_content final lines) →
  ServerOffline_loadOrders sm junk file fs = Ok (incoming <$> file_orders lines).
Proof.
  intros Hl Hf. unfold ServerOffline_loadOrders, doesFileExist, FixMessage_loadFromFile. rewrite Hf.
  cbn [negb]. rewrite (split_content symbols) by done.
  destruct (load_lines_spec lines [] Hl) as (ms & -> & Hms). cbn [mbind outcome_bind app].
  by rewrite (offline_orders_spec (file_orders lines) ms []) by (by try apply file_orders_ok).
Qed.
End load.

(** One order for a symbol that the server does not have, and nothing of the file is
    submitted: the load leaves by an exception, which ends the server. *)
Lemma offline_orders_unknown symbols sm junk os ms acc o : Forall (file_order_ok symbols) os → Forall2 order_message os ms →
  o ∈ os → m_securitiesBySymbol sm !! fo_symbol o = None → offline_orders sm junk ms acc = Throw OutOfRange.
Proof.
  intros Hos Hms. revert acc Hos. induction Hms as [|o1 m os ms Hm _ IH]; intros acc Hos Hin Hno; [by apply elem_of_nil in Hin|].
  apply Forall_cons in Hos as [Ho Hos]. cbn [offline_orders]. rewrite (om_type _ _ Hm). cbn [Z.eqb NEW_ORDER Pos.eqb].
  destruct (m_securitiesBySymbol sm !! fo_symbol o1) eqn:E.
  - destruct (convert_order symbols sm junk o1 m Ho Hm) as [m' ->]; [by eexists|]. cbn [mbind outcome_bind].
    apply IH; [done| |done]. apply elem_of_cons in Hin as [->|?]; [congruence|done].
  - unfold convertNewOrder. by rewrite (convertCommonOrder_unknown sm m _ (fo_symbol o1) (om_symbol _ _ Hm) E).
Qed.

Lemma offline_unknown_symbol {MQ TQ} `{!Fifo OutgoingMessage MQ} `{!Fifo MatchTask TQ} `{!Platform} `{!BodyOrder}
    symbols sm fuel junk file final lines fs o (cob : CentralOrderBook MQ TQ) :
  Forall (file_line_ok symbols) lines → fs !! file = Some (file_content final lines) →
  o ∈ file_orders lines → m_securitiesBySymbol sm !! fo_symbol o = None →
  ServerOffline_run sm fuel junk file fs cob = Throw OutOfRange.
Proof.
  intros Hl Hf Ho Hno. unfold ServerOffline_run, ServerOffline_loadOrders, doesFileExist, FixMessage_loadFromFile. rewrite Hf.
  cbn [negb]. rewrite (split_content symbols) by done.
  destruct (load_lines_spec symbols lines [] Hl) as (ms & -> & Hms). cbn [mbind outcome_bind app].
  by rewrite (offline_orders_unknown symbols sm junk (file_orders lines) ms [] o) by (by try apply file_orders_ok).
Qed.

(** ** The requests of the file on the specification *)

Definition file_request (sm : SecurityManager) (junk : Order) (o : FileOrder) : Spec.request :=
  Spec.New (default 0 (m_securitiesBySymbol sm !! fo_symbol o)) (default [] (fo_client o)) (m_sessionId junk)
    (fo_buy o) (fo_price o) (fo_quantity o).

Lemma order_of_rel symbols sm junk o : file_order_ok symbols o →
  request_rel (ReqNew (order_of sm junk o)) (file_request sm junk o).
Proof.
  intros [_ _ Hq Hp]. set (o' := order_of sm junk o).
  assert (file_request sm junk o = Spec.New (m_securityId o') (m_clientOrderID o') (m_sessionId o')
    (bool_decide (m_side o' = BUY)) (fo_price o) (m_openQuantity o')) as ->
    by (unfold file_request, o', order_of; by destruct (fo_buy o)).
  apply rr_new; [apply received_order_live; [lia|mlia]|unfold o', order_of; by destruct (fo_buy o)|done|done].
Qed.

(** How many orders a book has, and how many reports an order costs. *)
Definition spec_size (bk : Spec.book) : nat := length (Spec.bids bk) + length (Spec.asks bk).

Lemma sweep_count t ms rest others fs : Spec.sweep t ms = (rest, others, fs) →
  (length fs + 2 * (length others + length (option_list rest)) <= 2 * S (length ms))%nat.
Proof.
  revert t rest others fs. induction ms as [|m ms IH]; intros t rest others fs; cbn [Spec.sweep].
  - intros. simplify_eq. cbn. lia.
  - destruct (Spec.crosses t m); [|intros; simplify_eq; cbn; lia].
    destruct (Spec.trade t m) as [[t' m'] f] eqn:Et.
    assert (length f = 2%nat) as Hf by (unfold Spec.trade in Et; destruct (Spec.buy t); by simplify_eq).
    destruct (_ =? 0); [intros; simplify_eq; cbn; destruct (_ =? 0); cbn; lia|].
    destruct (Spec.sweep t' ms) as [[r o] g] eqn:Es. intros. simplify_eq. apply IH in Es.
    rewrite length_app. cbn [length]. lia.
Qed.

Lemma enqueue_length o l : length (Spec.enqueue o l) = S (length l).
Proof. induction l as [|x l IH]; [done|]. cbn [Spec.enqueue]. case_match; [done|]. cbn [length]. by rewrite IH. Qed.

Lemma enter_count o bk bk' fs : Spec.enter o bk = (bk', fs) → (length fs + 2 * spec_size bk' <= 2 * S (spec_size bk))%nat.
Proof.
  unfold Spec.enter. destruct (Spec.sweep o _) as [[rest others] f] eqn:Es. intros. simplify_eq.
  apply sweep_count in Es. unfold spec_size.
  destruct (Spec.buy o) eqn:Eb, rest as [o'|], bk as [b a]; cbn in *; rewrite ?enqueue_length; lia.
Qed.

(** What serving an order of the file does to the number of the last order and to the size
    of the books. *)
Lemma serve_count sm junk o i x x' es : m_securitiesBySymbol sm !! fo_symbol o = Some i →
  Spec.serve (file_request sm junk o) x = (x', es) →
  Spec.last x' = Spec.last x + 1 ∧ (length es + 2 * spec_size (Spec.books x' i) <= 3 + 2 * spec_size (Spec.books x i))%nat ∧
  ∀ j, j ≠ i → Spec.books x' j = Spec.books x j.
Proof.
  intros Ei E. unfold file_request in E. rewrite Ei in E. cbn in E. destruct (Spec.enter _ _) as [bk fs] eqn:Ee.
  simplify_eq. apply enter_count in Ee. unfold Spec.set_book. cbn. rewrite length_fmap, decide_True by done.
  split_and!; [done|lia|]. intros j Hj. by rewrite decide_False.
Qed.

(** *** The security of an order does not change *)

Definition book_security (sec : Z) (book : OrderBook) : Prop :=
  Forall (λ e, m_securityId e.2 = sec) (m_bidOrders book) ∧ Forall (λ e, m_securityId e.2 = sec) (m_askOrders book).

Lemma execute_security p n o o' : Order_execute p n o = Ok o' → m_securityId o' = m_securityId o.
Proof.
  intros R. unfold Order_execute in R. apply bind_Ok_inv in R as (t & _ & R).
  apply bind_Ok_inv in R as (x & _ & R). apply bind_Ok_inv in R as (y & _ & R). by simplify_eq.
Qed.

Lemma matchStep_security sec b b' pushed : book_security sec b → OrderBook_matchStep b = Ok (Some (b', pushed)) →
  book_security sec b' ∧ Forall (λ o, m_securityId o = sec) pushed.
Proof.
  intros [Hb Ha] R. unfold OrderBook_matchStep in R. destruct (m_bidOrders b) as [|[kb bid] bids]; [done|].
  destruct (m_askOrders b) as [|[ka ask] asks]; [done|]. case_match; [|done].
  apply bind_Ok_inv in R as ([x y] & E & R). simplify_eq.
  apply Forall_cons in Hb as [Hbid Hb]. apply Forall_cons in Ha as [Hask Ha].
  unfold OrderBook_matchTwoOrders in E. apply bind_Ok_inv in E as (x' & Ex%execute_security & E).
  apply bind_Ok_inv in E as (y' & Ey%execute_security & E). simplify_eq. simpl in *.
  split; [|repeat constructor; congruence].
  split; simpl; [destruct (Order_isFilled x)|destruct (Order_isFilled y)]; try done; constructor; simpl; congruence.
Qed.

Lemma matchLoop_security sec fuel b os b' os' r : book_security sec b → Forall (λ o, m_securityId o = sec) os →
  OrderBook_matchLoop fuel b os = Ok (b', os', r) → Forall (λ o, m_securityId o = sec) os'.
Proof.
  revert b os. induction fuel as [|fuel IH]; intros b os Hb Hos R; simpl in R; [done|].
  apply bind_Ok_inv in R as ([[b1 pushed]|] & E & R); [|by simplify_eq].
  destruct (matchStep_security _ _ _ _ Hb E). eapply IH; [| |exact R]; [done|by apply Forall_app].
Qed.

Lemma insert_security sec o b : m_securityId o = sec → book_security sec b → book_security sec (OrderBook_insert o b).
Proof.
  intros Ho [Hb Ha]. unfold OrderBook_insert. case_bool_decide; split; simpl; try done; by apply mm_insert_Forall.
Qed.

Lemma book_inv_security n sec b : book_inv n sec b → book_security sec b.
Proof. intros [_ _ _ _ Hb Ha]. split; (eapply Forall_impl; [eassumption|]); by intros e (_ & E & _). Qed.

(** ** Submitting the orders

    With three messages of room per order in every queue nothing waits: an order costs its
    acceptance and two reports for each order that leaves a book. *)
Section submit.
Context {MQ TQ : Type} `{!Fifo OutgoingMessage MQ} `{!FifoLaws OutgoingMessage MQ} `{!Fifo MatchTask TQ}.
Implicit Types cob : CentralOrderBook MQ TQ.
Context (symbols : list str) (sm : SecurityManager) (junk : Order) (k : Z) (x0 : Spec.exchange) (ids : gmap Z Z).
Context (Hids : ∀ sec i, ids !! sec = Some i ↔ sec = i ∧ 0 <= i < k).
Context (Hsm : ∀ s, s ∈ symbols → ∃ i, m_securitiesBySymbol sm !! s = Some i ∧ 0 <= i < k).

(** The exchange after the requests [srs], when [taken] was taken from its queues and
    [rem] orders are still to come. *)
Record offline_inv (rem : nat) (srs : list Spec.request) (taken : list (Z * OutgoingMessage)) cob : Prop := {
  of_cob : cob_inv cob;
  of_sync : m_isMatchingMultithreaded cob = false;
  of_ids : m_queueIDDictionary cob = ids;
  of_number : m_orderNumber cob + Z.of_nat rem <= INT_MAX;
  of_length : Z.of_nat (length (m_outgoingMessages cob)) = k;
  of_room i : 0 <= i < k → queue_room i (3 * rem + 2 * book_size (book_of cob i)) cob;
  of_security i : 0 <= i → Forall (λ m, m_securityId (om_order m) = i) (reported i (mkExecution cob [] taken));
  of_spec : let '(x, es) := Spec.serve_all srs x0 in
    exchange_rel cob x ∧
    ∀ i, 0 <= i → Forall2 message_rel (reported i (mkExecution cob [] taken)) (routed ids i es)
}.

Lemma book_rel_size book bk : book_rel book bk → book_size book = spec_size bk.
Proof. intros [H1 H2]. apply Forall2_length in H1, H2. unfold book_size, spec_size. by rewrite H1, H2. Qed.

(** What [addOrder] reports is about the security of the order. *)
Lemma addOrder_security fuel i o cob cob' o' b msgs : (0 < fuel)%nat → cob_inv cob →
  m_isMatchingMultithreaded cob = false → m_orderNumber cob < INT_MAX →
  m_queueIDDictionary cob !! m_securityId o = Some i → live o → m_side o ≠ SIDE_NON_SUPPORTED →
  queue_room i (1 + 2 * S (book_size (book_of cob (m_securityId o)))) cob →
  CentralOrderBook_addOrder fuel o cob = Ok (cob', o', b) → reports_to i msgs cob cob' →
  Forall (λ m, m_securityId (om_order m) = m_securityId o) msgs.
Proof.
  intros Hf Hinv Hs Hn Hq Hl Hside Hroom R ((q & q' & Eq & Ec & Lq & _) & _).
  destruct (addOrder_spec fuel i o cob Hf Hinv Hs Hn Hq Hl Hside Hroom)
    as (c & book' & pushed & r & Hm & Ha & (q1 & q1' & Eq1 & Ec1 & Lq1 & _) & _).
  rewrite R in Ha. injection Ha as <- -> ->. cbn in Eq1. rewrite Eq in Eq1. injection Eq1 as <-.
  assert (q' = q1') as ->.
  { rewrite Ec1 in Ec. cbn in Ec. assert (Z.to_nat i < length (m_outgoingMessages cob))%nat as Hi by (by eapply lookup_lt_Some).
    apply (f_equal (.!! Z.to_nat i)) in Ec. rewrite !list_lookup_insert_eq in Ec by done. by injection Ec. }
  rewrite Lq in Lq1. apply app_inv_head in Lq1. subst msgs. constructor; [done|]. apply Forall_fmap.
  eapply matchLoop_security; [|constructor|exact Hm].
  apply insert_security; [done|]. eapply book_inv_security. by apply book_of_inv.
Qed.

Lemma submit_one fuel rem srs taken cob o : (0 < fuel)%nat → file_order_ok symbols o → offline_inv (S rem) srs taken cob →
  ∃ cob' o' b, CentralOrderBook_addOrder fuel (order_of sm junk o) cob = Ok (cob', o', b) ∧
    offline_inv rem (srs ++ [file_request sm junk o]) taken cob'.
Proof.
  intros Hf Ho [Hcob Hsync Hid Hn Hlen Hroom Hsecs Hspec]. destruct (Hsm (fo_symbol o)) as (i & Ei & Hi); [apply Ho|].
  set (r := order_of sm junk o) in *. set (sr := file_request sm junk o).
  assert (m_securityId r = i) as Hsec by (unfold r, order_of; by rewrite Ei).
  assert (live r ∧ m_side r ≠ SIDE_NON_SUPPORTED) as [Hlive Hside].
  { destruct Ho as [_ _ Hq _]. split; [apply received_order_live; [lia|mlia]|unfold r, order_of; by destruct (fo_buy o)]. }
  assert (request_rel (ReqNew r) sr) as Hr by (by apply (order_of_rel symbols)).
  assert (m_queueIDDictionary cob !! request_security (ReqNew r) = Some i) as Hq
    by (unfold request_security; cbn [request_order]; rewrite Hid, Hsec; by apply Hids).
  clearbody r.
  assert (queue_room i (request_reports (ReqNew r) cob) cob) as Hrm
    by (cbn [request_reports]; rewrite Hsec; eapply queue_room_le; [|by apply Hroom]; lia).
  destruct (Spec.serve_all srs x0) as [x es] eqn:Es. destruct Hspec as [Hx Hm].
  destruct (handle_rel fuel 0 i (ReqNew r) sr cob x Hf Hcob Hsync ltac:(lia) Hq Hr Hrm Hx)
    as (cob' & msgs & Hrun & Hcob' & Hx' & Hms & Hto). cbn in Hrun.
  destruct (CentralOrderBook_addOrder fuel r cob) as [[[c o'] b]| | |] eqn:Ea; try discriminate Hrun.
  cbn in Hrun. injection Hrun as ->. exists cob', o', b. split; [done|].
  assert (Forall (λ m, m_securityId (om_order m) = i) msgs) as Hmi.
  { rewrite <- Hsec. eapply addOrder_security; [exact Hf|exact Hcob|exact Hsync|lia|exact Hq|exact Hlive|exact Hside|exact Hrm|exact Ea|exact Hto]. }
  pose proof Hto as ((q & q' & Eq & Ec & Lq & Aq) & Ed & Et).
  destruct (Spec.serve sr x) as [x' es'] eqn:Esr. cbn in Hx', Hms.
  assert (length msgs = length es') as Hl by (by eapply Forall2_length).
  destruct (serve_count sm junk o i x x' es' Ei Esr) as (Hlast & Hcount & Hother).
  split; [done|congruence|congruence| | | | |].
  - rewrite (xr_last _ _ Hx'), Hlast, <- (xr_last _ _ Hx). lia.
  - by rewrite Ec, length_insert.
  - intros j Hj. rewrite (book_rel_size _ _ (xr_books _ _ Hx' j)).
    pose proof (book_rel_size _ _ (xr_books _ _ Hx j)) as Hsz.
    destruct (Hroom j Hj) as (_ & qj & Eqj & Rj). split; [lia|]. rewrite Ec.
    destruct (decide (j = i)) as [->|Hne].
    + rewrite Eq in Eqj. simplify_eq. exists q'. split; [apply list_lookup_insert_eq; by eapply lookup_lt_Some|].
      apply (fifo_after_room msgs _ qj); [apply Aq, Rj|done|]. destruct Rj as (R1 & R2 & R3). split_and!; [done|lia|lia].
    + exists qj. rewrite list_lookup_insert_ne by lia. split; [done|]. rewrite Hother by done.
      destruct Rj as (R1 & R2 & R3). split_and!; [done|lia|lia].
  - intros j Hj. rewrite (reported_after j i msgs cob _ [] _ taken) by (done || lia).
    apply Forall_app. split; [by apply Hsecs|]. case_decide; [by subst j|constructor].
  - rewrite Spec.serve_all_snoc, Es, Esr. split; [done|].
    eapply (reports_routed ids i (ReqNew r) sr); try done; [by rewrite <- Hid|lia].
Qed.

Lemma take_one rem srs taken cob i q q' m : offline_inv rem srs taken cob → 0 <= i →
  m_outgoingMessages cob !! Z.to_nat i = Some q → fifo_tryPop q = Ok (q', Some m) →
  offline_inv rem srs (taken ++ [(i, m)]) (with_outgoing (<[Z.to_nat i := q']> (m_outgoingMessages cob)) cob) ∧
  0 <= i < k ∧ m_securityId (om_order m) = i.
Proof.
  clear Hids Hsm symbols sm junk. intros [Hcob Hsync Hid Hn Hlen Hroom Hsecs Hspec] Hi Eq Hpop. pose proof (lookup_lt_Some _ _ _ Eq) as Hlt.
  assert (0 <= i < k) as Hik by lia.
  assert (fifo_inv q) as Iq by (destruct (Hroom i Hik) as (_ & q1 & E1 & R1 & _); by simplify_eq).
  destruct (fifo_pop_inv q q' m Iq Hpop) as (El & _).
  assert (∀ j, 0 <= j → reported j (mkExecution (with_outgoing (<[Z.to_nat i := q']> (m_outgoingMessages cob)) cob) []
    (taken ++ [(i, m)])) = reported j (mkExecution cob [] taken)) as Hrep by (intros; by eapply reported_take).
  split; [|split; [done|]].
  - split; try done.
    + by destruct Hcob.
    + cbn. by rewrite length_insert.
    + intros j Hj. destruct (Hroom j Hj) as (_ & qj & Ej & Rj). split; [lia|]. cbn.
      destruct (decide (j = i)) as [->|Hne].
      * simplify_eq. exists q'. split; [by apply list_lookup_insert_eq|]. by eapply fifo_pop_room.
      * exists qj. by rewrite list_lookup_insert_ne by lia.
    + intros j Hj. rewrite Hrep by done. by apply Hsecs.
    + destruct (Spec.serve_all srs x0) as [x es]. destruct Hspec as [[H1 H2] Hm]. split; [by split|].
      intros j Hj. rewrite Hrep by done. by apply Hm.
  - specialize (Hsecs i Hi). unfold reported in Hsecs. cbn in Hsecs. rewrite Eq, El in Hsecs.
    apply Forall_app in Hsecs as [_ Hs]. by apply Forall_cons in Hs as [? _].
Qed.
End submit.

(** ** The file of reports *)

Section report.
Context `{!Platform} `{!BodyOrder} (COMPID nan_text : str) (sm : SecurityManager).

Definition symbol_of (m : OutgoingMessage) : str := default [] (m_securitiesById sm !! m_securityId (om_order m)).

Definition offline_report (execID : Z) (m : OutgoingMessage) : FixMessage :=
  setSendingAndTransactionTimeAsCurrent (utc_datetime MICROSECONDS)
    (report_tags nan_text (om_order m) (symbol_of m) execID (setMessageType EXECUTION_REPORT (FixMessage_new junk_type))).

Definition text_of (m : FixMessage) : str := match FixMessage_toString m [] with Ok (_, text) => text | _ => [] end.

(** The lines of the messages, with consecutive execution identifiers. *)
Fixpoint report_lines (execID : Z) (ms : list OutgoingMessage) : str :=
  match ms with
  | [] => []
  | m :: ms' => text_of (offline_report execID m) ++ chr 10 :: report_lines (execID + 1) ms'
  end.

Lemma report_lines_snoc execID ms m :
  report_lines execID (ms ++ [m]) =
    report_lines execID ms ++ text_of (offline_report (execID + Z.of_nat (length ms)) m) ++ [chr 10].
Proof.
  revert execID. induction ms as [|m1 ms IH]; intros execID; cbn [app report_lines length].
  - by rewrite Z.add_0_r.
  - replace (execID + Z.of_nat (S (length ms))) with (execID + 1 + Z.of_nat (length ms)) by lia.
    by rewrite IH, <- app_assoc.
Qed.

(** Reports of up to 16 megabytes. *)
Definition report_small (execID : Z) (m : OutgoingMessage) : Prop := wire_size_ok (offline_report execID m).

Lemma offline_report_shape execID m :
  offline_report execID m = setBody (m_bodyTagValuePairs (offline_report execID m)) (setMessageType EXECUTION_REPORT (FixMessage_new junk_type)).
Proof. unfold offline_report. by rewrite report_tags_body. Qed.

Lemma offline_report_text execID m : report_small execID m →
  FixMessage_toString (offline_report execID m) [] =
    Ok (offline_report execID m, fields_text (wire_fields (offline_report execID m))).
Proof.
  intros Hs. apply toString_wire; [..|exact Hs]; rewrite offline_report_shape; reflexivity.
Qed.

Lemma offline_report_fields execID m :
  report_fields nan_text (om_order m) (symbol_of m) execID (m_bodyTagValuePairs (offline_report execID m)).
Proof.
  do 2 (apply report_fields_insert; [apply (bool_decide_unpack _); vm_compute; exact I|]). apply report_tags_fields.
Qed.

(** The header of a report has no version, no parties and no time: the time is a tag of the
    body, so that tag 52 is in the text twice, first without a value. *)
Lemma offline_report_header execID m :
  firstn 7 (wire_fields (offline_report execID m)) =
    [(FIX_TAG_VERSION, $"NONE"); (FIX_TAG_BODY_LENGTH, body_length_value (offline_report execID m));
     (FIX_TAG_MESSAGE_TYPE, $"8"); (FIX_TAG_SEQUENCE_NUMBER, $"1"); (FIX_TAG_SENDER_COMPID, []);
     (FIX_TAG_SENDING_TIME, []); (FIX_TAG_TARGET_COMPID, [])] ∧
  (FIX_TAG_SENDING_TIME, utc_datetime MICROSECONDS) ∈ skipn 7 (wire_fields (offline_report execID m)).
Proof.
  split.
  - rewrite offline_report_shape. reflexivity.
  - change (skipn 7 (wire_fields (offline_report execID m))) with
      (body_iter (m_bodyTagValuePairs (offline_report execID m)) ++
       [(FIX_TAG_BODY_CHECKSUM, checksum_value (offline_report execID m))]).
    apply elem_of_app. left. apply body_iter_lookup. cbn. by rewrite lookup_insert_ne, lookup_insert_eq.
Qed.

(** What the processor does with a message in offline mode. *)
Definition processor_after (p : OutgoingMessageProcessor) : OutgoingMessageProcessor :=
  mkOutgoingMessageProcessor (op_hasMessageQueue p) (op_numberOfQueues p) (op_execID p + 1) (op_offlineMode p)
    (op_offlineModeOutputFile p).

Definition world_after (m : OutgoingMessage) (p : OutgoingMessageProcessor) (w : World) : World :=
  with_files (appendTextToFile (op_offlineModeOutputFile p)
    (text_of (offline_report (op_execID p + 1) m) ++ [chr 10]) true (w_files w)) w.

Lemma message_written m p r w p' r' w' : op_offlineMode p = true → is_Some (m_securitiesById sm !! m_securityId (om_order m)) →
  processOutgoingMessage COMPID nan_text sm m p r w = Ok (p', r', w') →
  p' = processor_after p ∧ r' = r ∧ w' = world_after m p w.
Proof.
  intros Hp [symbol Es] R. unfold processOutgoingMessage in R. cbn zeta in R. rewrite Hp in R.
  unfold generateExecID, SecurityManager_getSecurityName, map_at in R. rewrite Es in R.
  apply bind_Ok_inv in R as ([p1 e] & Ee & R). apply bind_Ok_inv in Ee as (n & En & Ee). simplify_eq.
  unfold int_add in En. case_match; [|done]. simplify_eq. cbn [mbind outcome_bind] in R.
  apply bind_Ok_inv in R as (w1 & Ew & R). simplify_eq. unfold write_offline in Ew.
  apply bind_Ok_inv in Ew as ([m' text] & Et & Ew). simplify_eq. split; [done|]. split; [done|].
  unfold world_after, text_of, offline_report, symbol_of. rewrite Es. cbn [default from_option id]. by rewrite Et.
Qed.

Lemma small_message_written m p r w : op_offlineMode p = true → is_Some (m_securitiesById sm !! m_securityId (om_order m)) →
  0 <= op_execID p < INT_MAX → report_small (op_execID p + 1) m →
  processOutgoingMessage COMPID nan_text sm m p r w = Ok (processor_after p, r, world_after m p w).
Proof.
  intros Hp [symbol Es] He Hs. apply offline_report_text in Hs.
  unfold processOutgoingMessage, generateExecID, SecurityManager_getSecurityName, map_at. cbn zeta. rewrite Hp, Es.
  rewrite int_add_Ok by mlia. cbn [mbind outcome_bind]. unfold write_offline.
  unfold world_after, text_of. unfold offline_report, symbol_of in Hs |- *. rewrite Es in Hs |- *. cbn [default from_option id] in *.
  rewrite Hs. cbn [mbind outcome_bind]. unfold processor_after. by rewrite Hp.
Qed.
End report.

(** The exchange of the specification before the first order. *)
Definition spec_empty : Spec.exchange := Spec.mkExchange 0 (λ _, Spec.empty).

(** ** A run

    The processor's thread is started before the orders are submitted: it takes a message
    whenever it finds one. A state has the orders still to be submitted, the order book, the
    processor, the files, and, as a history, what was taken, each with the number of its queue. *)
Record OfflineRun (MQ TQ : Type) : Type := mkOfflineRun {
  or_orders : list IncomingMessage;
  or_cob : CentralOrderBook MQ TQ;
  or_processor : OutgoingMessageProcessor;
  or_world : World;
  or_taken : list (Z * OutgoingMessage)
}.
Arguments mkOfflineRun {MQ TQ}. Arguments or_orders {MQ TQ}. Arguments or_cob {MQ TQ}.
Arguments or_processor {MQ TQ}. Arguments or_world {MQ TQ}. Arguments or_taken {MQ TQ}.

Section run.
Context `{!Platform} `{!BodyOrder} (COMPID nan_text : str) (sm : SecurityManager) (fuel : nat) (r : Reactor).
Context {MQ TQ : Type} `{!Fifo OutgoingMessage MQ} `{!FifoLaws OutgoingMessage MQ} `{!Fifo MatchTask TQ}.
Implicit Types cob : CentralOrderBook MQ TQ.

Inductive offline_step : OfflineRun MQ TQ → OfflineRun MQ TQ → Prop :=
  | offline_submit m orders cob cob' o b p w taken :
      CentralOrderBook_addOrder fuel (im_order m) cob = Ok (cob', o, b) →
      offline_step (mkOfflineRun (m :: orders) cob p w taken) (mkOfflineRun orders cob' p w taken)
  | offline_take i q q' m orders cob p p' w w' taken :
      0 <= i → m_outgoingMessages cob !! Z.to_nat i = Some q → fifo_tryPop q = Ok (q', Some m) →
      processOutgoingMessage COMPID nan_text sm m p r w = Ok (p', r, w') →
      offline_step (mkOfflineRun orders cob p w taken)
        (mkOfflineRun orders (with_outgoing (<[Z.to_nat i := q']> (m_outgoingMessages cob)) cob) p' w' (taken ++ [(i, m)])).

(** The loop that submits the orders is a sequence of such steps. *)
Lemma submit_steps orders cob cob' p w taken : ServerOffline_submit fuel orders cob = Ok cob' →
  rtc offline_step (mkOfflineRun orders cob p w taken) (mkOfflineRun [] cob' p w taken).
Proof.
  revert cob. induction orders as [|m orders IH]; intros cob R; cbn [ServerOffline_submit] in R.
  - simplify_eq. apply rtc_refl.
  - apply bind_Ok_inv in R as ([[c o] b] & E & R). eapply rtc_l; [by eapply offline_submit|]. by apply IH.
Qed.

Context (symbols : list str) (junk : Order) (k : Z) (ids : gmap Z Z) (os : list FileOrder) (output : str) (w0 : World).
Context (Hids : ∀ sec i, ids !! sec = Some i ↔ sec = i ∧ 0 <= i < k).
Context (Hsm : ∀ s, s ∈ symbols → ∃ i, m_securitiesBySymbol sm !! s = Some i ∧ 0 <= i < k).
Context (Hnames : ∀ i, 0 <= i < k → is_Some (m_securitiesById sm !! i)).
Context (Hos : Forall (file_order_ok symbols) os) (Hfuel : (0 < fuel)%nat).

Record run_inv (s : OfflineRun MQ TQ) : Prop := {
  ri_orders : ∃ served left, os = served ++ left ∧ or_orders s = (incoming sm junk <$> left) ∧
    offline_inv k spec_empty ids (length left) (file_request sm junk <$> served) (or_taken s) (or_cob s);
  ri_processor : op_offlineMode (or_processor s) = true ∧ op_offlineModeOutputFile (or_processor s) = output ∧
    op_execID (or_processor s) = Z.of_nat (length (or_taken s));
  ri_taken : Forall (λ e, 0 <= e.1 < k ∧ m_securityId (om_order e.2) = e.1) (or_taken s);
  ri_file : readAllFile output (w_files (or_world s)) =
    readAllFile output (w_files w0) ++ report_lines nan_text sm 1 (snd <$> or_taken s);
  ri_others name : name ≠ output → w_files (or_world s) !! name = w_files w0 !! name
}.

Lemma run_take_inv s i q q' m p' r' w' : run_inv s → 0 <= i →
  m_outgoingMessages (or_cob s) !! Z.to_nat i = Some q → fifo_tryPop q = Ok (q', Some m) →
  processOutgoingMessage COMPID nan_text sm m (or_processor s) r (or_world s) = Ok (p', r', w') →
  r' = r ∧ run_inv (mkOfflineRun (or_orders s)
    (with_outgoing (<[Z.to_nat i := q']> (m_outgoingMessages (or_cob s))) (or_cob s)) p' w' (or_taken s ++ [(i, m)])).
Proof.
  intros [(served & left & E1 & E2 & Hinv) (P1 & P2 & P3) Ht Hf Ho] Hi Eq Hpop R.
  destruct (take_one k spec_empty ids _ _ _ _ _ _ _ _ Hinv Hi Eq Hpop) as (Hinv' & Hik & Hsec).
  apply message_written in R as (-> & -> & ->); [|done|rewrite Hsec; by apply Hnames]. split; [done|].
  split; cbn.
  - by exists served, left.
  - split_and!; [done|done|]. rewrite length_app. cbn. lia.
  - apply Forall_app. split; [done|]. by apply Forall_singleton.
  - rewrite P2, P3, fmap_app. cbn [fmap list_fmap snd]. rewrite report_lines_snoc, app_assoc, <- Hf, length_fmap.
    unfold appendTextToFile. unfold readAllFile at 1. rewrite lookup_insert_eq. cbn [default from_option id].
    replace (1 + Z.of_nat (length (or_taken s))) with (Z.of_nat (length (or_taken s)) + 1) by lia. done.
  - intros name Hn. rewrite P2. unfold appendTextToFile. rewrite lookup_insert_ne by done. by apply Ho.
Qed.

Lemma offline_step_inv s s' : run_inv s → offline_step s s' → run_inv s'.
Proof.
  intros Hs Hstep. destruct Hstep as [m orders cob cob' o b p w taken Ha|i q q' m orders cob p p' w w' taken Hi Eq Hpop R].
  - destruct Hs as [(served & left & E1 & E2 & Hinv) P Ht Hf Ho]. cbn in *. destruct left as [|x left]; [done|].
    pose proof Hos as Hx. rewrite E1 in Hx. apply Forall_app in Hx as [_ [Hx _]%Forall_cons]. cbn in E2. simplify_eq.
    destruct (submit_one symbols sm junk k spec_empty ids Hids Hsm fuel _ _ _ _ x Hfuel Hx Hinv) as (c & o1 & b1 & E & Hinv').
    unfold incoming in Ha. cbn in Ha. rewrite E in Ha. simplify_eq.
    split; try done. cbn. exists (served ++ [x]), left. rewrite <- app_assoc, fmap_app. done.
  - by destruct (run_take_inv _ _ _ _ _ _ _ _ Hs Hi Eq Hpop R).
Qed.

Lemma offline_steps_inv s s' : run_inv s → rtc offline_step s s' → run_inv s'.
Proof. induction 2; [done|]. eauto using offline_step_inv. Qed.

(** A round of the processor is a sequence of steps too. *)
Lemma round_steps n i s cob' p' r' w' : run_inv s → 0 <= i →
  processQueues COMPID nan_text sm n i (or_cob s) (or_processor s) r (or_world s) = Ok (cob', p', r', w') →
  r' = r ∧ ∃ taken', rtc offline_step s (mkOfflineRun (or_orders s) cob' p' w' taken').
Proof.
  revert i s. induction n as [|n IH]; intros i s Hs Hi R; cbn [processQueues] in R.
  - simplify_eq. split; [done|]. exists (or_taken s). by destruct s.
  - apply bind_Ok_inv in R as (q & Eq & R). apply vec_at_Ok in Eq as [_ Eq].
    apply bind_Ok_inv in R as ([q1 [m|]] & Hpop & R); apply bind_Ok_inv in R as ([[p1 r1] w1] & Em & R).
    + destruct (run_take_inv _ _ _ _ _ _ _ _ Hs Hi Eq Hpop Em) as [-> Hs1].
      destruct (IH (i + 1) _ Hs1 ltac:(lia) R) as (-> & taken' & Hsteps). split; [done|]. exists taken'.
      eapply rtc_l; [|exact Hsteps]. destruct s. by eapply offline_take.
    + injection Em as <- <- <-. assert (fifo_inv q) as Iq.
      { destruct (ri_orders _ Hs) as (served & left & _ & _ & Hinv). pose proof (lookup_lt_Some _ _ _ Eq).
        pose proof (of_length _ _ _ _ _ _ _ Hinv).
        destruct (of_room _ _ _ _ _ _ _ Hinv i) as (_ & q2 & E2 & R2 & _); [lia|]. by simplify_eq. }
      assert (q1 = q) as ->.
      { destruct (fifo_list q) as [|v l] eqn:El; [rewrite (fifo_pop_nil q Iq El) in Hpop; by injection Hpop|].
        destruct (fifo_pop_cons v l q Iq El) as (q2 & E2 & _). by rewrite E2 in Hpop. }
      rewrite list_insert_id in R by done.
      replace (with_outgoing (m_outgoingMessages (or_cob s)) (or_cob s)) with (or_cob s) in R by (by destruct (or_cob s)).
      apply (IH (i + 1)); [done|lia|done].
Qed.

(** Nothing gets stuck: the next order can be submitted, and the next message of a queue
    can be written. *)
Lemma run_submits s m orders : run_inv s → or_orders s = m :: orders →
  ∃ s', offline_step s s' ∧ or_orders s' = orders.
Proof.
  intros [(served & left & E1 & E2 & Hinv) _ _ _ _] E. rewrite E in E2. destruct left as [|x left]; [done|].
  pose proof Hos as Hx. rewrite E1 in Hx. apply Forall_app in Hx as [_ [Hx _]%Forall_cons]. cbn in E2. simplify_eq.
  destruct (submit_one symbols sm junk k spec_empty ids Hids Hsm fuel _ _ _ _ x Hfuel Hx Hinv) as (c & o1 & b1 & Ea & _).
  destruct s as [orders cob p w taken]. cbn in *. subst. eexists. split; [by eapply offline_submit|done].
Qed.

Lemma run_takes s i q m l : run_inv s → 0 <= i → m_outgoingMessages (or_cob s) !! Z.to_nat i = Some q →
  fifo_list q = m :: l → Z.of_nat (length (or_taken s)) < INT_MAX →
  report_small nan_text sm (Z.of_nat (length (or_taken s)) + 1) m →
  ∃ s', offline_step s s' ∧ or_taken s' = or_taken s ++ [(i, m)].
Proof.
  intros Hs Hi Eq El Hn Hsmall. destruct (ri_processor _ Hs) as (P1 & P2 & P3).
  destruct (ri_orders _ Hs) as (served & left & _ & _ & Hinv).
  assert (fifo_inv q) as Iq.
  { pose proof (lookup_lt_Some _ _ _ Eq). pose proof (of_length _ _ _ _ _ _ _ Hinv).
    destruct (of_room _ _ _ _ _ _ _ Hinv i) as (_ & q2 & E2 & R2 & _); [lia|]. by simplify_eq. }
  destruct (fifo_pop_cons m l q Iq El) as (q' & Hpop & _).
  destruct (take_one k spec_empty ids _ _ _ _ _ _ _ _ Hinv Hi Eq Hpop) as (_ & Hik & Hsec).
  pose proof (small_message_written COMPID nan_text sm m (or_processor s) r (or_world s) P1) as Hw.
  destruct s as [orders cob p w taken]. cbn in *. eexists. split; [eapply offline_take; [exact Hi|exact Eq|exact Hpop|]|reflexivity].
  apply Hw; [rewrite Hsec; by apply Hnames|lia|by rewrite P3].
Qed.
End run.

(** ** The start *)

Section start.
Context {MQ TQ : Type} `{!Fifo OutgoingMessage MQ} `{!FifoLaws OutgoingMessage MQ} `{!Fifo MatchTask TQ}.
Implicit Types cob : CentralOrderBook MQ TQ.

(** [setSymbols] touches nothing but the symbols. *)
Lemma setSymbols_from_settings i symbols sm cob sm' cob' : setSymbols_from i symbols sm cob = Ok (sm', cob') →
  m_isMatchingMultithreaded cob' = m_isMatchingMultithreaded cob ∧ m_orderNumber cob' = m_orderNumber cob ∧
  m_orderBookDictionary cob' = m_orderBookDictionary cob ∧ m_outgoingMessages cob' = m_outgoingMessages cob.
Proof.
  revert i sm cob. induction symbols as [|s symbols IH]; intros i sm cob R; cbn [setSymbols_from] in R; [by simplify_eq|].
  destruct (SecurityManager_addSecurity sm s) as [sm1 id]. apply bind_Ok_inv in R as (j & _ & R). by apply IH in R.
Qed.

Lemma server_start (newMQ : Z → MQ) (newTQ : Z → TQ) symbols workQueue outgoingQueue n :
  Z.of_nat (length symbols) <= INT_MAX → Z.of_nat n <= INT_MAX →
  fifo_list (newMQ outgoingQueue) = [] → fifo_room (3 * n) (newMQ outgoingQueue) →
  let k := Z.of_nat (length symbols) in
  ∃ sm cob, ServerBase_new newMQ newTQ symbols false workQueue outgoingQueue SecurityManager_empty =
      Ok (sm, mkServer cob (setMessageQueue k OutgoingMessageProcessor_new)) ∧
    (∀ sec i, m_queueIDDictionary cob !! sec = Some i ↔ sec = i ∧ 0 <= i < k) ∧
    (∀ s, s ∈ symbols → ∃ i, m_securitiesBySymbol sm !! s = Some i ∧ 0 <= i < k) ∧
    (∀ i, 0 <= i < k → m_securitiesById sm !! i = symbols !! Z.to_nat i) ∧
    offline_inv k spec_empty (m_queueIDDictionary cob) n [] [] cob.
Proof.
  intros Hk Hn Hempty Hroom k. unfold ServerBase_new, CentralOrderBook_setSymbols.
  destruct (setSymbols_from_ok 0 symbols SecurityManager_empty (CentralOrderBook_empty (MQ := MQ) (TQ := TQ)))
    as (sm & cob & E & (Hsm & Hsize & _ & Hq) & _ & Hnew); [lia|lia| |].
  { split; [apply SecurityManager_empty_inv|]. split; [done|]. split; [done|]. intros sec i. cbn. rewrite lookup_empty. split; [done|lia]. }
  replace (0 - 1) with (-1) in E by done. rewrite E. cbn [mbind outcome_bind]. apply setSymbols_from_settings in E as (S1 & S2 & S3 & S4).
  cbn in S1, S2, S3, S4. change (0 + Z.of_nat (length symbols)) with k in Hsize, Hq.
  assert (∀ j s, symbols !! j = Some s → m_securitiesById sm !! Z.of_nat j = Some s) as Hname.
  { intros j s Hj. apply Hnew in Hj. unfold SecurityManager_getSecurityName, map_at in Hj. cbn in Hj. case_match; by simplify_eq. }
  eexists _, _. split; [reflexivity|]. split; [exact Hq|]. split; [|split].
  - intros s [j Hj]%list_elem_of_lookup_1. apply Hname in Hj. destruct (smi_id _ Hsm _ _ Hj) as [i Ei]. exists i. split; [done|].
    apply smi_sym in Ei; [|done]. rewrite <- Hsize. apply (smi_ids _ Hsm). by eexists.
  - intros i Hi. destruct (lookup_lt_is_Some_2 symbols (Z.to_nat i)) as [s Es]; [lia|]. rewrite Es.
    apply Hname in Es. by rewrite Z2Nat.id in Es by lia.
  - set (c := CentralOrderBook_initialiseOutgoingMessageQueues _ _ _ _).
    assert (m_outgoingMessages c = replicate (length symbols) (newMQ outgoingQueue)) as Ec
      by (unfold c; cbn; rewrite S4; cbn; by rewrite Nat2Z.id).
    assert (∀ sec, book_of c sec = OrderBook_empty) as Eb by (intros sec; unfold book_of, c; cbn; rewrite S3; by rewrite lookup_empty).
    assert (∀ i, reported i (mkExecution c [] []) = []) as Er.
    { intros i. unfold reported. cbn [ex_taken ex_cob]. rewrite Ec. destruct (_ !! _) as [q|] eqn:Eq; [|done].
      apply lookup_replicate in Eq as [-> _]. exact Hempty. }
    split; try done.
    + split; cbn; [by rewrite S2|]. rewrite S3. apply map_Forall_empty.
    + cbn. rewrite S2. cbn. lia.
    + by rewrite Ec, length_replicate.
    + intros i Hi. split; [lia|]. exists (newMQ outgoingQueue). rewrite Ec, Eb. split; [apply lookup_replicate; split; [done|lia]|].
      cbn. by rewrite Nat.add_0_r.
    + intros i _. rewrite Er. constructor.
    + split; [|intros i _; rewrite Er; constructor]. split; [cbn; by rewrite S2|]. intros sec. rewrite Eb. by split; constructor.
Qed.
End start.

Section submitted.
Context `{!Platform} `{!BodyOrder} (COMPID nan_text : str) (sm : SecurityManager) (fuel : nat) (r : Reactor).
Context {MQ TQ : Type} `{!Fifo OutgoingMessage MQ} `{!FifoLaws OutgoingMessage MQ} `{!Fifo MatchTask TQ}.
Context (symbols : list str) (junk : Order) (k : Z) (ids : gmap Z Z) (os : list FileOrder) (output : str) (w0 : World).
Context (Hids : ∀ sec i, ids !! sec = Some i ↔ sec = i ∧ 0 <= i < k).
Context (Hsm : ∀ s, s ∈ symbols → ∃ i, m_securitiesBySymbol sm !! s = Some i ∧ 0 <= i < k).
Context (Hnames : ∀ i, 0 <= i < k → is_Some (m_securitiesById sm !! i)).
Context (Hos : Forall (file_order_ok symbols) os) (Hfuel : (0 < fuel)%nat).

(** All orders get submitted. *)
Lemma run_submits_all (s : OfflineRun MQ TQ) : run_inv nan_text sm junk k ids os output w0 s →
  ∃ s', rtc (offline_step COMPID nan_text sm fuel r) s s' ∧ or_orders s' = [].
Proof.
  remember (or_orders s) as orders eqn:E. revert s E. induction orders as [|m orders IH]; intros s E Hs.
  - exists s. split; [apply rtc_refl|done].
  - destruct (run_submits COMPID nan_text sm fuel r symbols junk k ids os output w0 Hids Hsm Hos Hfuel s m orders Hs (eq_sym E))
      as (s1 & Hstep & E1).
    destruct (IH s1 (eq_sym E1)) as (s' & Hsteps & E'); [by eapply offline_step_inv|].
    exists s'. split; [by eapply rtc_l|done].
Qed.
End submitted.

(** C5: Offline mode, from the file of orders to the file of reports. The server is made
    for the symbols and the file of limit orders is loaded; then the orders are submitted
    one by one while the processor takes messages whenever it likes. Whatever the
    interleaving: serving the submitted requests on [Spec] gives every book and, for every
    queue, exactly the messages taken from it and waiting in it, in order; the output file
    has grown by one line per message taken, in that order, numbered from 1, and no other
    file changed; each line has the symbol, the quantities and the status of its order. The
    loops of the code only make such steps. With room for three messages per order in each
    queue all orders get submitted, and a message that waits can be written. *)
Theorem offline_mode_reports `{!Platform} `{!BodyOrder} {MQ TQ} `{!Fifo OutgoingMessage MQ}
    `{!FifoLaws OutgoingMessage MQ} `{!Fifo MatchTask TQ} (COMPID nan_text : str) (newMQ : Z → MQ) (newTQ : Z → TQ)
    (symbols : list str) (workQueue outgoingQueue : Z) (fuel : nat) (junk : Order) (file output : str)
    (lines : list FileLine) (final : bool) (r : Reactor) (w : World)
    (Hsymbols : Z.of_nat (length symbols) <= INT_MAX) (Hlines : Forall (file_line_ok symbols) lines)
    (Hfile : w_files w !! file = Some (file_content final lines)) (Hfuel : (0 < fuel)%nat)
    (Horders : Z.of_nat (length (file_orders lines)) <= INT_MAX)
    (Hqueue : fifo_list (newMQ outgoingQueue) = [] ∧ fifo_room (3 * length (file_orders lines)) (newMQ outgoingQueue)) :
  ∃ sm (sv : Server MQ TQ) orders,
    ServerBase_new newMQ newTQ symbols false workQueue outgoingQueue SecurityManager_empty = Ok (sm, sv) ∧
    ServerOffline_loadOrders sm junk file (w_files w) = Ok orders ∧
    ∀ s, rtc (offline_step COMPID nan_text sm fuel r)
           (mkOfflineRun orders (sv_centralOrderBook sv) (enableOfflineMode output (sv_outgoingMessageProcessor sv)) w []) s →
      (∃ served left, file_orders lines = served ++ left ∧ or_orders s = (incoming sm junk <$> left) ∧
        let '(x, es) := Spec.serve_all (file_request sm junk <$> served) spec_empty in
        exchange_rel (or_cob s) x ∧
        ∀ i, 0 <= i → Forall2 message_rel (reported i (mkExecution (or_cob s) [] (or_taken s)))
                        (routed (m_queueIDDictionary (sv_centralOrderBook sv)) i es)) ∧
      readAllFile output (w_files (or_world s)) =
        readAllFile output (w_files w) ++ report_lines nan_text sm 1 (snd <$> or_taken s) ∧
      (∀ name, name ≠ output → w_files (or_world s) !! name = w_files w !! name) ∧
      (∀ j i m, or_taken s !! j = Some (i, m) →
        let report := offline_report nan_text sm (Z.of_nat j + 1) m in
        symbols !! Z.to_nat (m_securityId (om_order m)) = Some (symbol_of sm m) ∧
        report_fields nan_text (om_order m) (symbol_of sm m) (Z.of_nat j + 1) (m_bodyTagValuePairs report) ∧
        (report_small nan_text sm (Z.of_nat j + 1) m → text_of report = fields_text (wire_fields report))) ∧
      (∀ cob', ServerOffline_submit fuel (or_orders s) (or_cob s) = Ok cob' →
        rtc (offline_step COMPID nan_text sm fuel r) s (mkOfflineRun [] cob' (or_processor s) (or_world s) (or_taken s))) ∧
      (∀ cob' p' r' w', processorRound COMPID nan_text sm (or_cob s) (or_processor s) r (or_world s) = Ok (cob', p', r', w') →
        r' = r ∧ ∃ taken', rtc (offline_step COMPID nan_text sm fuel r) s (mkOfflineRun (or_orders s) cob' p' w' taken')) ∧
      (∃ s', rtc (offline_step COMPID nan_text sm fuel r) s s' ∧ or_orders s' = []) ∧
      (∀ i q m l, 0 <= i → m_outgoingMessages (or_cob s) !! Z.to_nat i = Some q → fifo_list q = m :: l →
        Z.of_nat (length (or_taken s)) < INT_MAX → report_small nan_text sm (Z.of_nat (length (or_taken s)) + 1) m →
        ∃ s', offline_step COMPID nan_text sm fuel r s s' ∧ or_taken s' = or_taken s ++ [(i, m)]).
Proof.
  destruct Hqueue as [Hempty Hroom].
  destruct (server_start newMQ newTQ symbols workQueue outgoingQueue (length (file_orders lines)) Hsymbols Horders Hempty Hroom)
    as (sm & cob & Enew & Hids & Hsm & Hnames & Hinv). set (k := Z.of_nat (length symbols)) in *.
  assert (∀ i, 0 <= i < k → is_Some (m_securitiesById sm !! i)) as Hsome
    by (intros i Hi; rewrite Hnames by done; apply lookup_lt_is_Some_2; lia).
  pose proof (file_orders_ok symbols lines Hlines) as Hos.
  exists sm. eexists _, _. split; [exact Enew|]. split.
  { apply (loadOrders_spec symbols sm junk) with final; [|done|done]. intros s Hs. destruct (Hsm s Hs) as (i & E & _). by exists i. }
  intros s Hsteps.
  assert (run_inv nan_text sm junk k (m_queueIDDictionary cob) (file_orders lines) output w s) as Hs.
  { apply (offline_steps_inv COMPID nan_text sm fuel r symbols junk k (m_queueIDDictionary cob) (file_orders lines) output w Hids Hsm Hsome Hos Hfuel) in Hsteps; [done|].
    split; [by exists [], (file_orders lines)|done|constructor|by rewrite app_nil_r|done]. }
  pose proof Hs as [(served & left & E1 & E2 & Hi) (P1 & P2 & P3) Ht Hf Ho].
  split_and!; [|exact Hf|exact Ho| | | | |].
  - exists served, left. split; [done|]. split; [done|]. exact (of_spec _ _ _ _ _ _ _ Hi).
  - intros j i m Ej report. eapply Forall_lookup in Ht as [Hk Hsec]; [|exact Ej]. cbn in Hk, Hsec.
    split; [|split; [apply offline_report_fields|]].
    + unfold symbol_of. rewrite Hsec, Hnames by done. destruct (Hsome i Hk) as [name En]. rewrite Hnames in En by done. by rewrite En.
    + intros Hsmall. unfold text_of, report. by rewrite (offline_report_text _ _ _ _ Hsmall).
  - intros cob' R. destruct s. by apply submit_steps.
  - intros cob' p' r' w' R. unfold processorRound in R. destruct (op_hasMessageQueue _).
    + apply (round_steps COMPID nan_text sm fuel r junk k (m_queueIDDictionary cob) (file_orders lines) output w Hsome Hfuel _ 0 s) in R; [exact R|exact Hs|done].
    + simplify_eq. split; [done|]. exists (or_taken s). by destruct s.
  - by apply (run_submits_all COMPID nan_text sm fuel r symbols junk k (m_queueIDDictionary cob) (file_orders lines) output w Hids Hsm Hsome Hos Hfuel).
  - intros i q m l. by apply (run_takes COMPID nan_text sm fuel r junk k (m_queueIDDictionary cob) (file_orders lines) output w Hsome).
Qed.

(** ** A witness: the sample file of the repository *)

#[local] Existing Instance demo_Platform.
#[local] Existing Instance demo_BodyOrder.

Definition demo_line (buy : bool) (quantity : Z) (symbol : str) : FileLine :=
  FileEntry (mkFileOrder symbol None buy quantity 1).

Definition demo_lines : list FileLine :=
  [FileComment ($" 35=D means new order"); demo_line false 2 ($"GOOGL"); demo_line true 1 ($"GOOGL");
   demo_line true 1 ($"GOOGL"); demo_line false 1 ($"AAPL"); demo_line true 1 ($"AAPL")].

Definition demo_symbols : list str := [$"GOOGL"; $"AAPL"].
Definition demo_offline_world : World := with_files {[ $"orders.txt" := file_content false demo_lines ]} demo_world.
Definition demo_newMQ : Z → RingBuffer OutgoingMessage := RingBuffer_new demo_message.
Definition demo_newTQ : Z → RingBuffer MatchTask := RingBuffer_new (TaskNewOrder (demo_order 0 BUY 0 0)).

Lemma demo_lines_ok : Forall (file_line_ok demo_symbols) demo_lines.
Proof.
  assert (∀ buy quantity symbol, 0 < quantity <= LONG_MAX → symbol ∈ demo_symbols → file_value symbol →
    file_line_ok demo_symbols (demo_line buy quantity symbol)) as H.
  { intros. split; cbn; [by split|done|done|]. unfold exact_long. lia. }
  assert (file_value ($"GOOGL") ∧ file_value ($"AAPL")) as [Hg Ha].
  { split; (split; [split|split]); try done; apply (bool_decide_unpack _); vm_compute; exact I. }
  assert ($"GOOGL" ∈ demo_symbols ∧ $"AAPL" ∈ demo_symbols) as [Ig Ia].
  { split; apply (bool_decide_unpack _); vm_compute; exact I. }
  unfold demo_lines. repeat constructor; try (apply H; [mlia|done|done]).
  cbn. unfold one_line. apply (bool_decide_unpack _). vm_compute. exact I.
Qed.

(** The sample: five acceptances and six reports of fills, in two queues. *)
Example demo_offline_reports :
  match '(sm, sv) ← ServerBase_new demo_newMQ demo_newTQ demo_symbols false 64 64 SecurityManager_empty;
        orders ← ServerOffline_loadOrders sm (demo_order 0 SELL 0 0) ($"orders.txt") (w_files demo_offline_world);
        cob ← ServerOffline_submit 1 orders (sv_centralOrderBook sv);
        Ok (sm, cob) with
  | Ok (sm, cob) => (λ q, (λ m, (m_orderID (om_order m), m_openQuantity (om_order m))) <$> fifo_list q) <$> m_outgoingMessages cob
  | _ => []
  end = [[(1, 2); (2, 1); (2, 0); (1, 1); (3, 1); (3, 0); (1, 0)]; [(4, 1); (5, 1); (5, 0); (4, 0)]].
Proof. vm_compute. reflexivity. Qed.

Lemma offline_mode_reports_witness :
  ∃ sm (sv : Server (RingBuffer OutgoingMessage) (RingBuffer MatchTask)) orders,
    ServerBase_new demo_newMQ demo_newTQ demo_symbols false 64 64 SecurityManager_empty = Ok (sm, sv) ∧
    ServerOffline_loadOrders sm (demo_order 0 SELL 0 0) ($"orders.txt") (w_files demo_offline_world) = Ok orders ∧
    ∀ s, rtc (offline_step ($"EXECUTOR") ($"nan") sm 1 demo_reactor)
           (mkOfflineRun orders (sv_centralOrderBook sv)
              (enableOfflineMode ($"reports.txt") (sv_outgoingMessageProcessor sv)) demo_offline_world []) s →
      readAllFile ($"reports.txt") (w_files (or_world s)) = report_lines ($"nan") sm 1 (snd <$> or_taken s) ∧
      ∃ s', rtc (offline_step ($"EXECUTOR") ($"nan") sm 1 demo_reactor) s s' ∧ or_orders s' = [].
Proof.
  destruct (offline_mode_reports (MQ := RingBuffer OutgoingMessage) (TQ := RingBuffer MatchTask) ($"EXECUTOR") ($"nan")
    demo_newMQ demo_newTQ demo_symbols 64 64 1 (demo_order 0 SELL 0 0) ($"orders.txt") ($"reports.txt") demo_lines false
    demo_reactor demo_offline_world)
    as (sm & sv & orders & E1 & E2 & H);
    [vm_compute; discriminate|exact demo_lines_ok|reflexivity|lia|vm_compute; discriminate| |].
  - split; [reflexivity|]. split; [apply RingBuffer_new_inv; split; [done|vm_compute; discriminate]|].
    split; vm_compute; discriminate || lia.
  - exists sm, sv, orders. split; [exact E1|]. split; [exact E2|]. intros s Hs.
    destruct (H s Hs) as (_ & Hf & _ & _ & _ & _ & Hall & _). split; [exact Hf|exact Hall].
Defined.
