(* ===== verification/SlotReuse.v ===== *)
(** * The slot of a client that left

    A client is known to the exchange by the slot of its session: the number is stored in
    its orders and comes back in their reports. When the client leaves, the slot is free,
    and the next connection takes it. This file composes the reactor, the logon of the
    next client and the thread that sends reports: what the exchange still has for the
    first client goes to the second. *)
From Stdlib Require Import ZArith Lia Ascii String SpecFloat.
From stdpp Require Import base decidable sets list gmap strings.
From S2P Require Import Prelude.
From S2P Require Import MachineInt.
From S2P Require Import StringUtility.
From S2P Require Import SecurityManager.
From S2P Require Import Order.
From S2P Require Import OrderBook.
From S2P Require Import CentralOrderBook.
From S2P Require Import FixConstants.
From S2P Require Import FixMessage.
From S2P Require Import FixParser.
From S2P Require Import FixSequenceStore.
From S2P Require Import Network.
From S2P Require Import FixSession.
From S2P Require Import FixServerReactor.
From S2P Require Import OutgoingMessageProcessor.
Local Open Scope Z_scope.

(** ** The free slot *)

Lemma first_free_at i flags : (i < length flags)%nat → (∀ j, (j < i)%nat → flags !! j = Some true) →
  first_free (<[i := false]> flags) = Some i.
Proof.
  revert i. induction flags as [|b flags IH]; intros [|i] Hi Hlow; simpl in *; [lia|lia|done|].
  pose proof (Hlow 0%nat ltac:(lia)) as H0. simpl in H0. simplify_eq. rewrite IH; [done|lia|].
  intros j Hj. apply (Hlow (S j)). lia.
Qed.

Section effects.
Context `{!Platform} `{!BodyOrder} (COMPID : str).

Lemma close_socket_effects id w w' : close_socket id w = Ok w' → w_files w' = w_files w ∧ w_sent w' = w_sent w.
Proof.
  unfold close_socket. intros E. apply bind_Ok_inv in E as (sock & _ & E). destruct (Socket_close sock). by simplify_eq.
Qed.

Lemma destroy_effects s w w' : FixSession_destroy s w = Ok w' → w_files w' = w_files w ∧ w_sent w' = w_sent w.
Proof.
  unfold FixSession_destroy, FixSession_close. repeat case_match; intros; simplify_eq; try done. by eapply close_socket_effects.
Qed.

(** A new connection writes no file and sends nothing. *)
Lemma accept_effects memory id sock r w r' w' : acceptNewConnection memory (Some (id, sock)) r w = Ok (r', w') →
  w_files w' = w_files w ∧ w_sent w' = w_sent w.
Proof.
  unfold acceptNewConnection. intros E. apply bind_Ok_inv in E as ([[r1 w1] k] & Ea & E).
  assert (w_files w1 = w_files w ∧ w_sent w1 = w_sent w) as [<- <-].
  { unfold addPeer in Ea. apply bind_Ok_inv in Ea as ([[[ss fl] w0] j] & Ea & E'). simplify_eq.
    unfold add_peer in Ea. case_match; [|by simplify_eq]. apply bind_Ok_inv in Ea as (old & _ & Ea).
    apply bind_Ok_inv in Ea as (w2 & Ed & Ea). simplify_eq. unfold delete_socket in Ed.
    apply bind_Ok_inv in Ed as (w3 & Ec & Ed). simplify_eq. apply close_socket_effects in Ec. exact Ec. }
  unfold onClientConnected in E. apply bind_Ok_inv in E as (r2 & _ & E). apply bind_Ok_inv in E as ([r3 w3] & Es & E).
  assert (w_files w3 = w_files w1 ∧ w_sent w3 = w_sent w1) as [<- <-].
  { unfold addSession in Es. case_match; [|by simplify_eq]. apply bind_Ok_inv in Es as (old & _ & Es).
    apply bind_Ok_inv in Es as (w2 & Ed & Es). simplify_eq. by eapply destroy_effects. }
  apply bind_Ok_inv in E as (p & _ & E). apply bind_Ok_inv in E as (s & _ & E). apply bind_Ok_inv in E as (q & _ & E).
  by simplify_eq.
Qed.

(** ** The logon of the next client *)

(** The session of a client whose logon message [m] was answered, on a new session. *)
Definition welcomed (memory : str) (id : Z) (m : FixMessage) (heartBeat encryption out inc : Z) (r : Reactor) : FixSession :=
  setIncomingSequenceNumber (inc + 1) (with_times 0 unix_time (with_numbers (out + 1) inc
    (logged_on m heartBeat encryption out inc (new_session memory id r)))).

(** The message logs its client on, in a new session on the socket object [id]. *)
Record logs_on (memory : str) (id fd : Z) (m : FixMessage) (heartBeat encryption out inc : Z) (r : Reactor) (w : World) : Prop := {
  lo_tags : (validateRequiredTags m 0).1 = true;
  lo_logon : m_messageType m = LOGON;
  lo_target : validateTargetCompid COMPID m = true;
  lo_number : m_sequenceNumber m = inc + 1;
  lo_outgoing : out + 1 < INT_MAX;
  lo_answer : logon_ok COMPID m (new_session memory id r) w id fd heartBeat encryption out inc
}.

Context {A : Type} (onFixMessage : FixMessage → nat → Reactor → World → A → outcome (Reactor * World * A)).

Lemma logon_processed memory id fd m heartBeat encryption out inc i r w a :
  logs_on memory id fd m heartBeat encryption out inc r w → r_Sessions r !! i = Some (new_session memory id r) →
  ∃ w', processMessage COMPID onFixMessage m i i r w a =
      Ok (set_session (Some i) (welcomed memory id m heartBeat encryption out inc r) r, w', a) ∧
    w_sockets w' = w_sockets w.
Proof.
  intros [Htags Hlogon Htarget Hnumber _ Hok] Hs.
  destruct (handleLogon_spec COMPID m _ w id fd heartBeat encryption out inc Hok) as [Eh _].
  assert (i < length (r_Sessions r))%nat as Hi by (by eapply lookup_lt_Some).
  eexists (mkWorld (w_files w) _ (w_closed w) (w_sockets w)). split; [|reflexivity]. unfold processMessage, session_of. rewrite (vec_at_nat _ _ _ Hs). cbn [mbind outcome_bind].
  destruct (validateRequiredTags m 0) as [valid tag]. simpl in Htags. subst valid. cbn [negb].
  unfold process_logon. rewrite Hlogon. cbn [Z.eqb LOGON Pos.eqb]. rewrite Htarget. cbn [negb].
  rewrite Eh. cbn [mbind outcome_bind]. set (s2 := with_times _ _ _).
  assert (r_Sessions (set_session (Some i) s2 r) !! i = Some s2) as Hs2 by (by apply list_lookup_insert_eq).
  unfold session_of. rewrite (vec_at_nat _ _ _ Hs2). cbn [mbind outcome_bind].
  assert (to_int (m_sequenceNumber m) = inc + 1) as En.
  { rewrite Hnumber. apply to_int_small. destruct Hok. clear - lg_in. mlia. }
  assert ((if r_sequenceNumberValidation (set_session (Some i) s2 r)
           then validateSequenceNumber (to_int (m_sequenceNumber m)) s2 else Ok true) = Ok true) as ->.
  { case_match; [|done]. unfold validateSequenceNumber. simpl.
    rewrite int_add_Ok by (destruct Hok; clear - lg_in; mlia). cbn [mbind outcome_bind]. by rewrite bool_decide_true. }
  cbn [mbind outcome_bind negb]. rewrite En. unfold isAdminMessage. rewrite Hlogon. cbn [LOGON LOGOFF Z.eqb orb Pos.eqb].
  unfold handleAdminMessage. rewrite Hlogon. cbn [LOGON LOGOFF HEARTBEAT TEST_REQUEST USER_LOGON Z.eqb Pos.eqb mbind outcome_bind].
  rewrite Hlogon. cbn [LOGON LOGOFF Z.eqb Pos.eqb].
  do 3 f_equal. unfold set_session, with_sessions. simpl. by rewrite list_insert_insert_eq.
Qed.

Lemma welcomed_ok memory id fd m heartBeat encryption out inc r w :
  logs_on memory id fd m heartBeat encryption out inc r w → session_ok COMPID (welcomed memory id m heartBeat encryption out inc r).
Proof.
  intros [_ _ _ _ Hout Hok]. destruct Hok. destruct lg_clean as (H1 & H2 & H3). split; simpl; try done. clear - Hout lg_out. lia.
Qed.
End effects.

(** No logon is needed: an application message with number 2 on a new session reaches
    the application. *)
Lemma unlogged_reaches_application `{!Platform} `{!BodyOrder} {A : Type} COMPID
    (onFixMessage : FixMessage → nat → Reactor → World → A → outcome (Reactor * World * A)) m i r w a memory id :
  r_Sessions r !! i = Some (new_session memory id r) → r_sequenceNumberValidation r = true →
  (validateRequiredTags m 0).1 = true → isAdminMessage m = false → m_sequenceNumber m = 2 →
  processMessage COMPID onFixMessage m i i r w a =
    onFixMessage m i (set_session (Some i) (setIncomingSequenceNumber 2 (new_session memory id r)) r) w a.
Proof.
  intros Hs Hon Htags Hadmin Hn.
  rewrite (processMessage_number _ _ _ _ _ _ _ _ _ Hs Htags); [|by intros E; unfold isAdminMessage in Hadmin; rewrite E in Hadmin|done|simpl; mlia].
  by rewrite Hn, Hadmin.
Qed.

(** ** The report *)

(** A message of the exchange whose report fits the session [s] in slot [i]. *)
Record report_fits `{!Platform} `{!BodyOrder} (COMPID nan_text : str) (sm : SecurityManager) (message : OutgoingMessage)
    (p : OutgoingMessageProcessor) (i : nat) (s : FixSession) (symbol : str) : Prop := {
  fi_online : op_offlineMode p = false;
  fi_execID : 0 <= op_execID p < INT_MAX;
  fi_slot : m_sessionId (om_order message) = Z.of_nat i;
  fi_symbol : m_securitiesById sm !! m_securityId (om_order message) = Some symbol;
  fi_clean : clean nan_text ∧ clean (m_clientOrderID (om_order message)) ∧ clean symbol;
  fi_size : wire_size_ok (stamped (report_tags nan_text (om_order message) symbol (op_execID p + 1)
              (getExecutionReportMessage COMPID (FixMessage_new junk_type) s)) s)
}.

(** C18: The report of an order goes to whoever has the slot of its client. When a client
    leaves, the slots before its own being taken, the next connection gets its slot; once
    the new client, with another comp id, has logged on, a report that the exchange still
    has for an order of the first one is sent to the second, on its connection and under
    its comp id, with the first one's order identifier, quantities and symbol. *)
Theorem report_reaches_next_client `{!Platform} `{!BodyOrder} {A : Type} (COMPID nan_text : str) (sm : SecurityManager)
    (onFixMessage : FixMessage → nat → Reactor → World → A → outcome (Reactor * World * A))
    (message : OutgoingMessage) (p : OutgoingMessageProcessor) (symbol memory : str) (i : nat) (r : Reactor) (w : World)
    (a : A) (first : FixSession) (id fd heartBeat encryption out inc : Z) (m : FixMessage)
    (Hinv : reactor_inv r w) (Hused : r_SessionFlags r !! i = Some true) (Hfirst : r_Sessions r !! i = Some first)
    (Hbefore : ∀ j, (j < i)%nat → r_SessionFlags r !! j = Some true)
    (Hfresh : w_sockets w !! id = None) (Hother : m_senderCompId m ≠ ss_targetCompId first)
    (Hlogon : logs_on COMPID memory id fd m heartBeat encryption out inc r
                (with_sockets (<[id := mkSocket fd SOCKET_CONNECTED]> (w_sockets w)) w))
    (Hreport : report_fits COMPID nan_text sm message p i (welcomed memory id m heartBeat encryption out inc r) symbol) :
  ∃ r1 w1 r2 w2 r3 w3 p4 r4 w4 text received,
    onClientDisconnected COMPID i r w = Ok (r1, w1) ∧
    acceptNewConnection memory (Some (id, mkSocket fd SOCKET_CONNECTED)) r1 w1 = Ok (r2, w2) ∧
    processMessage COMPID onFixMessage m i i r2 w2 a = Ok (r3, w3, a) ∧
    processOutgoingMessage COMPID nan_text sm message p r3 w3 = Ok (p4, r4, w4) ∧
    w_sent w4 = w_sent w3 ++ [(fd, text)] ∧
    FixParser_parseFromBuffer (FixMessage_new 0) text (length text) = Ok received ∧
    m_messageType received = EXECUTION_REPORT ∧ m_targetCompId received = m_senderCompId m ∧
    report_fields nan_text (om_order message) symbol (op_execID p + 1) (m_bodyTagValuePairs received).
Proof.
  destruct (reactor_inv_slot r w i Hinv Hused) as (s0 & id0 & sock0 & ? & Hid0 & Hsock0 & _). simplify_eq.
  set (r1 := disconnected_reactor i sock0 r). set (w1 := disconnected_world COMPID first id0 sock0 w).
  pose proof (disconnected_inv COMPID r w i first id0 sock0 Hinv Hsock0) as Hinv1. fold r1 w1 in Hinv1.
  assert (i < length (r_peerSocketsConnectionFlags r))%nat as Hi
    by (rewrite <- (ri_flags _ _ Hinv); by eapply lookup_lt_Some).
  assert (next_slot r1 = i) as Hslot.
  { unfold next_slot. simpl r_peerSocketsConnectionFlags. rewrite first_free_at; [done|done|].
    intros j Hj. rewrite <- (ri_flags _ _ Hinv). by apply Hbefore. }
  assert (w_sockets w1 !! id = None) as Hfresh1.
  { simpl. rewrite lookup_insert_ne; [done|]. intros ->. congruence. }
  destruct (acceptNewConnection_spec memory r1 w1 id (mkSocket fd SOCKET_CONNECTED) Hinv1 Hfresh1) as (w2 & Ea & Hid2 & Hold).
  pose proof (accepted_inv memory r1 w1 id _ w2 Hinv1 Hfresh1 Hid2 Hold) as Hinv2.
  set (r2 := accepted_reactor memory id (mkSocket fd SOCKET_CONNECTED) r1) in *.
  destruct (accept_effects memory id _ r1 w1 r2 w2 Ea) as [Hfiles _].
  pose proof (next_slot_le r1 w1 Hinv1) as Hle. rewrite Hslot in Hle. simpl in Hle.
  assert (logs_on COMPID memory id fd m heartBeat encryption out inc r2 w2) as Hlogon2.
  { destruct Hlogon as [L1 L2 L3 L4 L5 []]. split; try done. split; try done; [by eexists|].
    rewrite Hfiles. simpl. by rewrite load_other. }
  assert (r_Sessions r2 !! i = Some (new_session memory id r2)) as Hs2.
  { simpl. rewrite Hslot, list_put_lookup, decide_True by (rewrite ?(ri_sessions _ _ Hinv); lia). done. }
  assert (r_SessionFlags r2 !! i = Some true) as Hf2.
  { simpl. rewrite Hslot, list_put_lookup, decide_True by (rewrite ?length_insert, ?(ri_flags _ _ Hinv); lia). done. }
  destruct (logon_processed COMPID onFixMessage _ _ _ _ _ _ _ _ i r2 w2 a Hlogon2 Hs2) as (w3 & Ep & Hsock3).
  set (s3 := welcomed memory id m heartBeat encryption out inc r2) in *. set (r3 := set_session (Some i) s3 r2) in *.
  assert (reactor_inv r3 w3) as Hinv3 by (eapply session_step; [exact Hinv2|exact Hs2|by split|done]).
  destruct (processOutgoingMessage_sends COMPID nan_text sm message p r3 w3 i s3 symbol)
    as (p4 & r4 & w4 & E4 & _ & _ & [(id4 & sock4 & st4 & text & received & Hc4 & Hk4 & Hsent & Hparse & Ht1 & Ht2 & _ & Hfields)]).
  { destruct Hreport. split; try done; [simpl; apply list_lookup_insert_eq; by eapply lookup_lt_Some|by eapply welcomed_ok]. }
  simpl in Hc4. simplify_eq. rewrite Hsock3, Hid2 in Hk4. simplify_eq.
  exists r1, w1, r2, w2, r3, w3, p4, r4, w4, text, received.
  split; [by apply onClientDisconnected_spec|]. split_and!; done.
Qed.

(** ** CLIENT1 leaves, CLIENT2 gets its slot and its fill *)

#[local] Existing Instance demo_Platform.
#[local] Existing Instance demo_BodyOrder.

Definition demo_stranger : FixMessage :=
  setTag FIX_TAG_HEARBEAT_INTERVAL (to_string 30) (setTag FIX_TAG_ENCRYPT_METHOD (to_string 0)
    (setTag FIX_TAG_BODY_LENGTH ($"60") (setTag FIX_TAG_BODY_CHECKSUM ($"123")
      (mkFixMessage FIX_4_2 1 LOGON ($"CLIENT2") ($"EXECUTOR") ($"20160101-10:20:29") ∅)))).

Lemma report_reaches_next_client_witness : ∃ r1 w1 r2 w2 r3 w3 p4 r4 w4 text received,
    onClientDisconnected ($"EXECUTOR") 0 demo_logged_reactor demo_connected.1.2 = Ok (r1, w1) ∧
    acceptNewConnection [] (Some (6, mkSocket 8 SOCKET_CONNECTED)) r1 w1 = Ok (r2, w2) ∧
    processMessage ($"EXECUTOR") demo_handler demo_stranger 0 0 r2 w2 tt = Ok (r3, w3, tt) ∧
    processOutgoingMessage ($"EXECUTOR") ($"nan") demo_sm demo_fill demo_processor r3 w3 = Ok (p4, r4, w4) ∧
    w_sent w4 = w_sent w3 ++ [(8, text)] ∧
    FixParser_parseFromBuffer (FixMessage_new 0) text (length text) = Ok received ∧
    m_messageType received = EXECUTION_REPORT ∧ m_targetCompId received = m_senderCompId demo_stranger ∧
    report_fields ($"nan") (om_order demo_fill) ($"AAA") (op_execID demo_processor + 1) (m_bodyTagValuePairs received).
Proof.
  apply (report_reaches_next_client ($"EXECUTOR") ($"nan") demo_sm demo_handler demo_fill demo_processor ($"AAA") [] 0
    demo_logged_reactor demo_connected.1.2 tt demo_logged 6 8 30 0 1 0 demo_stranger);
    [apply demo_logged_inv|vm_compute; reflexivity|vm_compute; reflexivity|lia|vm_compute; reflexivity|vm_compute; discriminate| |].
  - split; [vm_compute; reflexivity|reflexivity|vm_compute; reflexivity|reflexivity|vm_compute; reflexivity|].
    split; try (vm_compute; reflexivity); try (split; vm_compute; (reflexivity || discriminate)).
    + eexists. vm_compute. reflexivity.
    + split_and!; by apply demo_clean.
    + vm_compute. discriminate.
  - split; [reflexivity|vm_compute; split; [discriminate|reflexivity]|reflexivity|vm_compute; reflexivity
      |split_and!; by apply demo_clean|vm_compute; discriminate].
Defined.
