(* ===== verification/SessionSharing.v ===== *)
(** * One session, two threads

    The reactor's thread and the thread that sends reports use the same [FixSession]
    objects: both send through them, and the reactor's thread also deletes them. The first
    part cuts [FixSession::send] at its accesses and runs any number of senders under
    [m_sessionSendLock]. The second part is about the pointers: [getSession] gives the
    report thread a pointer, and [m_sessionLock], which it then takes, is inside the
    object that the pointer refers to. *)
From Stdlib Require Import ZArith Lia Ascii String SpecFloat.
From stdpp Require Import base decidable sets list gmap strings relations.
From S2P Require Import Prelude.
From S2P Require Import MachineInt.
From S2P Require Import StringUtility.
From S2P Require Import SecurityManager.
From S2P Require Import Order.
From S2P Require Import CentralOrderBook.
From S2P Require Import FixConstants.
From S2P Require Import FixMessage.
From S2P Require Import FixParser.
From S2P Require Import SpinLock.
From S2P Require Import Network.
From S2P Require Import FixSession.
From S2P Require Import FixServerReactor.
From S2P Require Import OutgoingMessageProcessor.
From S2P Require Import SlotReuse.
Local Open Scope Z_scope.

(** ** Senders under the send lock *)

Section sending.
Context `{!Platform} `{!BodyOrder}.

(** A sender's own variables: its message and the message's text. The time of an
    operation is taken before the lock. *)
Abbreviation send_state := ((FixSession * World) * (FixMessage * str))%type.

Definition send_number (x : send_state) : outcome send_state :=
  let '(s, w, (message, text)) := x in
  Ok (s, w, (setSequenceNumber (to_size (ss_outgoingSequenceNumber s)) message, text)).

Definition send_stamp (admin : bool) (currentUTCDateTime : str) (x : send_state) : outcome send_state :=
  let '(s, w, (message, text)) := x in
  let message := setSendingTime currentUTCDateTime message in
  Ok (s, w, (if admin then message else setTag FIX_TAG_TRANSACTION_TIME currentUTCDateTime message, text)).

Definition send_text (x : send_state) : outcome send_state :=
  let '(s, w, (message, text)) := x in
  '(message, text) ← FixMessage_toString message [];
  Ok (s, w, (message, text)).

(** The text is handed to [::send] on the session's connection; what that call returns does
    not change what follows. *)
Definition send_socket (x : send_state) : outcome send_state :=
  let '(s, w, (message, text)) := x in
  match ss_tcpConnection s with
  | None => Undef NullDeref
  | Some id =>
      connection ← socket_at id w;
      Ok (s, mkWorld (w_files w) (w_sent w ++ [(sk_descriptor connection, text)]) (w_closed w) (w_sockets w), (message, text))
  end.

Definition send_increment (x : send_state) : outcome send_state :=
  let '(s, w, l) := x in
  next ← int_add (ss_outgoingSequenceNumber s) 1;
  Ok (with_numbers next (ss_incomingSequenceNumber s) s, w, l).

Definition send_time (x : send_state) : outcome send_state :=
  let '(s, w, l) := x in Ok (with_times (ss_lastReceivedTime s) unix_time s, w, l).

(** The critical section of [send]; an operation is a message with its time. *)
Definition send_body (op : FixMessage * str) : list (send_state → outcome send_state) :=
  [send_number; send_stamp (isAdminMessage op.1) op.2; send_text; send_socket; send_increment; send_time].
Definition send_vars (op : FixMessage * str) : FixMessage * str := (op.1, []).

(** Alone, the section does what [FixSession_send] does. *)
Lemma send_body_run message s w s' w' l :
  run_op send_body send_vars (message, utc_datetime (ss_timePrecision s)) (s, w) = Ok ((s', w'), l) →
  ∃ n, FixSession_send message s w = Ok (l.1, s', w', n).
Proof.
  unfold run_op, FixSession_send. simpl. intros E.
  apply bind_Ok_inv in E as ([[s1 w1] [m1 t1]] & Et & E). apply bind_Ok_inv in Et as ([m2 t2] & -> & Et). simplify_eq/=.
  apply bind_Ok_inv in E as ([[s1' w2] l2] & Es & E).
  destruct (ss_tcpConnection s1) as [id|]; [|done]. apply bind_Ok_inv in Es as (c & -> & Es). simplify_eq/=.
  apply bind_Ok_inv in E as ([[s2 w3] l3] & Ei & E). apply bind_Ok_inv in Ei as (next & -> & Ei). simplify_eq/=. by eexists.
Qed.

(** The message that [send] makes of the one it is given, with the number [n] and the time
    of the operation. *)
Definition numbered_message (n : Z) (op : FixMessage * str) : FixMessage :=
  let message := setSendingTime op.2 (setSequenceNumber n op.1) in
  if isAdminMessage op.1 then message else setTag FIX_TAG_TRANSACTION_TIME op.2 message.

(** The text [x] is that of the operation's message with the number [n]; it went to the
    descriptor of the session's own connection. *)
Definition numbered_text (s : FixSession) (w : World) (n : Z) (op : FixMessage * str) (l : FixMessage * str)
    (x : Z * str) : Prop :=
  FixMessage_toString (numbered_message n op) [] = Ok l ∧
  ∃ id connection, ss_tcpConnection s = Some id ∧ w_sockets w !! id = Some connection ∧ x = (sk_descriptor connection, l.2).

Definition same_connection (s s' : FixSession) (w w' : World) : Prop :=
  ss_tcpConnection s' = ss_tcpConnection s ∧ w_sockets w' = w_sockets w.

(** What one whole section does to numbers and texts. *)
Lemma send_body_effect op s w s' w' l : 0 <= ss_outgoingSequenceNumber s →
  run_op send_body send_vars op (s, w) = Ok ((s', w'), l) →
  ss_outgoingSequenceNumber s' = ss_outgoingSequenceNumber s + 1 ∧ same_connection s s' w w' ∧
  ∃ x, w_sent w' = w_sent w ++ [x] ∧ numbered_text s w (ss_outgoingSequenceNumber s) op l x.
Proof.
  intros Hn0. unfold run_op. simpl. set (m0 := if isAdminMessage op.1 then _ else _). intros E.
  apply bind_Ok_inv in E as ([[s1 w1] [m1 t1]] & Et & E). apply bind_Ok_inv in Et as ([m2 t2] & Et & Et'). simplify_eq/=.
  apply bind_Ok_inv in E as ([[s1' w2] l2] & Es & E).
  destruct (ss_tcpConnection s1) as [id|] eqn:Hc; [|done].
  apply bind_Ok_inv in Es as (c & Ec & Es). simplify_eq/=.
  apply bind_Ok_inv in E as ([[s2 w3] l3] & Ei & E). apply bind_Ok_inv in Ei as (next & Ei & Ei'). simplify_eq/=.
  unfold int_add in Ei. case_match eqn:Hr; simplify_eq. apply in_int_spec in Hr. split; [done|]. split; [done|].
  exists (sk_descriptor c, t1). split; [done|]. split.
  - unfold m0 in Et. rewrite to_size_small in Et by (clear - Hn0 Hr; mlia). exact Et.
  - exists id, c. split_and!; [done| |done]. unfold socket_at in Ec. by case_match; simplify_eq.
Qed.

Lemma sends_effect ops s w s' w' : 0 <= ss_outgoingSequenceNumber s →
  run_ops send_body send_vars ops (s, w) (s', w') →
  ss_outgoingSequenceNumber s' = ss_outgoingSequenceNumber s + Z.of_nat (length ops) ∧ same_connection s s' w w' ∧
  ∃ texts, w_sent w' = w_sent w ++ texts ∧ length texts = length ops ∧
    ∀ k op l, ops !! k = Some (op, l) → ∃ x, texts !! k = Some x ∧
      numbered_text s w (ss_outgoingSequenceNumber s + Z.of_nat k) op l x.
Proof.
  revert s w. induction ops as [|[op l] ops IH]; intros s w Hn0 Hr; simpl in Hr.
  - simplify_eq. split; [simpl; lia|]. split; [done|]. exists []. split; [by rewrite app_nil_r|]. split; [done|]. by intros k op l E.
  - destruct Hr as ([s1 w1] & E & Hr). apply send_body_effect in E as (En & [Ec Ek] & x & Ew & Hx); [|done].
    destruct (IH s1 w1) as (Hl & [Ec' Ek'] & texts & Et & Hlen & Hk); [lia|done|]. split; [simpl; lia|].
    split; [split; congruence|].
    exists (x :: texts). split; [by rewrite Et, Ew, <- app_assoc|]. split; [simpl; lia|].
    intros [|k] op' l' E'; simpl in E'; simplify_eq.
    + exists x. split; [done|]. by replace (_ + Z.of_nat 0) with (ss_outgoingSequenceNumber s) by lia.
    + destruct (Hk k op' l' E') as (x' & H1 & H2). exists x'. split; [done|]. unfold numbered_text in *.
      rewrite Ec, Ek in H2. by replace (_ + Z.of_nat (S k)) with (ss_outgoingSequenceNumber s1 + Z.of_nat k) by lia.
Qed.
End sending.

(** C15: Concurrent senders number their messages one after the other. However the accesses
    of threads that send through one session interleave, whenever no thread is between
    lock and unlock of the send lock, one text per finished [send] has been handed to the
    session's own connection, in the order in which they released the lock; the k-th is
    the text of the message that the k-th of these calls was given, with that call's time
    and the session's first number plus k, and the session's number is the one after the
    last. *)
Theorem concurrent_sends_numbered `{!Platform} `{!BodyOrder} (junk : bool) (s0 : FixSession) (w0 : World)
    (y : system (FixSession * World) (FixMessage * str) (FixMessage * str))
    (Hnumber : 0 <= ss_outgoingSequenceNumber s0)
    (Hreach : rtc (locked_step send_body send_vars) (locked_start (SpinLock_new junk) (s0, w0)) y)
    (Hquiet : ∀ t, ¬ inside (sy_threads y t)) :
  let '(s, w) := sy_shared y in
  ss_outgoingSequenceNumber s = ss_outgoingSequenceNumber s0 + Z.of_nat (length (sy_done y)) ∧ same_connection s0 s w0 w ∧
  ∃ texts, w_sent w = w_sent w0 ++ texts ∧ length texts = length (sy_done y) ∧
    ∀ k op l, sy_done y !! k = Some (op, l) → ∃ x, texts !! k = Some x ∧
      numbered_text s0 w0 (ss_outgoingSequenceNumber s0 + Z.of_nat k) op l x.
Proof.
  pose proof (locked_inv_reachable _ _ _ _ _ Hreach
    (locked_start_inv send_body send_vars (SpinLock_new junk) (s0, w0) eq_refl)) as Hi.
  unfold locked_inv in Hi. destruct (m_flag (sy_lock y)).
  { destruct Hi as (t & op & bf & rs & l & s & H1 & _). destruct (Hquiet t). by rewrite H1. }
  destruct Hi as [_ Hr]. destruct (sy_shared y) as [s w]. by apply sends_effect.
Qed.

#[local] Existing Instance demo_Platform.
#[local] Existing Instance demo_BodyOrder.

(** Two heartbeats through one session: the second thread spins while the first sends. *)
Definition demo_beat : FixMessage * str := (demo_heartbeat, $"20160101-10:20:29").
Definition demo_senders : system (FixSession * World) (FixMessage * str) (FixMessage * str) :=
  let start := locked_start (SpinLock_new true) (demo_session, demo_world) in
  default start (locked_run send_body send_vars
    ([(0%nat, demo_beat); (1%nat, demo_beat); (0%nat, demo_beat); (1%nat, demo_beat)] ++
     repeat (0%nat, demo_beat) 4 ++ [(1%nat, demo_beat)] ++ repeat (0%nat, demo_beat) 3 ++ repeat (1%nat, demo_beat) 8) start).

Lemma demo_senders_reach : rtc (locked_step send_body send_vars) (locked_start (SpinLock_new true) (demo_session, demo_world)) demo_senders.
Proof.
  unfold demo_senders. destruct (locked_run _ _ _ _) as [y|] eqn:E; [by eapply locked_run_reach|apply rtc_refl].
Qed.

Lemma concurrent_sends_numbered_witness : length (sy_done demo_senders) = 2%nat ∧
  let '(s, w) := sy_shared demo_senders in
  ss_outgoingSequenceNumber s = ss_outgoingSequenceNumber demo_session + Z.of_nat (length (sy_done demo_senders)) ∧
  same_connection demo_session s demo_world w ∧
  ∃ texts, w_sent w = w_sent demo_world ++ texts ∧ length texts = length (sy_done demo_senders) ∧
    ∀ k op l, sy_done demo_senders !! k = Some (op, l) → ∃ x, texts !! k = Some x ∧
      numbered_text demo_session demo_world (ss_outgoingSequenceNumber demo_session + Z.of_nat k) op l x.
Proof.
  split; [vm_compute; reflexivity|].
  apply (concurrent_sends_numbered true demo_session demo_world demo_senders);
    [vm_compute; discriminate|exact demo_senders_reach|].
  intros [|[|t]]; vm_compute; intros H; exact H.
Defined.
