(* ===== verification/SessionLifetime.v ===== *)
(** * How long a session lives, and who holds a pointer to it

    [getSession] gives the thread that sends reports a plain pointer to a session. The
    lock that the thread then takes, [m_sessionLock], belongs to the session; the reactor
    takes it when a client leaves, but not when it gives the slot to a new client, which
    deletes the session. Here both threads are cut at their accesses to the tables, the
    locks and the sessions. Messages that the reactor handles in between leave the tables
    as they are and are left out; a send is one step ([SessionSharing.v] says why). *)
From Stdlib Require Import ZArith Lia Ascii String SpecFloat.
From stdpp Require Import base decidable sets list gmap strings relations.
From S2P Require Import Prelude.
From S2P Require Import MachineInt.
From S2P Require Import StringUtility.
From S2P Require Import DateTime.
From S2P Require Import SecurityManager.
From S2P Require Import Order.
From S2P Require Import CentralOrderBook.
From S2P Require Import FixConstants.
From S2P Require Import FixMessage.
From S2P Require Import SpinLock.
From S2P Require Import Network.
From S2P Require Import FixSession.
From S2P Require Import FixServerReactor.
From S2P Require Import OutgoingMessageProcessor.
From S2P Require Import SlotReuse.
Local Open Scope Z_scope.

(** Where the report thread is, in the body of its loop. *)
Inductive ReportThread : Type :=
  | RP_idle
  | RP_locking (message : OutgoingMessage) (session spins : Z)
  | RP_sending (message : OutgoingMessage) (session : Z)
  | RP_unlocking (session : Z).

(** Where the reactor's thread is: in [onClientDisconnected] of a slot ([RT_leaving] is the
    part that ends in [removeSession]); in [addPeer] and [addSession] for a connection that
    was accepted; or between [addSession] and [initialise] of [onClientConnected]. *)
Inductive ReactorThread : Type :=
  | RT_idle
  | RT_locking (slot : nat) (session spins : Z)
  | RT_leaving (slot : nat) (session : Z)
  | RT_unlocking (session : Z)
  | RT_connecting
  | RT_initialising (memory : str) (slot : nat) (session : Z).

(** [Sessions] owns the objects [sh_pointers], slot by slot; [sh_locks] has the objects
    that are alive, each with its [m_sessionLock], a null pointer before [initialise]. *)
Record Sharing : Type := mkSharing {
  sh_pointers : list Z;
  sh_locks : gmap Z (option SpinLock);
  sh_reactor : Reactor;
  sh_world : World;
  sh_processor : OutgoingMessageProcessor;
  sh_report : ReportThread;
  sh_thread : ReactorThread;
  sh_error : option ub
}.

Definition with_report (locks : gmap Z (option SpinLock)) (t : ReportThread) (x : Sharing) : Sharing :=
  mkSharing (sh_pointers x) locks (sh_reactor x) (sh_world x) (sh_processor x) t (sh_thread x) (sh_error x).
Definition with_thread (locks : gmap Z (option SpinLock)) (t : ReactorThread) (x : Sharing) : Sharing :=
  mkSharing (sh_pointers x) locks (sh_reactor x) (sh_world x) (sh_processor x) (sh_report x) t (sh_error x).
Definition with_tables (pointers : list Z) (r : Reactor) (w : World) (x : Sharing) : Sharing :=
  mkSharing pointers (sh_locks x) r w (sh_processor x) (sh_report x) (sh_thread x) (sh_error x).
Definition with_error (u : ub) (x : Sharing) : Sharing :=
  mkSharing (sh_pointers x) (sh_locks x) (sh_reactor x) (sh_world x) (sh_processor x) (sh_report x) (sh_thread x) (Some u).

(** [m_sessionLock] of the object [p]. *)
Definition session_lock (p : Z) (locks : gmap Z (option SpinLock)) : outcome SpinLock :=
  match locks !! p with
  | None => Undef UseAfterFree
  | Some None => Undef NullDeref
  | Some (Some lk) => Ok lk
  end.

(** A round of [session->lock()]: the locks after it and the counter to go on with. *)
Definition session_round (p spins : Z) (locks : gmap Z (option SpinLock)) : outcome (gmap Z (option SpinLock) * option Z) :=
  lk ← session_lock p locks;
  let '(lk, next) := SpinLock_lock_round spins lk in
  Ok (<[p := Some lk]> locks, next).

Definition session_unlock (p : Z) (locks : gmap Z (option SpinLock)) : outcome (gmap Z (option SpinLock)) :=
  lk ← session_lock p locks;
  Ok (<[p := Some (SpinLock_unlock lk)]> locks).

Section sharing.
Context `{!Platform} `{!BodyOrder} (COMPID nan_text : str) (sm : SecurityManager).

(** [onClientConnected] in two parts. *)
Definition connect_session (peerIndex : nat) (r : Reactor) (w : World) : outcome (Reactor * World) :=
  r ← TCPServerReactor_onClientConnected peerIndex r w;
  addSession FixSession_new r w.

Definition initialise_session (memory : str) (peerIndex : nat) (r : Reactor) : outcome Reactor :=
  session ← getSession peerIndex r;
  s ← session_of session r;
  peer ← vec_at (Z.of_nat peerIndex) (r_peerSockets r);
  Ok (set_session session (FixSession_initialise peer (r_timePrecision r) memory (setUsesExternalTcpConnectionManager true s)) r).

Lemma onClientConnected_parts memory peerIndex r w :
  onClientConnected memory peerIndex r w =
    ('(r, w) ← connect_session peerIndex r w; r ← initialise_session memory peerIndex r; Ok (r, w)).
Proof.
  unfold onClientConnected, connect_session, initialise_session.
  destruct (TCPServerReactor_onClientConnected _ _ _) as [r1| | |]; simpl; [|done..].
  destruct (addSession _ _ _) as [[r2 w2]| | |]; simpl; [|done..].
  destruct (getSession _ _) as [o| | |]; simpl; [|done..]. destruct (session_of _ _); simpl; [|done..].
  by destruct (vec_at _ _).
Qed.

(** The slot [addSession] takes. *)
Definition session_slot (r : Reactor) : nat := default (length (r_Sessions r)) (first_free (r_SessionFlags r)).

(** The pointer a thread holds, and whether it is between lock and unlock. *)
Definition report_holds (x : Sharing) : option (Z * bool) :=
  match sh_report x with
  | RP_idle => None
  | RP_locking _ p _ => Some (p, false)
  | RP_sending _ p | RP_unlocking p => Some (p, true)
  end.
Definition thread_holds (x : Sharing) : option (Z * bool) :=
  match sh_thread x with
  | RT_idle | RT_connecting | RT_initialising _ _ _ => None
  | RT_locking _ p _ => Some (p, false)
  | RT_leaving _ p | RT_unlocking p => Some (p, true)
  end.
Definition initialising (x : Sharing) : option Z :=
  match sh_thread x with RT_initialising _ _ q => Some q | _ => None end.

Definition message_slot (message : OutgoingMessage) : nat := Z.to_nat (m_sessionId (om_order message)).

(** The reactor's thread is writing to [Sessions] or [SessionFlags]: [emplace_back] and
    [push_back] can move the elements elsewhere, [reset] deletes one, and the flags of a
    [vector<bool>] share their words. No lock is held that the report thread takes before
    it reads them. *)
Definition writing_tables (x : Sharing) : bool :=
  match sh_thread x with RT_leaving _ _ | RT_connecting => true | _ => false end.

(** In a [polite] execution no session is deleted while the report thread holds a pointer
    to it, none is looked up before it is initialised, and none at all while the tables
    are written. The code does not see to that. *)
Context (polite : bool).

Definition may_replace (slot : nat) (x : Sharing) : Prop :=
  polite = true → ∀ p, fst <$> report_holds x = Some p → sh_pointers x !! slot ≠ Some p.
Definition may_look_up (slot : nat) (x : Sharing) : Prop :=
  polite = true → writing_tables x = false ∧ ∀ q, initialising x = Some q → sh_pointers x !! slot ≠ Some q.

(** A pointer that is followed is followed to what is there now. *)
Definition report_step (x : Sharing) (o : outcome Sharing) (x' : Sharing) : Prop :=
  match o with Ok y => x' = y | Undef u => x' = with_error u x | _ => False end.

Inductive sharing_step : Sharing → Sharing → Prop :=
  | sh_get x message p :
      sh_error x = None → sh_report x = RP_idle → may_look_up (message_slot message) x → writing_tables x = false →
      getSession (message_slot message) (sh_reactor x) = Ok (Some (message_slot message)) →
      sh_pointers x !! message_slot message = Some p →
      sharing_step x (with_report (sh_locks x) (RP_locking message p 0) x)
  | sh_get_race x message :
      sh_error x = None → sh_report x = RP_idle → may_look_up (message_slot message) x → writing_tables x = true →
      sharing_step x (with_error DataRace x)
  | sh_report_lock x message p n x' :
      sh_error x = None → sh_report x = RP_locking message p n →
      report_step x ('(locks, next) ← session_round p n (sh_locks x);
                     Ok (with_report locks (match next with Some j => RP_locking message p j
                                            | None => RP_sending message p end) x)) x' →
      sharing_step x x'
  | sh_send x message p i s proc s' w' :
      sh_error x = None → sh_report x = RP_sending message p → sh_pointers x !! i = Some p →
      r_Sessions (sh_reactor x) !! i = Some s →
      send_report COMPID nan_text sm (om_order message) (sh_processor x) s (sh_world x) = Ok (proc, s', w') →
      sharing_step x (mkSharing (sh_pointers x) (sh_locks x) (set_session (Some i) s' (sh_reactor x)) w' proc
                        (RP_unlocking p) (sh_thread x) None)
  | sh_send_dead x message p :
      sh_error x = None → sh_report x = RP_sending message p → sh_locks x !! p = None →
      sharing_step x (with_error UseAfterFree x)
  | sh_report_unlock x p x' :
      sh_error x = None → sh_report x = RP_unlocking p →
      report_step x (locks ← session_unlock p (sh_locks x); Ok (with_report locks RP_idle x)) x' →
      sharing_step x x'
  | sh_disconnect x i p :
      sh_error x = None → sh_thread x = RT_idle → getSession i (sh_reactor x) = Ok (Some i) →
      sh_pointers x !! i = Some p →
      sharing_step x (with_thread (sh_locks x) (RT_locking i p 0) x)
  | sh_thread_lock x i p n x' :
      sh_error x = None → sh_thread x = RT_locking i p n →
      report_step x ('(locks, next) ← session_round p n (sh_locks x);
                     Ok (with_thread locks (match next with Some j => RT_locking i p j | None => RT_leaving i p end) x)) x' →
      sharing_step x x'
  | sh_leave x i p r' w' :
      sh_error x = None → sh_thread x = RT_leaving i p →
      onClientDisconnected COMPID i (sh_reactor x) (sh_world x) = Ok (r', w') →
      sharing_step x (with_thread (sh_locks x) (RT_unlocking p) (with_tables (sh_pointers x) r' w' x))
  | sh_thread_unlock x p x' :
      sh_error x = None → sh_thread x = RT_unlocking p →
      report_step x (locks ← session_unlock p (sh_locks x); Ok (with_thread locks RT_idle x)) x' →
      sharing_step x x'
  | sh_accept x :
      sh_error x = None → sh_thread x = RT_idle → sharing_step x (with_thread (sh_locks x) RT_connecting x)
  | sh_connect x memory id sock q r1 w1 k r2 w2 :
      sh_error x = None → sh_thread x = RT_connecting → sh_locks x !! q = None → may_replace (session_slot (sh_reactor x)) x →
      addPeer id (sh_reactor x) (with_sockets (<[id := sock]> (w_sockets (sh_world x))) (sh_world x)) = Ok (r1, w1, k) →
      connect_session k r1 w1 = Ok (r2, w2) →
      let slot := session_slot (sh_reactor x) in
      let locks := match sh_pointers x !! slot with Some old => delete old (sh_locks x) | None => sh_locks x end in
      sharing_step x (with_thread (<[q := None]> locks) (RT_initialising memory k q)
                        (with_tables (list_put slot q (sh_pointers x)) r2 w2 x))
  | sh_initialise x memory k q r' :
      sh_error x = None → sh_thread x = RT_initialising memory k q →
      initialise_session memory k (sh_reactor x) = Ok r' →
      sharing_step x (with_thread (<[q := Some (SpinLock_new true)]> (sh_locks x)) RT_idle
                        (with_tables (sh_pointers x) r' (sh_world x) x)).
End sharing.

(** ** Without a replacement the locks do their work *)

Definition holder_ok (pointers : list Z) (locks : gmap Z (option SpinLock)) (h : option (Z * bool)) : Prop :=
  ∀ p b, h = Some (p, b) → p ∈ pointers ∧ ∃ lk, locks !! p = Some (Some lk) ∧ (b = true → m_flag lk = true).

Record sharing_inv (x : Sharing) : Prop := {
  si_error : sh_error x = None;
  si_nodup : NoDup (sh_pointers x);
  si_live : ∀ p, p ∈ sh_pointers x → is_Some (sh_locks x !! p);
  si_init : ∀ q, initialising x = Some q → sh_locks x !! q = Some None;
  si_null : ∀ p, p ∈ sh_pointers x → sh_locks x !! p = Some None → initialising x = Some p;
  si_report : holder_ok (sh_pointers x) (sh_locks x) (report_holds x);
  si_thread : holder_ok (sh_pointers x) (sh_locks x) (thread_holds x);
  si_exclusive : ∀ p, report_holds x = Some (p, true) → thread_holds x ≠ Some (p, true)
}.

Lemma holder_none pointers locks : holder_ok pointers locks None.
Proof. intros p b [=]. Qed.

(** A session that is alive and ready. *)
Lemma holder_new x p : sharing_inv x → p ∈ sh_pointers x → initialising x ≠ Some p →
  holder_ok (sh_pointers x) (sh_locks x) (Some (p, false)).
Proof.
  intros [] Hp Hi q b [= <- <-]. split; [done|]. destruct (si_live0 p Hp) as [[lk|] E]; [by exists lk|].
  destruct Hi. by apply si_null0.
Qed.

(** A round of a lock keeps what the other thread holds, and takes the lock only from
    nobody. *)
Lemma round_holders pointers p b n locks locks' next h :
  holder_ok pointers locks (Some (p, b)) → holder_ok pointers locks h → session_round p n locks = Ok (locks', next) →
  holder_ok pointers locks' (Some (p, match next with Some _ => false | None => true end)) ∧ holder_ok pointers locks' h ∧
  (next = None → h ≠ Some (p, true)) ∧ (∀ q, locks' !! q = Some None ↔ locks !! q = Some None) ∧
  (∀ q, is_Some (locks !! q) → is_Some (locks' !! q)).
Proof.
  intros Hp Hh. destruct (Hp p b eq_refl) as (Hin & lk & E & _). unfold session_round, session_lock. rewrite E.
  cbn [mbind outcome_bind]. destruct (SpinLock_lock_round n lk) as [lk' nx] eqn:Er. intros. simplify_eq.
  assert (Hup : m_flag lk = true → m_flag lk' = true).
  { destruct next; [by apply lock_round_spins in Er as ->|by apply lock_round_returns in Er as [_ ->]]. }
  split_and!.
  - intros q c [= <- <-]. split; [done|]. exists lk'. split; [apply lookup_insert_eq|]. destruct next; [done|].
    by apply lock_round_returns in Er as [_ ->].
  - intros q c Hq. destruct (Hh q c Hq) as (Hqi & lq & Eq & Hf). split; [done|].
    destruct (decide (q = p)) as [->|]; [|exists lq; by rewrite lookup_insert_ne].
    simplify_eq. exists lk'. split; [apply lookup_insert_eq|auto].
  - intros -> ->. apply lock_round_returns in Er as [Ef _]. destruct (Hh p true eq_refl) as (_ & lq & Eq & Hf).
    simplify_eq. rewrite Hf in Ef by done. done.
  - intros q. destruct (decide (q = p)) as [->|]; [rewrite lookup_insert_eq, E; by split|by rewrite lookup_insert_ne].
  - intros q Hq. destruct (decide (q = p)) as [->|]; [by rewrite lookup_insert_eq|by rewrite lookup_insert_ne].
Qed.

Lemma unlock_holders pointers p locks h :
  holder_ok pointers locks (Some (p, true)) → holder_ok pointers locks h → h ≠ Some (p, true) →
  ∃ locks', session_unlock p locks = Ok locks' ∧ holder_ok pointers locks' h ∧
    (∀ q, locks' !! q = Some None ↔ locks !! q = Some None) ∧ (∀ q, is_Some (locks !! q) → is_Some (locks' !! q)).
Proof.
  intros Hp Hh Hne. destruct (Hp p true eq_refl) as (Hin & lk & E & _). unfold session_unlock, session_lock. rewrite E.
  eexists. split; [reflexivity|]. split_and!.
  - intros q c Hq. destruct (Hh q c Hq) as (Hqi & lq & Eq & Hf). split; [done|].
    destruct (decide (q = p)) as [->|]; [|exists lq; by rewrite lookup_insert_ne].
    eexists. split; [apply lookup_insert_eq|]. intros ->. by destruct Hne.
  - intros q. destruct (decide (q = p)) as [->|]; [rewrite lookup_insert_eq, E; by split|by rewrite lookup_insert_ne].
  - intros q Hq. destruct (decide (q = p)) as [->|]; [by rewrite lookup_insert_eq|by rewrite lookup_insert_ne].
Qed.

(** A new object in a slot whose old object nobody holds. *)
Lemma replace_holder pointers locks slot q h : locks !! q = None → (∀ p, p ∈ pointers → is_Some (locks !! p)) →
  NoDup pointers → (∀ p, fst <$> h = Some p → pointers !! slot ≠ Some p) → holder_ok pointers locks h →
  holder_ok (list_put slot q pointers)
    (<[q := None]> (match pointers !! slot with Some old => delete old locks | None => locks end)) h.
Proof.
  intros Hq Hlive Hnd Hne Hh p b E. destruct (Hh p b E) as (Hin & lk & El & Hf).
  assert (pointers !! slot ≠ Some p) as Hs by (apply Hne; by rewrite E).
  assert (p ≠ q) as Hpq by congruence. split.
  - apply list_elem_of_lookup in Hin as [j Hj]. assert (j ≠ slot) by congruence.
    apply list_elem_of_lookup. exists j. unfold list_put. case_decide; [by rewrite list_lookup_insert_ne|].
    rewrite lookup_app_l by (by eapply lookup_lt_Some). done.
  - exists lk. split; [|done]. rewrite lookup_insert_ne by done. case_match; [|done]. rewrite lookup_delete_ne; congruence.
Qed.

Lemma list_put_elem {A} slot (q p : A) l : p ∈ list_put slot q l → p = q ∨ p ∈ l ∧ (NoDup l → l !! slot ≠ Some p).
Proof.
  unfold list_put. case_decide as Hlt.
  - intros [j Hj]%list_elem_of_lookup. destruct (decide (j = slot)) as [->|].
    + rewrite list_lookup_insert_eq in Hj by done. left. congruence.
    + rewrite list_lookup_insert_ne in Hj by done. right. split; [by eapply list_elem_of_lookup_2|].
      intros Hnd Hs. by destruct (NoDup_lookup l j slot p Hnd Hj Hs).
  - rewrite elem_of_app, list_elem_of_singleton. intros [Hp| ->]; [|by left]. right. split; [done|].
    rewrite lookup_ge_None_2 by lia. done.
Qed.

Lemma list_put_NoDup {A} slot (q : A) l : q ∉ l → NoDup l → NoDup (list_put slot q l).
Proof.
  intros Hq Hnd. unfold list_put. case_decide.
  - apply NoDup_alt. intros i j x Hi Hj. destruct (decide (i = slot)) as [->|], (decide (j = slot)) as [->|]; [done|..].
    + rewrite list_lookup_insert_eq in Hi by done. rewrite list_lookup_insert_ne in Hj by done. simplify_eq.
      destruct Hq. by eapply list_elem_of_lookup_2.
    + rewrite list_lookup_insert_eq in Hj by done. rewrite list_lookup_insert_ne in Hi by done. simplify_eq.
      destruct Hq. by eapply list_elem_of_lookup_2.
    + rewrite list_lookup_insert_ne in Hi, Hj by done. by eapply NoDup_lookup.
  - apply NoDup_app. split_and!; [done| |apply NoDup_singleton]. intros x Hx ->%list_elem_of_singleton. done.
Qed.

Section polite.
Context `{!Platform} `{!BodyOrder} (COMPID nan_text : str) (sm : SecurityManager).

(** The locks changed, the objects did not. *)
Lemma inv_locks x locks report thread :
  sharing_inv x → initialising (with_thread locks thread x) = initialising x →
  (∀ q, locks !! q = Some None ↔ sh_locks x !! q = Some None) →
  (∀ q, is_Some (sh_locks x !! q) → is_Some (locks !! q)) →
  let y := with_report locks report (with_thread locks thread x) in
  holder_ok (sh_pointers x) locks (report_holds y) → holder_ok (sh_pointers x) locks (thread_holds y) →
  (∀ p, report_holds y = Some (p, true) → thread_holds y ≠ Some (p, true)) → sharing_inv y.
Proof.
  intros [] Hi Hnull Hlive y Hr Ht Hx. split; try done.
  - intros p Hp. by apply Hlive, si_live0.
  - intros q Hq. apply Hnull, si_init0. rewrite <- Hi. exact Hq.
  - intros p Hp E. simpl in E. apply Hnull in E. rewrite <- Hi in si_null0. by apply si_null0.
Qed.

(** The session and the world changed. *)
Lemma inv_tables x r w proc :
  sharing_inv x → sharing_inv (mkSharing (sh_pointers x) (sh_locks x) r w proc (sh_report x) (sh_thread x) (sh_error x)).
Proof. intros []. by split. Qed.

Lemma report_lock_inv x message p n x' : sharing_inv x → sh_report x = RP_locking message p n →
  report_step x ('(locks, next) ← session_round p n (sh_locks x);
                 Ok (with_report locks (match next with Some j => RP_locking message p j
                                        | None => RP_sending message p end) x)) x' → sharing_inv x'.
Proof.
  intros Hinv Er R. pose proof (si_report _ Hinv) as Hp. unfold report_holds in Hp. rewrite Er in Hp.
  destruct (session_round p n (sh_locks x)) as [[locks next]| | |] eqn:E; simpl in R; try done.
  - subst. destruct (round_holders _ _ _ _ _ _ _ _ Hp (si_thread _ Hinv) E) as (H1 & H2 & H3 & H4 & H5).
    apply (inv_locks x locks _ (sh_thread x) Hinv eq_refl H4 H5).
    + unfold report_holds. simpl. by destruct next.
    + exact H2.
    + intros q Eq. unfold report_holds in Eq. simpl in Eq. destruct next; [done|]. simplify_eq. by apply H3.
  - destruct (Hp _ _ eq_refl) as (_ & lk & El & _). unfold session_round, session_lock in E. rewrite El in E.
    cbn [mbind outcome_bind] in E. by destruct (SpinLock_lock_round _ _).
Qed.

Lemma thread_lock_inv x i p n x' : sharing_inv x → sh_thread x = RT_locking i p n →
  report_step x ('(locks, next) ← session_round p n (sh_locks x);
                 Ok (with_thread locks (match next with Some j => RT_locking i p j | None => RT_leaving i p end) x)) x' →
  sharing_inv x'.
Proof.
  intros Hinv Er R. pose proof (si_thread _ Hinv) as Hp. unfold thread_holds in Hp. rewrite Er in Hp.
  destruct (session_round p n (sh_locks x)) as [[locks next]| | |] eqn:E; simpl in R; try done.
  - subst. destruct (round_holders _ _ _ _ _ _ _ _ Hp (si_report _ Hinv) E) as (H1 & H2 & H3 & H4 & H5).
    apply (inv_locks x locks (sh_report x) _ Hinv); try done.
    + unfold initialising. simpl. rewrite Er. by destruct next.
    + unfold thread_holds. simpl. by destruct next.
    + intros q Eq E'. unfold thread_holds in E'. simpl in E'. destruct next; [done|]. simplify_eq. by apply H3.
  - destruct (Hp _ _ eq_refl) as (_ & lk & El & _). unfold session_round, session_lock in E. rewrite El in E.
    cbn [mbind outcome_bind] in E. by destruct (SpinLock_lock_round _ _).
Qed.

Lemma unlock_inv_report x p x' : sharing_inv x → sh_report x = RP_unlocking p →
  report_step x (locks ← session_unlock p (sh_locks x); Ok (with_report locks RP_idle x)) x' → sharing_inv x'.
Proof.
  intros Hinv Er R. pose proof (si_report _ Hinv) as Hp. unfold report_holds in Hp. rewrite Er in Hp.
  destruct (unlock_holders _ _ _ (thread_holds x) Hp (si_thread _ Hinv)) as (locks & E & H1 & H2 & H3).
  { apply (si_exclusive _ Hinv). unfold report_holds. by rewrite Er. }
  rewrite E in R. simpl in R. subst. apply (inv_locks x locks RP_idle (sh_thread x) Hinv eq_refl H2 H3); try done.
Qed.

Lemma unlock_inv_thread x p x' : sharing_inv x → sh_thread x = RT_unlocking p →
  report_step x (locks ← session_unlock p (sh_locks x); Ok (with_thread locks RT_idle x)) x' → sharing_inv x'.
Proof.
  intros Hinv Er R. pose proof (si_thread _ Hinv) as Hp. unfold thread_holds in Hp. rewrite Er in Hp.
  destruct (unlock_holders _ _ _ (report_holds x) Hp (si_report _ Hinv)) as (locks & E & H1 & H2 & H3).
  { intros Eq. apply (si_exclusive _ Hinv _ Eq). unfold thread_holds. by rewrite Er. }
  rewrite E in R. simpl in R. subst. apply (inv_locks x locks (sh_report x) RT_idle Hinv); try done.
  unfold initialising. by rewrite Er.
Qed.

Lemma connect_inv x q memory k r w : sharing_inv x → sh_thread x = RT_connecting → sh_locks x !! q = None →
  may_replace true (session_slot (sh_reactor x)) x →
  let slot := session_slot (sh_reactor x) in
  let locks := match sh_pointers x !! slot with Some old => delete old (sh_locks x) | None => sh_locks x end in
  sharing_inv (with_thread (<[q := None]> locks) (RT_initialising memory k q)
                 (with_tables (list_put slot q (sh_pointers x)) r w x)).
Proof.
  intros [] Et Hq Hmay slot locks. assert (q ∉ sh_pointers x) as Hqn by (intros [? ?]%si_live0; congruence).
  assert (∀ p, p ∈ list_put slot q (sh_pointers x) → p ≠ q → is_Some (sh_locks x !! p) ∧ p ∈ sh_pointers x ∧ locks !! p = sh_locks x !! p) as Hput.
  { intros p [->|[Hp Hs]]%list_put_elem Hne; [done|]. specialize (Hs si_nodup0). split; [by apply si_live0|].
    split; [done|]. unfold locks. case_match; [|done]. rewrite lookup_delete_ne; [done|congruence]. }
  split; simpl; try done.
  - by apply list_put_NoDup.
  - intros p Hp. destruct (decide (p = q)) as [->|Hne]; [by rewrite lookup_insert_eq|].
    rewrite lookup_insert_ne by done. destruct (Hput p Hp Hne) as (H1 & _ & ->). exact H1.
  - intros p [= <-]. apply lookup_insert_eq.
  - intros p Hp. destruct (decide (p = q)) as [->|Hne]; [done|]. rewrite lookup_insert_ne by done.
    destruct (Hput p Hp Hne) as (_ & H1 & ->). intros E. apply si_null0 in E; [|done]. unfold initialising in E.
    by rewrite Et in E.
  - apply replace_holder; try done. by apply Hmay.
Qed.

Lemma initialise_inv x q memory k r : sharing_inv x → sh_thread x = RT_initialising memory k q →
  sharing_inv (with_thread (<[q := Some (SpinLock_new true)]> (sh_locks x)) RT_idle (with_tables (sh_pointers x) r (sh_world x) x)).
Proof.
  intros [] Et. split; simpl; try done.
  - intros p Hp. destruct (decide (p = q)) as [->|]; [by rewrite lookup_insert_eq|]. rewrite lookup_insert_ne by done. by apply si_live0.
  - intros p Hp. destruct (decide (p = q)) as [->|Hne]; [by rewrite lookup_insert_eq|]. rewrite lookup_insert_ne by done.
    intros E. apply si_null0 in E; [|done]. unfold initialising in E. rewrite Et in E. congruence.
  - intros p b E. destruct (si_report0 p b E) as (H1 & lk & H2 & H3). split; [done|].
    assert (p ≠ q) as Hne by (intros ->; rewrite si_init0 in H2; [done|unfold initialising; by rewrite Et]).
    exists lk. by rewrite lookup_insert_ne.
Qed.

Lemma sharing_step_inv x x' : sharing_inv x → sharing_step COMPID nan_text sm true x x' → sharing_inv x'.
Proof.
  intros Hinv Hs. destruct Hs as [x message p He Hr Hm Hw Hg Hp|x message He Hr Hm Hw|x message p n x' He Hr R|x message p i s proc s' w' He Hr Hp Hss Hsend
    |x message p He Hr Hd|x p x' He Hr R|x i p He Ht Hg Hp|x i p n x' He Ht R|x i p r' w' He Ht R|x p x' He Ht R
    |x He Ht|x memory id sock q r1 w1 k r2 w2 He Ht Hq Hm E1 E2|x memory k q r' He Ht R].
  - apply (inv_locks x (sh_locks x) _ (sh_thread x) Hinv eq_refl); try done; [|apply Hinv].
    apply (holder_new x p Hinv); [by eapply list_elem_of_lookup_2|]. intros Hi. by apply (proj2 (Hm eq_refl) p Hi).
  - destruct (Hm eq_refl) as [Hw' _]. congruence.
  - by eapply report_lock_inv.
  - pose proof (inv_tables x (set_session (Some i) s' (sh_reactor x)) w' proc Hinv) as Hinv1.
    pose proof (si_report _ Hinv) as Hh. unfold report_holds in Hh. rewrite Hr in Hh.
    pose proof (inv_locks _ (sh_locks x) (RP_unlocking p) (sh_thread x) Hinv1 eq_refl) as H1.
    rewrite <- He. apply H1; try done; [apply Hinv|]. intros q [= <-]. apply (si_exclusive _ Hinv). unfold report_holds. by rewrite Hr.
  - pose proof (si_report _ Hinv) as Hh. unfold report_holds in Hh. rewrite Hr in Hh.
    destruct (Hh _ _ eq_refl) as (_ & lk & El & _). congruence.
  - by eapply unlock_inv_report.
  - apply (inv_locks x (sh_locks x) (sh_report x) _ Hinv); try done.
    + unfold initialising. by rewrite Ht.
    + apply Hinv.
    + apply (holder_new x p Hinv); [by eapply list_elem_of_lookup_2|]. unfold initialising. by rewrite Ht.
  - by eapply thread_lock_inv.
  - pose proof (inv_tables x r' w' (sh_processor x) Hinv) as Hinv1.
    pose proof (si_thread _ Hinv) as Hh. unfold thread_holds in Hh. rewrite Ht in Hh.
    apply (inv_locks _ (sh_locks x) (sh_report x) (RT_unlocking p) Hinv1); try done.
    + unfold initialising. simpl. by rewrite Ht.
    + apply Hinv.
    + intros q Eq [= <-]. apply (si_exclusive _ Hinv p Eq). unfold thread_holds. by rewrite Ht.
  - by eapply unlock_inv_thread.
  - apply (inv_locks x (sh_locks x) (sh_report x) RT_connecting Hinv); try done.
    + unfold initialising. by rewrite Ht.
    + apply Hinv.
  - by apply connect_inv.
  - by eapply initialise_inv.
Qed.
End polite.

(** Before the first connection. *)
Definition sharing_start (size : Z) (validation : bool) (precision : Subseconds) (w : World) (p : OutgoingMessageProcessor) : Sharing :=
  mkSharing [] ∅ (FixServerReactor_initialise size validation precision) w p RP_idle RT_idle None.

Lemma sharing_start_inv size validation precision w p : sharing_inv (sharing_start size validation precision w p).
Proof. split; simpl; try done; [apply NoDup_nil_2|intros q Hq; by apply elem_of_nil in Hq|..]; apply holder_none. Qed.


(** ** The code replaces it *)

Section race.
Context `{!Platform} `{!BodyOrder} (COMPID nan_text : str) (sm : SecurityManager).

(** The client in slot [i] can be replaced: its session is the object [p], its lock is
    free, and the slots before are taken; [id] and [q] are new objects. *)
Record replaceable (x : Sharing) (i : nat) (p id q : Z) : Prop := {
  re_error : sh_error x = None;
  re_thread : sh_thread x = RT_idle;
  re_reactor : reactor_inv (sh_reactor x) (sh_world x);
  re_used : r_SessionFlags (sh_reactor x) !! i = Some true;
  re_before : ∀ j, (j < i)%nat → r_SessionFlags (sh_reactor x) !! j = Some true;
  re_pointer : sh_pointers x !! i = Some p;
  re_lock : ∃ junk, sh_locks x !! p = Some (Some (SpinLock_new junk));
  re_id : w_sockets (sh_world x) !! id = None;
  re_q : sh_locks x !! q = None
}.

Lemma getSession_used i r : r_SessionFlags r !! i = Some true → getSession i r = Ok (Some i).
Proof. intros E. unfold getSession. by rewrite (vec_at_nat _ _ _ E). Qed.

(** The client leaves and another one comes, up to the middle of [onClientConnected]. *)
Lemma replace_run x i p id q (sock : Socket) (memory : str) : replaceable x i p id q →
  ∃ y, rtc (sharing_step COMPID nan_text sm false) x y ∧ sh_error y = None ∧ sh_report y = sh_report x ∧
    sh_thread y = RT_initialising memory i q ∧ sh_pointers y !! i = Some q ∧ sh_locks y !! p = None ∧
    sh_locks y !! q = Some None ∧ getSession i (sh_reactor y) = Ok (Some i).
Proof.
  intros [He Ht Hinv Hused Hbefore Hp [junk Hlk] Hid Hq]. set (r := sh_reactor x) in *. set (w := sh_world x) in *.
  destruct (reactor_inv_slot r w i Hinv Hused) as (s0 & id0 & sock0 & Hs0 & Hid0 & Hsock0 & _).
  set (r1 := disconnected_reactor i sock0 r). set (w1 := disconnected_world COMPID s0 id0 sock0 w).
  pose proof (disconnected_inv COMPID r w i s0 id0 sock0 Hinv Hsock0) as Hinv1. fold r1 w1 in Hinv1.
  assert (i < length (r_SessionFlags r))%nat as Hi by (by eapply lookup_lt_Some).
  assert (first_free (r_SessionFlags r1) = Some i) as Hfree by (by apply first_free_at).
  assert (session_slot r1 = i) as Hslot by (unfold session_slot; by rewrite Hfree).
  assert (w_sockets w1 !! id = None) as Hid1 by (simpl; rewrite lookup_insert_ne; [done|intros ->; congruence]).
  destruct (acceptNewConnection_spec memory r1 w1 id sock Hinv1 Hid1) as (w4 & Ea & _).
  destruct (addPeer_spec r1 w1 id sock Hinv1 Hid1) as (wp & Ep & _).
  assert (next_slot r1 = i) as Hns by (unfold next_slot; by rewrite <- (ri_flags _ _ Hinv1), Hfree).
  unfold acceptNewConnection in Ea. rewrite Ep in Ea. cbn [mbind outcome_bind] in Ea. rewrite onClientConnected_parts, Hns in Ea. rewrite Hns in Ep.
  apply bind_Ok_inv in Ea as ([r2 w2] & Ec & Ea). apply bind_Ok_inv in Ea as (r3 & Ei & _).
  set (lk := mkSpinLock true DEFAULT_SPIN_COUNT true).
  set (locks1 := <[p := Some lk]> (sh_locks x)). set (locks2 := <[p := Some (SpinLock_unlock lk)]> locks1).
  set (y := with_thread locks2 RT_idle (with_tables (sh_pointers x) r1 w1 x)).
  assert (sh_locks y !! q = None) as Hqy.
  { assert (q ≠ p) by congruence. simpl. unfold locks2, locks1. by rewrite !lookup_insert_ne. }
  exists (with_thread (<[q := None]> (match sh_pointers y !! session_slot (sh_reactor y) with
                                        | Some old => delete old (sh_locks y) | None => sh_locks y end))
            (RT_initialising memory i q) (with_tables (list_put (session_slot (sh_reactor y)) q (sh_pointers y)) r2 w2 y)).
  split.
  - eapply rtc_l; [by apply (sh_disconnect _ _ _ _ x i p), Hp; [..|by apply getSession_used]|].
    eapply rtc_l; [eapply (sh_thread_lock _ _ _ _ _ i p 0); [done|done|]|].
    { simpl. unfold session_round, session_lock. rewrite Hlk. cbn [mbind outcome_bind]. reflexivity. }
    eapply rtc_l; [by apply (sh_leave _ _ _ _ _ i p r1 w1), onClientDisconnected_spec|].
    eapply rtc_l; [eapply (sh_thread_unlock _ _ _ _ _ p); [done|done|]|].
    { simpl. unfold session_unlock, session_lock. fold locks1. unfold locks1 at 1. rewrite lookup_insert_eq. reflexivity. }
    eapply rtc_l; [by apply (sh_accept _ _ _ _ y)|].
    apply rtc_once. by eapply (sh_connect _ _ _ _ (with_thread (sh_locks y) RT_connecting y) memory id sock q).
  - split; [done|]. split; [done|]. split; [done|]. simpl sh_pointers. simpl sh_locks. simpl sh_reactor. rewrite Hslot, Hp.
    assert (p ≠ q) by congruence. assert (i < length (sh_pointers x))%nat by (by eapply lookup_lt_Some).
    split; [by rewrite list_put_lookup, decide_True by lia|]. split; [by rewrite lookup_insert_ne, lookup_delete_eq|].
    split; [apply lookup_insert_eq|]. unfold initialise_session in Ei. apply bind_Ok_inv in Ei as (o & Eg & Ei).
    rewrite Eg. destruct o as [o|]; [|done]. unfold getSession in Eg. apply bind_Ok_inv in Eg as (b & _ & Eg). by destruct b; simplify_eq.
Qed.
End race.

(** C17: The report thread can follow a pointer to a session that is gone, or not there yet.
    Whenever a client with a report to come can be replaced by another one, there is an
    execution in which the report thread gets the pointer, the client leaves, its slot is
    given to the next one and the report thread takes the lock of the deleted session;
    and one in which it takes the lock of the new session before that has one. *)
Theorem report_thread_races `{!Platform} `{!BodyOrder} (COMPID nan_text : str) (sm : SecurityManager)
    (x : Sharing) (message : OutgoingMessage) (p id q : Z)
    (Hidle : sh_report x = RP_idle) (Hreplace : replaceable x (message_slot message) p id q) :
  (∃ y, rtc (sharing_step COMPID nan_text sm false) x y ∧ sh_error y = Some UseAfterFree) ∧
  (∃ y, rtc (sharing_step COMPID nan_text sm false) x y ∧ sh_error y = Some NullDeref).
Proof.
  set (sock := mkSocket 0 SOCKET_CONNECTED). pose proof Hreplace as [He Ht Hinv Hused Hbefore Hp Hlk Hid Hq]. split.
  - set (x1 := with_report (sh_locks x) (RP_locking message p 0) x).
    destruct (replace_run COMPID nan_text sm x1 (message_slot message) p id q sock []) as (y & Hr & Ey & Er & _ & _ & Ed & _);
      [by split|].
    exists (with_error UseAfterFree y). split; [|done]. eapply rtc_l; [by apply (sh_get _ _ _ _ x message p), Hp; [..|unfold writing_tables; by rewrite Ht|by apply getSession_used]|].
    eapply rtc_r; [exact Hr|]. eapply (sh_report_lock _ _ _ _ y message p 0); [done|by rewrite Er|].
    unfold session_round, session_lock. by rewrite Ed.
  - destruct (replace_run COMPID nan_text sm x (message_slot message) p id q sock [] Hreplace)
      as (y & Hr & Ey & Er & Ety & Epq & _ & Eq & Eg).
    exists (with_error NullDeref (with_report (sh_locks y) (RP_locking message q 0) y)). split; [|done].
    eapply rtc_r; [eapply rtc_r; [exact Hr|]|].
    + apply (sh_get _ _ _ _ y message q); [done|by rewrite Er|done|by unfold writing_tables; rewrite Ety|done|done].
    + eapply (sh_report_lock _ _ _ _ _ message q 0); [done|done|]. unfold session_round, session_lock. simpl. by rewrite Eq.
Qed.

(** The look-up itself races: from any state in which neither thread is at work, the next
    connection can be accepted and the report thread can look up a session while the
    tables are moved. *)
Theorem lookup_races `{!Platform} `{!BodyOrder} (COMPID nan_text : str) (sm : SecurityManager) (x : Sharing) (message : OutgoingMessage)
    (Herror : sh_error x = None) (Hidle : sh_report x = RP_idle ∧ sh_thread x = RT_idle) :
  ∃ y, rtc (sharing_step COMPID nan_text sm false) x y ∧ sh_error y = Some DataRace.
Proof.
  destruct Hidle as [Hr Ht]. exists (with_error DataRace (with_thread (sh_locks x) RT_connecting x)). split; [|done].
  eapply rtc_l; [by apply sh_accept|]. apply rtc_once. by apply (sh_get_race _ _ _ _ _ message).
Qed.

(** ** One client, in the first slot *)

#[local] Existing Instance demo_Platform.
#[local] Existing Instance demo_BodyOrder.

Definition demo_accepted : Reactor * World :=
  match acceptNewConnection [] (Some (5, mkSocket 7 SOCKET_CONNECTED)) demo_reactor demo_world with
  | Ok x => x
  | _ => (demo_reactor, demo_world)
  end.

Lemma demo_accepted_inv : reactor_inv demo_accepted.1 demo_accepted.2.
Proof.
  destruct (acceptNewConnection_spec [] demo_reactor demo_world 5 (mkSocket 7 SOCKET_CONNECTED)) as (w' & E & Hid & Hold);
    [apply reactor_initial_inv|vm_compute; reflexivity|].
  unfold demo_accepted. rewrite E. apply (accepted_inv [] demo_reactor demo_world); [apply reactor_initial_inv|vm_compute; reflexivity|exact Hid|exact Hold].
Qed.

Definition demo_sharing : Sharing :=
  mkSharing [100] {[ 100 := Some (SpinLock_new true) ]} demo_accepted.1 demo_accepted.2 demo_processor RP_idle RT_idle None.
Definition demo_locked : Sharing :=
  with_report {[ 100 := Some (mkSpinLock true DEFAULT_SPIN_COUNT true) ]} (RP_sending demo_fill 100) demo_sharing.

(** The client connects, and the report thread takes the lock of its session. *)
Lemma demo_sharing_run :
  rtc (sharing_step ($"EXECUTOR") ($"nan") demo_sm true) (sharing_start 0 true MICROSECONDS demo_world demo_processor) demo_locked.
Proof.
  eapply rtc_l; [by apply sh_accept|].
  eapply rtc_l.
  { eapply (sh_connect _ _ _ _ _ [] 5 (mkSocket 7 SOCKET_CONNECTED) 100); [done|done|done|done|vm_compute; reflexivity|vm_compute; reflexivity]. }
  eapply rtc_l; [eapply sh_initialise; [done|done|vm_compute; reflexivity]|].
  eapply rtc_l; [eapply (sh_get _ _ _ _ _ demo_fill 100); [done|done|done|done|vm_compute; reflexivity|vm_compute; reflexivity]|].
  apply rtc_once. eapply sh_report_lock; [done|done|]. vm_compute. reflexivity.
Qed.


Lemma report_thread_races_witness :
  (∃ y, rtc (sharing_step ($"EXECUTOR") ($"nan") demo_sm false) demo_sharing y ∧ sh_error y = Some UseAfterFree) ∧
  (∃ y, rtc (sharing_step ($"EXECUTOR") ($"nan") demo_sm false) demo_sharing y ∧ sh_error y = Some NullDeref).
Proof.
  apply (report_thread_races _ _ _ demo_sharing demo_fill 100 6 101); [reflexivity|].
  split; try (vm_compute; reflexivity); [apply demo_accepted_inv|intros j Hj; vm_compute in Hj; lia|exists true; vm_compute; reflexivity].
Defined.
