(* ===== verification/SingleInstance.v ===== *)
(** * [core/single_instance.cpp] and its use in [main.cpp]

    The lock file that keeps a second server from starting. The file system, with its
    inodes, descriptors and record locks, is an interface: its operations are those the
    code calls, and [LockingLaws] is what POSIX documents of them. The processes that
    start, lock, leave and die are a step relation: opening the file and locking it are two
    steps, as they are two system calls, and so are removing the file's name in the
    destructor and the end of the process. *)
From Stdlib Require Import ZArith Lia Ascii String.
From stdpp Require Import base decidable list gmap relations.
From S2P Require Import Prelude.
From S2P Require Import MachineInt.
From S2P Require Import StringUtility.
Local Open Scope Z_scope.

(** ** The file system *)

Class LockingFileSystem (FS : Type) : Type := {
  os_open : Z → str → FS → FS * Z;      (** [open(path, O_RDWR | O_CREAT, 0600)] of a process *)
  os_lock : Z → Z → FS → FS * Z;        (** [fcntl(fd, F_SETLK, ...)], a write lock of the whole file *)
  os_unlink : str → FS → FS;            (** [unlink] *)
  os_exit : Z → FS → FS                 (** the end of a process *)
}.

(** What the calls do to the names of files, the open descriptors and the locks. *)
Class LockingLaws (FS : Type) `{LockingFileSystem FS} : Type := {
  file_at : FS → str → option Z;        (** the inode of a path *)
  descriptor : FS → Z → Z → option Z;   (** the inode of a process's descriptor *)
  lock_holder : FS → Z → option Z;      (** the process that has an inode locked *)
  descriptor_valid fs pid fd i : descriptor fs pid fd = Some i → 0 <= fd;
  open_names fs pid path fs' fd : os_open pid path fs = (fs', fd) → 0 <= fd →
    ∃ i, file_at fs' path = Some i ∧ descriptor fs' pid fd = Some i ∧
      (file_at fs path = Some i ∨
       file_at fs path = None ∧ lock_holder fs i = None ∧ ∀ p f, descriptor fs p f ≠ Some i);
  open_keeps fs pid path fs' fd : os_open pid path fs = (fs', fd) →
    (∀ i, lock_holder fs' i = lock_holder fs i) ∧
    (∀ p f, p ≠ pid → descriptor fs' p f = descriptor fs p f) ∧
    (fd < 0 → (∀ path', file_at fs' path' = file_at fs path') ∧ ∀ f, descriptor fs' pid f = descriptor fs pid f);
  open_keeps_name fs pid path fs' fd i : os_open pid path fs = (fs', fd) →
    file_at fs path = Some i → file_at fs' path = Some i;
  lock_keeps fs pid fd fs' result : os_lock pid fd fs = (fs', result) →
    (∀ path, file_at fs' path = file_at fs path) ∧ (∀ p f, descriptor fs' p f = descriptor fs p f) ∧
    (result < 0 → ∀ i, lock_holder fs' i = lock_holder fs i);
  lock_excludes fs pid fd fs' result : os_lock pid fd fs = (fs', result) → 0 <= result →
    ∃ i, descriptor fs pid fd = Some i ∧ (lock_holder fs i = None ∨ lock_holder fs i = Some pid) ∧
      lock_holder fs' i = Some pid ∧ ∀ j, j ≠ i → lock_holder fs' j = lock_holder fs j;
  lock_granted fs pid fd i : descriptor fs pid fd = Some i → lock_holder fs i = None →
    0 <= (os_lock pid fd fs).2;
  unlink_keeps fs path :
    file_at (os_unlink path fs) path = None ∧
    (∀ p f, descriptor (os_unlink path fs) p f = descriptor fs p f) ∧
    (∀ i, lock_holder (os_unlink path fs) i = lock_holder fs i);
  exit_releases fs pid :
    (∀ path, file_at (os_exit pid fs) path = file_at fs path) ∧
    (∀ p f, p ≠ pid → descriptor (os_exit pid fs) p f = descriptor fs p f) ∧
    (∀ i, lock_holder (os_exit pid fs) i =
          if bool_decide (lock_holder fs i = Some pid) then None else lock_holder fs i)
}.

(** ** The class *)

Definition SINGLE_INSTANCE_LOCK : str := $"single_instance_lock".

Record SingleInstance : Type := mkSingleInstance { m_fd : Z; m_filePath : str }.

Definition SingleInstance_new : SingleInstance := mkSingleInstance 0 [].

Section class.
Context {FS : Type} `{LockingFileSystem FS}.

(** The path of the lock file: [HOME] is null when the environment does not have it. *)
Definition lock_path (home : option str) : outcome str :=
  match home with
  | Some home => format ($"%s/%s") [FStr home; FStr SINGLE_INSTANCE_LOCK]
  | None => Undef NullDeref
  end.

(** [operator()], up to the call of [open] and from there. *)
Definition SingleInstance_open (home : option str) (pid : Z) (fs : FS) : outcome (SingleInstance * FS) :=
  path ← lock_path home;
  let '(fs', fd) := os_open pid path fs in
  Ok (mkSingleInstance fd path, fs').
Definition SingleInstance_lock (pid : Z) (s : SingleInstance) (fs : FS) : bool * FS :=
  let '(fs', result) := os_lock pid (m_fd s) fs in
  (if result <? 0 then false else true, fs').
Definition SingleInstance_call (home : option str) (pid : Z) (fs : FS) : outcome (bool * SingleInstance * FS) :=
  '(s, fs) ← SingleInstance_open home pid fs;
  let '(locked, fs) := SingleInstance_lock pid s fs in
  Ok (locked, s, fs).

Definition SingleInstance_destroy (s : SingleInstance) (fs : FS) : FS :=
  if 0 <? m_fd s then os_unlink (m_filePath s) fs else fs.

(** ** Processes *)

(** Where a process is: between the two calls, past the test in [main], or past the
    destructor at the end of [main]. *)
Inductive Instance : Type :=
  | Opening (s : SingleInstance)
  | Running (s : SingleInstance)
  | Leaving (s : SingleInstance).

Record Machine : Type := mkMachine { mc_files : FS; mc_instances : gmap Z Instance }.

(** The steps of the processes of one user. A process that is refused the lock exits by
    [onError], which runs no destructor, and so does one that is killed or ends by
    [onError] later. With [apart], no process ends its [main] while another is between
    its two calls. *)
Inductive instance_step (home : option str) (apart : bool) (x : Machine) : Machine → Prop :=
  | step_open pid s fs' :
      mc_instances x !! pid = None →
      SingleInstance_open home pid (mc_files x) = Ok (s, fs') →
      instance_step home apart x (mkMachine fs' (<[pid := Opening s]> (mc_instances x)))
  | step_locked pid s fs' :
      mc_instances x !! pid = Some (Opening s) →
      SingleInstance_lock pid s (mc_files x) = (true, fs') →
      instance_step home apart x (mkMachine fs' (<[pid := Running s]> (mc_instances x)))
  | step_refused pid s fs' :
      mc_instances x !! pid = Some (Opening s) →
      SingleInstance_lock pid s (mc_files x) = (false, fs') →
      instance_step home apart x (mkMachine (os_exit pid fs') (delete pid (mc_instances x)))
  | step_leave pid s :
      mc_instances x !! pid = Some (Running s) →
      (apart = true → ∀ p s', mc_instances x !! p ≠ Some (Opening s')) →
      instance_step home apart x
        (mkMachine (SingleInstance_destroy s (mc_files x)) (<[pid := Leaving s]> (mc_instances x)))
  | step_end pid i :
      mc_instances x !! pid = Some i →
      instance_step home apart x (mkMachine (os_exit pid (mc_files x)) (delete pid (mc_instances x))).

Definition runs (x : Machine) (pid : Z) : Prop := ∃ s, mc_instances x !! pid = Some (Running s).

Definition machine_start (fs : FS) : Machine := mkMachine fs ∅.
End class.
Arguments Machine FS : clear implicits.

(** * Lemmas *)

Section laws.
Context {FS : Type} `{L : LockingLaws FS}.
Implicit Types (x : Machine FS) (fs : FS).

(** Who is between the two calls has open the file that the path names; who runs holds
    the lock of that file. *)
Record file_held (path : str) x : Prop := {
  fh_opening pid s i : mc_instances x !! pid = Some (Opening s) →
    descriptor (mc_files x) pid (m_fd s) = Some i → file_at (mc_files x) path = Some i;
  fh_opening_path pid s : mc_instances x !! pid = Some (Opening s) → m_filePath s = path;
  fh_running pid s : mc_instances x !! pid = Some (Running s) →
    ∃ i, file_at (mc_files x) path = Some i ∧ lock_holder (mc_files x) i = Some pid
}.

Lemma file_held_alone path x p q : file_held path x → runs x p → runs x q → p = q.
Proof.
  intros Hinv [s Hp] [s' Hq]. destruct (fh_running _ _ Hinv _ _ Hp) as (i & E & Hi).
  destruct (fh_running _ _ Hinv _ _ Hq) as (j & E' & Hj). congruence.
Qed.

Lemma lock_path_open home pid fs s fs' path : lock_path home = Ok path →
  SingleInstance_open home pid fs = Ok (s, fs') → m_filePath s = path ∧ os_open pid path fs = (fs', m_fd s).
Proof.
  unfold SingleInstance_open. intros ->. simpl. destruct (os_open pid path fs) eqn:E. intros. by simplify_eq.
Qed.

Lemma lock_result pid s fs b fs' : SingleInstance_lock pid s fs = (b, fs') →
  ∃ result, os_lock pid (m_fd s) fs = (fs', result) ∧ (b = true ↔ 0 <= result).
Proof.
  unfold SingleInstance_lock. destruct (os_lock pid (m_fd s) fs) as [fs1 result]. intros E. simplify_eq.
  exists result. split; [done|]. destruct (Z.ltb_spec result 0); split; intros; try done; lia.
Qed.

Lemma file_held_open home path pid s x fs' : lock_path home = Ok path → file_held path x →
  mc_instances x !! pid = None → SingleInstance_open home pid (mc_files x) = Ok (s, fs') →
  file_held path (mkMachine fs' (<[pid := Opening s]> (mc_instances x))).
Proof.
  intros Hpath [Ho Hop Hr] Hnew E. apply (lock_path_open _ _ _ _ _ _ Hpath) in E as [Es E].
  destruct (open_keeps _ _ _ _ _ E) as (Hholder & Hdesc & _). pose proof (λ i, open_keeps_name _ _ _ _ _ i E) as Hname.
  split; cbn [mc_files mc_instances].
  - intros q s' i Hq Hd. destruct (decide (q = pid)) as [->|Hne].
    + rewrite lookup_insert_eq in Hq. simplify_eq. pose proof (descriptor_valid _ _ _ _ Hd) as Hfd.
      destruct (open_names _ _ _ _ _ E Hfd) as (j & Hj & Hd' & _). congruence.
    + rewrite lookup_insert_ne in Hq by done. rewrite Hdesc in Hd by done. eapply Hname; eauto.
  - intros q s' Hq. destruct (decide (q = pid)) as [->|Hne].
    + rewrite lookup_insert_eq in Hq. by simplify_eq.
    + rewrite lookup_insert_ne in Hq by done. eauto.
  - intros q s' Hq. destruct (decide (q = pid)) as [->|Hne]; [by rewrite lookup_insert_eq in Hq|].
    rewrite lookup_insert_ne in Hq by done. destruct (Hr _ _ Hq) as (i & Hi & Hh).
    exists i. rewrite Hholder. split; [by apply Hname|done].
Qed.

Lemma file_held_locked path pid s x fs' : file_held path x → mc_instances x !! pid = Some (Opening s) →
  SingleInstance_lock pid s (mc_files x) = (true, fs') →
  file_held path (mkMachine fs' (<[pid := Running s]> (mc_instances x))).
Proof.
  intros [Ho Hop Hr] Hpid E. apply lock_result in E as (result & E & Hres).
  destruct (lock_keeps _ _ _ _ _ E) as (Hfile & Hdesc & _).
  destruct (lock_excludes _ _ _ _ _ E (proj1 Hres eq_refl)) as (i & Hi & Hfree & Hmine & Hothers).
  split; cbn [mc_files mc_instances].
  - intros q s' j Hq Hd. destruct (decide (q = pid)) as [->|Hne]; [by rewrite lookup_insert_eq in Hq|].
    rewrite lookup_insert_ne in Hq by done. rewrite Hdesc in Hd. rewrite Hfile. eauto.
  - intros q s' Hq. destruct (decide (q = pid)) as [->|Hne]; [by rewrite lookup_insert_eq in Hq|].
    rewrite lookup_insert_ne in Hq by done. eauto.
  - intros q s' Hq. destruct (decide (q = pid)) as [->|Hne].
    + exists i. rewrite Hfile. split; [by eapply Ho|done].
    + rewrite lookup_insert_ne in Hq by done. destruct (Hr _ _ Hq) as (j & Hj & Hh). exists j. rewrite Hfile.
      split; [done|]. rewrite Hothers; [done|]. intros ->. destruct Hfree; congruence.
Qed.

(** A process that has no instance left takes nothing away. *)
Lemma file_held_exit path pid x fs : file_held path x →
  (∀ path', file_at fs path' = file_at (mc_files x) path') →
  (∀ p f, descriptor fs p f = descriptor (mc_files x) p f) →
  (∀ i, lock_holder fs i = lock_holder (mc_files x) i) →
  file_held path (mkMachine (os_exit pid fs) (delete pid (mc_instances x))).
Proof.
  intros [Ho Hop Hr] Hf Hd Hh. destruct (exit_releases fs pid) as (Hfile & Hdesc & Hholder).
  split; cbn [mc_files mc_instances]; intros q s' **;
    (destruct (decide (q = pid)) as [->|Hne]; [by rewrite ?lookup_delete_eq in *|rewrite ?lookup_delete_ne in * by done]).
  - rewrite Hfile, Hf. eapply Ho; [done|]. rewrite <-Hd, <-Hdesc; eauto.
  - eauto.
  - destruct (Hr q s') as (i & Hi & Hq); [done|]. exists i. rewrite Hfile, Hf, Hholder, Hh, Hq.
    split; [done|]. rewrite bool_decide_false by congruence. done.
Qed.

Lemma file_held_step home path x x' : lock_path home = Ok path → file_held path x →
  instance_step home true x x' → file_held path x'.
Proof.
  intros Hpath Hinv. inversion 1 as [pid s fs' Hnew E|pid s fs' Hpid E|pid s fs' Hpid E|pid s Hpid Hapart|pid i Hpid]; subst.
  - by eapply file_held_open.
  - by eapply file_held_locked.
  - apply lock_result in E as (result & E & Hres). destruct (lock_keeps _ _ _ _ _ E) as (Hfile & Hdesc & Hholder).
    apply file_held_exit; try done. apply Hholder. destruct (Z.le_gt_cases 0 result) as [Hge|]; [by apply Hres in Hge|lia].
  - split; cbn [mc_files mc_instances]; intros q s' **;
      (destruct (decide (q = pid)) as [->|Hne]; [by rewrite lookup_insert_eq in *|rewrite lookup_insert_ne in * by done]).
    + by destruct (Hapart eq_refl q s').
    + by destruct (Hapart eq_refl q s').
    + exfalso. apply Hne. eapply file_held_alone; [done|by eexists|by eexists].
  - by apply file_held_exit.
Qed.

Lemma file_held_reach home path fs x : lock_path home = Ok path →
  rtc (instance_step home true) (machine_start fs) x → file_held path x.
Proof.
  intros Hpath Hreach. assert (file_held path (machine_start fs)) as Hstart by (split; intros *; cbn; rewrite lookup_empty; by intros).
  revert Hstart. induction Hreach as [x|x y z Hstep _ IH]; [done|]. intros. apply IH. by eapply file_held_step.
Qed.

(** Only the processes that are there hold locks. *)
Definition locks_live x : Prop := ∀ i pid, lock_holder (mc_files x) i = Some pid → is_Some (mc_instances x !! pid).

Lemma locks_live_insert x fs pid inst : locks_live x →
  (∀ i p, lock_holder fs i = Some p → p = pid ∨ lock_holder (mc_files x) i = Some p) →
  locks_live (mkMachine fs (<[pid := inst]> (mc_instances x))).
Proof.
  intros Hinv Hh i p Hp. cbn [mc_files mc_instances] in *. destruct (decide (p = pid)) as [->|Hne].
  - rewrite lookup_insert_eq. by eexists.
  - rewrite lookup_insert_ne by done. destruct (Hh _ _ Hp); [done|eauto].
Qed.

Lemma locks_live_exit x fs pid : locks_live x →
  (∀ i, lock_holder fs i = lock_holder (mc_files x) i) →
  locks_live (mkMachine (os_exit pid fs) (delete pid (mc_instances x))).
Proof.
  intros Hinv Hh i p Hp. cbn [mc_files mc_instances] in *. destruct (exit_releases fs pid) as (_ & _ & Hholder).
  rewrite Hholder, Hh in Hp. case_bool_decide as Hd; [done|]. rewrite lookup_delete_ne by congruence. eauto.
Qed.

Lemma locks_live_step home apart x x' : locks_live x → instance_step home apart x x' → locks_live x'.
Proof.
  intros Hinv. inversion 1 as [pid s fs' Hnew E|pid s fs' Hpid E|pid s fs' Hpid E|pid s Hpid Hapart|pid i Hpid]; subst.
  - unfold SingleInstance_open in E. destruct (lock_path home) as [path| | |] eqn:Hpath; try done. simpl in E.
    destruct (os_open pid path _) as [fs1 fd] eqn:Eo. simplify_eq. destruct (open_keeps _ _ _ _ _ Eo) as (Hh & _).
    apply locks_live_insert; [done|]. intros i p. rewrite Hh. by right.
  - apply lock_result in E as (result & E & Hres).
    destruct (lock_excludes _ _ _ _ _ E (proj1 Hres eq_refl)) as (i & _ & _ & Hmine & Hothers).
    apply locks_live_insert; [done|]. intros j p. destruct (decide (j = i)) as [->|]; [rewrite Hmine; left; by simplify_eq|].
    rewrite Hothers by done. by right.
  - apply lock_result in E as (result & E & Hres). destruct (lock_keeps _ _ _ _ _ E) as (_ & _ & Hholder).
    apply locks_live_exit; [done|]. apply Hholder. destruct (Z.le_gt_cases 0 result) as [Hge|]; [by apply Hres in Hge|lia].
  - apply locks_live_insert; [done|]. intros j p Hj. right. rewrite <-Hj. unfold SingleInstance_destroy.
    destruct (0 <? m_fd s); [|done]. symmetry. by apply unlink_keeps.
  - by apply locks_live_exit.
Qed.

Lemma locks_live_reach home apart fs x : (∀ i, lock_holder fs i = None) →
  rtc (instance_step home apart) (machine_start fs) x → locks_live x.
Proof.
  intros Hfree Hreach. assert (locks_live (machine_start fs)) as Hstart.
  { intros i p Hp. cbn in Hp. by rewrite Hfree in Hp. }
  revert Hstart. induction Hreach as [x|x y z Hstep _ IH]; [done|]. intros. apply IH. by eapply locks_live_step.
Qed.

Lemma lock_free pid s fs i : descriptor fs pid (m_fd s) = Some i → lock_holder fs i = None →
  ∃ fs', SingleInstance_lock pid s fs = (true, fs') ∧
    (∀ path, file_at fs' path = file_at fs path) ∧ (∀ p f, descriptor fs' p f = descriptor fs p f) ∧
    lock_holder fs' i = Some pid ∧ ∀ j, j ≠ i → lock_holder fs' j = lock_holder fs j.
Proof.
  intros Hd Hh. pose proof (lock_granted _ _ _ _ Hd Hh) as Hres. unfold SingleInstance_lock.
  destruct (os_lock pid (m_fd s) fs) as [fs' result] eqn:E. simpl in Hres. destruct (lock_keeps _ _ _ _ _ E) as (Hf & Hdesc & _).
  destruct (lock_excludes _ _ _ _ _ E Hres) as (j & Hj & _ & Hmine & Hothers). assert (j = i) as -> by congruence.
  exists fs'. destruct (Z.ltb_spec result 0); [lia|]. done.
Qed.

Lemma open_opens home path pid fs : lock_path home = Ok path → 0 < (os_open pid path fs).2 →
  ∃ s fs', SingleInstance_open home pid fs = Ok (s, fs') ∧ os_open pid path fs = (fs', m_fd s) ∧
    0 < m_fd s ∧ m_filePath s = path.
Proof.
  intros Hpath Hfd. unfold SingleInstance_open. rewrite Hpath. simpl.
  destruct (os_open pid path fs) as [fs' fd]. by eexists _, _.
Qed.

Ltac find_instance := cbn [mc_instances mc_files machine_start]; by simplify_map_eq.

(** ** What the lock file gives *)

(** C25: When no process ends its [main] while another is between opening and locking, at
    most one instance runs, however the processes start, are refused, leave and are
    killed; and the call that would make a second one returns false. *)
Theorem one_instance_runs home path fs x p q :
  lock_path home = Ok path → rtc (instance_step home true) (machine_start fs) x → runs x p →
  (runs x q → p = q) ∧
  (∀ s, mc_instances x !! q = Some (Opening s) → (SingleInstance_lock q s (mc_files x)).1 = false).
Proof.
  intros Hpath Hreach Hp. pose proof (file_held_reach _ _ _ _ Hpath Hreach) as Hinv.
  split; [by apply (file_held_alone path)|]. intros s Hs. destruct (SingleInstance_lock q s (mc_files x)) as [[] fs'] eqn:E; [|done].
  exfalso. pose proof (file_held_locked _ _ _ _ _ Hinv Hs E) as Hinv'. destruct Hp as [s' Hp].
  assert (p ≠ q) as Hne by congruence.
  apply Hne. eapply file_held_alone; [exact Hinv'| |]; eexists; cbn; [rewrite lookup_insert_ne by done; exact Hp|by rewrite lookup_insert_eq].
Qed.

(** A lock file that is left behind harms nobody: in every state the processes can
    reach, also by being killed at any point, when none is left the next call of
    [operator()] returns true if the file can be opened. *)
Theorem stale_lock_harmless home path apart fs x pid :
  lock_path home = Ok path → (∀ i, lock_holder fs i = None) →
  rtc (instance_step home apart) (machine_start fs) x → mc_instances x = ∅ →
  0 <= (os_open pid path (mc_files x)).2 →
  ∃ s fs', SingleInstance_call home pid (mc_files x) = Ok (true, s, fs').
Proof.
  intros Hpath Hfree Hreach Hnone Hfd. pose proof (locks_live_reach _ _ _ _ Hfree Hreach) as Hlive.
  unfold SingleInstance_call, SingleInstance_open. rewrite Hpath. simpl.
  destruct (os_open pid path (mc_files x)) as [fs1 fd] eqn:Eo. simpl in Hfd |- *.
  destruct (open_names _ _ _ _ _ Eo Hfd) as (i & _ & Hd & _). destruct (open_keeps _ _ _ _ _ Eo) as (Hh & _).
  destruct (lock_free pid (mkSingleInstance fd path) fs1 i Hd) as (fs2 & E & _).
  - rewrite Hh. destruct (lock_holder (mc_files x) i) as [p|] eqn:Ep; [|done].
    apply Hlive in Ep as [? Ep]. by rewrite Hnone, lookup_empty in Ep.
  - rewrite E. by eexists _, _.
Qed.

(** C26: Without that, two instances can run at once. The second process opens the file
    while the first runs; the first ends, and its destructor removes the file's name; the
    second locks the file that has no name any more, and the third makes a new one. *)
Theorem two_instances_run home path fs a b c :
  lock_path home = Ok path → (∀ i, lock_holder fs i = None) →
  (∀ fs pid, 0 < (os_open pid path fs).2) → a ≠ b → a ≠ c → b ≠ c →
  ∃ x, rtc (instance_step home false) (machine_start fs) x ∧ runs x b ∧ runs x c.
Proof.
  intros Hpath Hfree Hfd Hab Hac Hbc.
  pose proof (λ pid fs0, open_opens home path pid fs0 Hpath (Hfd fs0 pid)) as Hopen.
  destruct (Hopen a fs) as (sa & fs1 & Ea & Oa & Fa & Pa).
  destruct (open_names _ _ _ _ _ Oa ltac:(lia)) as (i & Ni & Da & _). destruct (open_keeps _ _ _ _ _ Oa) as (H1 & _).
  destruct (lock_free a sa fs1 i Da) as (fs2 & La & N2 & _ & H2 & H2'); [by rewrite H1|].
  destruct (Hopen b fs2) as (sb & fs3 & Eb & Ob & Fb & Pb).
  destruct (open_names _ _ _ _ _ Ob ltac:(lia)) as (i' & Ni' & Db & _). destruct (open_keeps _ _ _ _ _ Ob) as (H3 & _).
  assert (i' = i) as ->. { rewrite (open_keeps_name _ _ _ _ _ i Ob) in Ni'; [congruence|by rewrite N2]. }
  destruct (unlink_keeps fs3 path) as (N4 & D4 & H4). set (fs4 := os_unlink path fs3) in *.
  destruct (exit_releases fs4 a) as (N5 & D5 & H5). set (fs5 := os_exit a fs4) in *.
  destruct (lock_free b sb fs5 i) as (fs6 & Lb & N6 & D6 & H6 & H6').
  { rewrite D5, D4 by done. done. }
  { by rewrite H5, H4, H3, H2, bool_decide_true. }
  destruct (Hopen c fs6) as (sc & fs7 & Ec & Oc & Fc & Pc).
  destruct (open_names _ _ _ _ _ Oc ltac:(lia)) as (j & _ & Dc & [Hj|(_ & Hj & Hfresh)]).
  { by rewrite N6, N5, N4 in Hj. }
  destruct (open_keeps _ _ _ _ _ Oc) as (H7 & _).
  destruct (lock_free c sc fs7 j) as (fs8 & Lc & _); [done|by rewrite H7|].
  eexists. split; [|split; eexists].
  - eapply rtc_l; [apply (step_open _ _ _ a); [done|exact Ea]|].
    eapply rtc_l; [apply (step_locked _ _ _ a sa); [find_instance|exact La]|].
    eapply rtc_l; [apply (step_open _ _ _ b); [find_instance|exact Eb]|].
    eapply rtc_l; [apply (step_leave _ _ _ a sa); [find_instance|done]|].
    unfold SingleInstance_destroy. destruct (Z.ltb_spec 0 (m_fd sa)); [|lia]. rewrite Pa.
    eapply rtc_l; [apply (step_end _ _ _ a (Leaving sa)); find_instance|].
    eapply rtc_l; [apply (step_locked _ _ _ b sb); [find_instance|exact Lb]|].
    eapply rtc_l; [apply (step_open _ _ _ c); [find_instance|exact Ec]|].
    eapply rtc_l; [apply (step_locked _ _ _ c sc); [find_instance|exact Lc]|]. apply rtc_refl.
  - find_instance.
  - find_instance.
Qed.
End laws.

(** ** A file system *)

Record Inodes : Type := mkInodes { in_names : gmap str Z; in_descriptors : gmap (Z * Z) Z; in_locks : gmap Z Z }.

Definition new_inode (fs : Inodes) : Z :=
  infinite_fresh ((map_to_list (in_locks fs)).*1 ++ (map_to_list (in_descriptors fs)).*2 ++ (map_to_list (in_names fs)).*2).
Definition new_descriptor (fs : Inodes) : Z := 1 + Z.max 2 (foldr Z.max 0 (map_to_list (in_descriptors fs)).*1.*2).

#[export] Instance inodes_operations : LockingFileSystem Inodes := {
  os_open pid path fs :=
    let i := default (new_inode fs) (in_names fs !! path) in
    let fd := new_descriptor fs in
    (mkInodes (<[path := i]> (in_names fs)) (<[(pid, fd) := i]> (in_descriptors fs)) (in_locks fs), fd);
  os_lock pid fd fs :=
    match in_descriptors fs !! (pid, fd) with
    | Some i =>
        if bool_decide (0 <= fd ∧ (in_locks fs !! i = None ∨ in_locks fs !! i = Some pid))
        then (mkInodes (in_names fs) (in_descriptors fs) (<[i := pid]> (in_locks fs)), 0)
        else (fs, -1)
    | None => (fs, -1)
    end;
  os_unlink path fs := mkInodes (delete path (in_names fs)) (in_descriptors fs) (in_locks fs);
  os_exit pid fs :=
    mkInodes (in_names fs) (filter (λ kv, kv.1.1 ≠ pid) (in_descriptors fs)) (filter (λ kv, kv.2 ≠ pid) (in_locks fs))
}.

Lemma new_inode_fresh fs :
  in_locks fs !! new_inode fs = None ∧ ∀ pf, in_descriptors fs !! pf ≠ Some (new_inode fs).
Proof.
  pose proof (infinite_is_fresh ((map_to_list (in_locks fs)).*1 ++ (map_to_list (in_descriptors fs)).*2 ++ (map_to_list (in_names fs)).*2)) as Hf.
  fold (new_inode fs) in Hf. rewrite !not_elem_of_app in Hf. destruct Hf as (Hl & Hd & _). split.
  - destruct (in_locks fs !! new_inode fs) as [p|] eqn:E; [|done]. destruct Hl.
    apply list_elem_of_fmap. exists (new_inode fs, p). split; [done|]. by apply elem_of_map_to_list.
  - intros pf E. destruct Hd. apply list_elem_of_fmap. exists (pf, new_inode fs). split; [done|]. by apply elem_of_map_to_list.
Qed.

#[export, refine] Instance inodes_laws : LockingLaws Inodes := {
  file_at fs path := in_names fs !! path;
  descriptor fs pid fd := if 0 <=? fd then in_descriptors fs !! (pid, fd) else None;
  lock_holder fs i := in_locks fs !! i
}.
Proof.
  - intros fs pid fd i. by destruct (Z.leb_spec 0 fd).
  - intros fs pid path fs' fd E _. simpl in E. simplify_eq. eexists. cbn [in_names in_descriptors in_locks].
    rewrite !lookup_insert_eq. destruct (Z.leb_spec 0 (new_descriptor fs)); [|unfold new_descriptor in *; lia].
    split_and!; [done|done|]. destruct (in_names fs !! path) as [i|] eqn:En; [by left|right]. simpl.
    destruct (new_inode_fresh fs) as [Hl Hd]. split_and!; [done|done|]. intros p f. by case_match.
  - intros fs pid path fs' fd E. simpl in E. simplify_eq. split_and!; [done| |].
    + intros p f Hp. case_match; [|done]. cbn. rewrite lookup_insert_ne; [done|congruence].
    + unfold new_descriptor. lia.
  - intros fs pid path fs' fd i E Hi. simpl in E. simplify_eq. cbn. by rewrite Hi, lookup_insert_eq.
  - intros fs pid fd fs' result E. simpl in E. repeat case_match; simplify_eq; (split_and!; [done|done|]); [lia|done|done].
  - intros fs pid fd fs' result E Hr. simpl in E. destruct (in_descriptors fs !! (pid, fd)) as [i|] eqn:Ei; [|simplify_eq; lia].
    case_bool_decide as Hb; simplify_eq; [|lia].
    destruct Hb as [Hfd Hfree]. destruct (Z.leb_spec 0 fd); [|lia]. exists i. split_and!; [done|done|by cbn; rewrite lookup_insert_eq|].
    intros j Hj. cbn. by rewrite lookup_insert_ne.
  - intros fs pid fd i Hd Hh. destruct (Z.leb_spec 0 fd); [|done]. simpl. rewrite Hd, bool_decide_true by auto. done.
  - intros fs path. split_and!; [|done|done]. cbn. by rewrite lookup_delete_eq.
  - intros fs pid. split_and!; [done| |].
    + intros p f Hp. case_match; [|done]. cbn. destruct (in_descriptors fs !! (p, f)) as [i|] eqn:E.
      * by apply map_lookup_filter_Some_2.
      * apply map_lookup_filter_None_2. by left.
    + intros i. cbn. case_bool_decide as Hi.
      * apply map_lookup_filter_None_2. right. intros x Hx. simpl. congruence.
      * destruct (in_locks fs !! i) as [p|] eqn:E; [apply map_lookup_filter_Some_2; [done|simpl; congruence]|].
        apply map_lookup_filter_None_2. by left.
Defined.

Definition no_files : Inodes := mkInodes ∅ ∅ ∅.
Definition demo_home : option str := Some ($"/root").
Definition demo_lock : str := $"/root/single_instance_lock".

(** A process that opens and locks the file of [no_files]. *)
Definition demo_machine : Machine Inodes :=
  match SingleInstance_call demo_home 7 no_files with
  | Ok (true, s, fs) => mkMachine fs {[7 := Running s]}
  | _ => machine_start no_files
  end.

Lemma demo_machine_reach : rtc (instance_step demo_home true) (machine_start no_files) demo_machine.
Proof.
  eapply rtc_l; [apply (step_open _ _ _ 7); [done|vm_compute; reflexivity]|].
  eapply rtc_l; [eapply (step_locked _ _ _ 7); [vm_compute; reflexivity|vm_compute; reflexivity]|]. apply rtc_refl.
Qed.

Lemma one_instance_runs_witness : runs demo_machine 7 ∧ (runs demo_machine 7 → 7 = 7).
Proof.
  assert (runs demo_machine 7) as Hr by (eexists; vm_compute; reflexivity).
  split; [exact Hr|]. exact (proj1 (one_instance_runs demo_home demo_lock no_files demo_machine 7 7 eq_refl demo_machine_reach Hr)).
Defined.

Lemma stale_lock_harmless_witness :
  ∃ s fs', SingleInstance_call demo_home 8 (os_exit 7 (mc_files demo_machine)) = Ok (true, s, fs').
Proof.
  apply (stale_lock_harmless demo_home demo_lock true no_files (mkMachine (os_exit 7 (mc_files demo_machine)) (delete 7 (mc_instances demo_machine))));
    [reflexivity|intros i; reflexivity| |vm_compute; reflexivity|vm_compute; discriminate].
  eapply rtc_r; [exact demo_machine_reach|]. eapply step_end. vm_compute. reflexivity.
Defined.

Lemma two_instances_run_witness :
  ∃ x, rtc (instance_step demo_home false) (machine_start no_files) x ∧ runs x 2 ∧ runs x 3.
Proof.
  apply (two_instances_run demo_home demo_lock no_files 1 2 3); [reflexivity|intros i; reflexivity| |lia|lia|lia].
  intros fs pid. cbn. unfold new_descriptor. lia.
Defined.
