(* ===== verification/Memory.v ===== *)
(** * [core/memory/]: aligned memory

    [AlignedAllocator] and the operators [new] and [delete] of [Aligned] over
    [posix_memalign] and [free], which are an interface: [HeapLaws] is what POSIX documents
    of them. Pointers are addresses, and 0 is the null pointer. With it the rounding to the
    word size of [cpu_memory.h]. *)
From Stdlib Require Import ZArith Lia.
From stdpp Require Import base decidable list gmap.
From S2P Require Import Prelude.
From S2P Require Import MachineInt.
Local Open Scope Z_scope.

(** ** The heap *)

Class Heap (M : Type) : Type := {
  posix_memalign : Z → Z → M → M * Z;   (** alignment and size; the pointer, still null when it fails *)
  free : Z → M → M
}.

(** [blocks]: the addresses in use, with their sizes. *)
Class HeapLaws (M : Type) `{Heap M} : Type := {
  blocks : M → gmap Z Z;
  memalign_fails m m' alignment size : posix_memalign alignment size m = (m', 0) → blocks m' = blocks m;
  memalign_gives m m' alignment size p : posix_memalign alignment size m = (m', p) → p ≠ 0 →
    (alignment | p) ∧ blocks m' = <[p := size]> (blocks m) ∧ blocks m !! p = None ∧
    (0 < size → ∀ q l, blocks m !! q = Some l → p + size <= q ∨ q + l <= p);
  free_blocks m p : blocks (free p m) = delete p (blocks m)
}.

(** ** [heap_memory_cache_aligned_allocators.hpp] *)

(** The macro, on a [size_t]. *)
Definition IS_POWER_OF_TWO (n : Z) : bool :=
  if negb (n =? 0) && (Z.land n (size_sub n 1) =? 0) then true else false.

Section allocator.
Context {M : Type} `{Heap M}.

Definition alignedMalloc (size alignment : Z) (m : M) : outcome (Z * M) :=
  let '(m', ptr) := posix_memalign alignment size m in
  if ptr =? 0 then Throw BadAlloc else Ok (ptr, m').
Definition alignedFree (ptr : Z) (m : M) : M := free ptr m.

(** [Aligned<alignment>::operator new] and [operator delete]. *)
Definition Aligned_new (alignment size : Z) (m : M) : outcome (Z * M) := alignedMalloc size alignment m.
Definition Aligned_delete (ptr : Z) (m : M) : M := alignedFree ptr m.

(** [AlignedAllocator<T, alignment>], of the size of [T]. *)
Definition max_size (sizeofT : Z) : Z := INT_MAX / sizeofT.
Definition allocate (sizeofT alignment n : Z) (m : M) : outcome (Z * M) :=
  if n =? 0 then Ok (0, m)
  else if max_size sizeofT <? n then Throw LengthError
  else
    '(pv, m') ← alignedMalloc (to_size (n * sizeofT)) alignment m;
    if pv =? 0 then Throw BadAlloc else Ok (pv, m').
Definition deallocate (p n : Z) (m : M) : M := alignedFree p m.
End allocator.

(** ** [cpu_memory.h] *)

(** The types [alignToTargetCPUWordSize] is used with, and what adding one does in each. *)
Inductive WordType : Type := INT | LONG | SIZE_T.
Definition word_add (T : WordType) (a b : Z) : outcome Z :=
  match T with INT => int_add a b | LONG => long_add a b | SIZE_T => Ok (size_add a b) end.

Definition getCPUWordSize : Z := 8.

Fixpoint align_loop (fuel : nat) (T : WordType) (alignment alignedNumber : Z) : outcome Z :=
  match fuel with
  | O => NoFuel
  | S fuel' =>
      if Z.rem alignedNumber alignment =? 0 then Ok alignedNumber
      else n ← word_add T alignedNumber 1; align_loop fuel' T alignment n
  end.
(** The loop adds one at most seven times before it tests for the last time. *)
Definition alignToTargetCPUWordSize (T : WordType) (input : Z) : outcome Z :=
  align_loop 8 T getCPUWordSize input.

(** * Lemmas *)

(** Clearing the lowest bit of a number gives zero only for powers of two. *)
Lemma land_pred_pow2 k : 0 <= k → Z.land (2 ^ k) (2 ^ k - 1) = 0.
Proof.
  intros Hk. apply Z.bits_inj'. intros i Hi. rewrite Z.land_spec, Z.bits_0, Z.sub_1_r.
  rewrite Z.pow2_bits_eqb by done. destruct (Z.eqb_spec k i) as [->|]; [|done]. simpl.
  rewrite <-Z.ones_equiv. apply Z.ones_spec_high. lia.
Qed.

Lemma pow2_of_land n : 0 < n → Z.land n (n - 1) = 0 → n = 2 ^ Z.log2 n.
Proof.
  intros Hn Hland. destruct (Z.log2_spec n Hn) as [Hlo Hhi]. destruct (Z.lt_ge_cases (2 ^ Z.log2 n) n) as [Hlt|]; [|lia].
  exfalso. assert (Z.testbit (Z.land n (n - 1)) (Z.log2 n) = true) as Hbit.
  - rewrite Z.land_spec, Z.bit_log2 by done. simpl.
    assert (Z.log2 (n - 1) = Z.log2 n) as <-; [|apply Z.bit_log2; pose proof (Z.pow_pos_nonneg 2 (Z.log2 n) ltac:(lia) (Z.log2_nonneg n)); lia].
    apply Z.log2_unique; [apply Z.log2_nonneg|]. rewrite Z.pow_succ_r in Hhi |- * by apply Z.log2_nonneg. lia.
  - rewrite Hland, Z.bits_0 in Hbit. done.
Qed.

Lemma IS_POWER_OF_TWO_spec n : in_size n = true →
  IS_POWER_OF_TWO n = true ↔ ∃ k, 0 <= k ∧ n = 2 ^ k.
Proof.
  intros Hn. apply in_size_spec in Hn. unfold IS_POWER_OF_TWO. destruct (Z.eqb_spec n 0) as [->|Hne].
  - simpl. split; [done|]. intros (k & Hk & E). pose proof (Z.pow_pos_nonneg 2 k). lia.
  - replace (size_sub n 1) with (n - 1) by (unfold size_sub; mlia). simpl. split.
    + destruct (Z.eqb_spec (Z.land n (n - 1)) 0); [|done]. intros _. exists (Z.log2 n).
      split; [apply Z.log2_nonneg|apply pow2_of_land; [lia|done]].
    + intros (k & Hk & ->). by rewrite land_pred_pow2.
Qed.

Section laws.
Context {M : Type} `{L : HeapLaws M}.

(** [allocate] on every branch: no elements give the null pointer, a count whose product
    with the size of an element would leave the range of an [int] throws, and otherwise
    memory that is aligned, has room for all the elements (the product did not wrap) and
    overlaps nothing in use, which [deallocate] gives back. *)
Theorem allocate_spec sizeofT alignment n (m : M) : 0 < sizeofT → in_size n = true →
  match allocate sizeofT alignment n m with
  | Ok (p, m') =>
      n = 0 ∧ p = 0 ∧ m' = m ∨
      0 < n <= INT_MAX / sizeofT ∧ p ≠ 0 ∧ (alignment | p) ∧ blocks m' = <[p := n * sizeofT]> (blocks m) ∧
      (∀ q l, blocks m !! q = Some l → p + n * sizeofT <= q ∨ q + l <= p) ∧
      blocks (deallocate p n m') = blocks m
  | Throw LengthError => INT_MAX < n * sizeofT
  | Throw BadAlloc => 0 < n <= INT_MAX / sizeofT ∧ (posix_memalign alignment (n * sizeofT) m).2 = 0
  | _ => False
  end.
Proof.
  intros Hs Hn. apply in_size_spec in Hn. unfold allocate, max_size. destruct (Z.eqb_spec n 0) as [->|Hne]; [by left|].
  destruct (Z.ltb_spec (INT_MAX / sizeofT) n) as [Hlt|Hle].
  { pose proof (Z.mul_succ_div_gt INT_MAX sizeofT Hs). nia. }
  assert (0 < n * sizeofT <= INT_MAX) as Hsize by (pose proof (Z.mul_div_le INT_MAX sizeofT Hs); nia).
  replace (to_size (n * sizeofT)) with (n * sizeofT) by (symmetry; apply to_size_small, in_size_spec; unfold INT_MAX, SIZE_MOD in *; lia).
  unfold alignedMalloc. destruct (posix_memalign alignment (n * sizeofT) m) as [m' p] eqn:E.
  destruct (Z.eqb_spec p 0) as [->|Hp]; [split; [lia|done]|]. simpl. destruct (Z.eqb_spec p 0); [done|].
  destruct (memalign_gives _ _ _ _ _ E Hp) as (Ha & Hb & Hf & Hd). right. split_and!; [lia|lia|done|done|done|by apply (Hd ltac:(lia))|].
  unfold deallocate, alignedFree. rewrite free_blocks, Hb, delete_insert_id; done.
Qed.
End laws.

(** ** Rounding to words *)

Definition word_max (T : WordType) : Z := match T with INT => INT_MAX | LONG => LONG_MAX | SIZE_T => SIZE_MOD - 1 end.
Definition in_word (T : WordType) (z : Z) : Prop :=
  match T with INT => in_int z = true | LONG => in_long z = true | SIZE_T => in_size z = true end.

Lemma word_add_Ok T a : in_word T a → a < word_max T → word_add T a 1 = Ok (a + 1) ∧ in_word T (a + 1).
Proof.
  unfold in_word, word_max, word_add. intros Ha Hmax. destruct T.
  - rewrite int_add_Ok by mlia. split; [done|mlia].
  - rewrite long_add_Ok by mlia. split; [done|mlia].
  - split; [|mlia]. unfold size_add. rewrite to_size_small by mlia. done.
Qed.

Lemma align_loop_spec fuel T n : in_word T n → n + Z.of_nat fuel <= word_max T →
  (- n) mod 8 < Z.of_nat fuel → align_loop fuel T 8 n = Ok (n + (- n) mod 8).
Proof.
  revert n. induction fuel as [|fuel IH]; intros n Hn Hmax Hfuel; [dlia|]. cbn [align_loop].
  destruct (Z.eqb_spec (Z.rem n 8) 0) as [Hr|Hr]; [f_equal; dlia|].
  destruct (word_add_Ok T n Hn) as [-> Hn']; [lia|]. cbn [mbind outcome_bind].
  rewrite IH by (done || dlia). f_equal. dlia.
Qed.

(** The rounding gives the least multiple of the word size that is not smaller, below the
    last words of the type. *)
Lemma alignToTargetCPUWordSize_spec T n : in_word T n → n + 8 <= word_max T →
  ∃ r, alignToTargetCPUWordSize T n = Ok r ∧ (8 | r) ∧ n <= r < n + 8.
Proof.
  intros Hn Hmax. exists (n + (- n) mod 8). split; [apply align_loop_spec; [done|lia|dlia]|].
  split; [exists ((n + (- n) mod 8) / 8); dlia|dlia].
Qed.

(** At the end of the type a signed argument overflows, and a [size_t] rounds to zero. *)
Example align_at_the_end :
  alignToTargetCPUWordSize INT (INT_MAX - 2) = Undef SignedOverflow ∧
  alignToTargetCPUWordSize LONG (LONG_MAX - 2) = Undef SignedOverflow ∧
  alignToTargetCPUWordSize SIZE_T (SIZE_MOD - 3) = Ok 0.
Proof. vm_compute. by split_and!. Qed.

(** ** A heap *)

(** The multiple of the alignment past the end of everything in use. *)
Definition heap_end (m : gmap Z Z) : Z := foldr Z.max 0 ((λ ql : Z * Z, Z.max ql.1 (ql.1 + ql.2)) <$> map_to_list m).

#[export] Instance bump_heap : Heap (gmap Z Z) := {
  posix_memalign alignment size m :=
    if 0 <? alignment then let p := alignment * (1 + heap_end m) in (<[p := size]> m, p) else (m, 0);
  free p m := delete p m
}.

Lemma foldr_max_ge (l : list Z) x : x ∈ l → x <= foldr Z.max 0 l.
Proof. induction l as [|y l IH]; [by intros ?%elem_of_nil|]. intros [->|Hx]%elem_of_cons; simpl; [lia|]. apply IH in Hx. lia. Qed.

Lemma heap_end_spec (m : gmap Z Z) q l : m !! q = Some l → q <= heap_end m ∧ q + l <= heap_end m.
Proof.
  intros Hq. assert (Z.max q (q + l) <= heap_end m); [|lia]. apply foldr_max_ge, list_elem_of_fmap.
  exists (q, l). split; [done|]. by apply elem_of_map_to_list.
Qed.

Lemma heap_end_nonneg m : 0 <= heap_end m.
Proof. unfold heap_end. induction (_ <$> _); simpl; lia. Qed.

#[export, refine] Instance bump_laws : HeapLaws (gmap Z Z) := { blocks m := m }.
Proof.
  - intros m m' alignment size E. simpl in E. pose proof (heap_end_nonneg m).
    destruct (Z.ltb_spec 0 alignment); simplify_eq; [nia|done].
  - intros m m' alignment size p E Hp. simpl in E. destruct (Z.ltb_spec 0 alignment); simplify_eq.
    pose proof (heap_end_nonneg m). split_and!; [exists (1 + heap_end m); lia|done| |].
    + destruct (m !! _) eqn:Em; [|done]. apply heap_end_spec in Em. nia.
    + intros _ q l Hq. apply heap_end_spec in Hq. nia.
  - done.
Defined.

Lemma allocate_spec_witness :
  match allocate 24 64 10 ({[64 := 100]} : gmap Z Z) with
  | Ok (p, m') => p = 10560 ∧ m' !! p = Some 240
  | _ => False
  end.
Proof.
  pose proof (allocate_spec 24 64 10 ({[64 := 100]} : gmap Z Z) ltac:(lia) eq_refl) as Hspec.
  vm_compute in Hspec |- *. destruct Hspec as [[Hn _]|_]; [discriminate Hn|]. split; reflexivity.
Defined.
