(* ===== verification/ThreadPerClient.v ===== *)
(** * [core/network/tcp_server_thread_per_client.cpp] and [io_listener_select.cpp]

    The two network classes that the server of the program does not use: a TCP server with
    a thread for each client, and the listener over [select]. They share the sockets, the
    tables of peers and the thread objects with the classes it uses. What the system calls
    return, and the addresses of new objects, are arguments. *)
From Stdlib Require Import ZArith Lia Ascii String.
From stdpp Require Import base decidable sets list gmap strings.
From S2P Require Import Prelude.
From S2P Require Import MachineInt.
From S2P Require Import StringUtility.
From S2P Require Import Network.
From S2P Require Import Sockets.
From S2P Require Import Threads.
From S2P Require Import FixServerReactor.
From S2P Require Import ServerStart.
Local Open Scope Z_scope.

(** ** [TCPServerThreadPerClient] *)

Record TCPServerThreadPerClient : Type := mkTCPServerThreadPerClient {
  tp_acceptTimeout : Z;
  tp_isStopping : bool;
  tp_peerSockets : list Z;
  tp_peerSocketsConnectionFlags : list bool;
  tp_socket : SocketObject;
  tp_acceptorThread : option Z;             (** [m_acceptorThreadPtr] *)
  tp_clientThreads : list (option Z)
}.

(** The constructor with two arguments does not hand them on to that of [TCPServer]. *)
Definition TCPServerThreadPerClient_new (pendingConnectionsQueueSize acceptTimeout fd : Z) (junk : Address) (k : Kernel)
    : TCPServerThreadPerClient * Kernel :=
  let '(s, k) := TCPServer_new DEFAULT_PENDING_CONNECTION_QUEUE_SIZE fd junk k in
  (mkTCPServerThreadPerClient DEFAULT_ACCEPT_TIMEOUT false [] [] s None [], k).

Definition TCPServerThreadPerClient_start (sr : StartResults) (address : str) (port : Z) (t : TCPServerThreadPerClient)
    (k : Kernel) (T : Threads) : outcome (TCPServerThreadPerClient * Kernel * Threads * bool) :=
  let '(s, k, started) := TCPServer_start sr address port (tp_socket t) k in
  let t := mkTCPServerThreadPerClient (tp_acceptTimeout t) (tp_isStopping t) (tp_peerSockets t)
             (tp_peerSocketsConnectionFlags t) s (tp_acceptorThread t) (tp_clientThreads t) in
  if negb started then Ok (t, k, T, false)
  else
    let id := sr_thread sr in
    let T := Thread_new id ($"TCP_ACCEPTOR") T in
    let T := match tp_acceptorThread t with Some old => Thread_delete old T | None => T end in
    let t := mkTCPServerThreadPerClient (tp_acceptTimeout t) (tp_isStopping t) (tp_peerSockets t)
               (tp_peerSocketsConnectionFlags t) (tp_socket t) (Some id) (tp_clientThreads t) in
    T ← Thread_setTask (Some (Task_new 0)) id T;
    T ← Thread_start 0 (sr_created sr) id T;
    Ok (t, k, T, true).

(** A thread's pointer is followed without a test. *)
Definition join_pointer (p : option Z) (T : Threads) : outcome Threads :=
  match p with None => Undef NullDeref | Some id => Thread_join id T end.

Fixpoint join_pointers (ps : list (option Z)) (T : Threads) : outcome Threads :=
  match ps with
  | [] => Ok T
  | p :: ps' => T ← join_pointer p T; join_pointers ps' T
  end.

Definition TCPServerThreadPerClient_stop (t : TCPServerThreadPerClient) (T : Threads) : outcome (TCPServerThreadPerClient * Threads) :=
  let t := mkTCPServerThreadPerClient (tp_acceptTimeout t) true (tp_peerSockets t) (tp_peerSocketsConnectionFlags t)
             (tp_socket t) (tp_acceptorThread t) (tp_clientThreads t) in
  T ← join_pointer (tp_acceptorThread t) T;
  T ← join_pointers (tp_clientThreads t) T;
  Ok (t, T).

(** [onClientConnected], with the address of the new thread object: the local pointer is
    moved into the vector, which leaves it null, and then followed. *)
Definition ThreadPerClient_onClientConnected (threadId : Z) (created : option Z) (t : TCPServerThreadPerClient) (T : Threads)
    : outcome (TCPServerThreadPerClient * Threads) :=
  let task := Some (Task_new 0) in
  let T := Thread_new threadId ($"TCP_WORKER") T in
  let clientHandlerThread := Some threadId in
  let '(clientThreads, clientHandlerThread) := (tp_clientThreads t ++ [clientHandlerThread], None) in
  let t := mkTCPServerThreadPerClient (tp_acceptTimeout t) (tp_isStopping t) (tp_peerSockets t)
             (tp_peerSocketsConnectionFlags t) (tp_socket t) (tp_acceptorThread t) clientThreads in
  match clientHandlerThread with
  | None => Undef NullDeref
  | Some id => T ← Thread_setTask task id T; T ← Thread_start 0 created id T; Ok (t, T)
  end.

Definition ThreadPerClient_onClientDisconnected (peerIndex : nat) (t : TCPServerThreadPerClient) (w : World)
    : outcome (TCPServerThreadPerClient * World) :=
  '(flags, w) ← remove_peer peerIndex (tp_peerSockets t) (tp_peerSocketsConnectionFlags t) w;
  Ok (mkTCPServerThreadPerClient (tp_acceptTimeout t) (tp_isStopping t) (tp_peerSockets t) flags
        (tp_socket t) (tp_acceptorThread t) (tp_clientThreads t), w).

(** What one round of [acceptThread] finds: the flag, the results of [::select] and
    [::accept], and the addresses of a new socket object and a new thread object. *)
Record AcceptRound : Type := mkAcceptRound {
  ar_stopping : bool;
  ar_ready : Z;
  ar_descriptor : Z;
  ar_socket : Z;
  ar_thread : Z;
  ar_created : option Z
}.

Definition PerClientState : Type := TCPServerThreadPerClient * World * Kernel * Threads.

(** One round; [None] when the loop is left. *)
Definition accept_round (a : AcceptRound) (x : PerClientState) : outcome (option PerClientState) :=
  let '(t, w, k, T) := x in
  if ar_stopping a then Ok None
  else
    let '(s, k, peer) := accept_connection (ar_ready a) (ar_descriptor a) (tp_socket t) k in
    let t := mkTCPServerThreadPerClient (tp_acceptTimeout t) (tp_isStopping t) (tp_peerSockets t)
               (tp_peerSocketsConnectionFlags t) s (tp_acceptorThread t) (tp_clientThreads t) in
    match peer with
    | None => Ok (Some (t, w, k, T))
    | Some sock =>
        let w := with_sockets (<[ar_socket a := sock]> (w_sockets w)) w in
        '(sockets, flags, w, peerIndex) ← add_peer (ar_socket a) (tp_peerSockets t) (tp_peerSocketsConnectionFlags t) w;
        let t := mkTCPServerThreadPerClient (tp_acceptTimeout t) (tp_isStopping t) sockets flags
                   (tp_socket t) (tp_acceptorThread t) (tp_clientThreads t) in
        '(t, T) ← ThreadPerClient_onClientConnected (ar_thread a) (ar_created a) t T;
        Ok (Some (t, w, k, T))
    end.

(** [acceptThread] over the rounds to come; it is not done when they run out. *)
Fixpoint acceptThread (rounds : list AcceptRound) (x : PerClientState) : outcome PerClientState :=
  match rounds with
  | [] => NoFuel
  | a :: rounds' =>
      next ← accept_round a x;
      match next with None => Ok x | Some x' => acceptThread rounds' x' end
  end.

(** The destructor, which the class does not write: the thread objects go, and then
    [TCPServer::~TCPServer] runs [TCPServer::stop], which joins nothing. *)
Definition delete_pointer (p : option Z) (T : Threads) : Threads := match p with Some id => Thread_delete id T | None => T end.
Definition TCPServerThreadPerClient_destroy (t : TCPServerThreadPerClient) (T : Threads) : Threads :=
  delete_pointer (tp_acceptorThread t) (foldr delete_pointer T (tp_clientThreads t)).

(** ** [IOListenerSelect] *)

Definition FD_SETSIZE : Z := 1024.

Record IOListenerSelect : Type := mkIOListenerSelect { m_tv_sec : Z; m_tv_usec : Z; m_clientsReadSet : gset Z }.

(** The [FD_] macros on a set of descriptors: outside its bits they touch other memory. *)
Definition FD_at {A} (fd : Z) (a : A) : outcome A :=
  if (0 <=? fd) && (fd <? FD_SETSIZE) then Ok a else Undef BufferOverflow.

Definition IOListenerSelect_setTimeout (microSeconds : Z) (l : IOListenerSelect) : IOListenerSelect :=
  mkIOListenerSelect (Z.quot microSeconds 1000000) 0 (m_clientsReadSet l).
Definition IOListenerSelect_reset (l : IOListenerSelect) : IOListenerSelect :=
  mkIOListenerSelect (m_tv_sec l) (m_tv_usec l) ∅.
Definition IOListenerSelect_setFileDescriptor (fd : Z) (l : IOListenerSelect) : outcome IOListenerSelect :=
  FD_at fd (mkIOListenerSelect (m_tv_sec l) (m_tv_usec l) ({[fd]} ∪ m_clientsReadSet l)).
Definition IOListenerSelect_clearFileDescriptor (fd : Z) (l : IOListenerSelect) : outcome IOListenerSelect :=
  FD_at fd (mkIOListenerSelect (m_tv_sec l) (m_tv_usec l) (m_clientsReadSet l ∖ {[fd]})).
Definition IOListenerSelect_isFileDescriptorReady (fd : Z) (l : IOListenerSelect) : outcome bool :=
  FD_at fd (if bool_decide (fd ∈ m_clientsReadSet l) then true else false).

Definition IOListenerSelect_new (junk : IOListenerSelect) : IOListenerSelect :=
  IOListenerSelect_setTimeout 50000 (IOListenerSelect_reset junk).

(** [eventReady]: [::select] leaves in the set the watched descriptors below its first
    argument that can be read, and in the time limit what is left of it; [None] is a
    failure, which changes nothing. *)
Definition IOListenerSelect_eventReady (maxSocketDescriptor : Z) (found : option (gset Z * (Z * Z))) (l : IOListenerSelect)
    : outcome (IOListenerSelect * Z) :=
  nfds ← int_add maxSocketDescriptor 1;
  match found with
  | None => Ok (l, -1)
  | Some (readable, (sec, usec)) =>
      let ready := filter (λ fd, fd < nfds ∧ fd ∈ readable) (m_clientsReadSet l) in
      Ok (mkIOListenerSelect sec usec ready, Z.of_nat (size ready))
  end.

(** * Theorems *)

Definition listening (s : SocketObject) : Prop :=
  sk_state (so_socket s) = SOCKET_LISTENING ∨ sk_state (so_socket s) = SOCKET_ACCEPTED.

Definition connects (a : AcceptRound) : bool := Socket_select (ar_ready a) && negb (ar_descriptor a <? 0).

Lemma accept_connection_peer ready fd s k : listening s →
  ∃ s' k', accept_connection ready fd s k =
    (s', k', if Socket_select ready && negb (fd <? 0) then Some (mkSocket fd SOCKET_CONNECTED) else None) ∧ listening s'.
Proof.
  intros Hs. unfold accept_connection, Socket_accept. rewrite bool_decide_false by (intros [? ?]; destruct Hs; congruence).
  destruct (Socket_select ready) eqn:Er, (fd <? 0) eqn:Ef; simpl.
  all: try rewrite bool_decide_false by (intros [? ?]; destruct Hs; congruence).
  all: eexists _, _; split; [reflexivity|]; destruct Hs; unfold listening; simpl; eauto.
Qed.

(** A round with a connection does not end: the pointer to the client's thread is null. *)
Lemma accept_round_connects a t w k T : listening (tp_socket t) → tp_peerSockets t = [] → tp_peerSocketsConnectionFlags t = [] →
  ar_stopping a = false → connects a = true → accept_round a (t, w, k, T) = Undef NullDeref.
Proof.
  intros Hl Hp Hf Hs Hc. unfold accept_round. rewrite Hs.
  destruct (accept_connection_peer (ar_ready a) (ar_descriptor a) (tp_socket t) k Hl) as (s' & k' & -> & _).
  unfold connects in Hc. rewrite Hc. simpl. by rewrite Hp, Hf.
Qed.

Lemma accept_round_idle a t w k T : listening (tp_socket t) → ar_stopping a = false → connects a = false →
  ∃ s' k', accept_round a (t, w, k, T) =
    Ok (Some (mkTCPServerThreadPerClient (tp_acceptTimeout t) (tp_isStopping t) (tp_peerSockets t)
                (tp_peerSocketsConnectionFlags t) s' (tp_acceptorThread t) (tp_clientThreads t), w, k', T)) ∧ listening s'.
Proof.
  intros Hl Hs Hc. unfold accept_round. rewrite Hs.
  destruct (accept_connection_peer (ar_ready a) (ar_descriptor a) (tp_socket t) k Hl) as (s' & k' & -> & Hl').
  unfold connects in Hc. rewrite Hc. by eexists s', k'.
Qed.

(** The loop of the acceptor's thread, over any rounds with a stop among them: it ends
    normally exactly when no client connects before it is told to stop, and with the first
    client that does, it follows the null pointer. *)
Fixpoint client_before_stop (rounds : list AcceptRound) : bool :=
  match rounds with
  | [] => false
  | a :: rounds' => if ar_stopping a then false else connects a || client_before_stop rounds'
  end.

Theorem acceptThread_outcome rounds t w k T :
  listening (tp_socket t) → tp_peerSockets t = [] → tp_peerSocketsConnectionFlags t = [] →
  existsb ar_stopping rounds = true →
  if client_before_stop rounds then acceptThread rounds (t, w, k, T) = Undef NullDeref
  else ∃ t' k', acceptThread rounds (t, w, k, T) = Ok (t', w, k', T) ∧
       tp_peerSockets t' = [] ∧ tp_clientThreads t' = tp_clientThreads t.
Proof.
  revert t k. induction rounds as [|a rounds IH]; intros t k Hl Hp Hf Hstop; [done|].
  cbn [existsb client_before_stop acceptThread] in Hstop |- *.
  destruct (ar_stopping a) eqn:Hs.
  { unfold accept_round. rewrite Hs. simpl. by exists t, k. }
  destruct (connects a) eqn:Hc; [by rewrite accept_round_connects|]. simpl orb in *.
  destruct (accept_round_idle a t w k T Hl Hs Hc) as (s' & k' & E & Hl'). rewrite E. cbn [mbind outcome_bind].
  specialize (IH (mkTCPServerThreadPerClient (tp_acceptTimeout t) (tp_isStopping t) (tp_peerSockets t)
    (tp_peerSocketsConnectionFlags t) s' (tp_acceptorThread t) (tp_clientThreads t)) k' Hl' Hp Hf Hstop).
  exact IH.
Qed.

(** Destroying a started server without [stop] deletes the acceptor's thread object while
    its pthread is not joined. *)
Lemma destroy_leaves_thread t T id : tp_acceptorThread t = Some id → tp_clientThreads t = [] →
  ts_objects (TCPServerThreadPerClient_destroy t T) !! id = None ∧
  ts_calls (TCPServerThreadPerClient_destroy t T) = ts_calls T.
Proof.
  intros Ha Hc. unfold TCPServerThreadPerClient_destroy. rewrite Ha, Hc. simpl. by rewrite lookup_delete_eq.
Qed.

(** [eventReady] tells the watched descriptors that can be read, and forgets the others:
    called again, it does not find one that has become ready since. *)
Theorem select_forgets l l' l'' maxfd n n' readable readable' left left' fd :
  0 <= fd < FD_SETSIZE → in_int (maxfd + 1) = true →
  IOListenerSelect_eventReady maxfd (Some (readable, left)) l = Ok (l', n) →
  IOListenerSelect_eventReady maxfd (Some (readable', left')) l' = Ok (l'', n') →
  (IOListenerSelect_isFileDescriptorReady fd l' = Ok true ↔ fd ∈ m_clientsReadSet l ∧ fd <= maxfd ∧ fd ∈ readable) ∧
  (fd ∉ readable → IOListenerSelect_isFileDescriptorReady fd l'' = Ok false).
Proof.
  intros Hfd Hmax E E'. unfold IOListenerSelect_eventReady in E, E'. rewrite int_add_Ok in E, E' by done.
  destruct left as [sec usec], left' as [sec' usec']. simpl in E, E'. simplify_eq.
  assert (∀ a : bool, FD_at fd a = Ok a) as Hat.
  { intros a. unfold FD_at. destruct (Z.leb_spec 0 fd), (Z.ltb_spec fd FD_SETSIZE); simpl; done || lia. }
  unfold IOListenerSelect_isFileDescriptorReady. rewrite !Hat. simpl. split.
  - case_bool_decide as Hin; rewrite elem_of_filter in Hin; split; intros H'; [intuition lia|done|done|].
    destruct Hin. intuition lia.
  - intros Hno. rewrite bool_decide_false; [done|]. rewrite !elem_of_filter. tauto.
Qed.

(** The time limit is cut to whole seconds; that of the constructor is none at all. *)
Lemma select_timeout microSeconds l junk :
  m_tv_usec (IOListenerSelect_setTimeout microSeconds l) = 0 ∧
  (0 <= microSeconds < 1000000 → m_tv_sec (IOListenerSelect_setTimeout microSeconds l) = 0) ∧
  m_tv_sec (IOListenerSelect_new junk) = 0 ∧ m_tv_usec (IOListenerSelect_new junk) = 0.
Proof. split_and!; try done. intros Hm. simpl. dlia. Qed.

(** A server that listens, a round that times out, one with a client, and a stop. *)
Definition demo_per_client : TCPServerThreadPerClient :=
  mkTCPServerThreadPerClient 5 false [] []
    (mkSocketObject (mkSocket 3 SOCKET_LISTENING) 32 (Some SOCKET_TYPE_TCP) (Address_new 0 0)) (Some 1) [].
Definition demo_rounds : list AcceptRound :=
  [mkAcceptRound false 0 0 10 11 None; mkAcceptRound false 1 4 10 11 (Some 77); mkAcceptRound true 0 0 10 11 None].

Lemma acceptThread_outcome_witness :
  acceptThread demo_rounds (demo_per_client, mkWorld ∅ [] [] ∅, mkKernel {[3 := 2]} [], Threads_empty) = Undef NullDeref.
Proof.
  exact (acceptThread_outcome demo_rounds demo_per_client (mkWorld ∅ [] [] ∅) (mkKernel {[3 := 2]} []) Threads_empty
    (or_introl eq_refl) eq_refl eq_refl eq_refl).
Defined.
