(* ===== verification/Diagnostics.v ===== *)
(** * [core/console_utility.h], [callstack.h], [pretty_exception.h], [trace.h],
    [environment.h]

    What the program writes to the console and to the system's log, and the macro that
    throws its exceptions. The macro prints the message with [core::format] before it
    throws, so the message is a format; the other components write a plain [Throw] for it,
    which [pretty_throws] justifies for messages without a percent sign. The texts of the
    frames and of [errno] are arguments. *)
From Stdlib Require Import ZArith Lia Ascii String.
From stdpp Require Import base decidable list.
From S2P Require Import Prelude.
From S2P Require Import MachineInt.
From S2P Require Import StringUtility.
Local Open Scope Z_scope.

Definition NEW_LINE : str := [ascii_of_nat 10].
Definition ESCAPE : ascii := ascii_of_nat 27.

(** ** [console_utility.h] *)

Inductive ConsoleColor : Type := FG_DEFAULT | FG_RED | FG_GREEN | FG_BLUE.

Definition NATIVE_CONSOLE_COLORS : list (ConsoleColor * Z) :=
  [(FG_DEFAULT, 0); (FG_RED, 31); (FG_GREEN, 32); (FG_BLUE, 34)].

Definition getAnsiColorCode (color : ConsoleColor) : str :=
  match color with
  | FG_DEFAULT => ESCAPE :: $"[0;31m"
  | FG_RED => ESCAPE :: $"[0;31m"
  | FG_GREEN => ESCAPE :: $"[0;32m"
  | FG_BLUE => ESCAPE :: $"[0;34m"
  end.

(** What goes to standard output. *)
Definition consoleOutputWithColor (foregroundColor : ConsoleColor) (message : str) (args : list fmt_arg) : outcome str :=
  buffer ← format message args;
  Ok (getAnsiColorCode foregroundColor ++ buffer ++ (ESCAPE :: $"[0m") ++ NEW_LINE).

(** ** [callstack.h] *)

Definition MAX_FRAME_NUMBER : Z := 128.
Definition DEFAULT_FRAME_NUMBER : Z := 32.

(** The lines of the frames from number [i] on; [messages] is null when
    [backtrace_symbols] fails. *)
Fixpoint frame_lines (fuel : nat) (i frameCount : Z) (messages : option (list str)) : outcome (list str) :=
  match fuel with
  | O => Ok []
  | S fuel' =>
      if i <? frameCount then
        match messages with
        | None => Undef NullDeref
        | Some messages =>
            message ← vec_at i messages;
            rest ← frame_lines fuel' (i + 1) frameCount (Some messages);
            Ok ((to_string (frameCount - i) ++ ($" : ") ++ message) :: rest)
        end
      else Ok []
  end.

(** The frames are those of the whole stack; [backtrace] gives the first [frameNumber]. *)
Definition getCallStack (frameNumber : Z) (frames : list str) (allocated : bool) : outcome (list str) :=
  if negb (frameNumber <=? MAX_FRAME_NUMBER) then Undef AssertionFailed
  else if frameNumber <? 0 then Throw LengthError
  else
    let messages := take (Z.to_nat frameNumber) frames in
    let frameCount := Z.of_nat (length messages) in
    frame_lines (length messages) 1 frameCount (if allocated then Some messages else None).

Definition getCallstackAsString (frameNumber : Z) (frames : list str) (allocated : bool) : outcome str :=
  callstack ← getCallStack frameNumber frames allocated;
  Ok (foldr (λ frame ret, frame ++ NEW_LINE ++ ret) [] callstack).

(** ** [pretty_exception.h] *)

Definition EXCEPTION_CALLSTACK_DEPTH : Z := 16.

Definition exception_message (typeName msg file line callstack : str) : str :=
  ($"Exception type : ") ++ typeName ++ NEW_LINE ++ NEW_LINE ++
  ($"Message : ") ++ msg ++ NEW_LINE ++ NEW_LINE ++
  ($"File : ") ++ file ++ ($"Line : ") ++ line ++ NEW_LINE ++ NEW_LINE ++
  ($"Callstack : ") ++ NEW_LINE ++ NEW_LINE ++ callstack ++ NEW_LINE ++ NEW_LINE.

(** The macro: what it prints, and the exception with the text of its [what]. *)
Definition THROW_PRETTY_EXCEPTION (msg : str) (e : exn) (typeName file line : str) (frames : list str) (allocated : bool)
    : outcome (str * exn * str) :=
  callstack ← getCallstackAsString EXCEPTION_CALLSTACK_DEPTH frames allocated;
  let message := exception_message typeName msg file line callstack in
  printed ← consoleOutputWithColor FG_RED (c_str message) [];
  Ok (printed, e, c_str message).

Definition THROW_PRETTY_RUNTIME_EXCEPTION (msg : str) := THROW_PRETTY_EXCEPTION msg RuntimeError ($"std::runtime_error").
Definition THROW_PRETTY_INVALID_ARG_EXCEPTION (msg : str) := THROW_PRETTY_EXCEPTION msg InvalidArgument ($"std::invalid_argument").
Definition THROW_PRETTY_LENGTH_EXCEPTION (msg : str) := THROW_PRETTY_EXCEPTION msg LengthError ($"std::length_error").

(** ** [trace.h], [environment.h] *)

(** [syslog] takes the formatted text as a format once more. *)
Definition trace (message : str) (args : list fmt_arg) : outcome str :=
  buffer ← format message args; snprintf (c_str buffer) [].

Definition getLastError (strerror : Z → str) (errno : Z) : str := c_str (strerror errno).

(** * Lemmas *)

Definition plain (s : str) : Prop := "%"%char ∉ s.

Lemma plain_app s t : plain s → plain t → plain (s ++ t).
Proof. unfold plain. rewrite not_elem_of_app. done. Qed.

Lemma plain_to_string k : plain (to_string k).
Proof. apply to_string_not_elem. by vm_compute; intros [?|?]. Qed.

Lemma plain_c_str s : plain s → plain (c_str s).
Proof. apply c_str_subset. Qed.

Ltac solve_plain :=
  repeat first [apply plain_app|apply plain_to_string|assumption|by apply (bool_decide_eq_true_1 (plain _))].

Lemma frame_lines_spec fuel i frameCount messages : Forall plain messages → 0 <= i →
  frameCount = Z.of_nat (length messages) →
  ∃ lines, frame_lines fuel i frameCount (Some messages) = Ok lines ∧ Forall plain lines.
Proof.
  intros Hm Hi ->. revert i Hi. induction fuel as [|fuel IH]; intros i Hi; cbn [frame_lines]; [by exists []|].
  destruct (Z.ltb_spec i (Z.of_nat (length messages))) as [Hlt|]; [|by exists []].
  destruct (lookup_lt_is_Some_2 messages (Z.to_nat i) ltac:(lia)) as [message Hmsg].
  rewrite <-(Z2Nat.id i Hi), (vec_at_nat _ _ _ Hmsg), Z2Nat.id by done. cbn [mbind outcome_bind].
  destruct (IH (i + 1) ltac:(lia)) as (lines & -> & Hl). eexists. split; [done|]. constructor; [|done].
  rewrite Forall_lookup in Hm. specialize (Hm _ _ Hmsg). solve_plain.
Qed.

(** The stack of a live process can be printed, and has no percent signs of its own. *)
Lemma callstack_plain frameNumber frames : Forall plain frames → 0 <= frameNumber <= MAX_FRAME_NUMBER →
  ∃ text, getCallstackAsString frameNumber frames true = Ok text ∧ plain text.
Proof.
  intros Hf Hn. unfold getCallstackAsString, getCallStack. destruct (Z.leb_spec frameNumber MAX_FRAME_NUMBER); [|lia].
  destruct (Z.ltb_spec frameNumber 0); [lia|]. cbn [negb].
  destruct (frame_lines_spec (length (take (Z.to_nat frameNumber) frames)) 1 (Z.of_nat (length (take (Z.to_nat frameNumber) frames)))
    (take (Z.to_nat frameNumber) frames)) as (lines & E & Hl); [by apply Forall_take|lia|done|].
  rewrite E. cbn [mbind outcome_bind]. eexists. split; [done|]. clear E. induction Hl as [|l lines Hpl _ IH]; cbn [foldr].
  - solve_plain.
  - solve_plain.
Qed.

(** The macro throws what it is told to, and prints as much of its message as the buffer
    holds, when none of the texts has a percent sign. *)
Theorem pretty_throws msg e typeName file line frames :
  plain msg → plain typeName → plain file → plain line → Forall plain frames →
  ∃ callstack what, getCallstackAsString EXCEPTION_CALLSTACK_DEPTH frames true = Ok callstack ∧
    what = c_str (exception_message typeName msg file line callstack) ∧
    THROW_PRETTY_EXCEPTION msg e typeName file line frames true =
      Ok ((ESCAPE :: $"[0;31m") ++ take 2047 what ++ (ESCAPE :: $"[0m") ++ NEW_LINE, e, what).
Proof.
  intros Hm Ht Hf Hl Hframes. destruct (callstack_plain EXCEPTION_CALLSTACK_DEPTH frames Hframes) as (cs & E & Hcs);
    [by unfold EXCEPTION_CALLSTACK_DEPTH, MAX_FRAME_NUMBER|].
  exists cs, (c_str (exception_message typeName msg file line cs)). split_and!; [done|done|].
  unfold THROW_PRETTY_EXCEPTION. rewrite E. cbn [mbind outcome_bind]. unfold consoleOutputWithColor.
  rewrite format_plain by (apply plain_c_str; unfold exception_message; solve_plain). cbn [mbind outcome_bind].
  assert (∀ s, c_str (c_str s) = c_str s) as Hcc.
  { intros s. induction s as [|c s IH]; [done|]. cbn. case_bool_decide as Hb; [done|]. cbn.
    rewrite bool_decide_false by done. by rewrite IH. }
  by rewrite Hcc.
Qed.

Lemma console_percent color pre c rest : plain pre → Ascii.zero ∉ pre → c ≠ "%"%char → c ≠ Ascii.zero →
  consoleOutputWithColor color (c_str (pre ++ "%"%char :: c :: rest)) [] = Undef FormatMismatch.
Proof.
  intros Hp Hz Hc Hc0. unfold consoleOutputWithColor, format.
  assert (c_str (pre ++ "%"%char :: c :: rest) = pre ++ "%"%char :: c :: c_str rest) as ->.
  { rewrite c_str_app by done. f_equal. cbn [c_str]. rewrite bool_decide_false by done. by rewrite bool_decide_false. }
  assert (∃ t, c_str (pre ++ "%"%char :: c :: c_str rest) = pre ++ "%"%char :: c :: t) as [t ->].
  { eexists. rewrite c_str_app by done. f_equal. cbn [c_str]. rewrite bool_decide_false by done. by rewrite bool_decide_false. }
  rewrite snprintf_app by done. cbn [snprintf]. rewrite bool_decide_true by done. repeat case_match; done.
Qed.

(** A percent sign in the message, for example in the name of a file that cannot be opened,
    makes the macro undefined: it is a conversion without an argument. *)
Theorem pretty_percent pre c rest e typeName file line frames callstack :
  plain pre → plain typeName → Ascii.zero ∉ pre → Ascii.zero ∉ typeName → c ≠ "%"%char → c ≠ Ascii.zero →
  getCallstackAsString EXCEPTION_CALLSTACK_DEPTH frames true = Ok callstack →
  THROW_PRETTY_EXCEPTION (pre ++ "%"%char :: c :: rest) e typeName file line frames true = Undef FormatMismatch.
Proof.
  intros Hp Ht Zp Zt Hc Hz E. unfold THROW_PRETTY_EXCEPTION. rewrite E. cbn [mbind outcome_bind].
  assert (∃ tail, exception_message typeName (pre ++ "%"%char :: c :: rest) file line callstack =
    (($"Exception type : ") ++ typeName ++ NEW_LINE ++ NEW_LINE ++ ($"Message : ") ++ pre) ++ "%"%char :: c :: tail) as [tail ->].
  { eexists. unfold exception_message. by rewrite <-!app_assoc. }
  rewrite console_percent; [done|solve_plain| |done|done].
  rewrite !not_elem_of_app. split_and!; try done; by apply (bool_decide_eq_true_1 (Ascii.zero ∉ _)).
Qed.

(** The two colours that are the same, and the depth that is refused. *)
Example default_is_red : getAnsiColorCode FG_DEFAULT = getAnsiColorCode FG_RED.
Proof. reflexivity. Qed.
Example call_stack_depth : getCallStack 129 [] true = Undef AssertionFailed.
Proof. reflexivity. Qed.
Example call_stack_text :
  getCallstackAsString 16 [$"a"; $"b"; $"c"] true = Ok (($"2 : b") ++ NEW_LINE ++ ($"1 : c") ++ NEW_LINE).
Proof. vm_compute. reflexivity. Qed.

Lemma pretty_percent_witness :
  THROW_PRETTY_EXCEPTION ($"File 100%.ini could not be opened") RuntimeError ($"std::runtime_error") ($"configuration.cpp") ($"27")
    [] true = Undef FormatMismatch.
Proof.
  apply (pretty_percent ($"File 100") "."%char ($"ini could not be opened") RuntimeError ($"std::runtime_error")
    ($"configuration.cpp") ($"27") [] []); try discriminate; try reflexivity.
  - by apply (bool_decide_eq_true_1 (plain _)).
  - by apply (bool_decide_eq_true_1 (plain _)).
  - by apply (bool_decide_eq_true_1 (Ascii.zero ∉ _)).
  - by apply (bool_decide_eq_true_1 (Ascii.zero ∉ _)).
Defined.
