(* ===== verification/Process.v ===== *)
(** * [core/self_process.h], the rest of [core/file_utility.h] and of
    [core/concurrency/thread.h], and [thread_wait_strategy.h]

    What the process asks the system about itself, directories, and waiting. The answers of
    the system are arguments; what is modelled is what the code makes of them. *)
From Stdlib Require Import ZArith Lia Ascii String.
From stdpp Require Import base decidable sets list gmap strings.
From S2P Require Import Prelude.
From S2P Require Import MachineInt.
From S2P Require Import StringUtility.
From S2P Require Import FixSequenceStore.
From S2P Require Import Threads.
Local Open Scope Z_scope.

(** ** Directories *)

(** [strrchr] on a C string: the position of the last occurrence. *)
Fixpoint strrchr (s : str) (c : ascii) : option nat :=
  match s with
  | [] => None
  | d :: s' =>
      match strrchr s' c with
      | Some i => Some (S i)
      | None => if bool_decide (d = c) then Some 0%nat else None
      end
  end.

(** The characters are copied into a vector without the zero at their end, so the C
    functions go on into the memory behind it, [beyond]; the zero is written where the
    last slash is, which may be there too. The address of the first element of an empty
    vector is no address. *)
Definition getDirectoryNameFromPath (beyond : str) (fullPath : str) : outcome str :=
  match fullPath with
  | [] => Undef IndexOutOfBounds
  | _ =>
      let path := c_str (fullPath ++ beyond) in
      match strrchr path "/"%char with
      | None => Ok path
      | Some i => if (i <? length fullPath)%nat then Ok (take i path) else Undef BufferOverflow
      end
  end.

(** 777 is in decimal. *)
Definition DIRECTORY_MODE : Z := 777.
Definition createDirectory (mkdir : str → Z → Z) (dirName : str) : bool :=
  if negb (mkdir (c_str dirName) DIRECTORY_MODE =? 0) then false else true.

Definition backupDirectory (rename : str → str → Z) (existingName newName targetDirectory : str) : bool :=
  let actualNewName := targetDirectory ++ ($"//") ++ newName in
  if negb (rename (c_str existingName) (c_str actualNewName) =? 0) then false else true.

(** ** [self_process.h] *)

(** The order of the constants is that of the enumeration. *)
Inductive ProcessPriority : Type :=
  | PROCESS_IDLE | PROCESS_BELOW_NORMAL | PROCESS_NORMAL | PROCESS_ABOVE_NORMAL | PROCESS_CRITICAL.

Definition getProcessPriorityFromString (input : str) : outcome ProcessPriority :=
  if bool_decide (input = ($"IDLE")) then Ok PROCESS_IDLE
  else if bool_decide (input = ($"BELOW_NORMAL")) then Ok PROCESS_BELOW_NORMAL
  else if bool_decide (input = ($"NORMAL")) then Ok PROCESS_NORMAL
  else if bool_decide (input = ($"ABOVE_NORMAL")) then Ok PROCESS_ABOVE_NORMAL
  else if bool_decide (input = ($"CRITICAL")) then Ok PROCESS_CRITICAL
  else Throw InvalidArgument.

Definition NATIVE_PROCESS_PRIORITIES : list (ProcessPriority * Z) :=
  [(PROCESS_IDLE, 19); (PROCESS_BELOW_NORMAL, 1); (PROCESS_NORMAL, 0); (PROCESS_ABOVE_NORMAL, -1); (PROCESS_CRITICAL, -20)].

Definition priority_index (priority : ProcessPriority) : Z :=
  match priority with
  | PROCESS_IDLE => 0 | PROCESS_BELOW_NORMAL => 1 | PROCESS_NORMAL => 2 | PROCESS_ABOVE_NORMAL => 3 | PROCESS_CRITICAL => 4
  end.

(** [setPriority] with what [setpriority] returns for a value. *)
Definition SelfProcess_setPriority (setpriority : Z → Z) (priority : ProcessPriority) : outcome bool :=
  node ← vec_at (priority_index priority) NATIVE_PROCESS_PRIORITIES;
  Ok (if negb (setpriority node.2 =? -1) then true else false).
Definition SelfProcess_getPriority (getpriority : Z) : Z := getpriority.
Definition amIAdmin (uid : Z) : bool := if uid =? 0 then true else false.

(** The variable [PATH] is what it returns; without it the string is made of a null pointer. *)
Definition getCurrentWorkingDirectory (getenv : str → option str) : outcome str :=
  match getenv ($"PATH") with Some temp => Ok (c_str temp) | None => Undef NullDeref end.

(** The current directory of the process; a failure of [chdir] changes nothing and is not
    looked at. *)
Definition setCurrentWorkingDirectory (chdir : str → bool) (dir : str) (cwd : str) : str :=
  if chdir (c_str dir) then c_str dir else cwd.

Definition tempBufferLength : Z := 1024.

(** [readlink] fills the buffer as far as it goes, or fails with -1; the zero is written at
    the index it returns. *)
Definition getCurrentExecutableDirectory (beyond : str) (readlink : str → option str) (pid : Z) : outcome str :=
  procAddress ← format ($"/proc/%d/exe") [FInt pid];
  match readlink procAddress with
  | None => Undef BufferOverflow
  | Some target =>
      let tempBuffer := take (Z.to_nat tempBufferLength) target in
      let bytes := Z.of_nat (length tempBuffer) in
      if tempBufferLength <=? bytes then Undef BufferOverflow
      else getDirectoryNameFromPath beyond (c_str tempBuffer)
  end.

(** ** The queries of [Thread] *)

Definition getRealPriority (sched_priority : Z) : Z := sched_priority.
Definition pinCallingThreadToCPUCore (setaffinity : Z → Z) (coreID : Z) : outcome Z :=
  if negb (0 <=? coreID) then Undef AssertionFailed else Ok (setaffinity coreID).
Definition getCurrentCoreID (cpu : Z) : Z := cpu.
(** [sysconf] returns a [long], kept in an [unsigned int]. *)
Definition getNumberOfCores (sysconf : Z) : Z := sysconf mod 4294967296.
(** The identity goes through an [int]. *)
Definition getCurrentThreadID (self : Z) : Z := to_size (to_int self).
(** The features of the CPU are the fourth register. *)
Definition isHyperThreading (edx : Z) : bool := if Z.land edx (Z.shiftl 1 28) =? 0 then false else true.

(** ** Waiting *)

Inductive WaitCall : Type := call_usleep (microseconds : Z) | call_pthread_yield.

(** [usleep] takes an [unsigned int]. *)
Definition Thread_sleep (microseconds : Z) : list WaitCall := [call_usleep (microseconds mod 4294967296)].
Definition Thread_yield : list WaitCall := [call_pthread_yield].

(** The interface [ThreadWaitStrategy], and its implementations. *)
Class ThreadWaitStrategy (S : Type) : Type := applyWaitStrategy : S → Z → list WaitCall.

Inductive SleepWaitStrategy : Type := mkSleepWaitStrategy.
Inductive YieldWaitStrategy : Type := mkYieldWaitStrategy.
Inductive BusyWaitStrategy : Type := mkBusyWaitStrategy.

#[export] Instance sleep_wait : ThreadWaitStrategy SleepWaitStrategy := λ _ argument, Thread_sleep argument.
#[export] Instance yield_wait : ThreadWaitStrategy YieldWaitStrategy := λ _ _, Thread_yield.
#[export] Instance busy_wait : ThreadWaitStrategy BusyWaitStrategy := λ _ _, [].

(** * Theorems *)

Lemma strrchr_none s c : c ∉ s → strrchr s c = None.
Proof.
  induction s as [|d s IH]; [done|]. rewrite not_elem_of_cons. intros [Hd Hs]. cbn [strrchr].
  rewrite IH by done. by rewrite bool_decide_false by congruence.
Qed.

Lemma strrchr_last s t c : c ∉ t → strrchr (s ++ c :: t) c = Some (length s).
Proof.
  intros Ht. induction s as [|d s IH]; cbn [app strrchr length].
  - rewrite strrchr_none by done. by rewrite bool_decide_true.
  - by rewrite IH.
Qed.

Lemma strrchr_app s t c j : strrchr t c = Some j → strrchr (s ++ t) c = Some (length s + j)%nat.
Proof. intros E. induction s as [|d s IH]; cbn [app strrchr length]; [done|]. by rewrite IH. Qed.

Lemma strrchr_app_none s t c : strrchr t c = None → strrchr (s ++ t) c = strrchr s c.
Proof. intros E. induction s as [|d s IH]; cbn [app strrchr]; [done|]. by rewrite IH. Qed.

(** What the directory of a path is, by the memory behind the copy. When no slash is there
    before the first zero, it is what comes before the last slash of the path; but a path
    without a slash gives itself and the bytes behind it. When there is one, the zero is
    written behind the copy. *)
Theorem directory_of_path pre base beyond :
  Ascii.zero ∉ pre ++ "/"%char :: base → "/"%char ∉ base →
  match strrchr (c_str beyond) "/"%char with
  | None =>
      getDirectoryNameFromPath beyond (pre ++ "/"%char :: base) = Ok pre ∧
      (base ≠ [] → getDirectoryNameFromPath beyond base = Ok (base ++ c_str beyond))
  | Some _ => getDirectoryNameFromPath beyond (pre ++ "/"%char :: base) = Undef BufferOverflow
  end.
Proof.
  intros Hz Hb.
  assert (∀ s, s ≠ [] → Ascii.zero ∉ s → getDirectoryNameFromPath beyond s =
    match strrchr (s ++ c_str beyond) "/"%char with
    | None => Ok (s ++ c_str beyond)
    | Some i => if (i <? length s)%nat then Ok (take i (s ++ c_str beyond)) else Undef BufferOverflow
    end) as Hdef by (intros s Hne Hs; rewrite <-c_str_app by done; by destruct s).
  assert (pre ++ "/"%char :: base ≠ []) as Hne by by destruct pre.
  destruct (strrchr (c_str beyond) "/"%char) as [j|] eqn:E.
  - rewrite Hdef, (strrchr_app _ _ _ j) by done.
    destruct (Nat.ltb_spec (length (pre ++ "/"%char :: base) + j) (length (pre ++ "/"%char :: base))); [lia|done].
  - split.
    + rewrite Hdef, strrchr_app_none, strrchr_last by done. rewrite length_app. cbn [length].
      destruct (Nat.ltb_spec (length pre) (length pre + S (length base))); [|lia]. by rewrite <-app_assoc, take_app_length.
    + intros Hbne. rewrite not_elem_of_app, not_elem_of_cons in Hz. destruct Hz as (_ & _ & Hz).
      by rewrite Hdef, strrchr_app_none, strrchr_none by done.
Qed.

(** The permissions of a new directory: its owner can list it, but neither enter it nor
    make files in it. *)
Lemma directory_permissions :
  Z.testbit DIRECTORY_MODE 8 = true ∧ Z.testbit DIRECTORY_MODE 7 = false ∧ Z.testbit DIRECTORY_MODE 6 = false.
Proof. vm_compute. by split_and!. Qed.

(** The five names of priorities, the value each sets, and what else throws. *)
Lemma process_priority_values setpriority input :
  (priority ← getProcessPriorityFromString input; SelfProcess_setPriority setpriority priority) =
  match list_find (λ nv : str * Z, nv.1 = input)
    [($"IDLE", 19); ($"BELOW_NORMAL", 1); ($"NORMAL", 0); ($"ABOVE_NORMAL", -1); ($"CRITICAL", -20)] with
  | Some (_, (_, value)) => Ok (negb (setpriority value =? -1))
  | None => Throw InvalidArgument
  end.
Proof.
  unfold getProcessPriorityFromString. repeat (case_bool_decide; [subst; vm_compute; by repeat case_match|]).
  match goal with |- context [list_find ?P ?l] => assert (list_find P l = None) as -> end; [|done].
  apply list_find_None. rewrite !Forall_cons. split_and!; [..|apply Forall_nil; done]; intros E; cbn [fst] in E; congruence.
Qed.

(** The identity of a thread keeps 32 bits: threads whose [pthread_t] agree in them have
    one identity. *)
Lemma thread_id_collides self self' :
  getCurrentThreadID self = getCurrentThreadID self' ↔ self mod 4294967296 = self' mod 4294967296.
Proof. unfold getCurrentThreadID, to_size, to_int, SIZE_MOD, INT_MIN. dlia. Qed.

Lemma isHyperThreading_bit edx : isHyperThreading edx = Z.testbit edx 28.
Proof.
  unfold isHyperThreading. rewrite Z.shiftl_1_l. destruct (Z.testbit edx 28) eqn:E.
  - destruct (Z.eqb_spec (Z.land edx (2 ^ 28)) 0) as [Ez|]; [|done].
    pose proof (f_equal (λ z, Z.testbit z 28) Ez) as Hb. cbv beta in Hb. by rewrite Z.land_spec, E, Z.pow2_bits_true, Z.bits_0 in Hb by lia.
  - destruct (Z.eqb_spec (Z.land edx (2 ^ 28)) 0) as [|Hne]; [done|]. destruct Hne. apply Z.bits_inj'. intros n Hn.
    rewrite Z.land_spec, Z.bits_0, Z.pow2_bits_eqb by lia. destruct (Z.eqb_spec 28 n) as [<-|]; [by rewrite E|apply andb_false_r].
Qed.

Lemma int_text_length z : in_int z = true → (length (to_string z) <= 11)%nat.
Proof.
  intros Hz%in_int_spec. unfold INT_MIN, INT_MAX in Hz. unfold to_string. destruct (Z.ltb_spec z 0); cbn [length].
  - pose proof (dec_length_le (- z) 10 ltac:(simpl Z.of_nat; lia) ltac:(lia)). lia.
  - pose proof (dec_length_le z 10 ltac:(simpl Z.of_nat; lia) ltac:(lia)). lia.
Qed.

(** The directory of the executable, when the buffer holds its path. *)
Lemma executable_directory beyond readlink pid pre base :
  readlink (($"/proc/") ++ to_string (to_int pid) ++ ($"/exe")) = Some (pre ++ "/"%char :: base) →
  Z.of_nat (length (pre ++ "/"%char :: base)) < tempBufferLength →
  Ascii.zero ∉ pre ++ "/"%char :: base → "/"%char ∉ base → strrchr (c_str beyond) "/"%char = None →
  getCurrentExecutableDirectory beyond readlink pid = Ok pre.
Proof.
  intros Hl Hlen Hz Hb Hbeyond. unfold getCurrentExecutableDirectory.
  assert (format ($"/proc/%d/exe") [FInt pid] = Ok (($"/proc/") ++ to_string (to_int pid) ++ ($"/exe"))) as ->.
  { unfold format. replace (snprintf (c_str ($"/proc/%d/exe")) [FInt pid])
      with (Ok (A := str) (($"/proc/") ++ to_string (to_int pid) ++ ($"/exe"))) by reflexivity.
    cbn [mbind outcome_bind]. f_equal. apply take_ge. rewrite !length_app. pose proof (int_text_length (to_int pid) (to_int_range pid)).
    unfold MAX_BUFFER_SIZE. simpl length. lia. }
  cbn [mbind outcome_bind]. rewrite Hl, take_ge by lia. destruct (Z.leb_spec tempBufferLength (Z.of_nat (length (pre ++ "/"%char :: base)))); [lia|].
  rewrite c_str_plain by done. pose proof (directory_of_path pre base beyond Hz Hb) as Hd. rewrite Hbeyond in Hd. apply Hd.
Qed.
