(* ===== verification/UnitTests.v ===== *)
(** * [src/unit_test]: the repository's tests, on the model

    Each test is a definition that runs the operations it calls and returns what it
    compares; that it passes is an evaluation, or, where its threads may interleave, a
    theorem over the interleavings. The tests of the two queues of [test_concurrency.h] do
    not hold for every interleaving: one reads the queue once, whatever has been pushed by
    then, and one has eight producers on a queue for one. That of the pool passes when its
    pauses are long enough for the jobs. *)
From Stdlib Require Import ZArith Lia Ascii String.
From stdpp Require Import base decidable sets list gmap strings relations.
From S2P Require Import Prelude.
From S2P Require Import MachineInt.
From S2P Require Import StringUtility.
From S2P Require Import DateTime.
From S2P Require Import Double.
From S2P Require Import Multimap.
From S2P Require Import SecurityManager.
From S2P Require Import Order.
From S2P Require Import OrderBook.
From S2P Require Import Fifo.
From S2P Require Import RingBuffer.
From S2P Require Import RingBufferConcurrent.
From S2P Require Import FixConstants.
From S2P Require Import FixMessage.
From S2P Require Import FixSequenceStore.
From S2P Require Import Configuration.
From S2P Require Import QueueMPSC.
From S2P Require Import SpinLock.
From S2P Require Import ServerConfiguration.
From S2P Require Import Threads.
From S2P Require Import ThreadPool.
From S2P Require Import SingleInstance.
Local Open Scope Z_scope.

(** ** [test_utility.h] *)

(** [TEST(Utility, SingleInstance)], as one of the processes of a machine. *)
Definition test_SingleInstance {FS} `{LockingFileSystem FS} (home : option str) (pid : Z) (fs : FS) : outcome bool :=
  '(b, singleton, fs) ← SingleInstance_call home pid fs; Ok b.

Definition test_config_txt : str :=
  ($"#test") ++ [chr 10] ++ ($"THREAD_STACK_SIZE=0") ++ [chr 10] ++ ($"SYMBOL[]=MSFT") ++ [chr 10] ++ ($"SYMBOL[]=AAPL").

(** [TEST(Utility, ConfigFile)]: the text it compares with 0. *)
Definition test_ConfigFile `{!EqualRange} (fs : files) : outcome str :=
  x ← Configuration_loadFromFile ($"./test_config.txt") fs;
  Ok (c_str (getStringValue ($"THREAD_STACK_SIZE") [] x)).

(** [TEST(Utility, ReplaceInString)] *)
Definition test_ReplaceInString : str := c_str (replaceInString ($"xxxyyxx") ($"yy") ($"jjj")).2.

Example test_SingleInstance_passes : test_SingleInstance demo_home 7 no_files = Ok true.
Proof. vm_compute. reflexivity. Qed.

Example test_ConfigFile_passes `{!EqualRange} :
  test_ConfigFile {[ $"./test_config.txt" := test_config_txt ]} = Ok ($"0").
Proof.
  unfold test_ConfigFile, Configuration_loadFromFile. rewrite lookup_singleton_eq.
  set (loaded := load_configuration _ _). vm_compute in loaded. subst loaded. cbn [mbind outcome_bind].
  set (config := mkConfiguration _). unfold getStringValue.
  pose proof (equal_range_perm ($"THREAD_STACK_SIZE") config) as Hp.
  replace (values_of ($"THREAD_STACK_SIZE") config) with [$"0"] in Hp by (vm_compute; reflexivity).
  apply Permutation_sym, Permutation_singleton_l in Hp. by rewrite <-Hp.
Qed.

Example test_ReplaceInString_passes : test_ReplaceInString = $"xxxjjjxx".
Proof. vm_compute. reflexivity. Qed.

(** ** [test_fix.h] *)

(** [TEST(Fix, FixMessage)] with the time's text [now]: the four expectations. *)
Definition test_FixMessage `{!BodyOrder} (junk : Z) (now : str) : outcome (list bool) :=
  let fixMessage := FixMessage_new junk in
  let fixMessage := setFixVersion FIX_4_2 fixMessage in
  let fixMessage := setMessageType NEW_ORDER fixMessage in
  let fixMessage := setSenderCompId ($"SENDER") fixMessage in
  let fixMessage := setTargetCompId ($"TARGET") fixMessage in
  let fixMessage := setTag FIX_TAG_SENDING_TIME now fixMessage in
  '(fixMessage, fixString) ← FixMessage_toString fixMessage [];
  Ok (contains fixString <$> [$"35=D"; $"8=FIX.4.2"; $"49=SENDER"; $"56=TARGET"]).

Example test_FixMessage_passes :
  @test_FixMessage demo_BodyOrder 99
    (getUtcDatetime (λ _, mkTM 0 0 0 0 0 0) (λ _ _, []) MICROSECONDS 1451643630123456000 1451643630123456000) =
  Ok [true; true; true; true].
Proof. vm_compute. reflexivity. Qed.

(** ** [test_order_matcher.h] *)

(** [TEST(OrderMatcher, OrderBook)]: the two sizes and whether the book is empty. *)
Definition test_OrderBook : outcome (nat * nat * bool) :=
  let '(_, securityId) := SecurityManager_addSecurity SecurityManager_empty ($"TEST") in
  let orderSell := Order_new 1 [] securityId 0 SELL LIMIT (of_long 100) 2 in
  let orderBuy1 := Order_new 1 [] securityId 0 BUY LIMIT (of_long 200) 1 in
  let orderBuy2 := Order_new 1 [] securityId 0 BUY LIMIT (of_long 100) 1 in
  let book := OrderBook_insert orderBuy1 (OrderBook_insert orderSell OrderBook_empty) in
  '(book, processedOrders, _) ← OrderBook_processMatching book [];
  let book := OrderBook_insert orderBuy2 book in
  '(book, processedOrders', _) ← OrderBook_processMatching book [];
  Ok (length processedOrders, length processedOrders', OrderBook_isEmpty book).

Example test_OrderBook_passes : test_OrderBook = Ok (2%nat, 2%nat, true).
Proof. vm_compute. reflexivity. Qed.

(** ** [test_concurrency.h] *)

(** [TEST(Concurrency, Thread)]: the new thread runs [worker::run]; [created] is the pthread
    that the system makes, if it makes one. *)
Definition worker_run (val : Z) : outcome Z := int_add val 1.

Definition test_Thread (junk : Z) (created : option Z) : outcome Z :=
  let testVal := 665 in
  T ← Thread_setTask (Some (Task_new junk)) 0 (Thread_new 0 [] Threads_empty);
  T ← Thread_start 0 created 0 T;
  testVal ← worker_run testVal;
  T ← Thread_internalThreadFunction (inl 0) 0 T;
  _ ← Thread_join 0 T;
  Ok testVal.

(** [TEST(Concurrency, Actor)], up to the destruction of the actor. *)
Definition fred_run (foo : Z) : outcome Z := int_add foo 1.

Definition test_Actor (junk : Z) (created : option Z) : outcome Z :=
  '(T, f) ← Actor_new 0 junk [] Threads_empty;
  T ← Thread_start 0 created (ac_thread f) T;
  foo ← fred_run 0;
  T ← Thread_internalThreadFunction (inl 0) (ac_thread f) T;
  T ← Thread_join (ac_thread f) T;
  _ ← Actor_delete f T;
  Ok foo.

(** [TEST(Concurrency, ThreadPool)]: the pool, and the jobs that its workers run. A job is
    the index it writes at. *)
Definition test_pool_args : ThreadPoolArguments :=
  mkThreadPoolArguments true true 1024 0 NORMAL [$"a"; $"b"; $"c"; $"d"].

Definition test_pool_start (pp : PoolPlatform) : outcome (ThreadPool (RingBuffer nat) * Threads) :=
  ThreadPool_initialise (RingBuffer_new 0%nat) pp test_pool_args ThreadPool_new Threads_empty.

Definition ThreadPoolJob_run (index : nat) (array : list Z) : list Z := <[index := 1]> array.

Record TestPool (TQ : Type) : Type := mkTestPool {
  tp_submitted : nat;
  tp_queues : list TQ;
  tp_workArray : list Z
}.
Arguments mkTestPool {TQ}. Arguments tp_submitted {TQ}. Arguments tp_queues {TQ}. Arguments tp_workArray {TQ}.

Definition expectedSum : Z := 4.
Definition actualSum {TQ} (s : TestPool TQ) : outcome Z :=
  foldl (λ actualSum val, actualSum ← actualSum; int_add actualSum val) (Ok 0) (tp_workArray s).

(** The test submits the next job, or worker [i] runs one: the pauses order nothing. *)
Inductive test_pool_step {TQ} `{!Fifo nat TQ} : TestPool TQ → TestPool TQ → Prop :=
  | test_pool_submit i queues q q' array :
      (i < 4)%nat → queues !! i = Some q → fifo_tryPush i q = Ok (q', true) →
      test_pool_step (mkTestPool i queues array) (mkTestPool (S i) (<[i := q']> queues) array)
  | test_pool_work n i queues q q' index array :
      queues !! i = Some q → fifo_tryPop q = Ok (q', Some index) →
      test_pool_step (mkTestPool n queues array) (mkTestPool n (<[i := q']> queues) (ThreadPoolJob_run index array)).

(** [TEST(Concurrency, Spinlock)]: what each thread does between [lock] and [unlock], the
    increment of the shared [int] as a read and a write. *)
Definition increment_read (x : Z * Z) : outcome (Z * Z) := Ok (x.1, x.1).
Definition increment_write (x : Z * Z) : outcome (Z * Z) := n ← int_add x.2 1; Ok (n, x.2).
Definition increment_body (op : unit) : list (Z * Z → outcome (Z * Z)) := [increment_read; increment_write].

(** [TEST(Concurrency, QueueMPSC)], where the reader comes after the first [before] of the
    pushes: what it adds up. The node of the [i]-th value is at the address [i]. *)
Definition test_values : list Z := [4; 5; 7; 2; 6; 7; 8; 9].

Fixpoint push_values (node : Z) (values : list Z) (mqueue : QueueMPSC Z) : outcome (QueueMPSC Z) :=
  match values with
  | [] => Ok mqueue
  | n :: values' => mqueue ← QueueMPSC_push node n mqueue; push_values (node + 1) values' mqueue
  end.

Definition test_QueueMPSC (before : nat) (values : list Z) : outcome Z :=
  mqueue ← push_values 1 (take before values) (QueueMPSC_new 0);
  '(mqueue, node) ← QueueMPSC_flush mqueue;
  data ← read_nodes (length values) node mqueue;
  mqueue ← push_values (1 + Z.of_nat (length (take before values))) (drop before values) mqueue;
  Ok (list_sum_Z data).

(** [TEST(Concurrency, RingBufferSPSCLockFree)]: the threads that push. *)
Definition test_RingBuffer_start : QueueSystem Z := initial 0 19 ((λ n, [n]) <$> test_values).

(** * Theorems *)

Lemma increments_sum (ops : list (unit * Z)) a b : run_ops increment_body (λ _, 0) ops a b → b = a + Z.of_nat (length ops).
Proof.
  revert a. induction ops as [|[[] l] ops IH]; intros a; cbn [run_ops length]; [lia|].
  intros (s1 & E & Hrest). apply IH in Hrest as ->. unfold run_op, increment_body in E.
  cbn [SpinLock.run increment_read mbind outcome_bind fst] in E. unfold increment_write, int_add in E.
  cbn [fst snd] in E. destruct (in_int (a + 1)); cbn in E; simplify_eq. lia.
Qed.

(** The test of the spin lock passes for every interleaving: any number of threads that
    increment a shared [int] under the lock leave in it the number of increments that were
    made, whenever no thread is inside. *)
Theorem test_Spinlock_passes junk (y : SpinLock.system Z Z unit) :
  rtc (locked_step increment_body (λ _, 0)) (locked_start (SpinLock_new junk) 0) y →
  (∀ t, ¬ inside (sy_threads y t)) → sy_shared y = Z.of_nat (length (sy_done y)).
Proof.
  intros Hreach Hquiet. pose proof (locked_inv_reachable _ _ _ _ _ Hreach
    (locked_start_inv increment_body (λ _, 0) (SpinLock_new junk) 0 eq_refl)) as Hinv.
  unfold locked_inv in Hinv. destruct (m_flag (sy_lock y)).
  - destruct Hinv as (t & op & bf & rest & l & s & Ht & _). destruct (Hquiet t). by rewrite Ht.
  - destruct Hinv as [_ Hrun]. by apply increments_sum in Hrun.
Qed.

(** The test of the unbounded queue passes only when the reader's one [flush] comes after
    all the pushes: it adds up the values that were there by then. *)
Theorem test_QueueMPSC_outcome before : (before <= 8)%nat →
  test_QueueMPSC before test_values = Ok (list_sum_Z (take before test_values)) ∧
  (list_sum_Z (take before test_values) = list_sum_Z test_values ↔ before = 8%nat).
Proof.
  intros Hb. do 9 (destruct before as [|before]; [vm_compute; split; [reflexivity|split; intros; done || lia]|]). lia.
Qed.

(** The test of the ring buffer can wait for ever: its eight producers share a queue for
    one. Here the first two write the same slot, so that of the eight values that were
    pushed seven are in the queue, and the eighth consumer finds none. *)
Theorem test_RingBuffer_loses : ∃ s : QueueSystem Z,
  rtc RingBufferConcurrent.step test_RingBuffer_start s ∧ length (qs_pushed s) = 8%nat ∧
  Forall (λ p, p_todo p = []) (qs_producers s) ∧ length (rb_list (qs_rb s)) = 7%nat.
Proof.
  exists (state_after ([Some 0; Some 1; Some 0; Some 1; Some 0; Some 1; Some 0; Some 1]%nat ++
    ([2; 3; 4; 5; 6; 7]%nat ≫= λ i, replicate 4 (Some i))) test_RingBuffer_start).
  split; [apply state_after_reachable; vm_compute; reflexivity|].
  vm_compute. split_and!; try reflexivity. repeat constructor.
Qed.

(** The tests of a thread and of an actor pass exactly when the system makes the thread;
    otherwise they end with the exception of [start]. *)
Theorem test_Thread_outcome junk created :
  test_Thread junk created = match created with Some _ => Ok 666 | None => Throw RuntimeError end ∧
  test_Actor junk created = match created with Some _ => Ok 1 | None => Throw RuntimeError end.
Proof. by destruct created. Qed.

(** *** The test of the pool *)

Section pool_test.
Context {TQ : Type} `{!Fifo nat TQ} `{!FifoLaws nat TQ} (junk : list Z) (Hjunk : length junk = 4%nat).

(** A job is still to be submitted, waits in its queue, or has run. *)
Inductive job_state (s : TestPool TQ) (i : nat) (q : TQ) : Prop :=
  | job_to_come : (tp_submitted s <= i)%nat → fifo_list q = [] → tp_workArray s !! i = junk !! i → job_state s i q
  | job_waits : (i < tp_submitted s)%nat → fifo_list q = [i] → tp_workArray s !! i = junk !! i → job_state s i q
  | job_done : (i < tp_submitted s)%nat → fifo_list q = [] → tp_workArray s !! i = Some 1 → job_state s i q.

Record test_pool_inv (s : TestPool TQ) : Prop := {
  tpi_array : length (tp_workArray s) = 4%nat;
  tpi_queues : length (tp_queues s) = 4%nat;
  tpi_jobs i q : tp_queues s !! i = Some q → fifo_inv q ∧ ((tp_submitted s <= i)%nat → fifo_room 1 q) ∧ job_state s i q
}.

Lemma test_pool_inv_start queues : length queues = 4%nat → Forall (λ q, fifo_room 1 q ∧ fifo_list q = []) queues →
  test_pool_inv (mkTestPool 0 queues junk).
Proof.
  intros Hl Hq. split; [done|done|]. intros i q Ei. eapply Forall_lookup in Hq as [Hr He]; [|exact Ei].
  split; [apply Hr|]. split; [done|]. apply job_to_come; cbn; [lia|done|done].
Qed.

Lemma test_pool_inv_step s s' : test_pool_inv s → test_pool_step s s' → test_pool_inv s'.
Proof.
  intros [Ha Hq Hj] Hstep. destruct Hstep as [i queues q q' array Hi Eq Hp|n i queues q q' index array Eq Hp]; cbn in *.
  - destruct (Hj i q Eq) as (Iq & Hr & Hs). destruct (Hr (Nat.le_refl _)) as (_ & Hc & Hl).
    destruct (fifo_push_room i q Iq) as (q1 & E1 & I1 & L1 & _); [lia|lia|]. rewrite Hp in E1. simplify_eq.
    destruct Hs as [_ Eq0 Ej|Hlt _ _|Hlt _ _]; cbn in *; [|lia|lia].
    split; cbn; [done|by rewrite length_insert|]. intros j qj Ejq. destruct (decide (i = j)) as [<-|Hne].
    + rewrite list_lookup_insert_eq in Ejq by lia. simplify_eq. split; [done|]. split; [lia|].
      apply job_waits; cbn; [lia|by rewrite L1, Eq0|done].
    + rewrite list_lookup_insert_ne in Ejq by done. destruct (Hj j qj Ejq) as (I2 & R2 & S2). split; [done|].
      split; [intros; apply R2; lia|]. destruct S2; cbn in *; [apply job_to_come|apply job_waits|apply job_done]; cbn; try done; lia.
  - destruct (Hj i q Eq) as (Iq & Hr & Hs). destruct (fifo_pop_inv q q' index Iq Hp) as (El & I' & _).
    destruct Hs as [_ E0 _|Hlt E0 Ej|_ E0 _]; cbn in *; [congruence| |congruence].
    rewrite El in E0. injection E0 as -> E0. pose proof (lookup_lt_Some _ _ _ Eq) as Hi.
    unfold ThreadPoolJob_run. split; cbn; [by rewrite length_insert|by rewrite length_insert|].
    intros j qj Ejq. destruct (decide (i = j)) as [<-|Hne].
    + rewrite list_lookup_insert_eq in Ejq by done. simplify_eq. split; [done|]. split; [lia|].
      apply job_done; cbn; [done|done|apply list_lookup_insert_eq; lia].
    + rewrite list_lookup_insert_ne in Ejq by done. destruct (Hj j qj Ejq) as (I2 & R2 & S2). split; [done|]. split; [done|].
      destruct S2; cbn in *; [apply job_to_come|apply job_waits|apply job_done]; cbn; try done; by rewrite list_lookup_insert_ne.
Qed.

Lemma test_pool_inv_reach s s' : rtc test_pool_step s s' → test_pool_inv s → test_pool_inv s'.
Proof. induction 1; eauto using test_pool_inv_step. Qed.

(** The test of the pool passes for every interleaving in which all four jobs have run when
    the pool shuts down; a job that has not run leaves its element as the memory was. *)
Theorem test_pool_outcome queues s : length queues = 4%nat → Forall (λ q, fifo_room 1 q ∧ fifo_list q = []) queues →
  rtc test_pool_step (mkTestPool 0 queues junk) s →
  (tp_submitted s = 4%nat → Forall (λ q, fifo_list q = []) (tp_queues s) → actualSum s = Ok expectedSum) ∧
  (∀ i q, tp_queues s !! i = Some q → (tp_submitted s <= i)%nat ∨ fifo_list q ≠ [] → tp_workArray s !! i = junk !! i).
Proof.
  intros Hl Hq Hreach. destruct (test_pool_inv_reach _ _ Hreach (test_pool_inv_start _ Hl Hq)) as [Ha Hn Hj]. split.
  - intros Hs He. assert (tp_workArray s = replicate 4 1) as E.
    { apply (list_eq_same_length _ _ 4); [done|done|]. intros i x y Hi Ex Ey. apply lookup_replicate in Ey as [-> _].
      destruct (lookup_lt_is_Some_2 (tp_queues s) i) as [q Eq]; [by rewrite Hn|]. destruct (Hj i q Eq) as (_ & _ & S).
      eapply Forall_lookup in He; [|exact Eq]. destruct S as [?|? E|? ? E]; [lia|congruence|congruence]. }
    unfold actualSum. by rewrite E.
  - intros i q Eq Hor. destruct (Hj i q Eq) as (_ & _ & S). destruct S as [|? ?|? E]; [done|done|].
    destruct Hor as [?|Hne]; [lia|by rewrite E in Hne].
Qed.
End pool_test.

(** The queues of the pool that the test starts are such. *)
Lemma test_pool_queues pp pool T : test_pool_start pp = Ok (pool, T) →
  length (m_threadQueues pool) = 4%nat ∧ Forall (λ q, fifo_room 1 q ∧ fifo_list q = []) (m_threadQueues pool).
Proof.
  intros E. assert (m_threadQueues pool = replicate 4 (RingBuffer_new 0%nat 1024)) as ->.
  { unfold test_pool_start, ThreadPool_initialise in E. cbn [length tp_threadNames test_pool_args Nat.eqb] in E.
    assert (∀ i p T1 p' T2, ThreadPool_addWorker (RingBuffer_new 0%nat) pp test_pool_args i p T1 = Ok (p', T2) →
      m_threadQueues p' = m_threadQueues p ++ [RingBuffer_new 0%nat 1024]) as Hone.
    { clear. intros i p T1 p' T2 R. unfold ThreadPool_addWorker in R. repeat (apply bind_Ok_inv in R as (? & _ & R); try case_match).
      all: by simplify_eq. }
    cbn [ThreadPool_addWorkers] in E.
    do 4 (apply bind_Ok_inv in E as ([? ?] & ?%Hone & E)). cbn [m_threadQueues ThreadPool_new app] in *. simplify_eq. repeat match goal with Hq : m_threadQueues ?x = _ |- context [m_threadQueues ?x] => rewrite Hq end. reflexivity. }
  split; [done|]. apply Forall_replicate. split; [|done]. split; [apply RingBuffer_new_inv; split; [done|vm_compute; discriminate]|].
  split; vm_compute; [discriminate|lia].
Qed.

(** ** A witness: two threads that meet *)

Definition demo_increments : SpinLock.system Z Z unit :=
  default (locked_start (SpinLock_new true) 0)
    (locked_run increment_body (λ _, 0)
      ((λ t, (t, tt)) <$> [0; 1; 0; 1; 0; 0; 1; 0; 1; 1; 1; 1]%nat) (locked_start (SpinLock_new true) 0)).

Lemma test_Spinlock_passes_witness : sy_shared demo_increments = 2.
Proof.
  rewrite (test_Spinlock_passes true demo_increments).
  - vm_compute. reflexivity.
  - unfold demo_increments. destruct (locked_run _ _ _ _) as [y|] eqn:E; [by eapply locked_run_reach|done].
  - intros t. destruct t as [|[|t]]; vm_compute; tauto.
Defined.
