(* ===== verification/Patterns.v ===== *)
(** * [core/design_patterns/observer.hpp], [singleton_static.hpp]

    The patterns that no component of the server uses: observers are attached by address
    and may dangle, and a static singleton is made at its first use. *)
From Stdlib Require Import ZArith Lia Ascii String.
From stdpp Require Import base decidable list gmap.
From S2P Require Import Prelude.
From S2P Require Import StringUtility.
Local Open Scope Z_scope.

(** ** [Observer] and [Observable] *)

(** The interface: what an event does to an observer, and what it throws. *)
Class Observer (O : Type) : Type := onEvent : str → O → outcome O.

Section observable.
Context {O : Type} `{Observer O}.

Record Observable : Type := mkObservable { m_observers : list Z }.
Definition Observable_new : Observable := mkObservable [].
Definition attach (observer : Z) (x : Observable) : Observable := mkObservable (m_observers x ++ [observer]).

(** The observers that live, by address. *)
Fixpoint notify_all (observers : list Z) (eventMessage : str) (live : gmap Z O) : outcome (gmap Z O) :=
  match observers with
  | [] => Ok live
  | p :: observers' =>
      match live !! p with
      | None => Undef UseAfterFree
      | Some o => o' ← onEvent eventMessage o; notify_all observers' eventMessage (<[p := o']> live)
      end
  end.
Definition notify (eventMessage : str) (x : Observable) (live : gmap Z O) : outcome (gmap Z O) :=
  notify_all (m_observers x) eventMessage live.

Lemma notify_all_app ps ps' e live :
  notify_all (ps ++ ps') e live = (live' ← notify_all ps e live; notify_all ps' e live').
Proof.
  revert live. induction ps as [|p ps IH]; intros live; cbn [app notify_all]; [done|].
  destruct (live !! p) as [o|]; [|done]. destruct (onEvent e o); cbn [mbind outcome_bind]; [apply IH|done..].
Qed.

(** The last observer attached is told last, after what the others did. *)
Lemma notify_attach e p x live :
  notify e (attach p x) live =
  (live' ← notify e x live; match live' !! p with None => Undef UseAfterFree | Some o => o' ← onEvent e o; Ok (<[p := o']> live') end).
Proof. unfold notify, attach. simpl. by rewrite notify_all_app. Qed.

(** Observers that do not throw, attached any number of times each: an observer is told
    once for each time it was attached, and those that were not are left alone. *)
Theorem notify_counts (f : O → O) e x live :
  (∀ o, onEvent e o = Ok (f o)) → (∀ p, p ∈ m_observers x → is_Some (live !! p)) →
  ∃ live', notify e x live = Ok live' ∧
    ∀ p, live' !! p = Nat.iter (length (filter (λ q, q = p) (m_observers x))) (fmap f) (live !! p).
Proof.
  intros Hf. unfold notify. destruct x as [ps]. cbn [m_observers]. revert live.
  induction ps as [|q ps IH]; intros live Hlive; cbn [notify_all]; [by exists live|].
  destruct (Hlive q ltac:(by left)) as [o Ho]. rewrite Ho, Hf. cbn [mbind outcome_bind].
  destruct (IH (<[q := f o]> live)) as (live' & -> & Hl).
  { intros p Hp. destruct (decide (p = q)) as [->|]; [rewrite lookup_insert_eq; by eexists|rewrite lookup_insert_ne by done; apply Hlive; by right]. }
  exists live'. split; [done|]. intros p. rewrite Hl, filter_cons. case_decide as Hqp.
  - subst q. rewrite lookup_insert_eq. cbn [length]. rewrite Nat.iter_succ_r, Ho. done.
  - by rewrite lookup_insert_ne.
Qed.
End observable.

(** ** [SingletonStatic] *)

(** The static object, made by its constructor at the first call, which the language
    serialises; the result is the object. *)
Definition SingletonStatic_getInstance {T} (make : T) (single_instance : option T) : option T * T :=
  match single_instance with None => (Some make, make) | Some x => (Some x, x) end.

Lemma singleton_static_once {T} (make make' : T) s :
  let '(s1, x) := SingletonStatic_getInstance make s in SingletonStatic_getInstance make' s1 = (s1, x).
Proof. by destruct s. Qed.
