(* ===== verification/Typing.v ===== *)
(** * The types of the exchange's numbers

    The models take C++ integers as [Z] and write out where they wrap or overflow. Here
    it is shown that the numbers an exchange keeps stay in the range of their C++ types,
    whatever is ordered: prices that are no numbers, negative quantities and unknown
    sides included. A queue is typed when every value in its memory is. *)
From Stdlib Require Import ZArith Lia Ascii String.
From stdpp Require Import base decidable sets list gmap strings.
From S2P Require Import Prelude.
From S2P Require Import MachineInt.
From S2P Require Import StringUtility.
From S2P Require Import Double.
From S2P Require Import Multimap.
From S2P Require Import SecurityManager.
From S2P Require Import Order.
From S2P Require Import OrderBook.
From S2P Require Import Fifo.
From S2P Require Import RingBuffer.
From S2P Require Import CentralOrderBook.
From S2P Require Import FixConstants.
From S2P Require Import FixMessage.
From S2P Require Import FixSequenceStore.
From S2P Require Import Network.
From S2P Require Import FixSession.
From S2P Require Import FixServerReactor.
From S2P Require Import FixMessageConverter.
From S2P Require Import OutgoingMessageProcessor.
From S2P Require Import Server.
Local Open Scope Z_scope.

(** ** Typed queues *)

Class FifoTyped (A Q : Type) `{!Fifo A Q} : Type := {
  fifo_typed : (A → Prop) → Q → Prop;
  fifo_typed_push (P : A → Prop) v q q' b : P v → fifo_typed P q → fifo_tryPush v q = Ok (q', b) → fifo_typed P q';
  fifo_typed_pop (P : A → Prop) q q' x : fifo_typed P q → fifo_tryPop q = Ok (q', x) →
    fifo_typed P q' ∧ match x with Some v => P v | None => True end
}.

Lemma fifo_push_typed {A Q} `{FifoTyped A Q} (P : A → Prop) fuel v q q' :
  P v → fifo_typed P q → fifo_push fuel v q = Ok q' → fifo_typed P q'.
Proof.
  intros Hv. revert q. induction fuel as [|fuel IH]; intros q Hq R; simpl in R; [done|].
  apply bind_Ok_inv in R as ([q1 b] & E & R). pose proof (fifo_typed_push P v q q1 b Hv Hq E). destruct b; [by simplify_eq|by eapply IH].
Qed.

(** The counters are [int]s, the capacity a [size_t]. *)
Record ring_typed {A} (P : A → Prop) (rb : RingBuffer A) : Prop := {
  rt_write : in_int (m_write rb) = true;
  rt_read : in_int (m_read rb) = true;
  rt_capacity : in_size (m_capacity rb) = true;
  rt_buffer : Forall P (m_buffer rb)
}.

Lemma int_add_typed a b c : int_add a b = Ok c → in_int c = true.
Proof. unfold int_add. case_match; intros; by simplify_eq. Qed.
Lemma long_add_typed a b c : long_add a b = Ok c → in_long c = true.
Proof. unfold long_add. case_match; intros; by simplify_eq. Qed.
Lemma long_sub_typed a b c : long_sub a b = Ok c → in_long c = true.
Proof. unfold long_sub. case_match; intros; by simplify_eq. Qed.
Lemma to_size_typed z : in_size (to_size z) = true.
Proof. apply in_size_spec. unfold to_size. apply Z.mod_pos_bound. done. Qed.

#[export] Instance RingBuffer_typed {A} : FifoTyped A (RingBuffer A).
Proof.
  refine {| fifo_typed := ring_typed |}.
  - intros P v rb rb' b Hv [Hw Hr Hc Hb] R. simpl in R. unfold RingBuffer_tryPush in R.
    apply bind_Ok_inv in R as (next & En & R). apply bind_Ok_inv in R as (room & _ & R). destruct room; [|by simplify_eq].
    apply bind_Ok_inv in R as (i & _ & R). simplify_eq. split; simpl; [by eapply int_add_typed|done|done|by apply Forall_insert].
  - intros P rb rb' x [Hw Hr Hc Hb] R. simpl in R. unfold RingBuffer_tryPop in R. destruct (_ =? _); [by simplify_eq|].
    apply bind_Ok_inv in R as (i & _ & R). destruct (m_buffer rb !! i) as [v|] eqn:Ev; [|done].
    apply bind_Ok_inv in R as (next & En & R). simplify_eq. split; [split; simpl; try done; by eapply int_add_typed|].
    by eapply Forall_lookup_1.
Defined.

(** ** Typed orders and books *)

Record order_typed (o : Order) : Prop := {
  ot_ids : in_size (m_orderID o) = true ∧ in_size (m_securityId o) = true ∧ in_size (m_sessionId o) = true;
  ot_quantity : in_long (m_quantity o) = true ∧ in_long (m_openQuantity o) = true;
  ot_executed : in_long (m_executedQuantity o) = true ∧ in_long (m_lastExecutedQuantity o) = true
}.

Definition side_typed (l : side_map) : Prop := Forall (λ e, order_typed e.2) l.
Definition book_typed (b : OrderBook) : Prop := side_typed (m_bidOrders b) ∧ side_typed (m_askOrders b).

Lemma insert_typed o b : order_typed o → book_typed b → book_typed (OrderBook_insert o b).
Proof.
  intros Ho [Hb Ha]. unfold OrderBook_insert. case_bool_decide; split; simpl; try done; by apply mm_insert_Forall.
Qed.

Lemma scan_typed P l i o : side_typed l → mm_scan P l = Some (i, o) → order_typed o.
Proof.
  intros Hl. revert i. induction Hl as [|e l He _ IH]; intros i; simpl; [done|]. case_match; [by intros; simplify_eq|].
  destruct (mm_scan P l) as [[j x]|]; simpl; intros; simplify_eq. by apply (IH j).
Qed.

Lemma find_typed c s side b p o : book_typed b → OrderBook_find c s side b = Some (p, o) → order_typed o.
Proof.
  intros [Hb Ha]. unfold OrderBook_find. destruct side; try done;
    (destruct (mm_scan _ _) as [[i x]|] eqn:E; simpl; intros; simplify_eq; eapply scan_typed; [|exact E]; done).
Qed.

Lemma alter_typed i o l : order_typed o → side_typed l → side_typed (mm_assign i o l).
Proof. intros Ho Hl. apply Forall_alter; [done|]. intros x _ _. exact Ho. Qed.

Lemma assign_typed p o b : order_typed o → book_typed b → book_typed (OrderBook_assign p o b).
Proof. intros Ho [Hb Ha]. unfold OrderBook_assign. destruct (ptr_bid p); split; simpl; try done; by apply alter_typed. Qed.

Lemma erase_typed o b : book_typed b → book_typed (OrderBook_erase o b).
Proof.
  intros [Hb Ha]. unfold OrderBook_erase. destruct (m_side o); repeat case_match; try done; split; simpl; try done;
    by apply Forall_delete.
Qed.

Lemma execute_typed p q o o' : order_typed o → in_long q = true → Order_execute p q o = Ok o' → order_typed o'.
Proof.
  intros [Hi Hq He] Hl R. unfold Order_execute in R. apply bind_Ok_inv in R as (t & _ & R).
  apply bind_Ok_inv in R as (x & Ex & R). apply bind_Ok_inv in R as (y & Ey & R). simplify_eq.
  split; simpl; [done| |]; split; try done; [apply Hq|by eapply long_sub_typed|by eapply long_add_typed].
Qed.

Lemma matchStep_typed b b' pushed : book_typed b → OrderBook_matchStep b = Ok (Some (b', pushed)) →
  book_typed b' ∧ Forall order_typed pushed.
Proof.
  intros [Hb Ha] R. unfold OrderBook_matchStep in R. destruct (m_bidOrders b) as [|[kb bid] bids]; [done|].
  destruct (m_askOrders b) as [|[ka ask] asks]; [done|]. case_match; [|done].
  apply bind_Ok_inv in R as ([x y] & E & R). simplify_eq. apply Forall_cons in Hb as [Hbid Hb]. apply Forall_cons in Ha as [Hask Ha].
  unfold OrderBook_matchTwoOrders in E. apply bind_Ok_inv in E as (x' & Ex & E). apply bind_Ok_inv in E as (y' & Ey & E). simplify_eq.
  assert (order_typed x) by (eapply execute_typed; [exact Hbid| |exact Ex]; case_match; [apply Hask|apply Hbid]).
  assert (order_typed y) by (eapply execute_typed; [exact Hask| |exact Ey]; case_match; [apply Hask|apply Hbid]).
  split; [|apply Forall_cons; split; [done|by apply Forall_singleton]].
  split; simpl; [destruct (Order_isFilled x)|destruct (Order_isFilled y)]; try done; by constructor.
Qed.

Lemma matchLoop_typed fuel b os b' os' r : book_typed b → Forall order_typed os →
  OrderBook_matchLoop fuel b os = Ok (b', os', r) → book_typed b' ∧ Forall order_typed os'.
Proof.
  revert b os. induction fuel as [|fuel IH]; intros b os Hb Hos R; simpl in R; [done|].
  apply bind_Ok_inv in R as ([[b1 pushed]|] & E & R); [|by simplify_eq].
  destruct (matchStep_typed _ _ _ Hb E). eapply IH; [| |exact R]; [done|by apply Forall_app].
Qed.

(** ** The typed exchange *)

Definition message_typed (m : OutgoingMessage) : Prop := order_typed (om_order m).
Definition task_typed (t : MatchTask) : Prop :=
  match t with TaskNewOrder o => order_typed o | TaskCancelOrder o _ => order_typed o end.

Lemma OutgoingMessage_typed o t m : order_typed o → message_typed (OutgoingMessage_new o t m).
Proof. intros [? ? ?]. by split. Qed.

Section exchange.
Context {MQ TQ : Type} `{!Fifo OutgoingMessage MQ} `{!FifoTyped OutgoingMessage MQ} `{!Fifo MatchTask TQ} `{!FifoTyped MatchTask TQ}.
Implicit Types cob : CentralOrderBook MQ TQ.

Record cob_typed cob : Prop := {
  ct_number : in_int (m_orderNumber cob) = true;
  ct_books sec b : m_orderBookDictionary cob !! sec = Some b → book_typed b;
  ct_queues : Forall (fifo_typed message_typed) (m_outgoingMessages cob);
  ct_tasks : Forall (fifo_typed task_typed) (m_threadQueues cob)
}.

Lemma queueID_typed sec cob : cob_typed cob → cob_typed (queueID_of sec cob).1.
Proof. intros [H1 H2 H3 H4]. unfold queueID_of. destruct (map_index _ _ _). by split. Qed.

Lemma push_outgoing_typed fuel i m cob cob' : message_typed m → cob_typed cob → push_outgoing fuel i m cob = Ok cob' →
  cob_typed cob'.
Proof.
  intros Hm [H1 H2 H3 H4] R. unfold push_outgoing in R. apply bind_Ok_inv in R as (q & Eq & R).
  apply bind_Ok_inv in R as (q' & E & R). simplify_eq. split; simpl; try done. apply Forall_insert; [done|].
  eapply fifo_push_typed; [exact Hm| |exact E]. apply vec_at_Ok in Eq as [_ Eq]. by eapply Forall_lookup_1.
Qed.

Lemma push_processed_typed fuel i os cob cob' : Forall order_typed os → cob_typed cob → push_processed fuel i os cob = Ok cob' →
  cob_typed cob'.
Proof.
  intros Hos. revert cob. induction Hos as [|o os Ho _ IH]; intros cob Hc R; simpl in R; [by simplify_eq|].
  apply bind_Ok_inv in R as (cob1 & E & R). eapply IH; [|exact R].
  eapply push_outgoing_typed; [|exact Hc|exact E]. by apply OutgoingMessage_typed.
Qed.

Lemma submit_typed fuel t i cob cob' : task_typed t → cob_typed cob → ThreadPool_submitTask fuel t i cob = Ok cob' → cob_typed cob'.
Proof.
  intros Ht [H1 H2 H3 H4] R. unfold ThreadPool_submitTask in R. case_match; [done|].
  apply bind_Ok_inv in R as (q & Eq & R). apply bind_Ok_inv in R as (q' & E & R). simplify_eq. split; simpl; try done.
  apply Forall_insert; [done|]. eapply fifo_push_typed; [exact Ht| |exact E]. apply vec_at_Ok in Eq as [_ Eq]. by eapply Forall_lookup_1.
Qed.

(** The book that [map_index] finds or inserts. *)
Lemma insert_typed_books sec b (d : gmap Z OrderBook) : book_typed b → (∀ k x, d !! k = Some x → book_typed x) →
  ∀ k x, <[sec := b]> d !! k = Some x → book_typed x.
Proof.
  intros Hb Hd k x. destruct (decide (k = sec)) as [->|Hne]; [rewrite lookup_insert_eq; intros; by simplify_eq|].
  rewrite lookup_insert_ne by done. apply Hd.
Qed.

Lemma book_index_typed sec cob d b : cob_typed cob → map_index sec OrderBook_empty (m_orderBookDictionary cob) = (d, b) →
  book_typed b ∧ ∀ k x, d !! k = Some x → book_typed x.
Proof.
  intros Hc E. unfold map_index in E. destruct (m_orderBookDictionary cob !! sec) as [b0|] eqn:Eb; simplify_eq.
  - split; [by eapply ct_books|]. intros k x. by apply ct_books.
  - assert (book_typed OrderBook_empty) by by split; constructor. split; [done|]. apply insert_typed_books; [done|].
    intros k x. by apply ct_books.
Qed.

Lemma with_books_typed d cob : cob_typed cob → (∀ k x, d !! k = Some x → book_typed x) → cob_typed (with_books d cob).
Proof. intros [H1 H2 H3 H4] Hd. by split. Qed.

Lemma taskNewOrder_typed fuel o cob cob' : order_typed o → cob_typed cob → CentralOrderBook_taskNewOrder fuel o cob = Ok cob' →
  cob_typed cob'.
Proof.
  intros Ho Hc R. unfold CentralOrderBook_taskNewOrder in R.
  pose proof (queueID_typed (m_securityId o) cob Hc) as Hc1. destruct (queueID_of (m_securityId o) cob) as [cob1 i]. simpl in Hc1.
  destruct (map_index _ _ _) as [d b] eqn:Em. destruct (book_index_typed _ _ _ _ Hc1 Em) as [Hb Hd].
  apply bind_Ok_inv in R as ([[b' os] x] & E & R).
  destruct (matchLoop_typed _ _ [] _ _ _ (insert_typed _ _ Ho Hb) (Forall_nil_2 _) E) as [Hb' Hos].
  eapply push_processed_typed; [exact Hos| |exact R]. apply with_books_typed; [done|by apply insert_typed_books].
Qed.

Lemma taskCancelOrder_typed fuel addr o orig cob cob' : order_typed o → cob_typed cob →
  CentralOrderBook_taskCancelOrder fuel addr o orig cob = Ok cob' → cob_typed cob'.
Proof.
  intros Ho Hc R. unfold CentralOrderBook_taskCancelOrder in R.
  pose proof (queueID_typed (m_securityId o) cob Hc) as Hc1. destruct (queueID_of (m_securityId o) cob) as [cob1 i]. simpl in Hc1.
  destruct (map_index _ _ _) as [d b] eqn:Em. destruct (book_index_typed _ _ _ _ Hc1 Em) as [Hb Hd].
  destruct (OrderBook_find _ _ _ _) as [[p found]|] eqn:Ef.
  - pose proof (find_typed _ _ _ _ _ _ Hb Ef) as Hf. assert (order_typed (Order_cancel found)) as Hcan by by destruct Hf.
    pose proof (assign_typed p _ _ Hcan Hb) as Hb1.
    apply bind_Ok_inv in R as (cob2 & E & R). simplify_eq.
    apply with_books_typed; [|apply insert_typed_books; [by apply erase_typed|done]].
    eapply push_outgoing_typed; [|apply with_books_typed; [exact Hc1|apply insert_typed_books; [exact Hb1|exact Hd]]|exact E].
    by apply OutgoingMessage_typed.
  - apply bind_Ok_inv in R as (text & _ & R). unfold CentralOrderBook_rejectOrder in R.
    pose proof (with_books_typed d cob1 Hc1 Hd) as Hc2.
    pose proof (queueID_typed (m_securityId o) _ Hc2) as Hc3. destruct (queueID_of _ (with_books d cob1)) as [cob3 j]. simpl in Hc3.
    eapply push_outgoing_typed; [|exact Hc3|exact R]. by apply OutgoingMessage_typed.
Qed.

Lemma addOrder_typed fuel o cob cob' o' b : order_typed o → cob_typed cob →
  CentralOrderBook_addOrder fuel o cob = Ok (cob', o', b) → cob_typed cob' ∧ order_typed o'.
Proof.
  intros Ho Hc R. unfold CentralOrderBook_addOrder in R. set (n := to_int (m_orderNumber cob + 1)) in *.
  assert (order_typed (Order_setOrderId (to_size n) o)) as Ho'.
  { destruct Ho as [(_ & ? & ?) ? ?]. split; try done. simpl. split; [apply to_size_typed|done]. }
  assert (cob_typed (with_orderNumber n cob)) as Hn by (destruct Hc; split; try done; apply to_int_range).
  set (sec := m_securityId _) in R. pose proof (queueID_typed sec _ Hn) as Hc1.
  destruct (queueID_of sec (with_orderNumber n cob)) as [cob1 i]. simpl in Hc1.
  apply bind_Ok_inv in R as (cob2 & E & R). assert (cob_typed cob2) as Hc2
    by (eapply push_outgoing_typed; [|exact Hc1|exact E]; by apply OutgoingMessage_typed).
  apply bind_Ok_inv in R as (cob3 & E3 & R). simplify_eq. split; [|done].
  destruct (m_isMatchingMultithreaded cob2); [by eapply (submit_typed _ (TaskNewOrder _))|by eapply taskNewOrder_typed].
Qed.

Lemma cancelOrder_typed fuel addr o orig cob cob' : order_typed o → cob_typed cob →
  CentralOrderBook_cancelOrder fuel addr o orig cob = Ok cob' → cob_typed cob'.
Proof.
  intros Ho Hc R. unfold CentralOrderBook_cancelOrder in R. destruct (m_isMatchingMultithreaded cob).
  - pose proof (queueID_typed (m_securityId o) cob Hc) as Hc1. destruct (queueID_of _ _) as [cob1 i]. simpl in Hc1.
    by eapply (submit_typed _ (TaskCancelOrder o orig)).
  - by eapply taskCancelOrder_typed.
Qed.

Lemma workerRound_typed fuel addr i cob cob' b : cob_typed cob → ThreadPool_workerRound fuel addr i cob = Ok (cob', b) →
  cob_typed cob'.
Proof.
  intros Hc R. unfold ThreadPool_workerRound in R. apply bind_Ok_inv in R as (q & Eq & R). apply vec_at_Ok in Eq as [_ Eq].
  apply bind_Ok_inv in R as ([q' popped] & E & R). destruct Hc as [H1 H2 H3 H4].
  destruct (fifo_typed_pop _ _ _ _ (Forall_lookup_1 _ _ _ _ H4 Eq) E) as [Hq' Hp].
  assert (cob_typed (with_threadQueues (<[Z.to_nat i := q']> (m_threadQueues cob)) cob)) as Hc1
    by (split; try done; by apply Forall_insert).
  destruct popped as [[o|o orig]|]; [| |by simplify_eq].
  - apply bind_Ok_inv in R as (cob2 & R & E2). simplify_eq. by eapply taskNewOrder_typed.
  - apply bind_Ok_inv in R as (cob2 & R & E2). simplify_eq. by eapply taskCancelOrder_typed.
Qed.

Lemma take_report_typed i q q' x cob : cob_typed cob → m_outgoingMessages cob !! i = Some q → fifo_tryPop q = Ok (q', x) →
  cob_typed (with_outgoing (<[i := q']> (m_outgoingMessages cob)) cob) ∧
  match x with Some m => order_typed (om_order m) | None => True end.
Proof.
  intros [H1 H2 H3 H4] Eq E. destruct (fifo_typed_pop _ _ _ _ (Forall_lookup_1 _ _ _ _ H3 Eq) E) as [Hq' Hx].
  split; [split; try done; by apply Forall_insert|]. by destruct x.
Qed.
End exchange.

(** ** Orders from messages *)

Definition securities_typed (sm : SecurityManager) : Prop :=
  ∀ s i, m_securitiesBySymbol sm !! s = Some i → in_size i = true.

Lemma convertCommonOrder_typed sm m o m' o' : securities_typed sm → order_typed o →
  convertCommonOrder sm m o = Ok (m', o') → order_typed o'.
Proof.
  intros Hsm [(H1 & H2 & H3) H4 H5] R. unfold convertCommonOrder in R. destruct (getTagValue FIX_TAG_SYMBOL m) as [m1 symbol].
  apply bind_Ok_inv in R as (sec & E & R). destruct (getTagValue FIX_TAG_CLIENT_ORDER_ID m1) as [m2 c]. simplify_eq.
  unfold SecurityManager_getSecurityId, map_at in E. case_match; simplify_eq. split; try done.
  simpl. split_and!; try done. by eapply Hsm.
Qed.

Lemma stol_typed s z : stol s = Ok z → in_long z = true.
Proof. unfold stol. repeat case_match; intros; by simplify_eq. Qed.

Lemma convertNewOrder_typed sm m o m' o' : securities_typed sm → order_typed o →
  convertNewOrder sm m o = Ok (m', o') → order_typed o'.
Proof.
  intros Hsm Ho R. unfold convertNewOrder in R. apply bind_Ok_inv in R as ([m1 o1] & E & R).
  pose proof (convertCommonOrder_typed _ _ _ _ _ Hsm Ho E) as [H1 H2 H3].
  apply bind_Ok_inv in R as ([m2 t] & _ & R). apply bind_Ok_inv in R as ([m3 side] & _ & R).
  apply bind_Ok_inv in R as ([m4 quantity] & Eq & R). apply bind_Ok_inv in R as ([m5 price] & _ & R). simplify_eq.
  assert (in_long quantity = true) as Hq.
  { unfold getTagValueAsLong in Eq. destruct (getTagValue _ _) as [m6 v]. apply bind_Ok_inv in Eq as (z & Ez & Eq). simplify_eq.
    by eapply stol_typed. }
  repeat case_match; split; simpl; try done.
Qed.

Lemma default_typed junk i : order_typed junk → in_size (Z.of_nat i) = true →
  order_typed (Order_setSessionId (Z.of_nat i) (Order_default junk)).
Proof. intros [(H1 & H2 & H3) H4 H5] Hi. by split. Qed.

Lemma offline_orders_typed sm junk ms orders orders' : securities_typed sm → order_typed junk →
  Forall (λ m, order_typed (im_order m)) orders → offline_orders sm junk ms orders = Ok orders' →
  Forall (λ m, order_typed (im_order m)) orders'.
Proof.
  intros Hsm Hj. assert (order_typed (Order_default junk)) as Hd by by destruct Hj as [(? & ? & ?) ? ?].
  revert orders. induction ms as [|m ms IH]; intros orders Ho R; simpl in R; [by simplify_eq|].
  assert (∀ o t, order_typed o → Forall (λ m, order_typed (im_order m)) (orders ++ [mkIncomingMessage o [] t])) as Happ
    by (intros o t Hto; apply Forall_app; split; [done|by apply Forall_singleton]).
  destruct (_ =? _); [|destruct (_ =? _)]; [| |by eapply IH].
  - apply bind_Ok_inv in R as ([m1 o1] & E & R). eapply IH; [|exact R]. apply Happ. by eapply convertNewOrder_typed.
  - apply bind_Ok_inv in R as ([m1 o1] & E & R). eapply IH; [|exact R]. apply Happ. by eapply convertCommonOrder_typed.
Qed.

Lemma offline_submit_typed {MQ TQ} `{!Fifo OutgoingMessage MQ} `{!FifoTyped OutgoingMessage MQ} `{!Fifo MatchTask TQ}
    `{!FifoTyped MatchTask TQ} fuel orders (cob cob' : CentralOrderBook MQ TQ) :
  Forall (λ m, order_typed (im_order m)) orders → cob_typed cob → ServerOffline_submit fuel orders cob = Ok cob' → cob_typed cob'.
Proof.
  intros Ho. revert cob. induction Ho as [|m ms Hm _ IH]; intros cob Hc R; simpl in R; [by simplify_eq|].
  apply bind_Ok_inv in R as ([[cob1 o1] b] & E & R). eapply IH; [|exact R]. by eapply addOrder_typed.
Qed.

(** The numbers of the exchange keep their C++ types: order numbers are [int]s, the
    identifiers of orders, securities and sessions [size_t]s, quantities [long]s, in every
    book, in every queued report and in every queued task, whatever message arrives and
    whatever is in uninitialised memory. This holds for the handling of FIX messages, for
    the rounds of the workers, for taking a report and for the orders of an offline file. *)
Theorem exchange_well_typed {MQ TQ} `{!Fifo OutgoingMessage MQ} `{!FifoTyped OutgoingMessage MQ} `{!Fifo MatchTask TQ}
    `{!FifoTyped MatchTask TQ} `{!Platform} `{!BodyOrder} (COMPID : str) (sm : SecurityManager) (fuel : nat) (addr : Z)
    (junk : Order) (sv : Server MQ TQ) (Hsm : securities_typed sm) (Hjunk : order_typed junk)
    (Hsv : cob_typed (sv_centralOrderBook sv)) :
  (∀ m i r w r' w' sv', in_size (Z.of_nat i) = true →
     ServerFix_onFixMessage COMPID sm fuel addr junk m i r w sv = Ok (r', w', sv') → cob_typed (sv_centralOrderBook sv')) ∧
  (∀ i cob' b, ThreadPool_workerRound fuel addr i (sv_centralOrderBook sv) = Ok (cob', b) → cob_typed cob') ∧
  (∀ i q q' x, m_outgoingMessages (sv_centralOrderBook sv) !! i = Some q → fifo_tryPop q = Ok (q', Some x) →
     order_typed (om_order x) ∧
     cob_typed (with_outgoing (<[i := q']> (m_outgoingMessages (sv_centralOrderBook sv))) (sv_centralOrderBook sv))) ∧
  (∀ file fs cob', ServerOffline_run sm fuel junk file fs (sv_centralOrderBook sv) = Ok cob' → cob_typed cob').
Proof.
  split; [|split; [|split]].
  - intros m i r w r' w' sv' Hi R. pose proof (default_typed junk i Hjunk Hi) as Ho. unfold ServerFix_onFixMessage in R.
    case_match; [|case_match]; [| |by apply bind_Ok_inv in R as ([r1 w1] & _ & R); simplify_eq].
    + unfold ServerFix_onNewOrder in R. apply bind_Ok_inv in R as ([m1 o1] & E & R).
      pose proof (convertNewOrder_typed _ _ _ _ _ Hsm Ho E) as Ho1. apply bind_Ok_inv in R as ([m2 t] & _ & R).
      case_match; [by apply bind_Ok_inv in R as ([r1 w1] & _ & R); simplify_eq|].
      case_match; [by apply bind_Ok_inv in R as ([r1 w1] & _ & R); simplify_eq|].
      apply bind_Ok_inv in R as ([[cob1 o2] b] & E1 & R). simplify_eq. by eapply addOrder_typed.
    + unfold ServerFix_onCancelOrder in R. apply bind_Ok_inv in R as ([m1 o1] & E & R).
      pose proof (convertCommonOrder_typed _ _ _ _ _ Hsm Ho E) as Ho1. destruct (getTagValue _ m1) as [m2 orig].
      apply bind_Ok_inv in R as (cob1 & E1 & R). simplify_eq. by eapply cancelOrder_typed.
  - intros i cob' b R. by eapply workerRound_typed.
  - intros i q q' x Eq E. destruct (take_report_typed i q q' (Some x) _ Hsv Eq E). by split.
  - intros file fs cob' R. unfold ServerOffline_run in R. apply bind_Ok_inv in R as (orders & E & R).
    eapply offline_submit_typed; [|exact Hsv|exact R]. unfold ServerOffline_loadOrders in E.
    case_match; [simplify_eq; by constructor|]. apply bind_Ok_inv in E as (ms & _ & E).
    by eapply (offline_orders_typed sm junk ms []).
Qed.

(** ** The empty exchange of two symbols *)

#[local] Existing Instance demo_Platform.
#[local] Existing Instance demo_BodyOrder.

Lemma RingBuffer_new_typed {A} (P : A → Prop) d c : in_size c = true → P d → ring_typed P (RingBuffer_new d c).
Proof. intros Hc Hd. split; simpl; [done..|]. by apply Forall_replicate. Qed.

Lemma demo_order_typed side : order_typed (demo_order 0 side 0 0).
Proof. by split; vm_compute. Qed.

Lemma demo_setup_typed : cob_typed (demo_setup false).
Proof.
  split; [reflexivity| | |constructor].
  - intros sec b. change (m_orderBookDictionary (demo_setup false)) with (∅ : gmap Z OrderBook). by rewrite lookup_empty.
  - change (m_outgoingMessages (demo_setup false)) with (replicate 2 (RingBuffer_new demo_message 64)).
    apply Forall_replicate, RingBuffer_new_typed; [done|]. by split; vm_compute.
Qed.

Lemma exchange_well_typed_witness :
  (∀ m i r w r' w' sv', in_size (Z.of_nat i) = true →
     ServerFix_onFixMessage ($"EXECUTOR") demo_sm 1 4096 (demo_order 0 SELL 0 0) m i r w demo_server = Ok (r', w', sv') →
     cob_typed (sv_centralOrderBook sv')) ∧
  (∀ i cob' b, ThreadPool_workerRound 1 4096 i (demo_setup false) = Ok (cob', b) → cob_typed cob') ∧
  (∀ i q q' x, m_outgoingMessages (demo_setup false) !! i = Some q → fifo_tryPop q = Ok (q', Some x) →
     order_typed (om_order x) ∧
     cob_typed (with_outgoing (<[i := q']> (m_outgoingMessages (demo_setup false))) (demo_setup false))) ∧
  (∀ file fs cob', ServerOffline_run demo_sm 1 (demo_order 0 SELL 0 0) file fs (demo_setup false) = Ok cob' → cob_typed cob').
Proof.
  apply (exchange_well_typed ($"EXECUTOR") demo_sm 1 4096 (demo_order 0 SELL 0 0) demo_server);
    [|apply demo_order_typed|apply demo_setup_typed].
  intros s i E. change (m_securitiesBySymbol demo_sm) with (<[$"AAA" := 0]> (∅ : gmap str Z)) in E.
  apply lookup_insert_Some in E as [[_ <-]|[_ E]]; [reflexivity|by rewrite lookup_empty in E].
Defined.
