(* ===== verification/EndToEnd.v ===== *)
(** * From the bytes of an order to the bytes of its report

    The parts composed: the reactor handles an event of a client's connection, the
    session receives a message, the application makes an order of it and the exchange
    queues its acceptance; then the thread that sends reports makes a round. *)
From Stdlib Require Import ZArith Lia Ascii String SpecFloat.
From stdpp Require Import base decidable sets list list_numbers gmap strings.
From S2P Require Import Prelude.
From S2P Require Import MachineInt.
From S2P Require Import StringUtility.
From S2P Require Import Double.
From S2P Require Import Multimap.
From S2P Require Import SecurityManager.
From S2P Require Import Order.
From S2P Require Import OrderBook.
From S2P Require Import Fifo.
From S2P Require Import RingBuffer.
From S2P Require Import CentralOrderBook.
From S2P Require Import ThreadedMatching.
From S2P Require Import FixConstants.
From S2P Require Import FixMessage.
From S2P Require Import FixParser.
From S2P Require Import FixReceiveCache.
From S2P Require Import FixSequenceStore.
From S2P Require Import Network.
From S2P Require Import FixSession.
From S2P Require Import FixSessionReceive.
From S2P Require Import FixServerReactor.
From S2P Require Import FixMessageConverter.
From S2P Require Import OutgoingMessageProcessor.
From S2P Require Import Server.
Local Open Scope Z_scope.

(** ** A message reaches the application *)

Section receive.
Context `{!Platform} `{!BodyOrder} (COMPID : str).
Context {A : Type} (onFixMessage : FixMessage → nat → Reactor → World → A → outcome (Reactor * World * A)).

(** The event [e] is input on the connection of the client in slot [i], whose session [s]
    reads the message [m] from it and becomes [s1]; the reactor works without cache. *)
Record event_delivers (acceptor : Z) (e : Event) (r : Reactor) (w : World) (i : nat) (s s1 : FixSession)
    (m : FixMessage) : Prop := {
  ed_reactor : reactor_inv r w;
  ed_used : r_SessionFlags r !! i = Some true;
  ed_session : r_Sessions r !! i = Some s;
  ed_valid : ev_valid e = true;
  ed_client : ev_fd e ≠ acceptor ∧ r_peerSocketIndexTable r !! ev_fd e = Some i;
  ed_nocache : r_receiveCacheSize r = 0;
  ed_received : ∃ n, 0 < n ∧
    FixSession_receive (rc_recv (ev_received e)) (rc_stack (ev_received e)) (FixMessage_new junk_type) s = Ok (m, s1, n)
}.

(** The message is valid, in sequence and not an administrative one. *)
Record in_sequence (r : Reactor) (s1 : FixSession) (m : FixMessage) : Prop := {
  is_validated : r_sequenceNumberValidation r = true;
  is_tags : (validateRequiredTags m 0).1 = true;
  is_application : isAdminMessage m = false;
  is_number : m_sequenceNumber m = ss_incomingSequenceNumber s1 + 1;
  is_range : 0 <= ss_incomingSequenceNumber s1 < INT_MAX
}.

Definition received_session (m : FixMessage) (s1 : FixSession) : FixSession :=
  setIncomingSequenceNumber (m_sequenceNumber m) s1.
Definition received_reactor (i : nat) (m : FixMessage) (s1 : FixSession) (r : Reactor) : Reactor :=
  set_session (Some i) (received_session m s1) r.

Lemma application_message_handled acceptor memory e r w a i s s1 m :
  event_delivers acceptor e r w i s s1 m → in_sequence r s1 m →
  handle_event COMPID onFixMessage acceptor memory e r w a = onFixMessage m i (received_reactor i m s1 r) w a ∧
  reactor_inv (received_reactor i m s1 r) w ∧
  r_Sessions (received_reactor i m s1 r) !! i = Some (received_session m s1) ∧
  r_SessionFlags (received_reactor i m s1 r) !! i = Some true.
Proof.
  intros [Hinv Hused Hs Hv [Hfd Htab] Hcache (n & Hn & Hrecv)] [Hon Htags Hadmin Hnum Hrange].
  pose proof (receive_links _ _ _ _ _ _ _ Hrecv) as Hlinks.
  assert (m_messageType m ≠ LOGON) as Hl by (intros E; unfold isAdminMessage in Hadmin; by rewrite E in Hadmin).
  assert (to_int (m_sequenceNumber m) = m_sequenceNumber m) as Ei
    by (apply to_int_small, in_int_spec; clear - Hnum Hrange; mlia).
  assert (r_Sessions (set_session (Some i) s1 r) !! i = Some s1) as Hs1
    by (simpl; apply list_lookup_insert_eq; by eapply lookup_lt_Some).
  split; [|split; [|split; [simpl; apply list_lookup_insert_eq; by eapply lookup_lt_Some|done]]].
  - unfold handle_event. unfold map_index. rewrite Htab, Hv, (proj2 (Z.eqb_neq _ _) Hfd).
    replace (with_listener (r_peerSocketIndexTable r) (r_fileDescriptors r) r) with r by (by destruct r).
    unfold handleClient, getSession. rewrite (vec_at_nat _ _ _ Hused). cbn [mbind outcome_bind].
    unfold session_of at 1. rewrite (vec_at_nat _ _ _ Hs). cbn [mbind outcome_bind].
    destruct (reactor_inv_slot r w i Hinv Hused) as (s' & id & sock & E' & _ & _ & Hc & _). simplify_eq.
    unfold FixSession_connected. rewrite Hc. cbn [negb]. rewrite Hcache. cbn [Z.eqb]. rewrite Hrecv.
    cbn [mbind outcome_bind]. destruct (Z.leb_spec n 0); [lia|].
    rewrite (processMessage_number COMPID onFixMessage m i i _ w a s1 Hs1 Htags Hl Hon) by (clear - Hrange; mlia).
    rewrite bool_decide_true by congruence. rewrite Hadmin, Ei. cbn zeta.
    f_equal. unfold received_reactor, received_session, set_session, with_sessions. simpl. by rewrite list_insert_insert_eq.
  - eapply reactor_inv_session; [exact Hinv|exact Hs|]. etrans; [exact Hlinks|by split].
Qed.
End receive.

(** ** An order and its acceptance *)

Section roundtrip.
Context {MQ TQ : Type} `{!Fifo OutgoingMessage MQ} `{!FifoLaws OutgoingMessage MQ} `{!Fifo MatchTask TQ}
  `{!FifoLaws MatchTask TQ} `{!Platform} `{!BodyOrder}.

(** The exchange matches in the calling thread, can take an order of the security at once
    and nothing waits in its queues, all of which the processor serves. *)
Record exchange_ready (sm : SecurityManager) (sv : Server MQ TQ) (security queueID : Z) (symbol : str) : Prop := {
  er_inv : cob_inv (sv_centralOrderBook sv);
  er_sync : m_isMatchingMultithreaded (sv_centralOrderBook sv) = false;
  er_number : m_orderNumber (sv_centralOrderBook sv) < INT_MAX;
  er_queue : m_queueIDDictionary (sv_centralOrderBook sv) !! security = Some queueID;
  er_room : queue_room queueID (1 + 2 * S (book_size (book_of (sv_centralOrderBook sv) security))) (sv_centralOrderBook sv);
  er_empty : Forall empty_queue (m_outgoingMessages (sv_centralOrderBook sv));
  er_symbol : m_securitiesById sm !! security = Some symbol;
  er_supported : SecurityManager_isSecuritySupported sm security = true;
  er_served : op_hasMessageQueue (sv_outgoingMessageProcessor sv) = true ∧
    op_numberOfQueues (sv_outgoingMessageProcessor sv) = Z.of_nat (length (m_outgoingMessages (sv_centralOrderBook sv)))
}.

(** The order that a message of the client in slot [i] makes, with its number. *)
Definition accepted_order (junk : Order) (sv : Server MQ TQ) (i : nat) (security : Z) (client : str) (side : OrderSide)
    (quantity price : Z) : Order :=
  Order_setOrderId (m_orderNumber (sv_centralOrderBook sv) + 1)
    (received_order junk (Z.of_nat i) security client side quantity price).

(** The order is in the book of its security, which has been matched, the other books are
    as they were, and the order has taken the next number. *)
Definition book_takes (order : Order) (cob cob' : CentralOrderBook MQ TQ) : Prop :=
  (∃ pushed b, OrderBook_processMatching (OrderBook_insert order (book_of cob (m_securityId order))) [] =
     Ok (book_of cob' (m_securityId order), pushed, b)) ∧
  (∀ sec, sec ≠ m_securityId order → book_of cob' sec = book_of cob sec) ∧
  m_orderNumber cob' = m_orderNumber cob + 1 ∧ cob_inv cob'.

(** The application puts the order into its book and queues the acceptance first. *)
Lemma onNewOrder_queues COMPID sm fuel addr junk m i r w (sv : Server MQ TQ) security queueID client side quantity price symbol :
  (0 < fuel)%nat → exchange_ready sm sv security queueID symbol → m_messageType m = NEW_ORDER →
  limit_order_tags sm m security client side quantity price → 0 < quantity →
  ∃ cob' q q' reports,
    ServerFix_onFixMessage COMPID sm fuel addr junk m i r w sv = Ok (r, w, mkServer cob' (sv_outgoingMessageProcessor sv)) ∧
    book_takes (accepted_order junk sv i security client side quantity price) (sv_centralOrderBook sv) cob' ∧
    m_outgoingMessages (sv_centralOrderBook sv) !! Z.to_nat queueID = Some q ∧
    m_outgoingMessages cob' = <[Z.to_nat queueID := q']> (m_outgoingMessages (sv_centralOrderBook sv)) ∧ fifo_inv q' ∧
    fifo_list q' = OutgoingMessage_new (accepted_order junk sv i security client side quantity price) ACCEPTED [] :: reports.
Proof.
  intros Hf [Hinv Hsync Hnum Hq Hroom Hempty Hsym Hsup Hserved] Htype Htags Hqty.
  pose proof Htags as [_ _ _ (z & _ & Hz) [_ Hlong] _].
  destruct (addOrder_spec fuel queueID (received_order junk (Z.of_nat i) security client side quantity price)
    (sv_centralOrderBook sv)) as (cob' & book' & pushed & b & Hrun & Ha & (q & q' & Eq & Ec & Lq & Iq) & Hinv'); try done.
  { by apply received_order_live. }
  { by destruct Hz as [[_ ->]|[_ ->]]. }
  pose proof (Forall_lookup_1 _ _ _ _ Hempty Eq) as [Hqi Hql].
  exists cob', q, q', (message_of <$> pushed). split.
  { rewrite (onNewOrder_adds _ _ _ _ _ _ _ _ _ _ _ _ _ _ _ Htype Htags Hsup). rewrite Ha. reflexivity. }
  split.
  { split; [|split; [|split; [by rewrite Ec|done]]].
    - exists pushed, b. replace (book_of cob' _) with book' by (rewrite Ec; unfold book_of; simpl; by rewrite lookup_insert_eq).
      exact Hrun.
    - intros sec Hne. rewrite Ec. unfold book_of. simpl. by rewrite lookup_insert_ne. }
  split; [exact Eq|]. split; [by rewrite Ec|]. split; [by apply Iq|]. rewrite Lq, Hql. reflexivity.
Qed.
End roundtrip.

(** C4: From bytes to bytes, in single-threaded mode: input on a client's connection that
    holds a valid limit order in sequence makes the reactor put the order, with the next
    order number, into the book of its security, which is then matched while no other book
    changes; the next round of the report thread leaves the books alone and hands one text
    to the client's own connection, which reads as the execution report that accepts the
    order: its identifier, side, quantities and symbol, with the session's next number. *)
Theorem order_bytes_to_report_bytes {MQ TQ} `{!Fifo OutgoingMessage MQ} `{!FifoLaws OutgoingMessage MQ}
    `{!Fifo MatchTask TQ} `{!FifoLaws MatchTask TQ} `{!Platform} `{!BodyOrder}
    (COMPID nan_text : str) (sm : SecurityManager) (fuel : nat) (addr : Z) (junk : Order)
    (acceptor : Z) (memory : str) (e : Event) (r : Reactor) (w : World) (sv : Server MQ TQ) (i : nat)
    (s s1 : FixSession) (m : FixMessage) (security queueID : Z) (client symbol : str) (side : OrderSide) (quantity price : Z)
    (Hfuel : (0 < fuel)%nat) (Hevent : event_delivers acceptor e r w i s s1 m) (Hsequence : in_sequence r s1 m)
    (Htype : m_messageType m = NEW_ORDER) (Htags : limit_order_tags sm m security client side quantity price)
    (Hquantity : 0 < quantity) (Hready : exchange_ready sm sv security queueID symbol) :
  let order := accepted_order junk sv i security client side quantity price in
  let message := OutgoingMessage_new order ACCEPTED [] in
  let p := sv_outgoingMessageProcessor sv in
  let r1 := received_reactor i m s1 r in
  reportable COMPID nan_text sm message p r1 w i (received_session m s1) symbol →
  ∃ cob1 cob2 p2 r2 w2,
    handle_event COMPID (ServerFix_onFixMessage COMPID sm fuel addr junk) acceptor memory e r w sv =
      Ok (r1, w, mkServer cob1 p) ∧
    book_takes order (sv_centralOrderBook sv) cob1 ∧
    processorRound COMPID nan_text sm cob1 p r1 w = Ok (cob2, p2, r2, w2) ∧
    only_outgoing cob1 cob2 ∧
    report_handed_over nan_text (om_order message) (op_execID p + 1) symbol (received_session m s1) w w2 ∧
    reactor_inv r2 w2.
Proof.
  intros order message p r1 Hrep.
  destruct (application_message_handled COMPID (ServerFix_onFixMessage COMPID sm fuel addr junk) acceptor memory e r w sv i
    s s1 m Hevent Hsequence) as (Hh & Hinv1 & _).
  destruct (onNewOrder_queues COMPID sm fuel addr junk m i r1 w sv security queueID client side quantity price symbol
    Hfuel Hready Htype Htags Hquantity) as (cob1 & q & q' & reports & Hadd & Htakes & Eq & Eo & Iq' & Lq').
  destruct (processOutgoingMessage_sends _ _ _ _ _ _ _ _ _ _ Hrep) as (p2 & r2 & w2 & Hsend & Hinv2 & _ & Harr).
  pose proof (er_empty _ _ _ _ _ Hready) as Hempty. destruct (er_served _ _ _ _ _ Hready) as [Hhas Hnum].
  assert (Z.to_nat queueID < length (m_outgoingMessages cob1))%nat as Hlt
    by (rewrite Eo, length_insert; by eapply lookup_lt_Some).
  destruct (processQueues_one COMPID nan_text sm (length (m_outgoingMessages cob1)) 0 (Z.to_nat queueID) cob1 p r1 w q'
    message reports p2 r2 w2) as (cob2 & q2 & Hround & _ & Ecob2); try done; [lia| | |].
  - rewrite Eo. apply list_lookup_insert_eq. by eapply lookup_lt_Some.
  - intros j q0 Hj E0. rewrite Eo, list_lookup_insert_ne in E0 by done. by eapply Forall_lookup_1 in E0; [|exact Hempty].
  - exists cob1, cob2, p2, r2, w2. split; [by rewrite Hh|]. split; [done|]. split; [|split; [by eexists|done]].
    unfold processorRound. fold p in Hhas, Hnum. rewrite Hhas, Hnum, Nat2Z.id.
    rewrite Eo, length_insert in Hround. exact Hround.
Qed.

(** ** A client's order for 5 at 100, in bytes *)

#[local] Existing Instance demo_Platform.
#[local] Existing Instance demo_BodyOrder.

Definition demo_order_bytes (symbol : str) : str :=
  fields_text (wire_fields
    (setTag FIX_TAG_SYMBOL symbol (setTag FIX_TAG_ORDER_TYPE (to_string 2) (setTag FIX_TAG_ORDER_SIDE (to_string 1)
      (setTag FIX_TAG_ORDER_QUANTITY (to_string 5) (setTag FIX_TAG_ORDER_PRICE (to_string 100)
        (setTag FIX_TAG_CLIENT_ORDER_ID ($"7") (setTag FIX_TAG_TRANSACTION_TIME ($"20160101-10:20:29")
          (mkFixMessage FIX_4_2 6 NEW_ORDER ($"CLIENT1") ($"EXECUTOR") ($"20160101-10:20:29") ∅))))))))).

Definition demo_input (symbol : str) : Event :=
  mkEvent 7 true None (mkReceived (stream_recv (demo_order_bytes symbol)) demo_stack 11).

Definition demo_received (symbol : str) : FixMessage * FixSession :=
  match FixSession_receive (stream_recv (demo_order_bytes symbol)) demo_stack (FixMessage_new junk_type) demo_logged with
  | Ok (m, s, _) => (m, s)
  | _ => (FixMessage_new 0, demo_logged)
  end.
Definition demo_received_order : FixMessage * FixSession := demo_received ($"AAA").

Lemma demo_delivers symbol n : 0 < n →
  FixSession_receive (stream_recv (demo_order_bytes symbol)) demo_stack (FixMessage_new junk_type) demo_logged =
    Ok ((demo_received symbol).1, (demo_received symbol).2, n) →
  event_delivers 3 (demo_input symbol) demo_logged_reactor demo_connected.1.2 0 demo_logged
    (demo_received symbol).2 (demo_received symbol).1.
Proof.
  intros Hn E. split; [apply demo_logged_inv|vm_compute; reflexivity|vm_compute; reflexivity|reflexivity|
    split; [discriminate|vm_compute; reflexivity]|reflexivity|]. by exists n.
Qed.

Lemma demo_delivers_AAA : event_delivers 3 (demo_input ($"AAA")) demo_logged_reactor demo_connected.1.2 0 demo_logged
    demo_received_order.2 demo_received_order.1.
Proof. apply (demo_delivers ($"AAA") (Z.of_nat (length (demo_order_bytes ($"AAA"))))); vm_compute; reflexivity. Qed.

Lemma demo_received_in_sequence : in_sequence demo_logged_reactor demo_received_order.2 demo_received_order.1.
Proof. split; try (vm_compute; reflexivity). vm_compute. split; [discriminate|reflexivity]. Qed.

Definition demo_live_server : Server (RingBuffer OutgoingMessage) (RingBuffer MatchTask) :=
  mkServer (demo_setup false) (setMessageQueue 2 OutgoingMessageProcessor_new).

Lemma demo_ready_server : exchange_ready demo_sm demo_live_server 0 0 ($"AAA").
Proof.
  split; [apply demo_setup_inv|reflexivity|vm_compute; reflexivity|vm_compute; reflexivity| | |vm_compute; reflexivity
    |vm_compute; reflexivity|split; vm_compute; reflexivity].
  - apply demo_room. vm_compute. lia.
  - repeat constructor; vm_compute; repeat split; discriminate.
Qed.

Lemma demo_received_tags : limit_order_tags demo_sm demo_received_order.1 0 ($"7") BUY 5 100.
Proof.
  split; try (vm_compute; reflexivity); try (split; vm_compute; reflexivity).
  - exists ($"AAA"). split; vm_compute; reflexivity.
  - exists 1. split; [vm_compute; reflexivity|by left].
Qed.

Lemma order_bytes_to_report_bytes_witness :
  let junk := demo_order 0 SELL 0 0 in
  let m := demo_received_order.1 in
  let s1 := demo_received_order.2 in
  let r1 := received_reactor 0 m s1 demo_logged_reactor in
  let message := OutgoingMessage_new (accepted_order junk demo_live_server 0 0 ($"7") BUY 5 100) ACCEPTED [] in
  let p := sv_outgoingMessageProcessor demo_live_server in
  ∃ cob1 cob2 p2 r2 w2,
    handle_event ($"EXECUTOR") (ServerFix_onFixMessage ($"EXECUTOR") demo_sm 1 4096 junk) 3 [] (demo_input ($"AAA"))
      demo_logged_reactor demo_connected.1.2 demo_live_server = Ok (r1, demo_connected.1.2, mkServer cob1 p) ∧
    book_takes (om_order message) (sv_centralOrderBook demo_live_server) cob1 ∧
    processorRound ($"EXECUTOR") ($"nan") demo_sm cob1 p r1 demo_connected.1.2 = Ok (cob2, p2, r2, w2) ∧
    only_outgoing cob1 cob2 ∧
    report_handed_over ($"nan") (om_order message) (op_execID p + 1) ($"AAA") (received_session m s1) demo_connected.1.2 w2 ∧
    reactor_inv r2 w2.
Proof.
  apply (order_bytes_to_report_bytes ($"EXECUTOR") ($"nan") demo_sm 1 4096 (demo_order 0 SELL 0 0) 3 [] (demo_input ($"AAA"))
    demo_logged_reactor demo_connected.1.2 demo_live_server 0 demo_logged _ _ 0 0 ($"7") ($"AAA") BUY 5 100);
    [lia|apply demo_delivers_AAA|apply demo_received_in_sequence|vm_compute; reflexivity|apply demo_received_tags|lia
    |apply demo_ready_server|].
  split; [reflexivity|vm_compute; split; [discriminate|reflexivity]| |reflexivity|vm_compute; reflexivity
    |vm_compute; reflexivity|vm_compute; reflexivity| |split_and!; by apply demo_clean|vm_compute; discriminate].
  - eapply reactor_inv_session; [apply demo_logged_inv|vm_compute; reflexivity|by split].
  - split; [by apply demo_clean|vm_compute; split; discriminate|by apply demo_clean|by apply demo_clean|].
    vm_compute. split; [discriminate|reflexivity].
Defined.
