(* ===== verification/ServerRun.v ===== *)
(** * [main.cpp], [server/server_error.h], and the running of [server/server_fix.cpp]

    The life of the process: the threads of the server object are made; the reactor, the
    thread that sends reports and the command line run beside the main thread, which
    waits until it is asked to finish or a thread has failed, and then stops or unwinds.
    The process is a step relation: each step is a pass of one thread's loop.

    [main] owns the server through a pointer to [ServerBase], whose destructor is not
    virtual. What the language leaves undefined there is taken as compilers do it: the
    destructor of [ServerBase] runs, and not those of [ServerFix] and its reactor. *)
From Stdlib Require Import ZArith Lia Ascii String.
From stdpp Require Import base decidable sets list gmap strings relations.
From S2P Require Import Prelude.
From S2P Require Import MachineInt.
From S2P Require Import StringUtility.
From S2P Require Import SecurityManager.
From S2P Require Import Order.
From S2P Require Import OrderBook.
From S2P Require Import Fifo.
From S2P Require Import RingBuffer.
From S2P Require Import CentralOrderBook.
From S2P Require Import ThreadedMatching.
From S2P Require Import FixConstants.
From S2P Require Import FixMessage.
From S2P Require Import FixSequenceStore.
From S2P Require Import Configuration.
From S2P Require Import Network.
From S2P Require Import Sockets.
From S2P Require Import FixSession.
From S2P Require Import FixSessionReceive.
From S2P Require Import ServerConfiguration.
From S2P Require Import Threads.
From S2P Require Import Process.
From S2P Require Import ThreadPool.
From S2P Require Import CommandLine.
From S2P Require Import FixServerReactor.
From S2P Require Import ServerStart.
From S2P Require Import FixMessageConverter.
From S2P Require Import OutgoingMessageProcessor.
From S2P Require Import Server.
From S2P Require Import EndToEnd.
Local Open Scope Z_scope.

(** ** Errors and exit codes *)

Inductive ServerError : Type :=
  | ALREADY_RUNNING | RUNTIME_ERROR | INSUFFICIENT_MEMORY | NON_SUPPORTED_EXECUTION | UNKNOWN_PROBLEM.

(** [onError]: the number of the error is the exit code. *)
Definition onError (error : ServerError) : Z :=
  match error with
  | ALREADY_RUNNING => 0 | RUNTIME_ERROR => 1 | INSUFFICIENT_MEMORY => 2 | NON_SUPPORTED_EXECUTION => 3 | UNKNOWN_PROBLEM => 4
  end.

(** The clauses of [main]: [std::out_of_range] and [std::length_error] are errors of
    logic, not of the runtime, and have no clause of their own. *)
Definition caught_as (e : exn) : ServerError :=
  match e with
  | InvalidArgument => RUNTIME_ERROR
  | RuntimeError => RUNTIME_ERROR
  | BadAlloc => INSUFFICIENT_MEMORY
  | OutOfRange | LengthError => UNKNOWN_PROBLEM
  end.

(** The exit code of the [try] block's end. *)
Definition exit_code (result : option exn) : Z := match result with Some e => onError (caught_as e) | None => 0 end.

(** The [try] block: the arguments make and run the two kinds of server. *)
Definition main_try `{!EqualRange} (setpriority : Z → Z) (fs : files) (fix_server offline_server : ServerConfiguration → outcome unit) : outcome unit :=
  c ← ServerConfiguration_load CONFIGURATION_FILE fs;
  priority ← getProcessPriorityFromString (sc_processPriority c);
  _ ← SelfProcess_setPriority setpriority priority;
  if bool_decide (sc_orderEntryMode c = ($"FIX")) then fix_server c else offline_server c.

Definition CACHE_LINE_SIZE : Z := 64.

(** [main] around its [try] block, which ended as [body]; the two tests at its start leave
    the process at once. *)
Definition main (cacheLineSize : Z) (singleInstance : bool) (body : outcome unit) : outcome Z :=
  if negb (cacheLineSize =? CACHE_LINE_SIZE) then Ok (onError NON_SUPPORTED_EXECUTION)
  else if negb singleInstance then Ok (onError ALREADY_RUNNING)
  else
    match body with
    | Ok _ => Ok (exit_code None)
    | Throw e => Ok (exit_code (Some e))
    | Undef u => Undef u
    | NoFuel => NoFuel
    end.

(** ** The threads of the server object *)

(** What the system returns for the thread objects of [ServerBase]. *)
Record BaseResults : Type := mkBaseResults {
  br_processor : Z;             (** the addresses of the two actors *)
  br_commandLine : Z;
  br_created : option Z;
  br_self : Z;
  br_pinned : Z
}.

(** The members of [ServerBase] that are threads, and its constructor: the pool, when
    matching is multithreaded, has the symbols as names; then the sender of reports. *)
Definition ServerBase_threads {TQ} (newQueue : Z → TQ) (pp : PoolPlatform) (br : BaseResults) (c : ServerConfiguration)
    (T : Threads) : outcome (Threads * Actor * Actor) :=
  '(T, processor) ← Actor_new (br_processor br) 0 ($"OutgoingWorker") T;
  '(T, cli) ← Actor_new (br_commandLine br) 0 ($"AdminInterface") T;
  T ← (if sc_isMatchingMultithreaded c then
         let p := sc_threadPoolArguments c in
         let args := mkThreadPoolArguments (tp_pinThreadsToCores p) (tp_hyperThreading p) (tp_workQueueSizePerThread p)
                       (tp_threadStackSize p) (tp_threadPriority p) (sc_symbols c) in
         '(_, T) ← ThreadPool_initialise newQueue pp args ThreadPool_new T; Ok T
       else Ok T);
  T ← Thread_start (to_size (sc_outgoingMessageThreadStackSize c)) (br_created br) (br_processor br) T;
  T ← (if 0 <=? sc_outgoingMessageThreadCpuId c then
         '(T, _) ← Thread_pinToCPUCore (sc_outgoingMessageThreadCpuId c) (br_pinned br) (br_processor br) T; Ok T
       else Ok T);
  '(T, _) ← Thread_setPriority (br_self br) (sc_outgoingMessageThreadPriority c) (br_processor br) T;
  Ok (T, processor, cli).

(** The loop over [Thread::THREADS] in [run]: the first exception found is thrown again. *)
Fixpoint checkThreads (ids : list Z) (T : Threads) : outcome unit :=
  match ids with
  | [] => Ok tt
  | id :: ids' =>
      threadException ← Thread_getException id T;
      match threadException with Some e => Throw e | None => checkThreads ids' T end
  end.

(** ** The process *)

(** Where the main thread is: in the loop of [run]; in [stop], after the flag is set; in
    the destructor of the server, on the way out of [run] or with an exception; at the
    end of [main]. *)
Inductive MainState : Type :=
  | Polling
  | Joining
  | Destroying (result : option exn)
  | Exited (result : option exn)
  | Crashed (u : ub).

Record Process (MQ TQ : Type) : Type := mkProcess {
  ps_main : MainState;
  ps_fix : FixServer;
  ps_kernel : Kernel;
  ps_world : World;
  ps_server : Server MQ TQ;
  ps_threads : Threads;
  ps_processor : Actor;
  ps_cli : Actor;
  ps_input : list str;
  ps_console : list str;
  ps_reactorEnded : bool;
  ps_processorEnded : bool;
  ps_cliEnded : bool
}.
Arguments mkProcess {MQ TQ}. Arguments ps_main {MQ TQ}. Arguments ps_fix {MQ TQ}. Arguments ps_kernel {MQ TQ}.
Arguments ps_world {MQ TQ}. Arguments ps_server {MQ TQ}. Arguments ps_threads {MQ TQ}. Arguments ps_processor {MQ TQ}.
Arguments ps_cli {MQ TQ}. Arguments ps_input {MQ TQ}. Arguments ps_console {MQ TQ}. Arguments ps_reactorEnded {MQ TQ}.
Arguments ps_processorEnded {MQ TQ}. Arguments ps_cliEnded {MQ TQ}.

Section process.
Context {MQ TQ : Type} `{!Fifo OutgoingMessage MQ} `{!Fifo MatchTask TQ}.
Context `{!Platform} `{!BodyOrder} (COMPID nan_text : str) (sm : SecurityManager).
Context (fuel : nat) (addr : Z) (junk_order : Order) (memory : str) (iter : gmap Z OrderBook → list (Z * OrderBook)).

Definition with_main (m : MainState) (p : Process MQ TQ) : Process MQ TQ :=
  mkProcess m (ps_fix p) (ps_kernel p) (ps_world p) (ps_server p) (ps_threads p) (ps_processor p) (ps_cli p)
    (ps_input p) (ps_console p) (ps_reactorEnded p) (ps_processorEnded p) (ps_cliEnded p).
Definition with_threads (T : Threads) (p : Process MQ TQ) : Process MQ TQ :=
  mkProcess (ps_main p) (ps_fix p) (ps_kernel p) (ps_world p) (ps_server p) T (ps_processor p) (ps_cli p)
    (ps_input p) (ps_console p) (ps_reactorEnded p) (ps_processorEnded p) (ps_cliEnded p).

(** The flag that [stop] sets. *)
Definition isStopping (m : MainState) : bool :=
  match m with Polling | Crashed _ => false | Joining => true | Destroying r | Exited r => bool_decide (r = None) end.

Definition exited (m : MainState) : bool := match m with Exited _ | Crashed _ => true | _ => false end.

(** The state after a pass of the reactor. *)
Definition after_reactor (t : TCPServerReactor) (k : Kernel) (r : Reactor) (w : World) (sv : Server MQ TQ) (p : Process MQ TQ)
    : Process MQ TQ :=
  let f := ps_fix p in
  mkProcess (ps_main p) (mkFixServer t r (fx_address f) (fx_port f) (fx_compId f)) k w sv (ps_threads p)
    (ps_processor p) (ps_cli p) (ps_input p) (ps_console p) (ps_reactorEnded p) (ps_processorEnded p) (ps_cliEnded p).

(** The thread [id] has ended, with the outcome [callback] in its task. *)
Definition end_thread (callback : Z + exn) (id : Z) (p : Process MQ TQ) : outcome (Process MQ TQ) :=
  T ← Thread_internalThreadFunction callback id (ps_threads p); Ok (with_threads T p).

(** A pass of the reactor's thread; [id] is its thread object. *)
Definition reactor_pass (id : Z) (pl : Poll) (p : Process MQ TQ) : outcome (Process MQ TQ) :=
  let ended p := mkProcess (ps_main p) (ps_fix p) (ps_kernel p) (ps_world p) (ps_server p) (ps_threads p)
                   (ps_processor p) (ps_cli p) (ps_input p) (ps_console p) true (ps_processorEnded p) (ps_cliEnded p) in
  if pl_isStopping pl then p ← end_thread (inl 0) id p; Ok (ended p)
  else
    match reactorPoll COMPID (ServerFix_onFixMessage COMPID sm fuel addr junk_order) memory pl (fx_tcp (ps_fix p))
            (ps_kernel p) (fx_reactor (ps_fix p)) (ps_world p) (ps_server p) with
    | Ok (t, k, r, w, sv) => Ok (after_reactor t k r w sv p)
    | Throw e => p ← end_thread (inr e) id p; Ok (ended p)
    | Undef u => Undef u
    | NoFuel => NoFuel
    end.

(** A pass of the thread that sends the reports. *)
Definition report_pass (p : Process MQ TQ) : outcome (Process MQ TQ) :=
  let sv := ps_server p in
  match processorRound COMPID nan_text sm (sv_centralOrderBook sv) (sv_outgoingMessageProcessor sv)
          (fx_reactor (ps_fix p)) (ps_world p) with
  | Ok (cob, o, r, w) => Ok (after_reactor (fx_tcp (ps_fix p)) (ps_kernel p) r w (mkServer cob o) p)
  | Throw e =>
      p ← end_thread (inr e) (ac_thread (ps_processor p)) p;
      Ok (mkProcess (ps_main p) (ps_fix p) (ps_kernel p) (ps_world p) (ps_server p) (ps_threads p) (ps_processor p) (ps_cli p)
            (ps_input p) (ps_console p) (ps_reactorEnded p) true (ps_cliEnded p))
  | Undef u => Undef u
  | NoFuel => NoFuel
  end.

(** A pass of worker [i] of the pool. An exception of its task ends up in the local [Task]
    of the loop and is lost, with the task. *)
Definition with_cob (cob : CentralOrderBook MQ TQ) (p : Process MQ TQ) : Process MQ TQ :=
  after_reactor (fx_tcp (ps_fix p)) (ps_kernel p) (fx_reactor (ps_fix p)) (ps_world p)
    (mkServer cob (sv_outgoingMessageProcessor (ps_server p))) p.

Definition worker_pass (i : Z) (p : Process MQ TQ) : outcome (Process MQ TQ) :=
  let cob := sv_centralOrderBook (ps_server p) in
  match ThreadPool_workerRound fuel addr i cob with
  | Ok (cob, _) => Ok (with_cob cob p)
  | Throw _ =>
      q ← vec_at i (CentralOrderBook.m_threadQueues cob);
      '(q, _) ← fifo_tryPop q;
      Ok (with_cob (CentralOrderBook.with_threadQueues (<[Z.to_nat i := q]> (CentralOrderBook.m_threadQueues cob)) cob) p)
  | Undef u => Undef u
  | NoFuel => NoFuel
  end.

(** A pass of the command line, whose parent is the server's order book. *)
Definition cli_pass (p : Process MQ TQ) : outcome (Process MQ TQ) :=
  let next cli input console ended p :=
    mkProcess (ps_main p) (ps_fix p) (ps_kernel p) (ps_world p) (ps_server p) (ps_threads p) (ps_processor p) cli
      input console (ps_reactorEnded p) (ps_processorEnded p) ended in
  match CommandLineInterface_round sm iter (Some (sv_centralOrderBook (ps_server p))) (ps_input p) (ps_cli p) (ps_console p) with
  | Ok (input, cli, console, isOver) =>
      if isOver : bool then
        p ← end_thread (inl 0) (ac_thread (ps_cli p)) p; Ok (next cli input console true p)
      else Ok (next cli input console false p)
  | Throw e =>
      p ← end_thread (inr e) (ac_thread (ps_cli p)) p;
      Ok (next (ps_cli p) (tail (ps_input p)) (ps_console p ++ [$"All orders in the central order book :"; []]) true p)
  | Undef u => Undef u
  | NoFuel => NoFuel
  end.

(** A pass of the main thread's loop. *)
Definition main_poll (p : Process MQ TQ) : outcome (Process MQ TQ) :=
  if Actor_isFinishing (ps_cli p) then Ok (with_main Joining p)
  else
    match checkThreads (ts_THREADS (ps_threads p)) (ps_threads p) with
    | Ok _ => Ok p
    | Throw e => Ok (with_main (Destroying (Some e)) p)
    | Undef u => Undef u
    | NoFuel => NoFuel
    end.

(** [stop], once the reactor's thread has ended. *)
Definition main_join (p : Process MQ TQ) : outcome (Process MQ TQ) :=
  '(f, w, T) ← FixServer_stop (ps_fix p) (ps_world p) (ps_threads p);
  Ok (mkProcess (Destroying None) f (ps_kernel p) w (ps_server p) T (ps_processor p) (ps_cli p) (ps_input p)
        (ps_console p) (ps_reactorEnded p) (ps_processorEnded p) (ps_cliEnded p)).

(** The destructor of [ServerBase]: its members in reverse order. The order book, the last
    of them, joins the workers of its pool ([ThreadPool_shutdown]). *)
Definition main_destroy (result : option exn) (p : Process MQ TQ) : outcome (Process MQ TQ) :=
  T ← Actor_delete (ps_cli p) (ps_threads p);
  T ← Actor_delete (ps_processor p) T;
  Ok (with_main (Exited result) (with_threads T p)).

(** An undefined operation of any thread ends the process. *)
Definition result_of (p : Process MQ TQ) (o : outcome (Process MQ TQ)) (p' : Process MQ TQ) : Prop :=
  match o with Ok q => p' = q | Undef u => p' = with_main (Crashed u) p | _ => False end.

(** The workers are there in multithreaded mode, one for each queue, until the pool joins
    them. The reactor's thread is there when the pointer to it is set. The joins of the main
    thread wait: that of the reactor until its thread has ended, that of the command
    line, when it was not told to finish, until it has. *)
Inductive process_step : Process MQ TQ → Process MQ TQ → Prop :=
  | step_reactor id pl p p' :
      exited (ps_main p) = false → ps_reactorEnded p = false → tr_reactorThread (fx_tcp (ps_fix p)) = Some id →
      pl_isStopping pl = isStopping (ps_main p) → result_of p (reactor_pass id pl p) p' → process_step p p'
  | step_reports p p' :
      exited (ps_main p) = false → ps_processorEnded p = false → result_of p (report_pass p) p' → process_step p p'
  | step_worker i p p' :
      exited (ps_main p) = false → m_isMatchingMultithreaded (sv_centralOrderBook (ps_server p)) = true →
      0 <= i < Z.of_nat (length (CentralOrderBook.m_threadQueues (sv_centralOrderBook (ps_server p)))) →
      result_of p (worker_pass i p) p' → process_step p p'
  | step_cli p p' :
      exited (ps_main p) = false → ps_cliEnded p = false → result_of p (cli_pass p) p' → process_step p p'
  | step_poll p p' : ps_main p = Polling → result_of p (main_poll p) p' → process_step p p'
  | step_join p p' :
      ps_main p = Joining → ps_reactorEnded p = true ∨ tr_reactorThread (fx_tcp (ps_fix p)) = None →
      result_of p (main_join p) p' → process_step p p'
  | step_destroy result p p' :
      ps_main p = Destroying result → Actor_isFinishing (ps_cli p) = true ∨ ps_cliEnded p = true →
      result_of p (main_destroy result p) p' → process_step p p'.

(** ** The offline server

    Its [run] waits in a loop like that of the FIX server, once the orders of the file are
    submitted ([OfflineMode.v]); it has nothing to stop. The result says that it leaves. *)
Definition ServerOffline_poll (cli : Actor) (T : Threads) : outcome bool :=
  if Actor_isFinishing cli then Ok true else _ ← checkThreads (ts_THREADS T) T; Ok false.

Lemma main_poll_offline (p : Process MQ TQ) :
  main_poll p = match ServerOffline_poll (ps_cli p) (ps_threads p) with
                | Ok true => Ok (with_main Joining p)
                | Ok false => Ok p
                | Throw e => Ok (with_main (Destroying (Some e)) p)
                | Undef u => Undef u
                | NoFuel => NoFuel
                end.
Proof. unfold main_poll, ServerOffline_poll. destruct (Actor_isFinishing _); [done|]. by destruct (checkThreads _ _). Qed.

(** ** How the process ends *)

Lemma main_poll_inv p p' : result_of p (main_poll p) p' → ps_main p = Polling →
  p' = p ∨ p' = with_main Joining p ∧ Actor_isFinishing (ps_cli p) = true ∨
  (∃ e, p' = with_main (Destroying (Some e)) p ∧ Actor_isFinishing (ps_cli p) = false ∧
     checkThreads (ts_THREADS (ps_threads p)) (ps_threads p) = Throw e) ∨
  ∃ u, p' = with_main (Crashed u) p.
Proof.
  unfold main_poll. intros R Hm. destruct (Actor_isFinishing (ps_cli p)) eqn:Ef; simpl in R; [subst; auto|].
  destruct (checkThreads _ _) as [ []|e|u|] eqn:E; simpl in R; subst; [by left|right; right; left; by exists e| |done].
  right. right. right. by exists u.
Qed.

Lemma checkThreads_Throw ids T e : checkThreads ids T = Throw e →
  ∃ id th task, id ∈ ids ∧ ts_objects T !! id = Some th ∧ m_task th = Some task ∧ Task_getException task = Some e.
Proof.
  induction ids as [|id ids IH]; simpl; [done|]. unfold Thread_getException, thread_at.
  destruct (ts_objects T !! id) as [th|] eqn:Eo; [|done]. simpl. destruct (m_task th) as [task|] eqn:Et; [|done]. simpl.
  destruct (Task_getException task) as [e'|] eqn:Ee; intros R.
  - simplify_eq. exists id, th, task. split; [by left|done].
  - destruct (IH R) as (i & x & y & ? & ?). exists i, x, y. split; [by right|done].
Qed.

(** What the passes of the other threads keep. *)
Definition same_control (p p' : Process MQ TQ) : Prop :=
  ps_main p' = ps_main p ∧ ps_cli p' = ps_cli p ∧ ps_input p' = ps_input p ∧ ps_cliEnded p' = ps_cliEnded p.

Lemma end_thread_control cb id p p' : end_thread cb id p = Ok p' →
  same_control p p' ∧ ps_reactorEnded p' = ps_reactorEnded p.
Proof. unfold end_thread. intros (T & _ & R)%bind_Ok_inv. by simplify_eq. Qed.

Lemma reactor_pass_control id pl p p' : reactor_pass id pl p = Ok p' → same_control p p'.
Proof.
  unfold reactor_pass. intros R. destruct (pl_isStopping pl).
  - apply bind_Ok_inv in R as (q & E%end_thread_control & R). simplify_eq. apply E.
  - destruct (reactorPoll _ _ _ _ _ _ _ _ _) as [[[[[t k] r] w] sv]|e|u|]; [by simplify_eq| |done..].
    apply bind_Ok_inv in R as (q & E%end_thread_control & R). simplify_eq. apply E.
Qed.

Lemma report_pass_control p p' : report_pass p = Ok p' → same_control p p' ∧ ps_reactorEnded p' = ps_reactorEnded p.
Proof.
  unfold report_pass. intros R. destruct (processorRound _ _ _ _ _ _ _) as [[[[cob o] r] w]|e|u|]; [by simplify_eq| |done..].
  apply bind_Ok_inv in R as (q & E%end_thread_control & R). by simplify_eq.
Qed.

Lemma worker_pass_control i p p' : worker_pass i p = Ok p' → same_control p p' ∧ ps_reactorEnded p' = ps_reactorEnded p.
Proof.
  unfold worker_pass. intros R. destruct (ThreadPool_workerRound _ _ _ _) as [[cob b]|e|u|]; [by simplify_eq| |done..].
  apply bind_Ok_inv in R as (q & _ & R). apply bind_Ok_inv in R as ([q' x] & _ & R). by simplify_eq.
Qed.

Lemma cli_pass_control p p' : cli_pass p = Ok p' →
  ps_main p' = ps_main p ∧ ps_reactorEnded p' = ps_reactorEnded p ∧
  ∃ used, ps_input p = used ++ ps_input p' ∧
    (ps_cli p' = ps_cli p ∨ ps_cli p' = Actor_sendFinishSignal (ps_cli p) ∧ Exists is_quit used).
Proof.
  unfold cli_pass. intros R.
  destruct (CommandLineInterface_round _ _ _ _ _ _) as [[[[input cli] console] b]|e|u|] eqn:E; [| |done..].
  - destruct (round_left _ _ _ _ _ _ _ _ _ _ E) as (used & Ei & Hb). destruct b.
    + apply bind_Ok_inv in R as (q & [[??] ?]%end_thread_control & R). simplify_eq. split_and!; [done..|].
      exists used. split; [done|]. right. by destruct Hb as [-> ?].
    + simplify_eq. split_and!; [done..|]. exists used. split; [done|]. by left.
  - apply bind_Ok_inv in R as (q & [(Hm & Hc & Hi & _) Hr]%end_thread_control & R). simplify_eq. split_and!; [done..|].
    exists (take 1 (ps_input p)). split; [simpl; rewrite Hi; by destruct (ps_input p)|by left].
Qed.

(** Where the process came from when it is on its way out. *)
Definition way_out (p0 p : Process MQ TQ) : Prop :=
  match ps_main p with
  | Polling | Crashed _ => True
  | Joining => Actor_isFinishing (ps_cli p) = true
  | Destroying None => Actor_isFinishing (ps_cli p) = true ∧ ps_reactorEnded p = true
  | Exited None => Actor_isFinishing (ps_cli p) = true ∧ ps_reactorEnded p = true
  | Destroying (Some e) | Exited (Some e) =>
      ∃ q id th task, rtc process_step p0 q ∧ rtc process_step q p ∧ ps_main q = Polling ∧
        Actor_isFinishing (ps_cli q) = false ∧ id ∈ ts_THREADS (ps_threads q) ∧
        ts_objects (ps_threads q) !! id = Some th ∧ m_task th = Some task ∧ Task_getException task = Some e
  end.

Record process_inv (p0 p : Process MQ TQ) : Prop := {
  pi_reach : rtc process_step p0 p;
  pi_input : ∃ used, ps_input p0 = used ++ ps_input p ∧ (Actor_isFinishing (ps_cli p) = true → Exists is_quit used);
  pi_exited : ∀ result, ps_main p = Exited result → Actor_isFinishing (ps_cli p) = true ∨ ps_cliEnded p = true;
  pi_way : way_out p0 p
}.

Lemma way_out_step p0 p p' : way_out p0 p → process_step p p' → ps_main p' = ps_main p →
  (Actor_isFinishing (ps_cli p) = true → Actor_isFinishing (ps_cli p') = true) →
  (ps_reactorEnded p = true → ps_reactorEnded p' = true) → way_out p0 p'.
Proof.
  unfold way_out. intros Hw Hs -> Hf Hr.
  destruct (ps_main p) as [| |[e|]|[e|]|u]; try done; try by (destruct Hw; auto); try by auto.
  all: destruct Hw as (q & id & th & task & H1 & H2 & H3); exists q, id, th, task; split; [done|];
    split; [by eapply rtc_r|done].
Qed.

(** The invariant passes a step that leaves the main thread where it is. *)
Lemma process_inv_pass p0 p p' used : process_inv p0 p → process_step p p' → ps_main p' = ps_main p →
  exited (ps_main p) = false → ps_input p = used ++ ps_input p' →
  (ps_cli p' = ps_cli p ∨ ps_cli p' = Actor_sendFinishSignal (ps_cli p) ∧ Exists is_quit used) →
  (ps_reactorEnded p = true → ps_reactorEnded p' = true) → process_inv p0 p'.
Proof.
  intros [H1 (u & Hu & Hq) H3 H4] Hs Hm He Hi Hc Hr. split.
  - by eapply rtc_r.
  - exists (u ++ used). split; [by rewrite <- app_assoc, <- Hi|]. intros Hf. apply Exists_app.
    destruct Hc as [Hc|[_ ?]]; [left; apply Hq; by rewrite <- Hc|by right].
  - intros result Hx. rewrite Hm in Hx. by rewrite Hx in He.
  - eapply way_out_step; try done. intros Hf. destruct Hc as [-> |[-> _]]; [done|]. by destruct (ps_cli p).
Qed.

Lemma crashed_inv p0 p u : process_inv p0 p → process_step p (with_main (Crashed u) p) → process_inv p0 (with_main (Crashed u) p).
Proof. intros [H1 H2 H3 H4] Hs. split; [by eapply rtc_r|done|done|done]. Qed.

Lemma process_step_inv p0 p p' : process_inv p0 p → process_step p p' → process_inv p0 p'.
Proof.
  intros Hi Hs. pose proof Hs as Hs'. destruct Hs as [id pl p p' He Hn Ht Hpl R|p p' He Hn R|i p p' He Hmt Hir R|p p' He Hn R|p p' Hm R|p p' Hm Hj R|res p p' Hm Hj R].
  - destruct (reactor_pass id pl p) as [q|e|u|] eqn:E; simpl in R; try done; subst; [|by apply crashed_inv].
    destruct (reactor_pass_control _ _ _ _ E) as (H1 & H2 & H3 & H4).
    apply (process_inv_pass p0 p q []); try done; [by left|]. intros Hr. by rewrite Hr in Hn.
  - destruct (report_pass p) as [q|e|u|] eqn:E; simpl in R; try done; subst; [|by apply crashed_inv].
    destruct (report_pass_control _ _ E) as ((H1 & H2 & H3 & H4) & H5).
    apply (process_inv_pass p0 p q []); try done; [by left|]. by rewrite H5.
  - destruct (worker_pass i p) as [q|e|u|] eqn:E; simpl in R; try done; subst; [|by apply crashed_inv].
    destruct (worker_pass_control _ _ _ E) as ((H1 & H2 & H3 & H4) & H5).
    apply (process_inv_pass p0 p q []); try done; [by left|]. by rewrite H5.
  - destruct (cli_pass p) as [q|e|u|] eqn:E; simpl in R; try done; subst; [|by apply crashed_inv].
    destruct (cli_pass_control _ _ E) as (H1 & H2 & used & H3 & H4).
    apply (process_inv_pass p0 p q used); try done. by rewrite H2.
  - destruct (main_poll_inv p p' R Hm) as [-> |[[-> Hf]|[(e & -> & Hf & Hc)|[u ->]]]]; [done| | |by apply crashed_inv].
    + destruct Hi as [H1 H2 H3 H4]. split; [by eapply rtc_r|done|done|done].
    + destruct Hi as [H1 H2 H3 H4]. split; [by eapply rtc_r|done|done|]. simpl.
      destruct (checkThreads_Throw _ _ _ Hc) as (id & th & task & ?). exists p, id, th, task.
      split; [done|]. split; [by apply rtc_once|done].
  - destruct (main_join p) as [q|e|u|] eqn:E; simpl in R; try done; subst; [|by apply crashed_inv].
    unfold main_join in E. apply bind_Ok_inv in E as ([[f w] T] & Ef & E). simplify_eq.
    destruct Hi as [H1 H2 H3 H4]. split; [by eapply rtc_r|done|done|]. simpl. unfold way_out in H4. rewrite Hm in H4.
    split; [done|]. destruct Hj as [?|Hn]; [done|]. unfold FixServer_stop, TCPServerReactor_stop in Ef. by rewrite Hn in Ef.
  - destruct (main_destroy res p) as [q|e|u|] eqn:E; simpl in R; try done; subst; [|by apply crashed_inv].
    unfold main_destroy in E. apply bind_Ok_inv in E as (T1 & _ & E). apply bind_Ok_inv in E as (T2 & _ & E). simplify_eq.
    destruct Hi as [H1 H2 H3 H4]. split; [by eapply rtc_r|done|by intros ? [= <-]|]. unfold way_out in *. rewrite Hm in H4. simpl.
    destruct res as [e|]; [|done]. destruct H4 as (q & id & th & task & ? & ? & ?). exists q, id, th, task.
    split; [done|]. split; [by eapply rtc_r|done].
Qed.

(** ** A failed thread ends the server *)

(** The registered threads have tasks, and those but [failed] have not failed. *)
Definition threads_fine (failed : option Z) (T : Threads) : Prop :=
  ∀ id, id ∈ ts_THREADS T → ∃ th task, ts_objects T !! id = Some th ∧ m_task th = Some task ∧
    (Some id ≠ failed → Task_getException task = None).

Lemma checkThreads_fine ids T : threads_fine None T → (∀ i, i ∈ ids → i ∈ ts_THREADS T) → checkThreads ids T = Ok tt.
Proof.
  intros Hf. induction ids as [|i ids IH]; intros Hin; simpl; [done|].
  destruct (Hf i) as (th & task & Eo & Et & Ee); [by apply Hin; left|].
  unfold Thread_getException, thread_at. rewrite Eo. simpl. rewrite Et. simpl. rewrite Ee by done.
  apply IH. intros j Hj. apply Hin. by right.
Qed.

Lemma checkThreads_failed ids T id th task e : threads_fine (Some id) T → (∀ i, i ∈ ids → i ∈ ts_THREADS T) → id ∈ ids →
  ts_objects T !! id = Some th → m_task th = Some task → Task_getException task = Some e → checkThreads ids T = Throw e.
Proof.
  intros Hf Hin Hid Ho Ht He. induction ids as [|i ids IH]; [by apply elem_of_nil in Hid|]. simpl.
  destruct (decide (i = id)) as [->|Hne].
  - unfold Thread_getException, thread_at. rewrite Ho. simpl. rewrite Ht. simpl. by rewrite He.
  - destruct (Hf i) as (th' & task' & Eo & Et & Ee); [by apply Hin; left|].
    unfold Thread_getException, thread_at. rewrite Eo. simpl. rewrite Et. simpl. rewrite Ee by congruence.
    apply IH; [intros j Hj; apply Hin; by right|]. by apply elem_of_cons in Hid as [?|?].
Qed.

(** The main thread waits, no thread has failed, and the thread objects are alive. *)
Record serving (p : Process MQ TQ) (id : Z) : Prop := {
  sv_main : ps_main p = Polling;
  sv_notFinishing : Actor_isFinishing (ps_cli p) = false;
  sv_reactor : ps_reactorEnded p = false ∧ tr_reactorThread (fx_tcp (ps_fix p)) = Some id;
  sv_fine : threads_fine None (ps_threads p);
  sv_registered : id ∈ ts_THREADS (ps_threads p);
  sv_cli : ac_thread (ps_cli p) ∈ ts_THREADS (ps_threads p) ∧ ps_cliEnded p = false;
  sv_processor : ac_thread (ps_processor p) ∈ ts_THREADS (ps_threads p) ∧ ac_thread (ps_processor p) ≠ ac_thread (ps_cli p)
}.

(** The process after its reactor has failed with [e]. *)
Definition failed_task (e : exn) (th : Thread) : Thread :=
  mkThread (Task_execute (inr e) <$> m_task th) (m_name th) (m_started th) (m_joined th) (m_threadID th) (m_priority th).

Lemma end_thread_fails id e p th task : ts_objects (ps_threads p) !! id = Some th → m_task th = Some task →
  end_thread (inr e) id p = Ok (with_threads (set_thread id (failed_task e th) (ps_threads p)) p).
Proof.
  intros Eo Et. unfold end_thread, Thread_internalThreadFunction, thread_at. rewrite Eo. cbn [mbind outcome_bind].
  rewrite Et. cbn [mbind outcome_bind]. unfold failed_task. by rewrite Et.
Qed.

Lemma threads_fine_failed id th T : threads_fine None T → ts_objects T !! id = Some th →
  ∀ e, threads_fine (Some id) (set_thread id (failed_task e th) T).
Proof.
  intros Hf Eo e i Hi. destruct (Hf i Hi) as (th' & task & Ei & Et & Ee). simpl. destruct (decide (i = id)) as [->|Hne].
  - simplify_eq. exists (failed_task e th), (Task_execute (inr e) task). rewrite lookup_insert_eq. simpl. by rewrite Et.
  - exists th', task. rewrite lookup_insert_ne by done. split_and!; [done..|]. intros _. by apply Ee.
Qed.

(** A pass in which the reactor fails, and the main thread's next pass. *)
Lemma reactor_fails p id pl e : serving p id → pl_isStopping pl = false →
  reactorPoll COMPID (ServerFix_onFixMessage COMPID sm fuel addr junk_order) memory pl (fx_tcp (ps_fix p))
    (ps_kernel p) (fx_reactor (ps_fix p)) (ps_world p) (ps_server p) = Throw e →
  ∃ T p1, process_step p p1 ∧ p1 = mkProcess Polling (ps_fix p) (ps_kernel p) (ps_world p) (ps_server p) T (ps_processor p) (ps_cli p)
      (ps_input p) (ps_console p) true (ps_processorEnded p) (ps_cliEnded p) ∧
    ts_THREADS T = ts_THREADS (ps_threads p) ∧ (∀ i, i ∈ ts_THREADS T → ∃ th task, ts_objects T !! i = Some th ∧ m_task th = Some task) ∧
    process_step p1 (with_main (Destroying (Some e)) p1).
Proof.
  intros [Hm Hf [Hn Ht] Hfine Hreg _ _] Hpl Hthrow. destruct (Hfine id Hreg) as (th & task & Eo & Et & _).
  set (T := set_thread id (failed_task e th) (ps_threads p)).
  assert (threads_fine (Some id) T) as HfT by by apply threads_fine_failed.
  exists T. eexists. split; [|split; [reflexivity|split; [done|split]]].
  - eapply (step_reactor id pl); [by rewrite Hm|done|done|by rewrite Hm, Hpl|].
    unfold reactor_pass. rewrite Hpl, Hthrow, (end_thread_fails id e p th task Eo Et). simpl. by rewrite Hm.
  - intros i Hi. destruct (HfT i Hi) as (th' & task' & ? & ? & _). by exists th', task'.
  - apply step_poll; [done|]. unfold main_poll. cbn [ps_cli ps_threads]. rewrite Hf.
    rewrite (checkThreads_failed _ T id (failed_task e th) (Task_execute (inr e) task) e); try done.
    + apply lookup_insert_eq.
    + simpl. by rewrite Et.
Qed.

Lemma Actor_delete_alive a T : is_Some (ts_objects T !! ac_thread a) →
  ∃ T', Actor_delete a T = Ok T' ∧ ∀ i, i ≠ ac_thread a → ts_objects T' !! i = ts_objects T !! i.
Proof.
  intros [th E]. unfold Actor_delete, Actor_shutdown, Thread_join, thread_at. destruct a as [id fin]. simpl in *.
  destruct fin; simpl; [eexists; split; [done|]; intros i Hi; by apply lookup_delete_ne|].
  rewrite E. cbn [mbind outcome_bind]. destruct (Thread_isJoiningOk th); simpl;
    (eexists; split; [reflexivity|]); intros i Hi; simpl; rewrite lookup_delete_ne by done; [by rewrite lookup_insert_ne|done].
Qed.

Definition alive (p : Process MQ TQ) : Prop :=
  (∃ th task, ts_objects (ps_threads p) !! ac_thread (ps_cli p) = Some th ∧ m_task th = Some task) ∧
  is_Some (ts_objects (ps_threads p) !! ac_thread (ps_processor p)) ∧ ac_thread (ps_processor p) ≠ ac_thread (ps_cli p).

(** The command line reads on until [quit] while the main thread waits for it. *)
Lemma cli_reaches_quit result w rest text pre p : ps_main p = Destroying result → ps_cliEnded p = false → alive p →
  getAllOrderBookAsString sm iter (Some (sv_centralOrderBook (ps_server p))) = Ok text →
  Forall (λ x, ¬ is_quit x) pre → is_quit w → ps_input p = pre ++ w :: rest →
  ∃ p', rtc process_step p p' ∧ ps_main p' = Destroying result ∧ Actor_isFinishing (ps_cli p') = true ∧ alive p'.
Proof.
  intros Hm Hc Ha Ht Hpre Hw. revert p Hm Hc Ha Ht. induction Hpre as [|x pre Hx _ IH]; intros p Hm Hc Ha Ht Hi; simpl in Hi.
  - destruct Ha as ((th & task & Eo & Et) & Hp & Hne). eexists. split.
    { apply rtc_once, step_cli; [by rewrite Hm|done|]. unfold cli_pass. rewrite Hi, (round_quit sm iter) by done.
      unfold end_thread, Thread_internalThreadFunction, thread_at. rewrite Eo. cbn [mbind outcome_bind]. rewrite Et.
      reflexivity. }
    split; [done|]. split; [done|]. split; simpl; [|split; [|done]].
    + eexists _, _. rewrite lookup_insert_eq. by split.
    + by rewrite lookup_insert_ne.
  - set (p1 := mkProcess (ps_main p) (ps_fix p) (ps_kernel p) (ps_world p) (ps_server p) (ps_threads p) (ps_processor p)
      (ps_cli p) (pre ++ w :: rest) (ps_console p ++ answer (λ _, text) 0 x) (ps_reactorEnded p) (ps_processorEnded p) false).
    destruct (IH p1) as (p' & Hr & H'); [done..|]. exists p'. split; [|done]. eapply rtc_l; [|exact Hr].
    apply step_cli; [by rewrite Hm|done|]. unfold cli_pass.
    pose proof (round_other sm iter (λ _, text) 0 (λ _, Some (sv_centralOrderBook (ps_server p))) x (pre ++ w :: rest)
      (ps_cli p) (ps_console p) (λ _, Ht) Hx) as E. cbv beta in E. by rewrite Hi, E.
Qed.

Lemma exits_after_quit result w rest text pre p : ps_main p = Destroying result → ps_cliEnded p = false → alive p →
  getAllOrderBookAsString sm iter (Some (sv_centralOrderBook (ps_server p))) = Ok text →
  Forall (λ x, ¬ is_quit x) pre → is_quit w → ps_input p = pre ++ w :: rest →
  ∃ p', rtc process_step p p' ∧ ps_main p' = Exited result.
Proof.
  intros Hm Hc Ha Ht Hpre Hw Hi.
  destruct (cli_reaches_quit result w rest text pre p Hm Hc Ha Ht Hpre Hw Hi) as (q & Hr & Hq & Hf & (th & task & Eo & _) & Hp & Hne).
  destruct (Actor_delete_alive (ps_cli q) (ps_threads q)) as (T1 & E1 & H1); [by eexists|].
  destruct (Actor_delete_alive (ps_processor q) T1) as (T2 & E2 & _); [by rewrite H1|].
  eexists. split; [eapply rtc_r; [exact Hr|]|].
  - apply (step_destroy result); [done|by left|]. unfold main_destroy. rewrite E1. cbn [mbind outcome_bind]. rewrite E2. reflexivity.
  - done.
Qed.

(** *** What goes on while the main thread waits with a failure *)

(** Nothing has come in since [p]: the reactor's thread is gone, no call of its poll has
    been made, no order has got a number; without worker threads the books are as they
    were. *)
Record out_of_service (p p' : Process MQ TQ) : Prop := {
  os_reactor : ps_reactorEnded p' = true;
  os_kernel : ps_kernel p' = ps_kernel p;
  os_number : m_orderNumber (sv_centralOrderBook (ps_server p')) = m_orderNumber (sv_centralOrderBook (ps_server p));
  os_mode : m_isMatchingMultithreaded (sv_centralOrderBook (ps_server p')) =
    m_isMatchingMultithreaded (sv_centralOrderBook (ps_server p));
  os_books : m_isMatchingMultithreaded (sv_centralOrderBook (ps_server p)) = false →
    only_outgoing (sv_centralOrderBook (ps_server p)) (sv_centralOrderBook (ps_server p'))
}.

Lemma only_outgoing_refl (cob : CentralOrderBook MQ TQ) : only_outgoing cob cob.
Proof. exists (m_outgoingMessages cob). by destruct cob. Qed.

(** The exchange has neither changed its mode nor numbered an order. *)
Definition same_number (cob cob' : CentralOrderBook MQ TQ) : Prop :=
  m_orderNumber cob' = m_orderNumber cob ∧ m_isMatchingMultithreaded cob' = m_isMatchingMultithreaded cob.

Lemma only_outgoing_number (cob cob' : CentralOrderBook MQ TQ) : only_outgoing cob cob' → same_number cob cob'.
Proof. by intros [qs ->]. Qed.

Lemma queueID_number sec (cob : CentralOrderBook MQ TQ) : same_number cob (queueID_of sec cob).1.
Proof. unfold queueID_of. by destruct (map_index _ _ _). Qed.

Lemma same_number_trans c1 c2 c3 : same_number c1 c2 → same_number c2 c3 → same_number c1 c3.
Proof. intros [H1 H2] [H3 H4]. split; congruence. Qed.

Lemma workerRound_number f a i cob cob' b : ThreadPool_workerRound f a i cob = Ok (cob', b) → same_number cob cob'.
Proof.
  unfold ThreadPool_workerRound. intros R. apply bind_Ok_inv in R as (q & _ & R). apply bind_Ok_inv in R as ([q' x] & _ & R).
  set (c := CentralOrderBook.with_threadQueues _ cob) in R. assert (same_number cob c) as Hc by done.
  destruct x as [[o|o orig]|]; [| |by simplify_eq]; apply bind_Ok_inv in R as (c' & Ht & E); simplify_eq;
    eapply same_number_trans; [exact Hc| |exact Hc|].
  - unfold CentralOrderBook_taskNewOrder in Ht. pose proof (queueID_number (m_securityId o) c) as Hq.
    destruct (queueID_of _ c) as [c1 k]. destruct (map_index _ _ _) as [d book].
    apply bind_Ok_inv in Ht as ([[b' os] r] & _ & Ht). eapply same_number_trans; [exact Hq|].
    by apply push_processed_frame, only_outgoing_number in Ht.
  - unfold CentralOrderBook_taskCancelOrder in Ht. pose proof (queueID_number (m_securityId o) c) as Hq.
    destruct (queueID_of _ c) as [c1 k]. destruct (map_index _ _ _) as [d book]. eapply same_number_trans; [exact Hq|].
    destruct (OrderBook_find _ _ _ _) as [[y f']|].
    + apply bind_Ok_inv in Ht as (c2 & H1 & H2). apply push_outgoing_frame, only_outgoing_number in H1. by simplify_eq.
    + apply bind_Ok_inv in Ht as (text & _ & Ht). unfold CentralOrderBook_rejectOrder in Ht.
      pose proof (queueID_number (m_securityId o) (with_books d c1)) as Hq'. destruct (queueID_of _ (with_books d c1)) as [c2 k2].
      eapply same_number_trans; [exact Hq'|]. by apply push_outgoing_frame, only_outgoing_number in Ht.
Qed.

Lemma processQueues_frame k i (cob cob' : CentralOrderBook MQ TQ) o r w o' r' w' :
  processQueues COMPID nan_text sm k i cob o r w = Ok (cob', o', r', w') → only_outgoing cob cob'.
Proof.
  revert i cob o r w. induction k as [|k IH]; intros i cob o r w E; cbn [processQueues] in E; [simplify_eq; apply only_outgoing_refl|].
  apply bind_Ok_inv in E as (q & _ & E). apply bind_Ok_inv in E as ([q' x] & _ & E). apply bind_Ok_inv in E as ([[o1 r1] w1] & _ & E).
  eapply only_outgoing_trans; [|by eapply IH]. by eexists.
Qed.

Lemma processorRound_frame (cob cob' : CentralOrderBook MQ TQ) o r w o' r' w' :
  processorRound COMPID nan_text sm cob o r w = Ok (cob', o', r', w') → only_outgoing cob cob'.
Proof.
  unfold processorRound. destruct (op_hasMessageQueue o); intros E; [by eapply processQueues_frame|].
  simplify_eq. apply only_outgoing_refl.
Qed.

Lemma out_of_service_trans p q p' : out_of_service p q → ps_reactorEnded p' = ps_reactorEnded q → ps_kernel p' = ps_kernel q →
  same_number (sv_centralOrderBook (ps_server q)) (sv_centralOrderBook (ps_server p')) →
  (m_isMatchingMultithreaded (sv_centralOrderBook (ps_server q)) = false →
   only_outgoing (sv_centralOrderBook (ps_server q)) (sv_centralOrderBook (ps_server p'))) → out_of_service p p'.
Proof.
  intros [H1 H2 H3 H4 H5] E1 E2 [E3 E4] E5. split; try congruence. intros Hmt.
  eapply only_outgoing_trans; [by apply H5|]. apply E5. congruence.
Qed.

Lemma report_pass_service p q p' : out_of_service p q → report_pass q = Ok p' → out_of_service p p'.
Proof.
  unfold report_pass. intros Hs R. destruct (processorRound _ _ _ _ _ _ _) as [[[[cob o] r] w]|e|u|] eqn:E; [| |done..].
  - simplify_eq. apply processorRound_frame in E. eapply out_of_service_trans; [exact Hs|done..|by apply only_outgoing_number|done].
  - apply bind_Ok_inv in R as (y & Ey & R). unfold end_thread in Ey. apply bind_Ok_inv in Ey as (T & _ & Ey). simplify_eq.
    eapply out_of_service_trans; [exact Hs|done..|intros _; apply only_outgoing_refl].
Qed.

Lemma worker_pass_service i p q p' : out_of_service p q → m_isMatchingMultithreaded (sv_centralOrderBook (ps_server q)) = true →
  worker_pass i q = Ok p' → out_of_service p p'.
Proof.
  unfold worker_pass. intros Hs Hmt R. destruct (ThreadPool_workerRound _ _ _ _) as [[cob b]|e|u|] eqn:E; [| |done..].
  - simplify_eq. apply workerRound_number in E. eapply out_of_service_trans; [exact Hs|done..|congruence].
  - apply bind_Ok_inv in R as (qq & _ & R). apply bind_Ok_inv in R as ([q' x] & _ & R). simplify_eq.
    eapply out_of_service_trans; [exact Hs|done..|congruence].
Qed.

Lemma cli_pass_service p q p' : out_of_service p q → cli_pass q = Ok p' → out_of_service p p'.
Proof.
  unfold cli_pass. intros Hs R.
  assert (∀ z, ps_reactorEnded z = ps_reactorEnded q → ps_kernel z = ps_kernel q → ps_server z = ps_server q → out_of_service p z) as Hsame.
  { intros z E1 E2 E3. eapply out_of_service_trans; [exact Hs|done|done|by rewrite E3|intros _; rewrite E3; apply only_outgoing_refl]. }
  destruct (CommandLineInterface_round _ _ _ _ _ _) as [[[[input cli] console] b]|e|u|]; [| |done..].
  - destruct b; [|simplify_eq; by apply Hsame].
    apply bind_Ok_inv in R as (y & Ey & R). unfold end_thread in Ey. apply bind_Ok_inv in Ey as (T & _ & Ey). simplify_eq. by apply Hsame.
  - apply bind_Ok_inv in R as (y & Ey & R). unfold end_thread in Ey. apply bind_Ok_inv in Ey as (T & _ & Ey). simplify_eq. by apply Hsame.
Qed.

(** On the way out of a failure the process waits, has ended with it, or has crashed. *)
Definition failing (result : exn) (m : MainState) : Prop :=
  m = Destroying (Some result) ∨ m = Exited (Some result) ∨ ∃ u, m = Crashed u.

Lemma failing_step result p q q' : failing result (ps_main q) → out_of_service p q → process_step q q' →
  failing result (ps_main q') ∧ out_of_service p q'.
Proof.
  intros Hq Hos Hs.
  assert (∀ u, failing result (ps_main (with_main (Crashed u) q)) ∧ out_of_service p (with_main (Crashed u) q)) as Hcrash.
  { intros u. split; [by right; right; exists u|]. by destruct Hos. }
  destruct Hs as [id pl q q' He Hn Ht Hpl R|q q' He Hn R|i q q' He Hmt Hir R|q q' He Hn R|q q' Hx R|q q' Hx Hj R|res q q' Hx Hj R].
  - by rewrite (os_reactor _ _ Hos) in Hn.
  - destruct (report_pass q) eqn:E; simpl in R; subst; try done.
    destruct (report_pass_control _ _ E) as ((-> & _) & _). split; [done|by eapply report_pass_service].
  - destruct (worker_pass i q) eqn:E; simpl in R; subst; try done.
    destruct (worker_pass_control _ _ _ E) as ((-> & _) & _). split; [done|by eapply worker_pass_service].
  - destruct (cli_pass q) eqn:E; simpl in R; subst; try done.
    destruct (cli_pass_control _ _ E) as (-> & _). split; [done|by eapply cli_pass_service].
  - rewrite Hx in Hq. by destruct Hq as [?|[?|[? ?]]].
  - rewrite Hx in Hq. by destruct Hq as [?|[?|[? ?]]].
  - destruct (main_destroy res q) as [y|e|u|] eqn:E; simpl in R; try done; subst; [|apply Hcrash].
    unfold main_destroy in E. apply bind_Ok_inv in E as (T1 & _ & E). apply bind_Ok_inv in E as (T2 & _ & E). simplify_eq.
    rewrite Hx in Hq. split; [|by destruct Hos]. destruct Hq as [?|[?|[? ?]]]; simplify_eq. by right; left.
Qed.

Lemma failing_only result p p' : failing result (ps_main p) → ps_reactorEnded p = true → rtc process_step p p' →
  failing result (ps_main p') ∧ out_of_service p p'.
Proof.
  intros Hm He. revert p'. refine (rtc_ind_r _ p _ _).
  - split; [done|]. split; try done. intros _. apply only_outgoing_refl.
  - intros y z _ Hs [H1 H2]. by eapply failing_step.
Qed.

(** *** A crash *)

(** The next pass of a thread is undefined. *)
Inductive undefined_pass (u : ub) (q : Process MQ TQ) : Prop :=
  | up_reactor id pl : ps_reactorEnded q = false → tr_reactorThread (fx_tcp (ps_fix q)) = Some id →
      reactor_pass id pl q = Undef u → undefined_pass u q
  | up_reports : ps_processorEnded q = false → report_pass q = Undef u → undefined_pass u q
  | up_worker i : m_isMatchingMultithreaded (sv_centralOrderBook (ps_server q)) = true →
      0 <= i < Z.of_nat (length (CentralOrderBook.m_threadQueues (sv_centralOrderBook (ps_server q)))) →
      worker_pass i q = Undef u → undefined_pass u q
  | up_cli : ps_cliEnded q = false → cli_pass q = Undef u → undefined_pass u q
  | up_poll : ps_main q = Polling → main_poll q = Undef u → undefined_pass u q
  | up_join : ps_main q = Joining → main_join q = Undef u → undefined_pass u q
  | up_destroy result : ps_main q = Destroying result → main_destroy result q = Undef u → undefined_pass u q.

Lemma crash_step q p u : process_step q p → ps_main p = Crashed u →
  exited (ps_main q) = false ∧ p = with_main (Crashed u) q ∧ undefined_pass u q.
Proof.
  intros Hs Hu.
  destruct Hs as [id pl q p He Hn Ht Hpl R|q p He Hn R|i q p He Hmt Hir R|q p He Hn R|q p Hx R|q p Hx Hj R|res q p Hx Hj R].
  - destruct (reactor_pass id pl q) eqn:E; simpl in R; subst; try done.
    + destruct (reactor_pass_control _ _ _ _ E) as (Em & _). by rewrite <- Em, Hu in He.
    + simpl in Hu. simplify_eq. split_and!; [done|done|by eapply up_reactor].
  - destruct (report_pass q) eqn:E; simpl in R; subst; try done.
    + destruct (report_pass_control _ _ E) as ((Em & _) & _). by rewrite <- Em, Hu in He.
    + simpl in Hu. simplify_eq. split_and!; [done|done|by apply up_reports].
  - destruct (worker_pass i q) eqn:E; simpl in R; subst; try done.
    + destruct (worker_pass_control _ _ _ E) as ((Em & _) & _). by rewrite <- Em, Hu in He.
    + simpl in Hu. simplify_eq. split_and!; [done|done|by eapply up_worker].
  - destruct (cli_pass q) eqn:E; simpl in R; subst; try done.
    + destruct (cli_pass_control _ _ E) as (Em & _). by rewrite <- Em, Hu in He.
    + simpl in Hu. simplify_eq. split_and!; [done|done|by apply up_cli].
  - unfold result_of in R. destruct (main_poll q) eqn:E; try done; subst.
    + unfold main_poll in E. destruct (Actor_isFinishing _); [by simplify_eq|]. destruct (checkThreads _ _); simplify_eq/=; congruence.
    + simpl in Hu. simplify_eq. rewrite Hx. split_and!; [done|done|by apply up_poll].
  - destruct (main_join q) eqn:E; simpl in R; subst; try done.
    + unfold main_join in E. apply bind_Ok_inv in E as ([[f w] T] & _ & E). by simplify_eq.
    + simpl in Hu. simplify_eq. rewrite Hx. split_and!; [done|done|by apply up_join].
  - destruct (main_destroy res q) eqn:E; simpl in R; subst; try done.
    + unfold main_destroy in E. apply bind_Ok_inv in E as (T1 & _ & E). apply bind_Ok_inv in E as (T2 & _ & E). by simplify_eq.
    + simpl in Hu. simplify_eq. rewrite Hx. split_and!; [done|done|by eapply up_destroy].
Qed.
End process.

(** C27: How a FIX server ends once its main thread waits in [run] ([main] can end earlier,
    for a second instance or a bad configuration). Either it crashes: the very next pass of
    one of its threads was undefined. Or [main] ends, and then the operator has typed
    [quit], or the command line itself has failed: on the way out of a failure the
    destructor of the server still waits for the command line. Without a failure the exit
    code is 0 and the reactor has ended; with one it is 1, 2 or 4, by the kind of the
    exception, which a thread had thrown while the main thread had not been asked to
    finish. *)
Theorem process_exit {MQ TQ} `{!Fifo OutgoingMessage MQ} `{!Fifo MatchTask TQ} `{!Platform} `{!BodyOrder}
    (COMPID nan_text : str) (sm : SecurityManager) (fuel : nat) (addr : Z) (junk : Order) (memory : str)
    (iter : gmap Z OrderBook → list (Z * OrderBook)) (p0 p : Process MQ TQ)
    (Hstart : ps_main p0 = Polling ∧ Actor_isFinishing (ps_cli p0) = false)
    (Hreach : rtc (process_step COMPID nan_text sm fuel addr junk memory iter) p0 p) (Hexit : exited (ps_main p) = true) :
  let step := process_step COMPID nan_text sm fuel addr junk memory iter in
  (∃ u q, rtc step p0 q ∧ exited (ps_main q) = false ∧ p = with_main (Crashed u) q ∧
     undefined_pass COMPID nan_text sm fuel addr junk memory iter u q) ∨
  ∃ result, ps_main p = Exited result ∧
    ((∃ used, ps_input p0 = used ++ ps_input p ∧ Exists is_quit used) ∨
     Actor_isFinishing (ps_cli p) = false ∧ ps_cliEnded p = true) ∧
    match result with
    | None => exit_code result = 0 ∧ Actor_isFinishing (ps_cli p) = true ∧ ps_reactorEnded p = true
    | Some e => exit_code result ∈ [1; 2; 4] ∧
        ∃ q id th task, rtc step p0 q ∧ rtc step q p ∧ Actor_isFinishing (ps_cli q) = false ∧
          id ∈ ts_THREADS (ps_threads q) ∧ ts_objects (ps_threads q) !! id = Some th ∧ m_task th = Some task ∧
          Task_getException task = Some e
    end.
Proof.
  destruct Hstart as [Hm Hf]. destruct (ps_main p) as [| | |result|u] eqn:Hend; try done; [right|left].
  - exists result. split; [done|].
    assert (process_inv COMPID nan_text sm fuel addr junk memory iter p0 p) as [_ (used & Hi & Hq) Hx Hw].
    { clear Hend Hexit. revert p Hreach. refine (rtc_ind_r _ p0 _ _).
      - split; [done|exists []; split; [done|by rewrite Hf]|by rewrite Hm|unfold way_out; by rewrite Hm].
      - intros y z _ Hs IH. by eapply process_step_inv. }
    split.
    + destruct (Actor_isFinishing (ps_cli p)) eqn:Ef; [left; exists used; split; [done|by apply Hq]|].
      right. split; [done|]. by destruct (Hx _ Hend).
    + unfold way_out in Hw. rewrite Hend in Hw. destruct result as [e|]; [|done].
      split; [destruct e; apply (bool_decide_unpack _); vm_compute; exact I|]. destruct Hw as (q & id & th & task & ? & ? & _ & ?).
      by exists q, id, th, task.
  - apply rtc_inv_r in Hreach as [->|(q & Hq & Hs)]; [by rewrite Hm in Hend|].
    destruct (crash_step COMPID nan_text sm fuel addr junk memory iter q p u Hs Hend) as (He & Ep & Hu). by exists u, q.
Qed.

(** C28: An order for an unknown symbol ends the server. The input of a client that holds it
    makes the reactor's thread end with [std::out_of_range]; the next pass of the main
    thread throws that again and leaves [run] without a stop. In every state from then on
    the reactor's thread is gone, its poll is not called, no order gets a number and, when
    matching is not multithreaded, no book changes; the main thread waits for the command
    line, or has ended with exit code 4, or a thread that is still there has crashed the
    process. The end with exit code 4 comes when the operator types [quit]. *)
Theorem unknown_symbol_ends_server {MQ TQ} `{!Fifo OutgoingMessage MQ} `{!Fifo MatchTask TQ} `{!Platform} `{!BodyOrder}
    (COMPID nan_text : str) (sm : SecurityManager) (fuel : nat) (addr : Z) (junk : Order) (memory : str)
    (iter : gmap Z OrderBook → list (Z * OrderBook)) (p : Process MQ TQ) (id : Z) (pl : Poll) (events fd : Z)
    (more : list (Z * Z)) (buffer : list (Z * Z)) (i : nat) (s s1 : FixSession) (m : FixMessage) (symbol text : str)
    (pre rest : list str) (quit : str)
    (Hserving : serving p id)
    (Hpoll : pl_isStopping pl = false ∧ pl_ready pl = Some ((events, fd) :: more) ∧ input_event events = true)
    (Hlistener : m_epollEvents (tr_ioListener (fx_tcp (ps_fix p))) = Some buffer ∧
      0 < to_int (m_maxPollEvents (tr_ioListener (fx_tcp (ps_fix p)))))
    (Hevent : event_delivers (so_descriptor (tr_socket (fx_tcp (ps_fix p)))) (mkEvent fd true None (er_received (pl_results pl 0)))
      (fx_reactor (ps_fix p)) (ps_world p) i s s1 m)
    (Hsequence : in_sequence (fx_reactor (ps_fix p)) s1 m)
    (Htype : m_messageType m = NEW_ORDER ∨ m_messageType m = CANCEL)
    (Hsymbol : m_bodyTagValuePairs m !! FIX_TAG_SYMBOL = Some symbol)
    (Hunknown : SecurityManager_isSymbolSupported sm symbol = false)
    (Hbooks : getAllOrderBookAsString sm iter (Some (sv_centralOrderBook (ps_server p))) = Ok text)
    (Hquit : ps_input p = pre ++ quit :: rest ∧ Forall (λ x, ¬ is_quit x) pre ∧ is_quit quit) :
  let step := process_step COMPID nan_text sm fuel addr junk memory iter in
  ∃ p1 p2, step p p1 ∧ step p1 p2 ∧ ps_reactorEnded p2 = true ∧ ps_main p2 = Destroying (Some OutOfRange) ∧
    exit_code (Some OutOfRange) = 4 ∧
    (∀ p3, rtc step p2 p3 → failing OutOfRange (ps_main p3) ∧ out_of_service p p3) ∧
    ∃ p3, rtc step p2 p3 ∧ ps_main p3 = Exited (Some OutOfRange).
Proof.
  destruct Hpoll as (Hrun & Hready & Hin). destruct Hlistener as [Hbuf Hmax]. destruct Hquit as (Hi & Hpre & Hw).
  destruct (reactorPoll_first COMPID (ServerFix_onFixMessage COMPID sm fuel addr junk) memory pl (fx_tcp (ps_fix p)) (ps_kernel p)
    (fx_reactor (ps_fix p)) (ps_world p) (ps_server p) events fd more buffer) as (t' & n & _ & _ & Epoll); try done.
  { apply (ed_client _ _ _ _ _ _ _ _ Hevent). }
  rewrite Hin in Epoll.
  destruct (application_message_handled COMPID (ServerFix_onFixMessage COMPID sm fuel addr junk) _ memory _ _ _ (ps_server p) i
    s s1 m Hevent Hsequence) as (Hh & _).
  rewrite Hh, (unknown_symbol_throws COMPID sm fuel addr junk m i _ _ _ symbol Htype Hsymbol Hunknown) in Epoll.
  destruct (reactor_fails COMPID nan_text sm fuel addr junk memory iter p id pl OutOfRange Hserving Hrun Epoll)
    as (T & p1 & Hs1 & Ep1 & ET & Halive & Hs2).
  exists p1, (with_main (Destroying (Some OutOfRange)) p1). destruct Hserving as [_ _ _ _ _ [Hcli Hce] [Hpr Hne]].
  split; [done|]. split; [done|]. split; [by rewrite Ep1|]. split; [done|]. split; [done|]. split.
  - intros p3 Hr.
    destruct (failing_only COMPID nan_text sm fuel addr junk memory iter OutOfRange
      (with_main (Destroying (Some OutOfRange)) p1) p3) as [Hfail Hos]; [by left|by rewrite Ep1|done|].
    split; [done|]. rewrite Ep1 in Hos. by destruct Hos.
  - apply (exits_after_quit COMPID nan_text sm fuel addr junk memory iter (Some OutOfRange) quit rest text pre); try done.
    + by rewrite Ep1.
    + rewrite Ep1. split; [apply Halive; by rewrite ET|]. split; [|done].
      destruct (Halive (ac_thread (ps_processor p))) as (th & task & E & _); [by rewrite ET|]. by eexists.
    + by rewrite Ep1.
    + by rewrite Ep1.
Qed.

(** ** A server with one client *)

#[local] Existing Instance demo_Platform.
#[local] Existing Instance demo_BodyOrder.

Definition demo_server_configuration : ServerConfiguration :=
  mkServerConfiguration 64 (-1) 0 NORMAL ($"FIX") ($"NORMAL") [] [] false ThreadPoolArguments_new [$"AAA"; $"BBB"]
    (mkLoggerArguments 64 64 1 LEVEL_INFO false []) demo_fix_configuration.

(** The server object is made, its reactor and its command line are started. *)
Definition demo_started : outcome (FixServer * Kernel * Threads * Actor * Actor) :=
  '(T, processor, cli) ← ServerBase_threads (λ n, n) demo_pool (mkBaseResults 60 61 (Some 7001) 1 0) demo_server_configuration Threads_empty;
  '(f, k, T) ← FixServer_start demo_start_results demo_fix_server.1 demo_fix_server.2 T;
  T ← Thread_start 0 (Some 7002) (ac_thread cli) T;
  Ok (f, k, T, processor, cli).

Definition DemoProcess : Type := Process (RingBuffer OutgoingMessage) (RingBuffer MatchTask).

Definition demo_process (input : list str) : DemoProcess :=
  match demo_started with
  | Ok (f, k, T, processor, cli) =>
      mkProcess Polling (mkFixServer (fx_tcp f) demo_logged_reactor (fx_address f) (fx_port f) (fx_compId f)) k demo_connected.1.2
        demo_live_server T processor cli input [] false false false
  | _ => mkProcess (Crashed NullDeref) demo_fix_server.1 demo_fix_server.2 demo_connected.1.2 demo_live_server Threads_empty
           (mkActor 0 false) (mkActor 0 false) [] [] false false false
  end.

Definition demo_step : DemoProcess → DemoProcess → Prop :=
  process_step ($"EXECUTOR") ($"nan") demo_sm 1 4096 (demo_order 0 SELL 0 0) [] map_to_list.

(** The operator types [quit]; the server stops. *)
Definition demo_after (o : outcome DemoProcess) : DemoProcess := match o with Ok p => p | _ => demo_process [] end.
Definition demo_stop_poll : Poll := mkPoll true None (λ _, mkEventResults 0 0 0 (mkReceived (stream_recv []) [] 0)).
Definition demo_quit1 : DemoProcess := demo_after (cli_pass demo_sm map_to_list (demo_process [$"quit"])).
Definition demo_quit2 : DemoProcess := demo_after (main_poll demo_quit1).
Definition demo_quit3 : DemoProcess :=
  demo_after (reactor_pass ($"EXECUTOR") demo_sm 1 4096 (demo_order 0 SELL 0 0) [] 50 demo_stop_poll demo_quit2).
Definition demo_quit4 : DemoProcess := demo_after (main_join demo_quit3).
Definition demo_quit5 : DemoProcess := demo_after (main_destroy None demo_quit4).

Lemma demo_quits : rtc demo_step (demo_process [$"quit"]) demo_quit5.
Proof.
  apply (rtc_l _ _ demo_quit1); [apply step_cli; vm_compute; reflexivity|].
  apply (rtc_l _ _ demo_quit2); [apply step_poll; vm_compute; reflexivity|].
  apply (rtc_l _ _ demo_quit3); [apply (step_reactor _ _ _ _ _ _ _ _ 50 demo_stop_poll); vm_compute; reflexivity|].
  apply (rtc_l _ _ demo_quit4); [apply step_join; [vm_compute; reflexivity|left; vm_compute; reflexivity|vm_compute; reflexivity]|].
  apply rtc_once, (step_destroy _ _ _ _ _ _ _ _ None); [vm_compute; reflexivity|left; vm_compute; reflexivity|vm_compute; reflexivity].
Qed.

Lemma process_exit_witness :
  (∃ u q, rtc demo_step (demo_process [$"quit"]) q ∧ exited (ps_main q) = false ∧ demo_quit5 = with_main (Crashed u) q ∧
     undefined_pass ($"EXECUTOR") ($"nan") demo_sm 1 4096 (demo_order 0 SELL 0 0) [] map_to_list u q) ∨
  ∃ result, ps_main demo_quit5 = Exited result ∧
    ((∃ used, [$"quit"] = used ++ ps_input demo_quit5 ∧ Exists is_quit used) ∨
     Actor_isFinishing (ps_cli demo_quit5) = false ∧ ps_cliEnded demo_quit5 = true) ∧
    match result with
    | None => exit_code result = 0 ∧ Actor_isFinishing (ps_cli demo_quit5) = true ∧ ps_reactorEnded demo_quit5 = true
    | Some e => exit_code result ∈ [1; 2; 4] ∧
        ∃ q id th task, rtc demo_step (demo_process [$"quit"]) q ∧ rtc demo_step q demo_quit5 ∧
          Actor_isFinishing (ps_cli q) = false ∧ id ∈ ts_THREADS (ps_threads q) ∧ ts_objects (ps_threads q) !! id = Some th ∧
          m_task th = Some task ∧ Task_getException task = Some e
    end.
Proof.
  apply (process_exit ($"EXECUTOR") ($"nan") demo_sm 1 4096 (demo_order 0 SELL 0 0) [] map_to_list (demo_process [$"quit"]) demo_quit5);
    [split; vm_compute; reflexivity|exact demo_quits|vm_compute; reflexivity].
Defined.

(** The client of the reactor orders a symbol [ZZZ] that the exchange does not have. *)
Definition demo_ZZZ : FixMessage * FixSession := demo_received ($"ZZZ").
Definition demo_ZZZ_poll : Poll :=
  mkPoll false (Some [(1, 7)]) (λ _, mkEventResults 0 0 0 (ev_received (demo_input ($"ZZZ")))).

Lemma threads_fine_all T :
  forallb (λ id, match ts_objects T !! id with
                 | Some th => match m_task th with
                              | Some task => match Task_getException task with None => true | Some _ => false end
                              | None => false end
                 | None => false end) (ts_THREADS T) = true → threads_fine None T.
Proof.
  intros Hall id Hid. rewrite forallb_forall in Hall. specialize (Hall id (proj1 (list_elem_of_In _ _) Hid)).
  destruct (ts_objects T !! id) as [th|]; [|done]. destruct (m_task th) as [task|] eqn:Et; [|done]. exists th, task.
  by destruct (Task_getException task) eqn:Ee.
Qed.

Lemma demo_serving : serving (demo_process [$"quit"]) 50.
Proof.
  split; try (vm_compute; reflexivity); try (split; vm_compute; reflexivity).
  - apply threads_fine_all. vm_compute. reflexivity.
  - apply (bool_decide_unpack _). vm_compute. exact I.
  - split; [apply (bool_decide_unpack _); vm_compute; exact I|reflexivity].
  - split; apply (bool_decide_unpack _); vm_compute; exact I.
Qed.

Lemma unknown_symbol_ends_server_witness :
  ∃ p1 p2, demo_step (demo_process [$"quit"]) p1 ∧ demo_step p1 p2 ∧ ps_reactorEnded p2 = true ∧
    ps_main p2 = Destroying (Some OutOfRange) ∧
    exit_code (Some OutOfRange) = 4 ∧
    (∀ p3, rtc demo_step p2 p3 → failing OutOfRange (ps_main p3) ∧ out_of_service (demo_process [$"quit"]) p3) ∧
    ∃ p3, rtc demo_step p2 p3 ∧ ps_main p3 = Exited (Some OutOfRange).
Proof.
  eapply (unknown_symbol_ends_server ($"EXECUTOR") ($"nan") demo_sm 1 4096 (demo_order 0 SELL 0 0) [] map_to_list
    (demo_process [$"quit"]) 50 demo_ZZZ_poll 1 7 [] _ 0 demo_logged demo_ZZZ.2 demo_ZZZ.1 ($"ZZZ") [] [] [] ($"quit"));
    [apply demo_serving|split_and!; reflexivity|split; vm_compute; reflexivity| | |by left; vm_compute| | | |].
  - apply (demo_delivers ($"ZZZ") (Z.of_nat (length (demo_order_bytes ($"ZZZ"))))); vm_compute; reflexivity.
  - split; try (vm_compute; reflexivity). vm_compute. split; [discriminate|reflexivity].
  - vm_compute. reflexivity.
  - vm_compute. reflexivity.
  - vm_compute. reflexivity.
  - split; [reflexivity|]. split; [constructor|]. vm_compute. reflexivity.
Defined.
